(* ===== verification/_CoqProject ===== *)
-Q . S2P
Prelude.v
GoStd.v
Database.v
Message.v
Outbox.v
StorageMySQL.v
StorageMongo.v
Relay.v
Json.v
Routing.v
Wire.v
Transaction.v
TxCodec.v
TxMySQL.v
TxMySQLFacts.v
TxProtocol.v
Sender.v
SenderFacts.v
SenderMySQL.v
Lifecycle.v
TxMongo.v
TxMongoFacts.v
TxMongoProtocol.v
TxSpec.v
TxMongoSpec.v
Nsq.v
Backend.v
RocketMQ.v
Observation.v
Catalog.v
Delivery.v
NsqHandoff.v
NsqSubscriber.v
Protected.v
Signaling.v
Driver.v
DriverProducer.v
DriverConsumer.v
DriverProcess.v
DriverAttempts.v
DriverClient.v
DriverPool.v
DriverSettings.v
DriverPush.v
DriverLite.v
DriverRpc.v
DriverMeter.v
Bridges.v
NsqManaged.v
RocketHost.v
DriverDial.v
DriverCalls.v
FaultProxy.v
