(* ===== verification/Prelude.v ===== *)
(** * reliable-messaging: a verification development

    The Go library under src/ moves messages reliably between a host's database
    and a broker.  It has two halves, and this development follows them.

    ** The outbox half

    A host appends immutable intents to an outbox table in its own transaction;
    relays claim due records under a lease, publish them and settle the claim.

    - [Message.v] (src/message/message.go): the immutable intent, its validation
      and fingerprint.
    - [Outbox.v] (src/outbox): the store interface as a class [Store] with its
      laws [StoreLaws], proved from the interface alone: a claim settles at most
      once, older claims are void, no record is lost and only a Confirm publishes
      one; and the status snapshot.
    - [StorageMySQL.v], [StorageMongo.v] (src/storage/mysql, src/storage/mongo):
      Append, ClaimDue, Confirm, Retry, Quarantine and RequeueConfirmed over a table
      and a collection; each discharges [StoreLaws].
    - [Relay.v] (src/relay/relay.go, src/transport/publisher.go): one delivery, the
      scan loop with its goroutines as steps, deployments of many relays: what is
      published was confirmed by the broker.

    ** The transaction half

    A sender prepares half messages at the broker, lets the host commit its
    business together with evidence, and finalizes the messages as the evidence
    says; checkers answer the broker's questions from the same evidence.

    - [Transaction.v], [TxCodec.v] (src/transaction): plans, references, evidence,
      decisions, receipts, limits; the stored forms and keys, with round trips.
    - [TxMySQL.v], [TxMySQLFacts.v], [TxProtocol.v] (src/storage/transaction/mysql):
      the store's operations over four tables, the invariant, and the protocol of
      many processes as a step relation: decisions are final and unanimous, one
      execution of a request commits, an aborted one never does.
    - [TxMongo.v], [TxMongoFacts.v], [TxMongoProtocol.v]
      (src/storage/transaction/mongo): the same over documents, where other
      processes write between the statements of an operation (rely and guarantee).
    - [TxSpec.v], [TxMongoSpec.v]: the protocol as an abstract machine of requests
      and decisions, and both stores refine it.
    - [Sender.v], [SenderFacts.v], [SenderMySQL.v]
      (src/transport/rocketmq/transaction_sender.go, transaction_recovery_receipt.go
      and the checker of transaction_lifecycle.go): Execute, check-backs and
      recovery over the interface [PreparedStore] with its laws, and composed with
      the MySQL store.
    - [Lifecycle.v] (src/transport/rocketmq/transaction_lifecycle.go): start,
      admission, check workers and shutdown as a transition system.
    - [Backend.v] (transaction_backend.go, config.go): configurations and the
      classification of half messages.
    - [Observation.v] (src/internal/transactionobservation, the observation.go of
      both stores and observation.sql): snapshots equal reference counts.

    ** Wire formats, routing and ordinary transports

    - [Json.v]: encoding/json as the sources use it, with UTF-8 and escapes.
    - [Wire.v] (src/wire/legacy, src/wire/protected/budget.go): envelopes, failure
      records, checksums, the NSQ size budget.
    - [Routing.v] (src/transport/routing*.go): names of topics and groups, route
      validation, the resolver and the manifest.
    - [Nsq.v] (src/transport/nsq/subscription.go, publisher.go,
      managed_publisher.go): one delivery with backoff and failure handoff;
      admission and draining of publishes.
    - [NsqManaged.v] (src/transport/nsq/managed_publisher.go): the publisher that
      owns its producer: construction, Close and Interrupt; a Close that returned
      left nothing running, and from every state one can return.
    - [RocketMQ.v] (src/transport/rocketmq/subscriber.go, publisher.go): one
      delivery, the receive loops, publishing and shutdown.
    - [RocketHost.v] (subscriber.go, transaction_backend.go): registration and
      ownership of consumers, health and readiness, the channel of errors; who
      stops a client whose start failed.
    - [NsqHandoff.v] (src/transport/nsq/handoff_transport.go): Ready, Publish and
      Close of the failed handoff as a transition system: producers are stopped
      only when drained.
    - [NsqSubscriber.v] (src/transport/nsq/discovery.go, provisioner.go,
      subscriber.go): which nsqd nodes are found, preparing topics and channels,
      and what a registration starts and owns.
    - [Protected.v] (src/wire/protected/protected.go): sealing and opening of
      messages over the interface [Jose] of a JOSE library.
    - [Delivery.v] (src/delivery/mysql/outbox.go, schema.sql): the durable outbox
      with receipts: records in the order of their aggregate, confirmed only by
      the receipt of the receiver.
    - [Signaling.v] (src/signaling/redis): best-effort signals.
    - [Catalog.v] (src/catalog): loading, validation and queries of event
      contracts.
    - [Bridges.v] (src/wire/domain/envelope.go, src/storage/mysql/gorm.go, guard.go
      of the evidence store): envelopes of domain events and their time text; the
      transaction inside an ORM handle.

    ** The RocketMQ driver

    src/transport/rocketmq/internal/driver is a patched copy of the Apache client;
    the parts the transports run on are modelled like the rest.

    - [Driver.v] (message_id_codec.go, message_id.go, publishing_message.go,
      loadBalancer.go): message identifiers, message types, choice of queues.
    - [DriverProducer.v] (producer.go, transaction.go, producer_options.go): sending
      with retries, half messages, ends of transactions, recovery.
    - [DriverConsumer.v] (simple_consumer.go, receive_rate_limiter.go, message.go):
      receiving, acknowledging, rotation of topics.
    - [DriverProcess.v], [DriverAttempts.v] (process_queue.go, consumer_service.go,
      push_consumer.go): push consumers as a transition system of tasks and timers:
      the cache accounts, each attempt is consumed at most once.
    - [DriverClient.v] (client_manager.go, client.go): connections, telemetry
      sessions, routes, startup and stop.
    - [DriverPool.v] (simple_thread_pool.go): the executor of consume tasks: what
      it accepts runs once, its shutdown ends, and when it can jam.
    - [DriverSettings.v] (the *_options.go of all clients): settings behind one
      interface, sent to brokers and changed by their commands.
    - [DriverPush.v], [DriverLite.v] (push_consumer.go, lite_push_consumer.go):
      construction, start and stop, the count of receives a stop waits for and
      the receive it can miss; lite subscriptions refine an abstract set.
    - [DriverRpc.v] (client_manager.go, rpc_client.go, client.go, name_resolver.go):
      calls and idle connections, heartbeats and isolation, name resolution.
    - [DriverDial.v] (conn.go and the options of connections, clients, producers
      and consumers, with what the SDK passes): what a host configures reaches
      the connections, as far as the driver's environment variable lets it.
    - [DriverCalls.v] (message.go, producer.go, client.go): building messages,
      recall, asynchronous sends, the delay of a retry, signing.
    - [DriverMeter.v] (metric.go): the meter provider and its exporter.
    - [FaultProxy.v] (src/transport/rocketmq/internal/faultproxy): the relay of
      the acceptance runs: frames and documents are read as written, one arming
      makes at most one fault.

    ** How code is modelled

    This file holds notation, errors, results, tactics and generic lemmas;
    [GoStd.v] what the sources use of the Go standard library (UTF-8, decimal
    numbers, hexadecimal, base64, big-endian words, SHA-256); [Database.v] the
    monad of database programs.  Its state carries a step counter, and a world
    gives for every statement the clock, a fault that may strike before or after
    the statement was applied, and random octets: theorems hold for all worlds,
    so for every clock and every failure of a driver, also a commit that is
    reported as failed and took place.  A transaction runs on the data it found
    and is atomic, as row locks and snapshots make it; for Mongo's
    WithTransaction, which retries its callback, the model is the last attempt.

    Strings, byte slices and fixed arrays are sequences of octets.  Integers are
    [Z], with the wrap-around or the failure of the column written out where a
    counter can reach it (versions of records, fences); guard versions and the
    document counters of Mongo are assumed below 2^63.  Instants count storage
    units from Go's zero time, durations are nanoseconds unless a definition says
    otherwise.  Error texts are abbreviated where no code compares them.  Concurrency is a relation on states
    whose steps are the critical sections and channel operations of the source;
    actions between which no lock is held are steps of their own where another
    goroutine can see the difference (the check, the stamp and the count of a
    receive in [DriverProcess.v], the first check and the slot of a publish in
    [NsqHandoff.v]); loops of goroutines are steps that can be taken again.  Go maps are finite
    maps, and a loop over one takes its order as an argument where the order can
    be observed.

    Recursion is structural or on fuel.  The JSON scanner has twice the length of
    the text and two: [Json.json.parse_fuel_enough] shows that more never changes
    the answer, on any input.  [DriverProducer.producer.send1] has the number of
    allowed attempts, and the theorem about sends shows it always ends with the
    answer of an RPC or a named refusal; the scans of queues and the trimming of
    text have the length of their list or string, as have the relay's loops over
    octets.

    ** What is a parameter, and what is not modelled

    Parameters: database drivers and brokers (through worlds, oracles or labels),
    the host's handlers, failure callbacks and business transactions, BSON order
    ([StorageMongo.v]), the name checks of go-nsq, the product of floats in the
    NSQ jitter, the RPC and gRPC codes found in an error, and the order in which a
    database returns rows; JOSE and JSON web keys ([Protected.v]); URL parsing and
    HTTP answers ([NsqSubscriber.v]); the codec of signals; in the driver the
    functions of its utils and proto packages, body digests, HMAC, the retry delay
    and the dialling of gRPC; BSON documents in [FaultProxy.v]; the YAML decoder.
    Where a theorem relies on one of these its documented behaviour is a
    hypothesis.  SHA-256 is computed; that it has no collisions is
    never assumed: theorems about digests speak of the hashed octets.

    Not modelled: nil handles and nil receivers; the distinction of nil and empty
    slices and maps; float seconds of ages; panics of the backend; the nesting
    limit of encoding/json and a JSON member that is repeated and is an array;
    counts and claims that ClaimDue, ReconcileOnce and the maintenance return
    together with an error, which their callers drop; the time budget of contexts
    (a context is a flag or a deadline).

    Not modelled of the driver: hooks other than the count of receives and the
    meters, the names of trace attributes, the user agent, loggers, the parent
    trace context of a message, and settings commands that arrive in the middle
    of a send.

    Left out: the mocks, which are generated; the probes, the examples and the
    integration programs, which are programs of their own; the sockets, flags and
    telemetry stream of the fault proxy. *)

From stdpp Require Export base tactics option list strings gmap numbers pretty sorting relations.
From Stdlib Require Export ZArith Lia.

(** ** Notation

    Go compares strings, byte slices, fixed arrays and enumerations with [==];
    the model uses the boolean decision procedure of the type. *)

Declare Scope go_scope.
Delimit Scope go_scope with go.
Notation "a == b" := (bool_decide (a = b)) (at level 70, no associativity) : go_scope.
Notation "a != b" := (negb (bool_decide (a = b))) (at level 70, no associativity) : go_scope.
#[global] Open Scope go_scope.
#[global] Open Scope Z_scope.

(** A Go [string], [[]byte] or [[N]byte] is a sequence of octets; the octets
    are the [ascii] characters of a [string]. *)
Abbreviation bytes := string (only parsing).

(** ** Errors

    The sentinel errors that the packages compare with [errors.Is], the
    anonymous ones built by [errors.New] / [fmt.Errorf], and the errors of the
    code below the packages (database drivers, brokers, contexts). *)

Inductive error : Type :=
| ErrMsg (text : string)
| ErrConflict | ErrStaleClaim | ErrStaleRequeue
| ErrInvalidPlan | ErrRequestIdentity | ErrInputConflict
| ErrStaleExecution | ErrTransactionRequired | ErrBinding | ErrSchema
| ErrNotFound | ErrShutdownIncomplete | ErrMetadata | ErrProtection
| ErrNoRows            (* sql.ErrNoRows, mongo.ErrNoDocuments *)
| ErrDuplicateKey      (* MySQL 1062, Mongo duplicate key *)
| ErrContext           (* context.Canceled, context.DeadlineExceeded *)
| ErrDriver (code : Z) (* any other driver or broker error *)
| ErrWrap (text : string) (e : error)   (* fmt.Errorf with the %w verb *)
| ErrJoin (e1 e2 : error).              (* errors.Join *)

#[export] Instance error_eq_dec : EqDecision error.
Proof. solve_decision. Defined.

(** [errors.Is]: equality anywhere in the chain of wrapped errors. *)
Fixpoint errors_is (e target : error) : bool :=
  (e == target) ||
  match e with
  | ErrWrap _ e' => errors_is e' target
  | ErrJoin e1 e2 => errors_is e1 target || errors_is e2 target
  | _ => false
  end.

(** [errors.Join] of two possibly nil errors. *)
Definition errors_join (a b : option error) : option error :=
  match a, b with
  | None, e | e, None => e
  | Some x, Some y => Some (ErrJoin x y)
  end.

(** ** Results *)

Inductive result (A : Type) : Type :=
| Ok (a : A)
| Err (e : error).
Arguments Ok {A} a.
Arguments Err {A} e.

#[export] Instance result_eq_dec {A} `{EqDecision A} : EqDecision (result A).
Proof. unfold EqDecision, Decision. decide equality; apply (decide (_ = _)). Defined.

Definition rbind {A B} (r : result A) (k : A → result B) : result B :=
  match r with Ok a => k a | Err e => Err e end.

Definition is_Ok {A} (r : result A) : bool :=
  match r with Ok _ => true | Err _ => false end.

Declare Scope result_scope.
Delimit Scope result_scope with result.
Notation "'try' x <- r ; k" := (rbind r (λ x, k))
  (at level 10, x pattern, r at level 100, k at level 200) : result_scope.
Notation "'guard!' b 'else' e ; k" := (if b then k else Err e)
  (at level 10, b at level 100, e at level 100, k at level 200) : result_scope.
#[global] Open Scope result_scope.

Lemma rbind_Ok {A B} (r : result A) (k : A → result B) b :
  rbind r k = Ok b ↔ ∃ a, r = Ok a ∧ k a = Ok b.
Proof. destruct r; simpl; naive_solver. Qed.

Fixpoint rmap_list {A B} (f : A → result B) (l : list A) : result (list B) :=
  match l with
  | [] => Ok []
  | x :: l => try y <- f x; try ys <- rmap_list f l; Ok (y :: ys)
  end.

Lemma rmap_list_Ok {A B} (f : A → result B) l ys :
  rmap_list f l = Ok ys ↔ Forall2 (λ x y, f x = Ok y) l ys.
Proof.
  revert ys; induction l as [|x l IH]; intros ys; simpl.
  - split; [intros [= <-]; constructor | by inversion 1].
  - rewrite rbind_Ok; split.
    + intros (y & Hy & (zs & Hzs & [= <-])%rbind_Ok). constructor; [done|by apply IH].
    + inversion 1 as [|? y ? zs Hy Hzs]; subst.
      exists y; split; [done|]. apply rbind_Ok. exists zs. by rewrite IH.
Qed.

(** A loop that threads a value and stops at the first error. *)
Fixpoint rfold {A S} (f : S → A → result S) (l : list A) (s : S) : result S :=
  match l with
  | [] => Ok s
  | x :: l => try s <- f s x; rfold f l s
  end.

(** An invariant indexed by the elements already seen. *)
Lemma rfold_invariant {A S} (f : S → A → result S) (I : list A → S → Prop) l s s' :
  (∀ done x s s', I done s → f s x = Ok s' → I (done ++ [x]) s') →
  rfold f l s = Ok s' → ∀ done, I done s → I (done ++ l) s'.
Proof.
  intros Hf. revert s. induction l as [|x l IH]; intros s; simpl.
  - intros [= <-] d Hd. by rewrite app_nil_r.
  - intros (t&Ht&Hr)%rbind_Ok d Hd. rewrite cons_middle, app_assoc. eauto.
Qed.

Lemma Forall_incl {A} (P : A → Prop) (l k : list A) : k ⊆ l → Forall P l → Forall P k.
Proof. intros Hk. rewrite !Forall_forall. auto. Qed.

(** ** Reachability *)

(** A property kept by every step holds wherever the steps lead. *)
Lemma rtc_invariant {A} (R : relation A) (P : A → Prop) x y :
  (∀ a b, P a → R a b → P b) → rtc R x y → P x → P y.
Proof. intros Hstep. induction 1; eauto. Qed.

(** ** Tactics *)

(** Case analysis on the first conditional or match of the goal. *)
Ltac case_goal :=
  match goal with
  | |- context [if ?b then _ else _] => destruct b eqn:?
  | |- context [match ?x with _ => _ end] => destruct x eqn:?
  end.

(** The same on a hypothesis, closing the contradictory branches. *)
Ltac case_hyp H :=
  match type of H with
  | context [if ?b then _ else _] => destruct b eqn:?; simplify_eq/=
  | context [match ?x with _ => _ end] => destruct x eqn:?; simplify_eq/=
  end.

Ltac cases H := repeat (case_hyp H; try discriminate).

(** Turn boolean hypotheses and goals into propositions. *)
Ltac boolp :=
  repeat match goal with
  | H : _ && _ = true |- _ => apply andb_true_iff in H as [? ?]
  | H : _ || _ = false |- _ => apply orb_false_iff in H as [? ?]
  | H : negb _ = true |- _ => apply negb_true_iff in H
  | H : negb _ = false |- _ => apply negb_false_iff in H
  | H : bool_decide _ = true |- _ => apply bool_decide_eq_true in H
  | H : bool_decide _ = false |- _ => apply bool_decide_eq_false in H
  | H : (_ =? _)%Z = true |- _ => apply Z.eqb_eq in H
  | H : (_ =? _)%Z = false |- _ => apply Z.eqb_neq in H
  | H : (_ <? _)%Z = true |- _ => apply Z.ltb_lt in H
  | H : (_ <? _)%Z = false |- _ => apply Z.ltb_ge in H
  | H : (_ <=? _)%Z = true |- _ => apply Z.leb_le in H
  | H : (_ <=? _)%Z = false |- _ => apply Z.leb_gt in H
  | H : (_ >? _)%Z = true |- _ => rewrite Z.gtb_ltb in H
  | H : (_ >? _)%Z = false |- _ => rewrite Z.gtb_ltb in H
  | H : (_ >=? _)%Z = true |- _ => rewrite Z.geb_leb in H
  | H : (_ >=? _)%Z = false |- _ => rewrite Z.geb_leb in H
  end.

Create HintDb rm.

(** ** Lengths *)

(** [len(s)] of a Go string or byte slice. *)
Definition len (s : bytes) : Z := Z.of_nat (String.length s).
Definition llen {A} (l : list A) : Z := Z.of_nat (length l).

(** stdpp makes [String.append] opaque to [simpl]; these two equations drive it. *)
Lemma string_nil_app (t : string) : ""%string +:+ t = t.
Proof. reflexivity. Qed.

Lemma string_cons_app a (s t : string) : String a s +:+ t = String a (s +:+ t).
Proof. reflexivity. Qed.

Lemma string_length_app (s t : string) :
  String.length (s +:+ t) = (String.length s + String.length t)%nat.
Proof.
  induction s as [|a s IH]; [done|]. rewrite string_cons_app; simpl. by rewrite IH.
Qed.

Lemma len_app (s t : bytes) : len (s +:+ t) = len s + len t.
Proof. unfold len; rewrite string_length_app; lia. Qed.

Lemma len_nonneg (s : bytes) : 0 <= len s.
Proof. unfold len; lia. Qed.

Lemma len_zero (s : bytes) : len s = 0 ↔ s = ""%string.
Proof. destruct s; unfold len; simpl; split; try done; lia. Qed.

Lemma string_app_assoc (a b c : string) : (a +:+ b) +:+ c = a +:+ (b +:+ c).
Proof. induction a as [|x a IH]; [done|]. by rewrite !string_cons_app, IH. Qed.

Lemma string_app_nil_r (a : string) : a +:+ ""%string = a.
Proof. induction a as [|x a IH]; [done|]. by rewrite string_cons_app, IH. Qed.

(** Concatenations of equal-length heads split. *)
Lemma string_app_inj_len (a b c d : string) :
  String.length a = String.length c → a +:+ b = c +:+ d → a = c ∧ b = d.
Proof.
  revert c; induction a as [|x a IH]; intros [|y c]; simpl; try done.
  intros [= Hl]. rewrite !string_cons_app. intros [= -> He].
  destruct (IH c) as [-> ->]; auto.
Qed.

(** ** Ordered prefixes *)

#[export] Instance string_le_total : Total (λ a b, String.leb a b = true).
Proof.
  intros a b. destruct (String.leb_total a b) as [H|H]; [by left|by right].
Qed.

#[export] Instance string_le_trans : Transitive (λ a b, String.leb a b = true).
Proof.
  intros a b c. unfold String.leb. revert b c.
  induction a as [|x a IH]; intros [|y b] [|z c]; simpl; try done.
  unfold Ascii.compare.
  destruct (N.compare_spec (Ascii.N_of_ascii x) (Ascii.N_of_ascii y)) as [Hxy|Hxy|Hxy]; try done;
  destruct (N.compare_spec (Ascii.N_of_ascii y) (Ascii.N_of_ascii z)) as [Hyz|Hyz|Hyz]; try done;
  destruct (N.compare_spec (Ascii.N_of_ascii x) (Ascii.N_of_ascii z)) as [Hxz|Hxz|Hxz]; try done; try lia;
  apply IH.
Qed.

(** The first [n] of a sorted list: what is left out comes after all of a full prefix. *)
Lemma take_merge_sort {A} (R : relation A) `{!RelDecision R, !Total R, !Transitive R} n (l : list A) x :
  x ∈ l → x ∉ take n (merge_sort R l) →
  length (take n (merge_sort R l)) = n ∧ ∀ y, y ∈ take n (merge_sort R l) → R y x.
Proof.
  intros Hin Hout. rewrite <-(merge_sort_Permutation R) in Hin. set (m := merge_sort R l) in *.
  assert (Hsort : StronglySorted R m) by apply (StronglySorted_merge_sort R).
  rewrite <-(take_drop n m) in Hin, Hsort. apply elem_of_app in Hin as [?|Hdrop]; [done|]. split.
  - rewrite length_take. assert (length (drop n m) ≠ 0%nat) by
      (intros Hn%nil_length_inv; rewrite Hn in Hdrop; by apply not_elem_of_nil in Hdrop).
    rewrite length_drop in *. lia.
  - intros y Hy. by eapply (StronglySorted_app_1_elem_of R).
Qed.

Lemma elem_of_take_sorted {A} (R : relation A) `{!RelDecision R} n (l : list A) x :
  x ∈ take n (merge_sort R l) → x ∈ l.
Proof. intros H. rewrite <-(merge_sort_Permutation R). by eapply subseteq_take. Qed.

(** Altering a stored value is storing the altered value. *)
Lemma alter_stored `{Countable K} {A} (f : A → A) (m : gmap K A) (k : K) (v : A) :
  m !! k = Some v → alter f k m = <[k := f v]> m.
Proof.
  intros Hv. apply map_eq. intros j. rewrite lookup_alter, lookup_insert.
  by case_decide; simplify_eq; [rewrite Hv|].
Qed.
