(* ===== verification/GoStd.v ===== *)
(** * The parts of the Go standard library that the packages use

    [unicode/utf8], [encoding/binary], [encoding/hex], [crypto/sha256],
    [time.Parse] with the RFC 3339 layout and the string helpers, as executable
    functions on octet strings; then the facts about them that the components
    share, chiefly that length-prefixed framing is injective. *)

From S2P Require Import Prelude.
From Stdlib Require Import Ascii.

(** ** Octets *)

Definition byte_val (a : ascii) : Z := Z.of_N (N_of_ascii a).
Definition byte_of (z : Z) : ascii := ascii_of_N (Z.to_N (z mod 256)).

(** The string of one zero octet, ["\x00"] in the source. *)
Definition nul : string := String "000"%char ""%string.

(** The double quotation mark. *)
Definition dquote : string := String "034"%char ""%string.

Fixpoint octets (s : bytes) : list Z :=
  match s with
  | ""%string => []
  | String a s => byte_val a :: octets s
  end.

Fixpoint of_octets (l : list Z) : bytes :=
  match l with
  | [] => ""%string
  | z :: l => String (byte_of z) (of_octets l)
  end.

Lemma byte_val_range a : 0 <= byte_val a < 256.
Proof. unfold byte_val. pose proof (N_ascii_bounded a). lia. Qed.

Lemma byte_of_val a : byte_of (byte_val a) = a.
Proof.
  unfold byte_of. rewrite Z.mod_small by apply byte_val_range.
  unfold byte_val. rewrite N2Z.id. apply ascii_N_embedding.
Qed.

Lemma byte_val_of z : byte_val (byte_of z) = z mod 256.
Proof.
  unfold byte_val, byte_of. pose proof (Z.mod_pos_bound z 256 eq_refl).
  rewrite N_ascii_embedding; lia.
Qed.

Lemma octets_length s : length (octets s) = String.length s.
Proof. induction s; simpl; auto. Qed.

Lemma of_octets_length l : String.length (of_octets l) = length l.
Proof. induction l; simpl; auto. Qed.

Lemma octets_of_octets l :
  Forall (λ z, 0 <= z < 256) l → octets (of_octets l) = l.
Proof.
  induction 1 as [|z l Hz _ IH]; simpl; [done|].
  rewrite IH, byte_val_of. by rewrite Z.mod_small.
Qed.

Lemma of_octets_octets s : of_octets (octets s) = s.
Proof. induction s; simpl; [done|]. by rewrite byte_of_val, IHs. Qed.

Lemma octets_range s : Forall (λ z, 0 <= z < 256) (octets s).
Proof. induction s; simpl; constructor; auto using byte_val_range. Qed.

(** ** unicode/utf8 *)

Definition in_range (lo hi : Z) (a : ascii) : bool :=
  (lo <=? byte_val a) && (byte_val a <=? hi).
Definition utf8_cont : ascii → bool := in_range 128 191.

(** [utf8.ValidString]: the table of accepted leading octets and second-octet
    ranges of the package (no overlong forms, no surrogates, at most U+10FFFF). *)
Fixpoint utf8_valid (s : string) : bool :=
  match s with
  | ""%string => true
  | String a s1 =>
    if byte_val a <? 128 then utf8_valid s1
    else match s1 with
    | ""%string => false
    | String b s2 =>
      if in_range 194 223 a then utf8_cont b && utf8_valid s2
      else match s2 with
      | ""%string => false
      | String c s3 =>
        if in_range 224 239 a then
          in_range (if byte_val a =? 224 then 160 else 128)
                   (if byte_val a =? 237 then 159 else 191) b &&
          utf8_cont c && utf8_valid s3
        else match s3 with
        | ""%string => false
        | String d s4 =>
          in_range 240 244 a &&
          in_range (if byte_val a =? 240 then 144 else 128)
                   (if byte_val a =? 244 then 143 else 191) b &&
          utf8_cont c && utf8_cont d && utf8_valid s4
        end
      end
    end
  end.

(** [strings.ContainsRune(s, 0)]. *)
Fixpoint contains_nul (s : string) : bool :=
  match s with
  | ""%string => false
  | String a s => (byte_val a =? 0) || contains_nul s
  end.

(** ** encoding/binary: [binary.BigEndian.PutUint64] *)

Fixpoint be_octets (n : nat) (z : Z) : list Z :=
  match n with
  | O => []
  | S n => (z / 256 ^ Z.of_nat n) mod 256 :: be_octets n z
  end.

Definition put_uint64 (z : Z) : bytes := of_octets (be_octets 8 z).

Fixpoint be_value (acc : Z) (l : list Z) : Z :=
  match l with
  | [] => acc
  | b :: l => be_value (acc * 256 + b) l
  end.

Lemma be_octets_length n z : length (be_octets n z) = n.
Proof. induction n; simpl; auto. Qed.

Lemma be_octets_range n z : Forall (λ b, 0 <= b < 256) (be_octets n z).
Proof. induction n; simpl; constructor; [by apply Z.mod_pos_bound|done]. Qed.

Lemma be_value_octets n acc z :
  be_value acc (be_octets n z) = acc * 256 ^ Z.of_nat n + z mod 256 ^ Z.of_nat n.
Proof.
  revert acc; induction n as [|n IH]; intros acc; cbn [be_octets be_value].
  - change (256 ^ Z.of_nat 0) with 1. rewrite Z.mod_1_r. lia.
  - rewrite IH, Nat2Z.inj_succ, Z.pow_succ_r by lia.
    set (P := 256 ^ Z.of_nat n). assert (0 < P) by (apply Z.pow_pos_nonneg; lia).
    rewrite (Z.mul_comm 256 P), (Z.rem_mul_r z P 256) by lia. lia.
Qed.

Lemma put_uint64_length z : String.length (put_uint64 z) = 8%nat.
Proof. unfold put_uint64. by rewrite of_octets_length, be_octets_length. Qed.

Lemma put_uint64_inj x y :
  0 <= x < 2 ^ 64 → 0 <= y < 2 ^ 64 → put_uint64 x = put_uint64 y → x = y.
Proof.
  intros Hx Hy He. apply (f_equal octets) in He. unfold put_uint64 in He.
  rewrite !octets_of_octets in He by apply be_octets_range.
  apply (f_equal (be_value 0)) in He. rewrite !be_value_octets in He.
  rewrite !Z.mod_small in He; change (256 ^ Z.of_nat 8) with (2 ^ 64); lia.
Qed.

(** ** Length-prefixed framing

    Every digest of the packages is taken over fields written as an 8-octet
    big-endian length followed by the octets. *)

Definition frame (v : bytes) : bytes := put_uint64 (len v) +:+ v.

Fixpoint frames (vs : list bytes) : bytes :=
  match vs with
  | [] => ""%string
  | v :: vs => frame v +:+ frames vs
  end.

(** A Go value fits in memory, so its length fits in an [int]. *)
Definition addressable (v : bytes) : Prop := len v < 2 ^ 63.

Lemma frame_inj_app v w s t :
  addressable v → addressable w → frame v +:+ s = frame w +:+ t → v = w ∧ s = t.
Proof.
  unfold addressable, frame. intros Hv Hw He. rewrite !string_app_assoc in He.
  apply string_app_inj_len in He as [Hl He]; [|by rewrite !put_uint64_length].
  pose proof (len_nonneg v). pose proof (len_nonneg w).
  apply put_uint64_inj in Hl; [|lia|lia].
  apply string_app_inj_len in He; [done|]. unfold len in Hl; lia.
Qed.

(** Framing a sequence of fields is injective: no two distinct field lists
    share an encoding. *)
Lemma frames_inj vs ws :
  Forall addressable vs → Forall addressable ws → frames vs = frames ws → vs = ws.
Proof.
  intros Hv; revert ws; induction Hv as [|v vs Hv _ IH]; intros ws Hw; destruct Hw as [|w ws Hw Hws].
  - done.
  - intros He%(f_equal String.length). revert He. cbn [frames]. unfold frame.
    rewrite !string_length_app, put_uint64_length. simpl. lia.
  - intros He%(f_equal String.length). revert He. cbn [frames]. unfold frame.
    rewrite !string_length_app, put_uint64_length. simpl. lia.
  - cbn [frames]. intros [-> He]%frame_inj_app; auto. by rewrite (IH ws).
Qed.

(** ** crypto/sha256 *)

Module SHA256.

Definition mask : Z := 4294967295.
Definition add32 (a b : Z) : Z := Z.land (a + b) mask.
Definition rotr (n x : Z) : Z :=
  Z.lor (Z.shiftr x n) (Z.land (Z.shiftl x (32 - n)) mask).
Definition bsig0 x := Z.lxor (Z.lxor (rotr 2 x) (rotr 13 x)) (rotr 22 x).
Definition bsig1 x := Z.lxor (Z.lxor (rotr 6 x) (rotr 11 x)) (rotr 25 x).
Definition ssig0 x := Z.lxor (Z.lxor (rotr 7 x) (rotr 18 x)) (Z.shiftr x 3).
Definition ssig1 x := Z.lxor (Z.lxor (rotr 17 x) (rotr 19 x)) (Z.shiftr x 10).
Definition ch x y z := Z.lxor (Z.land x y) (Z.land (Z.lxor mask x) z).
Definition maj x y z := Z.lxor (Z.lxor (Z.land x y) (Z.land x z)) (Z.land y z).

Definition K : list Z :=
  [1116352408;1899447441;3049323471;3921009573;961987163;1508970993;2453635748;2870763221;
   3624381080;310598401;607225278;1426881987;1925078388;2162078206;2614888103;3248222580;
   3835390401;4022224774;264347078;604807628;770255983;1249150122;1555081692;1996064986;
   2554220882;2821834349;2952996808;3210313671;3336571891;3584528711;113926993;338241895;
   666307205;773529912;1294757372;1396182291;1695183700;1986661051;2177026350;2456956037;
   2730485921;2820302411;3259730800;3345764771;3516065817;3600352804;4094571909;275423344;
   430227734;506948616;659060556;883997877;958139571;1322822218;1537002063;1747873779;
   1955562222;2024104815;2227730452;2361852424;2428436474;2756734187;3204031479;3329325298].

Definition H0 : list Z :=
  [1779033703;3144134277;1013904242;2773480762;1359893119;2600822924;528734635;1541459225].

(** Message padding: 0x80, zeroes up to 56 mod 64, the bit length. *)
Definition pad (m : list Z) : list Z :=
  let n := Z.of_nat (length m) in
  m ++ [128] ++ repeat 0 (Z.to_nat ((55 - n) mod 64)) ++ be_octets 8 (8 * n).

Fixpoint words (l : list Z) : list Z :=
  match l with
  | a :: b :: c :: d :: l => (((a * 256 + b) * 256 + c) * 256 + d) :: words l
  | _ => []
  end.

(** The schedule is built newest word first: [w] holds W(t-1), W(t-2), ... *)
Fixpoint schedule (n : nat) (w : list Z) : list Z :=
  match n with
  | O => w
  | S n =>
    let g i := nth i w 0 in
    schedule n (add32 (add32 (ssig1 (g 1%nat)) (g 6%nat)) (add32 (ssig0 (g 14%nat)) (g 15%nat)) :: w)
  end.

Definition round (s : list Z) (kw : Z * Z) : list Z :=
  match s with
  | [a; b; c; d; e; f; g; h] =>
    let t1 := add32 (add32 h (bsig1 e)) (add32 (ch e f g) (add32 kw.1 kw.2)) in
    let t2 := add32 (bsig0 a) (maj a b c) in
    [add32 t1 t2; a; b; c; add32 d t1; e; f; g]
  | _ => s
  end.

Definition compress (h : list Z) (block : list Z) : list Z :=
  let w := rev (schedule 48 (rev (words block))) in
  zip_with add32 h (fold_left round (zip K w) h).

Fixpoint blocks (fuel : nat) (l : list Z) : list (list Z) :=
  match fuel with
  | O => []
  | S fuel => match l with [] => [] | _ => take 64 l :: blocks fuel (drop 64 l) end
  end.

Definition digest_octets (m : list Z) : list Z :=
  let p := pad m in
  concat (map (be_octets 4) (fold_left compress (blocks (length p) p) H0)).

Lemma round_length s kw : length s = 8%nat → length (round s kw) = 8%nat.
Proof. intros H. by do 9 (destruct s as [|? s]; try done). Qed.

Lemma rounds_length l s : length s = 8%nat → length (fold_left round l s) = 8%nat.
Proof. revert s; induction l; simpl; auto using round_length. Qed.

Lemma compress_length h b : length h = 8%nat → length (compress h b) = 8%nat.
Proof. intros H. unfold compress. rewrite length_zip_with, rounds_length; lia. Qed.

Lemma digest_length m : length (digest_octets m) = 32%nat.
Proof.
  unfold digest_octets. set (bs := blocks _ _).
  assert (Hl : length (fold_left compress bs H0) = 8%nat).
  { assert (Hi : length H0 = 8%nat) by done. revert Hi. generalize H0.
    induction bs; simpl; auto using compress_length. }
  revert Hl. generalize (fold_left compress bs H0). intros l Hl.
  by do 9 (destruct l as [|? l]; try done).
Qed.

End SHA256.

(** [sha256.Sum256]. *)
Definition sha256 (m : bytes) : bytes := of_octets (SHA256.digest_octets (octets m)).

(** Two given distinct inputs with one digest: what an identity claim excludes. *)
Definition collide (x y : bytes) : Prop := x ≠ y ∧ sha256 x = sha256 y.

Lemma sha256_length m : String.length (sha256 m) = 32%nat.
Proof. unfold sha256. by rewrite of_octets_length, SHA256.digest_length. Qed.

Lemma sha256_inj x y : sha256 x = sha256 y → x = y ∨ collide x y.
Proof. intros H. destruct (decide (x = y)); [by left|by right]. Qed.

(** ** encoding/hex *)

Definition hex_digit (n : Z) : ascii :=
  byte_of (if n <? 10 then 48 + n else 87 + n).

Fixpoint hex_encode (s : bytes) : string :=
  match s with
  | ""%string => ""%string
  | String a s => String (hex_digit (byte_val a / 16))
                    (String (hex_digit (byte_val a mod 16)) (hex_encode s))
  end.

Definition hex_value (a : ascii) : option Z :=
  let v := byte_val a in
  if (48 <=? v) && (v <=? 57) then Some (v - 48)
  else if (97 <=? v) && (v <=? 102) then Some (v - 87)
  else if (65 <=? v) && (v <=? 70) then Some (v - 55)
  else None.

(** [hex.DecodeString]; [None] is [InvalidByteError] or [ErrLength]. *)
Fixpoint hex_decode (s : string) : option bytes :=
  match s with
  | ""%string => Some ""%string
  | String a (String b s) =>
    x ← hex_value a; y ← hex_value b; r ← hex_decode s;
    Some (String (byte_of (16 * x + y)) r)
  | _ => None
  end.

Lemma hex_value_digit n : 0 <= n < 16 → hex_value (hex_digit n) = Some n.
Proof.
  intros Hn. set (f := λ n, bool_decide (hex_value (hex_digit n) = Some n)).
  assert (Hf : forallb f (seqZ 0 16) = true) by (vm_compute; reflexivity).
  rewrite forallb_forall in Hf. apply (bool_decide_unpack _), Is_true_true, Hf, list_elem_of_In, elem_of_seqZ. lia.
Qed.

Lemma hex_decode_encode s : hex_decode (hex_encode s) = Some s.
Proof.
  induction s as [|a s IH]; [done|]. cbn [hex_encode hex_decode].
  pose proof (byte_val_range a).
  rewrite !hex_value_digit by (try apply Z.mod_pos_bound; try split;
    try apply Z.div_pos; try apply Z.div_lt_upper_bound; lia).
  rewrite IH. simpl. rewrite <-Z.div_mod by lia. by rewrite byte_of_val.
Qed.

Lemma hex_encode_inj s t : hex_encode s = hex_encode t → s = t.
Proof. intros H%(f_equal hex_decode). rewrite !hex_decode_encode in H. by simplify_eq. Qed.

Lemma hex_encode_length s : String.length (hex_encode s) = (2 * String.length s)%nat.
Proof. induction s; simpl; lia. Qed.

(** ** time.Parse(time.RFC3339Nano, _)

    Only acceptance matters to the packages: the text is kept, not the instant.
    The layout is ["2006-01-02T15:04:05.999999999Z07:00"]; [time.parse] takes
    its chunks one after the other. *)

Module RFC3339.

Definition digit (a : ascii) : option Z :=
  let v := byte_val a in if (48 <=? v) && (v <=? 57) then Some (v - 48) else None.

(** [getnum]: two digits, or one when [fixed] is false. *)
Definition getnum (s : string) (fixed : bool) : option (Z * string) :=
  match s with
  | String a s1 =>
    x ← digit a;
    match s1 with
    | String b s2 =>
      match digit b with
      | Some y => Some (10 * x + y, s2)
      | None => if fixed then None else Some (x, s1)
      end
    | ""%string => if fixed then None else Some (x, s1)
    end
  | ""%string => None
  end.

Definition skip (c : ascii) (s : string) : option string :=
  match s with
  | String a s => if a == c then Some s else None
  | ""%string => None
  end.

Definition ranged (lo hi : Z) (r : option (Z * string)) : option (Z * string) :=
  p ← r; if (lo <=? p.1) && (p.1 <=? hi) then Some p else None.

Definition year (s : string) : option (Z * string) :=
  hi ← getnum s true; lo ← getnum hi.2 true; Some (100 * hi.1 + lo.1, lo.2).

Fixpoint skip_digits (s : string) : string :=
  match s with
  | String a s' => match digit a with Some _ => skip_digits s' | None => s end
  | ""%string => s
  end.

(** An optional fraction: a period or a comma followed by at least one digit. *)
Definition fraction (s : string) : string :=
  match s with
  | String p (String d _ as s1) =>
    if ((p == "."%char) || (p == ","%char)) && bool_decide (is_Some (digit d))
    then skip_digits s1 else s
  | _ => s
  end.

(** ["Z"], or a sign, two digits up to 24, a colon, two digits up to 60. *)
Definition zone (s : string) : option string :=
  match s with
  | String "Z" s => Some s
  | String sign s =>
    if (sign == "+"%char) || (sign == "-"%char) then
      h ← ranged 0 24 (getnum s true); s ← skip ":" h.2;
      m ← ranged 0 60 (getnum s true); Some m.2
    else None
  | ""%string => None
  end.

Definition leap (y : Z) : bool :=
  (y mod 4 =? 0) && (negb (y mod 100 =? 0) || (y mod 400 =? 0)).

Definition days_in (m y : Z) : Z :=
  if m =? 2 then (if leap y then 29 else 28)
  else if (m =? 4) || (m =? 6) || (m =? 9) || (m =? 11) then 30 else 31.

Definition parse (s : string) : option unit :=
  y ← year s; s ← skip "-" y.2;
  mo ← ranged 1 12 (getnum s true); s ← skip "-" mo.2;
  d ← getnum s true; s ← skip "T" d.2;
  h ← ranged 0 23 (getnum s false); s ← skip ":" h.2;
  mi ← ranged 0 59 (getnum s true); s ← skip ":" mi.2;
  se ← ranged 0 59 (getnum s true);
  rest ← zone (fraction se.2);
  if (rest == ""%string) && (1 <=? d.1) && (d.1 <=? days_in mo.1 y.1) then Some tt else None.

Definition accepts (s : string) : bool := bool_decide (parse s = Some tt).

End RFC3339.

Example rfc3339_examples :
  map RFC3339.accepts
    ["2026-09-22T00:00:00Z"; "2026-10-19T00:00:00.123456789+08:00"; "2024-02-29T5:04:05,1Z";
     "2023-02-29T00:00:00Z"; "2026-13-01T00:00:00Z"; "2026-01-01 00:00:00Z"; "2026-01-01T00:00:00";
     "2026-01-01T00:00:00+0800"; ""]%string
  = [true; true; true; false; false; false; false; false; false].
Proof. vm_compute. reflexivity. Qed.

(** ** strconv: [FormatUint] and [ParseUint] in base 10, 64 bits *)

Definition max_uint64 : Z := 18446744073709551615.

Fixpoint dec_digits (fuel : nat) (n : Z) (acc : string) : string :=
  let acc := String (byte_of (48 + n mod 10)) acc in
  match fuel with
  | O => acc
  | S fuel => if n <? 10 then acc else dec_digits fuel (n / 10) acc
  end.

(** A 64-bit value has at most twenty digits. *)
Definition FormatUint (n : Z) : string := dec_digits 19 n "".

Fixpoint dec_value (acc : Z) (s : string) : option Z :=
  match s with
  | ""%string => Some acc
  | String a s => d ← RFC3339.digit a; dec_value (10 * acc + d) s
  end.

Definition ParseUint (s : string) : option Z :=
  if s == ""%string then None
  else n ← dec_value 0 s; if n <=? max_uint64 then Some n else None.

Lemma digit_byte d : 0 <= d < 10 → RFC3339.digit (byte_of (48 + d)) = Some d.
Proof.
  intros Hn. set (f := λ d, bool_decide (RFC3339.digit (byte_of (48 + d)) = Some d)).
  assert (Hf : forallb f (seqZ 0 10) = true) by (vm_compute; reflexivity).
  rewrite forallb_forall in Hf. apply (bool_decide_unpack _), Is_true_true, Hf, list_elem_of_In, elem_of_seqZ. lia.
Qed.

Lemma dec_value_digits fuel n acc :
  0 <= n < 10 ^ Z.of_nat (S fuel) →
  dec_value 0 (dec_digits fuel n acc) = dec_value n acc.
Proof.
  revert n acc; induction fuel as [|fuel IH]; intros n acc Hn.
  - cbn -[Z.modulo RFC3339.digit]. rewrite Z.mod_small by lia.
    rewrite digit_byte by lia. done.
  - rewrite Nat2Z.inj_succ, Z.pow_succ_r in Hn by lia.
    pose proof (Z.div_mod n 10 ltac:(lia)). pose proof (Z.mod_pos_bound n 10 ltac:(lia)).
    assert (Hd : RFC3339.digit (byte_of (48 + n mod 10)) = Some (n mod 10)) by by apply digit_byte.
    cbn [dec_digits]. destruct (Z.ltb_spec n 10).
    + cbn [dec_value]. rewrite Hd. simpl. f_equal. lia.
    + rewrite IH; [|lia]. cbn [dec_value]. rewrite Hd. simpl. f_equal. lia.
Qed.

Lemma dec_digits_nonempty fuel n acc : dec_digits fuel n acc ≠ ""%string.
Proof.
  revert n acc; induction fuel; intros n acc; cbn [dec_digits]; [done|]. by destruct (n <? 10).
Qed.

Lemma ParseUint_FormatUint n :
  0 <= n <= max_uint64 → ParseUint (FormatUint n) = Some n.
Proof.
  intros Hn. unfold ParseUint, FormatUint. unfold max_uint64 in *.
  rewrite bool_decide_eq_false_2 by apply dec_digits_nonempty.
  rewrite dec_value_digits by (change (10 ^ Z.of_nat 20) with 100000000000000000000; lia).
  simpl. by rewrite (proj2 (Z.leb_le _ _)) by lia.
Qed.

Lemma dec_digits_len fuel n acc d :
  0 <= n < 10 ^ Z.of_nat d → (0 < d)%nat → len (dec_digits fuel n acc) <= Z.of_nat d + len acc.
Proof.
  revert n acc d. induction fuel as [|fuel IH]; intros n acc d Hn Hd; cbn [dec_digits].
  - unfold len; simpl; lia.
  - destruct (Z.ltb_spec n 10); [unfold len; simpl; lia|]. destruct d as [|[|d]]; [lia|simpl in Hn; lia|].
    rewrite Nat2Z.inj_succ, Z.pow_succ_r in Hn by lia.
    assert (Hq : 0 <= n / 10 < 10 ^ Z.of_nat (S d)) by (split; [apply Z.div_pos; lia|apply Z.div_lt_upper_bound; lia]).
    specialize (IH (n / 10) (String (byte_of (48 + n mod 10)) acc) (S d) Hq ltac:(lia)).
    unfold len in *. simpl String.length in IH. lia.
Qed.

(** A number below 10^d is written with at most d digits. *)
Lemma FormatUint_len n d : 0 <= n < 10 ^ Z.of_nat d → (0 < d)%nat → len (FormatUint n) <= Z.of_nat d.
Proof.
  intros Hn Hd. pose proof (dec_digits_len 19 n "" d Hn Hd) as H. unfold FormatUint.
  change (len ""%string) with 0 in H. lia.
Qed.

Lemma octets_app s t : octets (s +:+ t) = octets s ++ octets t.
Proof. induction s as [|a s IH]; [done|]. rewrite string_cons_app. simpl. by rewrite IH. Qed.

(** The shape of a numeral: digits, the first one nonzero except for zero. *)
Lemma dec_digits_shape fuel n acc :
  0 <= n < 10 ^ Z.of_nat (S fuel) →
  ∃ d t, 0 <= d < 10 ∧ dec_digits fuel n acc = String (byte_of (48 + d)) (t +:+ acc) ∧
    (d = 0 → n = 0 ∧ t = ""%string) ∧ Forall (λ z, 48 <= z <= 57) (octets t).
Proof.
  revert n acc; induction fuel as [|fuel IH]; intros n acc Hn.
  - exists n, ""%string. cbn -[Z.modulo]. rewrite Z.mod_small by lia. split; [lia|done].
  - rewrite Nat2Z.inj_succ, Z.pow_succ_r in Hn by lia.
    pose proof (Z.div_mod n 10 ltac:(lia)). pose proof (Z.mod_pos_bound n 10 ltac:(lia)).
    cbn [dec_digits]. destruct (Z.ltb_spec n 10).
    + exists (n mod 10), ""%string. rewrite Z.mod_small by lia. split; [lia|done].
    + destruct (IH (n / 10) (String (byte_of (48 + n mod 10)) acc)) as (d&t&Hd&->&Hz&Ht); [lia|].
      assert (Hq : 0 < n / 10) by (apply Z.div_str_pos; lia).
      exists d, (t +:+ String (byte_of (48 + n mod 10)) ""). split; [done|]. split.
      { by rewrite string_app_assoc, string_cons_app, string_nil_app. }
      split; [intros [? _]%Hz; lia|].
      rewrite octets_app. apply Forall_app. split; [done|]. constructor; [|constructor].
      rewrite byte_val_of, Z.mod_small; lia.
Qed.

Lemma FormatUint_shape n :
  0 <= n <= max_uint64 →
  ∃ d t, 0 <= d < 10 ∧ FormatUint n = String (byte_of (48 + d)) t ∧
    (d = 0 → t = ""%string) ∧ Forall (λ z, 48 <= z <= 57) (octets t).
Proof.
  intros Hn. unfold FormatUint. unfold max_uint64 in Hn.
  destruct (dec_digits_shape 19 n "") as (d&t&?&He&Hz&?).
  { change (10 ^ Z.of_nat 20) with 100000000000000000000. lia. }
  exists d, t. rewrite He, string_app_nil_r. split; [done|]. split; [done|]. split; [|done]. by intros [_ ?]%Hz.
Qed.

Lemma ParseUint_range s n : ParseUint s = Some n → n <= max_uint64.
Proof. unfold ParseUint. destruct (s == ""%string); [done|]. intros (m&_&H)%bind_Some. by case_match; boolp; simplify_eq. Qed.

(** [strings.HasPrefix], [strings.HasSuffix]. *)
Definition has_prefix (t s : string) : bool := String.prefix t s.
Definition has_suffix (t s : string) : bool :=
  (len t <=? len s) &&
  (String.substring (String.length s - String.length t) (String.length t) s == t).

(** The UTF-8 forms of [unicode.IsSpace]. *)
Definition spaces : list string :=
  map of_octets
    ([[9]; [10]; [11]; [12]; [13]; [32]; [194; 133]; [194; 160]; [225; 154; 128]] ++
     map (λ z, [226; 128; z]) (seqZ 128 11 ++ [168; 169; 175]) ++
     [[226; 129; 159]; [227; 128; 128]]).

(** [strings.TrimSpace(s) != s] *)
Definition trims (s : string) : bool :=
  existsb (λ t, has_prefix t s || has_suffix t s) spaces.

Example trims_examples :
  map trims ["abc"; " abc"; "abc "; "a c"; ""; "x" +:+ of_octets [227; 128; 128]]%string
  = [false; true; true; false; false; true].
Proof. vm_compute. reflexivity. Qed.
