(* ===== verification/Database.v ===== *)
(** * Effects: databases, clocks and randomness

    The storage packages are sequences of statements against a database whose
    answers the program does not control.  An execution is run against a
    [world] that fixes, for each statement in turn, the database clock, whether
    the driver reports a failure (and then whether the server had applied the
    write all the same), the next random octets and the rows other sessions
    hold locked.  A computation is a state-and-error function of the world, the
    number of answers consumed and the stored data. *)

From S2P Require Import Prelude.

Record tick : Type := mkTick {
  t_now : Z;                    (* database clock, in storage units *)
  t_fault : option error;       (* failure reported by the driver *)
  t_applied : bool;             (* ... although the server applied the write *)
  t_rand : bytes;               (* crypto/rand output *)
  t_locked : Z → bool           (* rows locked elsewhere (SKIP LOCKED) *)
}.

Definition world : Type := nat → tick.

Definition M (S A : Type) : Type := world → nat * S → result A * (nat * S).

#[export] Instance M_ret {S} : MRet (M S) := λ A a w st, (Ok a, st).
#[export] Instance M_bind {S} : MBind (M S) := λ A B k c w st,
  match c w st with
  | (Ok a, st') => k a w st'
  | (Err e, st') => (Err e, st')
  end.

Definition raise {S A} (e : error) : M S A := λ w st, (Err e, st).
Definition liftR {S A} (r : result A) : M S A := λ w st, (r, st).

(** [if cond { return err }] *)
Definition ensure {S} (b : bool) (e : error) : M S () := if b then mret () else raise e.

(** The outcome of a computation as a value ([err] handled by the caller). *)
Definition catch {S A} (c : M S A) : M S (result A) := λ w st,
  let '(r, st') := c w st in (Ok r, st').

(** One statement: the driver either reports a failure, or the answer of the
    server computed by [f] from the tick and the data. *)
Definition stmt {S A} (f : tick → S → result (A * S)) : M S A := λ w '(n, s),
  let t := w n in
  match t_fault t with
  | Some e => (Err e, (Datatypes.S n,
      match f t s with Ok (_, s') => if t_applied t then s' else s | Err _ => s end))
  | None =>
    match f t s with
    | Ok (a, s') => (Ok a, (Datatypes.S n, s'))
    | Err e => (Err e, (Datatypes.S n, s))
    end
  end.

Definition query {S A} (f : tick → S → result A) : M S A :=
  stmt (λ t s, try a <- f t s; Ok (a, s)).

(** [crypto/rand.Read] of one token. *)
Definition rand_read {S} : M S bytes := query (λ t _, Ok (t_rand t)).

(** [BeginTx ... defer Rollback ... Commit]: an error of the body discards its
    writes; an error of the commit leaves either the old or the new data. *)
Definition in_tx {S A} (body : M S A) : M S A := λ w '(n, s),
  match t_fault (w n) with
  | Some e => (Err e, (Datatypes.S n, s))
  | None =>
    match body w (Datatypes.S n, s) with
    | (Err e, (n', _)) => (Err e, (n', s))
    | (Ok a, (n', s')) =>
      match t_fault (w n') with
      | Some e => (Err e, (Datatypes.S n', if t_applied (w n') then s' else s))
      | None => (Ok a, (Datatypes.S n', s'))
      end
    end
  end.

(** A transaction that is committed on [Some] and rolled back on [None]; the
    failure of that rollback is reported or, as after a bare return, ignored. *)
Definition in_tx_opt {S A} (report : bool) (body : M S (option A)) : M S (option A) := λ w '(n, s),
  match t_fault (w n) with
  | Some e => (Err e, (Datatypes.S n, s))
  | None =>
    match body w (Datatypes.S n, s) with
    | (Err e, (n', _)) => (Err e, (n', s))
    | (Ok (Some a), (n', s')) =>
      match t_fault (w n') with
      | Some e => (Err e, (Datatypes.S n', if t_applied (w n') then s' else s))
      | None => (Ok (Some a), (Datatypes.S n', s'))
      end
    | (Ok None, (n', _)) =>
      match t_fault (w n') with
      | Some e => (if report then Err e else Ok None, (Datatypes.S n', s))
      | None => (Ok None, (Datatypes.S n', s))
      end
    end
  end.

(** A transaction that is only ever rolled back: a consistent read. *)
Definition in_read_tx {S A} (body : M S A) : M S A := λ w '(n, s),
  match t_fault (w n) with
  | Some e => (Err e, (Datatypes.S n, s))
  | None => let '(r, (n', _)) := body w (Datatypes.S n, s) in (r, (n', s))
  end.

(** A loop over a list that collects its results, stopping at the first error. *)
Fixpoint for_each {S A B} (f : A → M S B) (l : list A) : M S (list B) :=
  match l with
  | [] => mret []
  | x :: l => y ← f x; ys ← for_each f l; mret (y :: ys)
  end.

(** ** Reasoning

    [post c P]: whatever the world answers, from a state satisfying the
    precondition the computation ends with [P] holding of the result and the
    final data. *)

Definition post {S A} (c : M S A) (s : S) (P : result A → S → Prop) : Prop :=
  ∀ w n, P (c w (n, s)).1 (c w (n, s)).2.2.

Section post.
Context {S : Type}.
Implicit Types s : S.

Lemma post_mono {A} (c : M S A) s (P Q : result A → S → Prop) :
  post c s P → (∀ r s', P r s' → Q r s') → post c s Q.
Proof. unfold post; auto. Qed.

Lemma post_run {A} (c : M S A) s (P : result A → S → Prop) w n r n' s' :
  c w (n, s) = (r, (n', s')) → post c s P → P r s'.
Proof. intros E HP. specialize (HP w n). by rewrite E in HP. Qed.

Lemma post_ret {A} (a : A) s (P : result A → S → Prop) : P (Ok a) s → post (mret a) s P.
Proof. intros H w n. exact H. Qed.

Lemma post_raise {A} e s (P : result A → S → Prop) : P (Err e) s → post (raise e) s P.
Proof. intros H w n. exact H. Qed.

Lemma post_liftR {A} r s (P : result A → S → Prop) : P r s → post (liftR r) s P.
Proof. intros H w n. exact H. Qed.

Lemma post_bind {A B} (c : M S A) (k : A → M S B) s (P : result B → S → Prop) :
  post c s (λ r s', match r with Ok a => post (k a) s' P | Err e => P (Err e) s' end) →
  post (c ≫= k) s P.
Proof.
  intros H w n. specialize (H w n). unfold mbind, M_bind.
  destruct (c w (n, s)) as [[a|e] [n' s']]; simpl in *; [apply H|done].
Qed.

Lemma post_ensure b e s (P : result () → S → Prop) :
  (b = true → P (Ok ()) s) → (b = false → P (Err e) s) → post (ensure b e) s P.
Proof. intros H1 H2 w n. destruct b; simpl; auto. Qed.

Lemma post_catch {A} (c : M S A) s (P : result (result A) → S → Prop) :
  post c s (λ r s', P (Ok r) s') → post (catch c) s P.
Proof.
  intros H w n. specialize (H w n). unfold catch. by destruct (c w (n, s)) as [r [n' s']].
Qed.

(** A statement that fails may still have been applied. *)
Lemma post_stmt {A} (f : tick → S → result (A * S)) s (P : result A → S → Prop) :
  (∀ t a s', f t s = Ok (a, s') → P (Ok a) s' ∧ ∀ e, P (Err e) s') →
  (∀ e, P (Err e) s) → post (stmt f) s P.
Proof.
  intros Hok Herr w n. unfold stmt. destruct (t_fault (w n)); simpl.
  - destruct (f (w n) s) as [[a s']|] eqn:E; simpl; auto. destruct (t_applied _); auto.
    by apply (Hok _ _ _ E).
  - destruct (f (w n) s) as [[a s']|] eqn:E; simpl; auto. by apply (Hok _ _ _ E).
Qed.

Lemma post_query {A} (f : tick → S → result A) s (P : result A → S → Prop) :
  (∀ t a, f t s = Ok a → P (Ok a) s) → (∀ e, P (Err e) s) → post (query f) s P.
Proof.
  intros Hok Herr. apply post_stmt; [|done]. intros t a s' (b&Hb&[= <- <-])%rbind_Ok. eauto.
Qed.

Lemma post_in_tx {A} (c : M S A) s (P : result A → S → Prop) :
  post c s (λ r s', match r with
                    | Ok a => P (Ok a) s' ∧ ∀ e, P (Err e) s'
                    | Err e => True end) →
  (∀ e, P (Err e) s) → post (in_tx c) s P.
Proof.
  intros H Herr w n. unfold in_tx. destruct (t_fault (w n)); simpl; [done|].
  specialize (H w (Datatypes.S n)).
  destruct (c w (Datatypes.S n, s)) as [[a|e] [n' s']]; simpl in *; [|done].
  destruct (t_fault (w n')); simpl; [destruct (t_applied _)|]; naive_solver.
Qed.

Lemma post_in_read_tx {A} (c : M S A) s (P : result A → S → Prop) :
  post c s (λ r _, P r s) → (∀ e, P (Err e) s) → post (in_read_tx c) s P.
Proof.
  intros H Herr w n. unfold in_read_tx. destruct (t_fault (w n)); simpl; [done|].
  specialize (H w (Datatypes.S n)). by destruct (c w (Datatypes.S n, s)) as [r [n' s']].
Qed.

(** A loop keeps an invariant that every iteration keeps. *)
Lemma post_for_each {A B} (f : A → M S B) l (I : S → Prop) s :
  (∀ x s', I s' → post (f x) s' (λ _, I)) → I s → post (for_each f l) s (λ _, I).
Proof.
  intros Hf. revert s; induction l as [|x l IH]; intros s Hs; simpl; [by apply post_ret|].
  apply post_bind. eapply post_mono; [by apply Hf|]. intros [y|e] s' Hs'; [|done].
  apply post_bind. eapply post_mono; [by apply IH|]. intros [ys|e] s'' Hs''; [|done].
  by apply post_ret.
Qed.
End post.

(** A failing transactional operation whose commit was not ambiguous leaves the
    data as it was. *)
Definition quiet (w : world) : Prop := ∀ n, t_fault (w n) = None.
Definition never_applied (w : world) : Prop := ∀ n, t_applied (w n) = false.

Lemma in_tx_error_unchanged {S A} (c : M S A) w n (s : S) e n' s' :
  never_applied w → in_tx c w (n, s) = (Err e, (n', s')) → s' = s.
Proof.
  intros Hw. unfold in_tx. destruct (t_fault (w n)); [by intros [= _ _ <-]|].
  destruct (c w (Datatypes.S n, s)) as [[a|e'] [m t]]; [|by intros [= _ _ <-]].
  destruct (t_fault (w m)); [rewrite Hw|done]. by intros [= _ _ <-].
Qed.

(** ** Successful runs, step by step *)

Lemma stmt_Ok {S A} (f : tick → S → result (A * S)) w n s a n' s' :
  stmt f w (n, s) = (Ok a, (n', s')) → f (w n) s = Ok (a, s') ∧ n' = Datatypes.S n.
Proof. unfold stmt. destruct (t_fault (w n)); [done|]. destruct (f (w n) s) as [[]|]; naive_solver. Qed.

Lemma bind_run {S A B} (c : M S A) (k : A → M S B) w st b st' :
  (c ≫= k) w st = (Ok b, st') → ∃ a st1, c w st = (Ok a, st1) ∧ k a w st1 = (Ok b, st').
Proof. unfold mbind, M_bind. destruct (c w st) as [[a|e] st1]; [eauto|done]. Qed.

(** A transaction leaves the data as they were, or as a successful body left them. *)
Lemma in_tx_run {S A} (body : M S A) w n (s : S) r n' s' :
  in_tx body w (n, s) = (r, (n', s')) →
  (s' = s ∧ ∀ a, r ≠ Ok a) ∨
  ∃ a n1, body w (Datatypes.S n, s) = (Ok a, (n1, s')) ∧ ∀ b, r = Ok b → b = a.
Proof.
  unfold in_tx. destruct (t_fault (w n)); [intros [= <- _ <-]; by left|].
  destruct (body w (Datatypes.S n, s)) as [[a|e] [m t]] eqn:E; [|intros [= <- _ <-]; by left].
  destruct (t_fault (w m)); [destruct (t_applied (w m))|]; intros [= <- _ <-].
  - right. by exists a, m.
  - by left.
  - right. exists a, m. split; [done|]. by intros b [= ->].
Qed.

Lemma in_tx_opt_run {S A} report (body : M S (option A)) w n (s : S) r n' s' :
  in_tx_opt report body w (n, s) = (r, (n', s')) →
  (s' = s ∧ ∀ a, r ≠ Ok (Some a)) ∨
  ∃ a n1, body w (Datatypes.S n, s) = (Ok (Some a), (n1, s')) ∧ ∀ b, r = Ok b → b = Some a.
Proof.
  unfold in_tx_opt. destruct (t_fault (w n)); [intros [= <- _ <-]; by left|].
  destruct (body w (Datatypes.S n, s)) as [[[a|]|e] [m t]] eqn:E; [| |intros [= <- _ <-]; by left].
  - destruct (t_fault (w m)); [destruct (t_applied (w m))|]; intros [= <- _ <-].
    + right. by exists a, m.
    + by left.
    + right. exists a, m. split; [done|]. by intros b [= ->].
  - destruct (t_fault (w m)), report; intros [= <- _ <-]; left; by split.
Qed.

(** ** Computations that write nothing *)

Definition reads {S A} (c : M S A) : Prop := ∀ w n s, (c w (n, s)).2.2 = s.

Section reads.
Context {S : Type}.

Lemma reads_ret {A} (a : A) : reads (S:=S) (mret a).
Proof. done. Qed.
Lemma reads_raise {A} e : reads (S:=S) (raise (A:=A) e).
Proof. done. Qed.
Lemma reads_liftR {A} (r : result A) : reads (S:=S) (liftR r).
Proof. done. Qed.
Lemma reads_ensure b e : reads (S:=S) (ensure b e).
Proof. by destruct b. Qed.
Lemma reads_query {A} (f : tick → S → result A) : reads (query f).
Proof.
  intros w n s. unfold query, stmt. destruct (f (w n) s); simpl; destruct (t_fault (w n)); simpl; try done.
  by destruct (t_applied _).
Qed.
Lemma reads_catch {A} (c : M S A) : reads c → reads (catch c).
Proof. intros Hc w n s. specialize (Hc w n s). unfold catch. by destruct (c w (n, s)) as [r [n' s']]. Qed.
Lemma reads_bind {A B} (c : M S A) (k : A → M S B) : reads c → (∀ a, reads (k a)) → reads (c ≫= k).
Proof.
  intros Hc Hk w n s. specialize (Hc w n s). unfold mbind, M_bind.
  destruct (c w (n, s)) as [[a|e] [n' s']]; simpl in *; subst; [apply Hk|done].
Qed.
Lemma reads_for_each {A B} (f : A → M S B) l : (∀ x, reads (f x)) → reads (for_each f l).
Proof.
  intros Hf. induction l as [|x l IH]; [apply reads_ret|]. simpl.
  apply reads_bind; [done|]. intros y. apply reads_bind; [done|]. intros ys. apply reads_ret.
Qed.
Lemma reads_in_read_tx {A} (c : M S A) : reads (in_read_tx c).
Proof.
  intros w n s. unfold in_read_tx. destruct (t_fault (w n)); [done|].
  by destruct (c w (Datatypes.S n, s)) as [r [n' s']].
Qed.
Lemma reads_run {A} (c : M S A) w n s r n' s' : reads c → c w (n, s) = (r, (n', s')) → s' = s.
Proof. intros Hc E. specialize (Hc w n s). by rewrite E in Hc. Qed.
End reads.

#[export] Hint Resolve reads_ret reads_raise reads_liftR reads_ensure reads_query reads_catch
  reads_bind reads_for_each reads_in_read_tx : reads.

(** ** Guarantees

    [guarantees R c]: whatever [c] answers, it leaves data related by [R] to those
    it found. *)

Definition guarantees {S A} (R : relation S) (c : M S A) : Prop := ∀ s, post c s (λ _, R s).

Section guarantees.
Context {S : Type} (R : relation S) `{!PreOrder R}.

Lemma guar_reads {A} (c : M S A) : reads c → guarantees R c.
Proof. intros Hc s w n. rewrite Hc. reflexivity. Qed.
Lemma guar_bind {A B} (c : M S A) (k : A → M S B) :
  guarantees R c → (∀ a, guarantees R (k a)) → guarantees R (c ≫= k).
Proof.
  intros Hc Hk s. apply post_bind. eapply post_mono; [apply Hc|]. intros [a|e] s' Hs; [|done].
  eapply post_mono; [apply Hk|]. intros r t Ht. by transitivity s'.
Qed.
Lemma guar_catch {A} (c : M S A) : guarantees R c → guarantees R (catch c).
Proof. intros Hc s. apply post_catch, Hc. Qed.
Lemma guar_in_tx {A} (c : M S A) : guarantees R c → guarantees R (in_tx c).
Proof.
  intros Hc s. apply post_in_tx; [|intros e; reflexivity]. eapply post_mono; [apply Hc|].
  by intros [a|e] s' Hs.
Qed.
Lemma guar_for_each {A B} (f : A → M S B) l : (∀ x, guarantees R (f x)) → guarantees R (for_each f l).
Proof.
  intros Hf. induction l as [|x l IH]; [apply guar_reads, reads_ret|]. simpl.
  apply guar_bind; [done|]. intros y. apply guar_bind; [done|]. intros ys. apply guar_reads, reads_ret.
Qed.
Lemma guar_stmt {A} (f : tick → S → result (A * S)) :
  (∀ t s a s', f t s = Ok (a, s') → R s s') → guarantees R (stmt f).
Proof.
  intros Hf s. apply post_stmt; [|intros e; reflexivity]. intros t a s' E. by split; [|intros e]; eapply Hf.
Qed.
End guarantees.

Create HintDb guar.
#[export] Hint Extern 9 (guarantees _ (_ ≫= _)) => apply guar_bind; [apply _| |intros ?] : guar.
#[export] Hint Extern 2 (guarantees _ (catch _)) => apply guar_catch : guar.
#[export] Hint Extern 2 (guarantees _ (in_tx _)) => apply guar_in_tx; [apply _|] : guar.
#[export] Hint Extern 2 (guarantees _ (for_each _ _)) => apply guar_for_each; [apply _|intros ?] : guar.
#[export] Hint Extern 1 (guarantees _ _) => apply guar_reads; [apply _|solve [auto with reads]] : guar.

Ltac post_step :=
  first [ apply post_ret | apply post_raise | apply post_liftR
        | apply post_bind | apply post_ensure | apply post_catch
        | apply post_query | apply post_stmt
        | apply post_in_tx | apply post_in_read_tx ].
