(* ===== verification/Message.v ===== *)
(** * package message: immutable delivery intents

    [message/message.go]: the input record, the validating constructor [New]
    with its fingerprint, and the accessors. *)

From S2P Require Import Prelude GoStd.

Module message.

Record Input : Type := mkInput {
  Producer : string; ID : string; Destination : string;
  EventType : string; SchemaVersion : string; Scope : string;
  ContentType : string; OccurredAt : string;
  Payload : bytes
}.

#[global] Instance Input_eq_dec : EqDecision Input.
Proof. solve_decision. Defined.

Record Message : Type := mkMessage { input : Input; fingerprint : bytes }.

#[global] Instance Message_eq_dec : EqDecision Message.
Proof. solve_decision. Defined.

(** Go's zero values. *)
Definition zeroInput : Input := mkInput "" "" "" "" "" "" "" "" "".
Definition zeroHash : bytes := of_octets (repeat 0 32).
Definition zeroMessage : Message := mkMessage zeroInput zeroHash.

(** The table of [New]: field name, value, limit in octets. *)
Definition New_fields (i : Input) : list (string * string * Z) :=
  [("producer", Producer i, 128); ("id", ID i, 128); ("destination", Destination i, 255);
   ("event_type", EventType i, 255); ("schema_version", SchemaVersion i, 128);
   ("scope", Scope i, 255); ("content_type", ContentType i, 255);
   ("occurred_at", OccurredAt i, 64)]%string.

Definition field_ok (value : string) (limit : Z) : bool :=
  negb ((value == ""%string) || (len value >? limit) || negb (utf8_valid value)).

Fixpoint check_fields (fs : list (string * string * Z)) : option error :=
  match fs with
  | [] => None
  | (name, value, limit) :: fs =>
    if field_ok value limit then check_fields fs
    else Some (ErrMsg ("invalid " +:+ name +:+ ": required UTF-8, at most "
                       +:+ pretty limit +:+ " bytes"))
  end.

(** The nine values hashed after the domain separator, in order. *)
Definition fingerprint_fields (i : Input) : list bytes :=
  [Producer i; ID i; Destination i; EventType i; SchemaVersion i; Scope i;
   ContentType i; OccurredAt i; Payload i].

Definition fingerprint_domain : bytes := "rm-fingerprint-draft-v1" +:+ nul.

(** Everything written to the hash. *)
Definition fingerprint_preimage (i : Input) : bytes :=
  fingerprint_domain +:+ frames (fingerprint_fields i).

Definition compute_fingerprint (i : Input) : bytes := sha256 (fingerprint_preimage i).

Definition New (i : Input) : result Message :=
  match check_fields (New_fields i) with
  | Some e => Err e
  | None =>
    if RFC3339.accepts (OccurredAt i) then
      if len (Payload i) =? 0 then Err (ErrMsg "payload is required")
      else Ok (mkMessage i (compute_fingerprint i))
    else Err (ErrWrap "occurred_at" (ErrMsg "time.ParseError"))
  end.

Definition Message_Input (m : Message) : Input := input m.
Definition Fingerprint (m : Message) : bytes := fingerprint m.
Definition Message_Valid (m : Message) : bool := Producer (input m) != ""%string.

(** ** Facts *)

Definition well_formed (i : Input) : bool :=
  forallb (λ f, field_ok f.1.2 f.2) (New_fields i) &&
  RFC3339.accepts (OccurredAt i) && negb (len (Payload i) =? 0).

Lemma check_fields_None fs :
  check_fields fs = None ↔ forallb (λ f, field_ok f.1.2 f.2) fs = true.
Proof.
  induction fs as [|[[n v] l] fs IH]; simpl; [done|].
  destruct (field_ok v l); simpl; [done|naive_solver].
Qed.

(** [New] succeeds exactly on well-formed inputs, and then keeps the input. *)
Lemma New_spec i m :
  New i = Ok m ↔ well_formed i = true ∧ m = mkMessage i (compute_fingerprint i).
Proof.
  unfold New, well_formed. pose proof (check_fields_None (New_fields i)) as Hc.
  destruct (check_fields (New_fields i)) as [e|].
  - destruct (forallb _ _); [naive_solver|]. simpl. naive_solver.
  - rewrite (proj1 Hc eq_refl). destruct (RFC3339.accepts _), (len _ =? 0); simpl; naive_solver.
Qed.

Lemma field_ok_len v l : field_ok v l = true → len v <= l ∧ v ≠ ""%string ∧ utf8_valid v = true.
Proof. unfold field_ok. intros; boolp. auto. Qed.

Lemma field_ok_addressable v l : field_ok v l = true → l <= 255 → addressable v.
Proof. intros (?&_)%field_ok_len ?. unfold addressable. lia. Qed.

Lemma New_Valid i m : New i = Ok m → Message_Valid m = true.
Proof.
  intros [Hw ->]%New_spec. unfold well_formed in Hw. boolp.
  cbn in *. boolp. apply field_ok_len in H as (_&Hn&_).
  unfold Message_Valid; simpl. by rewrite bool_decide_eq_false_2.
Qed.

Lemma New_rebuild i m : New i = Ok m → New (Message_Input m) = Ok m.
Proof. intros H. pose proof H as [_ ->]%New_spec. done. Qed.

Lemma well_formed_addressable i :
  well_formed i = true → addressable (Payload i) → Forall addressable (fingerprint_fields i).
Proof.
  unfold well_formed. intros Hw Hp. boolp. cbn in *. boolp.
  repeat constructor; try (by eapply field_ok_addressable; [done|lia]); done.
Qed.

Lemma fingerprint_fields_inj i j : fingerprint_fields i = fingerprint_fields j → i = j.
Proof. destruct i, j. unfold fingerprint_fields; simpl. naive_solver. Qed.

Lemma fingerprint_preimage_inj i j :
  well_formed i = true → well_formed j = true →
  addressable (Payload i) → addressable (Payload j) →
  fingerprint_preimage i = fingerprint_preimage j → i = j.
Proof.
  intros Hi Hj Pi Pj He.
  apply string_app_inj_len in He as [_ He]; [|done].
  by apply fingerprint_fields_inj, frames_inj; auto using well_formed_addressable.
Qed.

(** The fingerprint identifies the immutable content: the octets hashed for
    two accepted inputs are equal exactly when the inputs are, so two different
    messages share a fingerprint only if these two octet strings collide under
    SHA-256. *)
Theorem fingerprint_identity i j m m' :
  New i = Ok m → New j = Ok m' → addressable (Payload i) → addressable (Payload j) →
  (fingerprint_preimage i = fingerprint_preimage j ↔ i = j) ∧
  (Fingerprint m = Fingerprint m' → i ≠ j →
   collide (fingerprint_preimage i) (fingerprint_preimage j)).
Proof.
  intros [Hi ->]%New_spec [Hj ->]%New_spec Pi Pj. split.
  - split; [by apply fingerprint_preimage_inj|by intros ->].
  - intros [He|]%sha256_inj Hne; [|done]. by destruct Hne; apply fingerprint_preimage_inj.
Qed.

Lemma fingerprint_length i m : New i = Ok m → String.length (Fingerprint m) = 32%nat.
Proof. intros [_ ->]%New_spec. apply sha256_length. Qed.

(** [New] accepts exactly the inputs whose eight text fields are non-empty
    UTF-8 within their limits, whose occurrence time is an RFC 3339 instant and
    whose payload is not empty; an accepted message is valid, carries its input
    unchanged and a 32-octet digest, and rebuilding it gives the same message. *)
Theorem New_accepts i :
  (is_Ok (New i) = well_formed i) ∧
  ∀ m, New i = Ok m →
    Message_Valid m = true ∧ Message_Input m = i ∧ len (Fingerprint m) = 32 ∧
    New (Message_Input m) = Ok m.
Proof.
  split.
  - pose proof (New_spec i) as Hs. destruct (New i) as [m|e] eqn:E; simpl.
    + by destruct (proj1 (Hs m) eq_refl).
    + destruct (well_formed i) eqn:Hw; [|done].
      discriminate (proj2 (Hs _) (conj eq_refl eq_refl)).
  - intros m Hm. split; [by eapply New_Valid|]. split; [by apply New_spec in Hm as [_ ->]|].
    split; [|by eapply New_rebuild]. unfold len. by rewrite (fingerprint_length _ _ Hm).
Qed.

(** The vectors of contracts/fixtures/identity-vectors.json. *)
Definition vector_input (payload : bytes) : Input :=
  mkInput "iam" "iam-fixture-1" "iam.authz.version.v2" "iam.authz.version_changed.v2"
    "legacy-v2" "scope:global" "application/json" "2026-09-22T00:00:00Z" payload.

Definition vector_payload (digit : string) : bytes :=
  "{" +:+ dquote +:+ "version" +:+ dquote +:+ ":" +:+ digit +:+ "}".

Example vector_fingerprint :
  option_map hex_encode (match New (vector_input (vector_payload "1")) with
                         | Ok m => Some (Fingerprint m) | Err _ => None end)
  = Some "b73088b965951b0de7f42071fc6d74e4e863f2420221f2aaaac39a306c02df9f"%string.
Proof. vm_compute. reflexivity. Qed.

Lemma fingerprint_identity_witness :
  let i := vector_input (vector_payload "1") in
  let j := vector_input (vector_payload "2") in
  ∃ m m', New i = Ok m ∧ New j = Ok m' ∧ (fingerprint_preimage i = fingerprint_preimage j ↔ i = j).
Proof.
  intros i j. exists (mkMessage i (compute_fingerprint i)), (mkMessage j (compute_fingerprint j)).
  split; [vm_compute; reflexivity|]. split; [vm_compute; reflexivity|].
  apply (fingerprint_identity i j (mkMessage i (compute_fingerprint i))
           (mkMessage j (compute_fingerprint j))); vm_compute; reflexivity.
Defined.

End message.
