(* ===== verification/Outbox.v ===== *)
(** * package outbox: the lease contract and the status snapshot

    [outbox/store.go] states what a lease store promises to the relay; here it
    is the class [Store] (the operations) with the class [StoreLaws] (the
    promises), which the MySQL and Mongo adapters discharge.  [outbox/status.go]
    and [outbox/status_builder.go] build the observation of unfinished rows. *)

From S2P Require Import Prelude GoStd Database Message.

Module outbox.

(** The values of the [state] column. *)
Inductive State : Type := pending | retry_wait | publishing | published | quarantined.

#[global] Instance State_eq_dec : EqDecision State.
Proof. solve_decision. Defined.

Record Claim : Type := mkClaim {
  RecordID : string;
  Token : string;
  Version : Z;
  Attempts : Z;
  FailureCount : Z;
  LeaseUntil : Z;
  ClaimMessage : message.Message
}.

#[global] Instance Claim_eq_dec : EqDecision Claim.
Proof. solve_decision. Defined.

(** The interface [outbox.Store] over some stored data [S]: batch limits are
    integers, durations are in nanoseconds. *)
Class Store (S : Type) : Type := {
  ClaimDue : Z → Z → M S (list Claim);
  Confirm : Claim → M S ();
  Retry : Claim → Z → string → M S ();
  Quarantine : Claim → string → M S ()
}.

(** ** The abstract contract *)

(** What the contract sees of one stored record. *)
Record entry : Type := mkEntry {
  e_content : message.Input;
  e_fingerprint : bytes;
  e_state : State;
  e_token : option string;
  e_version : Z;
  e_lease : option Z;
  e_due : Z;
  e_attempts : Z;
  e_failures : Z;
  e_confirmed : option Z
}.

(** "Mutations must match record, state, token AND version, and reject expired
    claims." *)
Definition fenced (now : Z) (c : Claim) (e : entry) : Prop :=
  e_state e = publishing ∧ e_token e = Some (Token c) ∧ e_version e = Version c ∧
  ∃ l, e_lease e = Some l ∧ now < l.

(** "Retry takes a positive delay from the database clock at the conditional
    write, rounded up to storage precision." *)
Definition round_up (unit delay : Z) : Z :=
  delay / unit + (if delay mod unit =? 0 then 0 else 1).

Inductive settlement : Type :=
| SConfirm
| SRetry (delay : Z)
| SQuarantine.

Definition settle (unit now : Z) (k : settlement) (e : entry) : entry :=
  {| e_content := e_content e; e_fingerprint := e_fingerprint e;
     e_state := match k with SConfirm => published | SRetry _ => retry_wait
                           | SQuarantine => quarantined end;
     e_token := None; e_version := e_version e + 1; e_lease := None;
     e_due := match k with SRetry d => now + round_up unit d | _ => e_due e end;
     e_attempts := e_attempts e;
     e_failures := match k with SConfirm => e_failures e | _ => e_failures e + 1 end;
     e_confirmed := match k with SConfirm => Some now | _ => e_confirmed e end |}.

(** A record may be handed to a relay when it waits and is due, or when the
    lease of its holder has run out. *)
Definition claimable (now : Z) (e : entry) : Prop :=
  ((e_state e = pending ∨ e_state e = retry_wait) ∧ e_due e <= now) ∨
  (e_state e = publishing ∧ ∃ l, e_lease e = Some l ∧ l <= now).

(** The stored octets still are the message that was appended. *)
Definition intact (e : entry) (m : message.Message) : Prop :=
  message.New (e_content e) = Ok m ∧ message.Fingerprint m = e_fingerprint e.

(** The claim [c] of record [e] leaves [e'] behind. *)
Definition granted (now : Z) (c : Claim) (e e' : entry) : Prop :=
  claimable now e ∧ intact e (ClaimMessage c) ∧
  Version c = e_version e + 1 ∧ Attempts c = e_attempts e + 1 ∧
  FailureCount c = e_failures e ∧
  e_state e' = publishing ∧ e_token e' = Some (Token c) ∧ e_version e' = Version c ∧
  e_attempts e' = Attempts c ∧ e_failures e' = e_failures e ∧
  e_content e' = e_content e ∧ e_fingerprint e' = e_fingerprint e ∧
  e_lease e' = Some (LeaseUntil c) ∧ e_due e' = LeaseUntil c ∧ e_confirmed e' = e_confirmed e.

(** The record is on lease to the claim. *)
Definition held (c : Claim) (e : entry) : Prop :=
  e_state e = publishing ∧ e_token e = Some (Token c) ∧ e_version e = Version c ∧
  e_lease e = Some (LeaseUntil c).

(** The settlement requested by each mutation of the interface, with its guard. *)
Inductive request : Type :=
| RConfirm
| RRetry (delay : Z) (code : string)
| RQuarantine (code : string).

Definition request_valid (r : request) : bool :=
  match r with
  | RConfirm => true
  | RRetry d code => (0 <? d) && (code != ""%string) && (len code <=? 128)
  | RQuarantine code => (code != ""%string) && (len code <=? 128)
  end.

Definition request_settlement (r : request) : settlement :=
  match r with RConfirm => SConfirm | RRetry d _ => SRetry d | RQuarantine _ => SQuarantine end.

Definition perform {S} `{Store S} (r : request) (c : Claim) : M S () :=
  match r with
  | RConfirm => Confirm c
  | RRetry d code => Retry c d code
  | RQuarantine code => Quarantine c code
  end.

(** Any later version of a record: unchanged, or at a higher version with the
    same immutable content and its confirmation evidence kept. *)
Definition entry_le (e e' : entry) : Prop :=
  e' = e ∨
  (e_version e < e_version e' ∧ e_content e' = e_content e ∧
   e_fingerprint e' = e_fingerprint e ∧ (is_Some (e_confirmed e) → is_Some (e_confirmed e'))).

Definition grows (v v' : string → option entry) : Prop :=
  ∀ id e, v id = Some e → ∃ e', v' id = Some e' ∧ entry_le e e'.

(** Counters far from the end of a 64-bit column. *)
Definition has_room (e : entry) : Prop := e_version e < 2 ^ 63 - 1 ∧ e_failures e < 2 ^ 63 - 1.

Class StoreLaws (S : Type) `{Store S} : Type := {
  (** storage precision in nanoseconds, the normal form of record ids, and what
      is stored under a record id *)
  unit_ns : Z;
  record_of : string → string;
  view : S → string → option entry;
  valid : S → Prop;
  view_record : ∀ s id, view s (record_of id) = view s id;

  (** A settlement touches its own record only, and that one only if the claim
      is fenced at the statement's clock; success means it was applied, and
      a fenced settlement that meets no driver failure succeeds. *)
  settle_frame : ∀ r c w n s id,
    record_of id ≠ record_of (RecordID c) → view (perform r c w (n, s)).2.2 id = view s id;
  settle_effect : ∀ r c w n s,
    view (perform r c w (n, s)).2.2 (RecordID c) = view s (RecordID c) ∨
    (∃ e, view s (RecordID c) = Some e ∧ fenced (t_now (w n)) c e ∧
          view (perform r c w (n, s)).2.2 (RecordID c)
            = Some (settle unit_ns (t_now (w n)) (request_settlement r) e));
  settle_ok : ∀ r c w n s,
    (perform r c w (n, s)).1 = Ok () →
    request_valid r = true ∧
    ∃ e, view s (RecordID c) = Some e ∧ fenced (t_now (w n)) c e ∧
         view (perform r c w (n, s)).2.2 (RecordID c)
           = Some (settle unit_ns (t_now (w n)) (request_settlement r) e);
  settle_live : ∀ r c w n s e,
    view s (RecordID c) = Some e → fenced (t_now (w n)) c e → has_room e →
    request_valid r = true → Token c ≠ ""%string → Version c ≠ 0 → t_fault (w n) = None →
    (perform r c w (n, s)).1 = Ok ();
  settle_valid : ∀ r c w n s, valid s → valid (perform r c w (n, s)).2.2;

  (** A successful claim returns at most [limit] claims, each granted at the
      clock of one of its statements; nothing is lost or rewritten.  Unless a
      lease runs out while the batch is still being collected, the claims are
      of different records and all stand when it returns. *)
  claim_grants : ∀ limit lease w n s claims n' s',
    valid s → ClaimDue limit lease w (n, s) = (Ok claims, (n', s')) →
    llen claims <= limit ∧
    Forall (λ c, ∃ k e0 e e' e1, (n <= k < n')%nat ∧
      view s (RecordID c) = Some e0 ∧ entry_le e0 e ∧ granted (t_now (w k)) c e e' ∧
      view s' (RecordID c) = Some e1 ∧ entry_le e' e1) claims;
  claim_distinct : ∀ limit lease w n s claims n' s',
    valid s → ClaimDue limit lease w (n, s) = (Ok claims, (n', s')) →
    (∀ c k, c ∈ claims → (n <= k < n')%nat → t_now (w k) < LeaseUntil c) →
    NoDup (map RecordID claims) ∧
    Forall (λ c, ∃ e, view s' (RecordID c) = Some e ∧ held c e) claims;
  claim_grows : ∀ limit lease w n s,
    valid s → grows (view s) (view (ClaimDue limit lease w (n, s)).2.2) ∧
              valid (ClaimDue limit lease w (n, s)).2.2;

  (** Writes of the host outside the interface (appending, confirmed requeue). *)
  host_step : S → S → Prop;
  host_grows : ∀ s s', valid s → host_step s s' → grows (view s) (view s') ∧ valid s';

  (** A record becomes published through Confirm only, and a record in
      publishing carries the end of its lease. *)
  claim_publishes_nothing : ∀ limit lease w n s id e,
    valid s → view (ClaimDue limit lease w (n, s)).2.2 id = Some e → e_state e = published →
    view s id = Some e;
  host_publishes_nothing : ∀ s s' id e,
    valid s → host_step s s' → view s' id = Some e → e_state e = published → view s id = Some e;
  publishing_leased : ∀ s id e,
    valid s → view s id = Some e → e_state e = publishing → is_Some (e_lease e)
}.

#[global] Instance entry_le_preorder : PreOrder entry_le.
Proof.
  split; [by left|]. intros r q p [->|H1] [->|H2]; unfold entry_le; auto.
  right. destruct H1 as (?&?&?&?), H2 as (?&?&?&?). repeat split; try congruence; [lia|auto].
Qed.

#[global] Instance grows_preorder : PreOrder grows.
Proof.
  split; [intros v id e He; exists e; by split; [|reflexivity]|].
  intros u v x H1 H2 id e (e'&He'&?)%H1. apply H2 in He' as (e''&?&?).
  exists e''. split; [done|by transitivity e'].
Qed.

Section lease.
Context {S : Type} `{StoreLaws S}.
Implicit Types s : S.

(** One step of the whole system around a store: relays claim and settle with
    any arguments in any order, hosts write. *)
Inductive system_step : S → S → Prop :=
| step_claim limit lease w n s : system_step s (ClaimDue limit lease w (n, s)).2.2
| step_settle r c w n s : system_step s (perform r c w (n, s)).2.2
| step_host s s' : host_step s s' → system_step s s'.

Lemma settle_le k u now e : entry_le e (settle u now k e).
Proof. right. destruct k; simpl; repeat split; eauto; lia. Qed.

Lemma settle_grows r c w n s : grows (view s) (view (perform r c w (n, s)).2.2).
Proof.
  intros id e He. destruct (decide (record_of id = record_of (RecordID c))) as [Hid|Hid].
  - rewrite <-view_record, Hid, view_record in He. rewrite <-view_record, Hid, view_record.
    destruct (settle_effect r c w n s) as [->|(e0&He0&_&->)]; [by exists e; split; [|left]|].
    simplify_eq. eauto using settle_le.
  - rewrite settle_frame by done. by exists e; split; [|left].
Qed.

Lemma system_step_grows s s' :
  valid s → system_step s s' → grows (view s) (view s') ∧ valid s'.
Proof.
  intros Hs Hst. destruct Hst; [by apply claim_grows|by split; [apply settle_grows|apply settle_valid]|by apply host_grows].
Qed.

Lemma system_grows s s' :
  valid s → rtc system_step s s' → grows (view s) (view s') ∧ valid s'.
Proof.
  intros Hs Hr. revert Hs. induction Hr as [s|s t u Hst _ IH]; intros Hs; [by split|].
  apply system_step_grows in Hst as [? Ht]; [|done]. destruct (IH Ht) as [? ?].
  split; [by transitivity (view t)|done].
Qed.

(** A record beyond the version of a claim is out of its reach for good. *)
Lemma stale_forever s s' c e :
  valid s → view s (RecordID c) = Some e → Version c < e_version e → rtc system_step s s' →
  ∀ r w n, (perform r c w (n, s')).1 ≠ Ok () ∧
           view (perform r c w (n, s')).2.2 (RecordID c) = view s' (RecordID c).
Proof.
  intros Hs He Hv Hr r w n. destruct (system_grows _ _ Hs Hr) as [Hg _].
  apply Hg in He as (e'&He'&Hle).
  assert (Hv' : Version c < e_version e') by (destruct Hle as [->|(?&_)]; lia).
  assert (Hn : ∀ now e0, view s' (RecordID c) = Some e0 → ¬ fenced now c e0).
  { intros now e0 He0 (_&_&?&_). rewrite He' in He0. simplify_eq. lia. }
  split.
  - intros (_&e0&He0&Hf&_)%settle_ok. by eapply Hn.
  - destruct (settle_effect r c w n s') as [|(e0&He0&Hf&_)]; [done|]. by edestruct Hn.
Qed.

(** C1: A claim settles its record at most once: after a successful Confirm,
  Retry or Quarantine with a claim, no later settlement with the same claim
  succeeds or changes the record, whatever relays and hosts do in between. *)
Theorem settled_once s s' r c w n :
  valid s → (perform r c w (n, s)).1 = Ok () →
  rtc system_step (perform r c w (n, s)).2.2 s' →
  ∀ r' w' n', (perform r' c w' (n', s')).1 ≠ Ok () ∧
    view (perform r' c w' (n', s')).2.2 (RecordID c) = view s' (RecordID c).
Proof.
  intros Hs (_&e&_&(_&_&Hv&_)&He)%settle_ok Hr.
  eapply stale_forever; [by apply settle_valid|exact He|simpl; lia|done].
Qed.

(** A record claimed again is lost to its former holder: once [ClaimDue]
  has granted a claim of a record, an older claim of that record can never
  settle it. *)
Theorem superseded_claim s s1 s2 limit lease w n n' claims c old :
  valid s → ClaimDue limit lease w (n, s) = (Ok claims, (n', s1)) → c ∈ claims →
  RecordID old = RecordID c → Version old < Version c → rtc system_step s1 s2 →
  ∀ r' w' k, (perform r' old w' (k, s2)).1 ≠ Ok () ∧
    view (perform r' old w' (k, s2)).2.2 (RecordID old) = view s2 (RecordID old).
Proof.
  intros Hs Hc Hin Hid Hv Hr.
  assert (Hs1 : valid s1).
  { pose proof (claim_grows limit lease w n s Hs) as [_ Hs1]. by rewrite Hc in Hs1. }
  apply claim_grants in Hc as (_&Hall); [|done]. rewrite Forall_forall in Hall.
  destruct (Hall c Hin) as (k&e0&e&e'&e1&_&_&_&Hg&He1&Hle).
  destruct Hg as (_&_&_&_&_&_&_&Hve&_). rewrite <-Hid in He1.
  assert (Version old < e_version e1) by (destruct Hle as [->|(?&_)]; lia).
  eapply stale_forever; eauto.
Qed.

(** What a step of the system publishes is published by a Confirm whose claim
    holds the record at the clock of its write. *)
Definition confirmed_by (s s' : S) (id : string) (e' : entry) : Prop :=
  ∃ c w n e0, record_of id = record_of (RecordID c) ∧
    view s id = Some e0 ∧ fenced (t_now (w n)) c e0 ∧
    e' = settle unit_ns (t_now (w n)) SConfirm e0 ∧ s' = (Confirm c w (n, s)).2.2.

Lemma settle_publishes r c w n s id e' :
  view (perform r c w (n, s)).2.2 id = Some e' → e_state e' = published →
  view s id = Some e' ∨ confirmed_by s (perform r c w (n, s)).2.2 id e'.
Proof.
  intros He Hst. destruct (decide (record_of id = record_of (RecordID c))) as [Hid|Hid];
    [|by left; rewrite settle_frame in He].
  rewrite <-view_record, Hid, view_record in He.
  assert (Hv : view s id = view s (RecordID c)) by (by rewrite <-view_record, Hid, view_record).
  destruct (settle_effect r c w n s) as [Heq|(e0&He0&Hf&Heq)]; [left; congruence|].
  rewrite Heq in He. injection He as <-. destruct r; try done.
  right. exists c, w, n, e0. split_and!; try done; congruence.
Qed.

Lemma system_step_publishes s s' id e' :
  valid s → system_step s s' → view s' id = Some e' → e_state e' = published →
  view s id = Some e' ∨ confirmed_by s s' id e'.
Proof.
  intros Hs Hstep He Hst. destruct Hstep as [limit lease w n s|r c w n s|s s' Hh].
  - left. exact (claim_publishes_nothing limit lease w n s id e' Hs He Hst).
  - by apply settle_publishes.
  - left. by eapply host_publishes_nothing.
Qed.

(** A record found published was so at the start, or some Confirm on the way
    published it. *)
Lemma system_publishes s s' id e' :
  valid s → rtc system_step s s' → view s' id = Some e' → e_state e' = published →
  view s id = Some e' ∨
  ∃ t t', rtc system_step s t ∧ confirmed_by t t' id e' ∧ rtc system_step t' s'.
Proof.
  intros Hs Hr He Hp. induction Hr as [s|s t u Hst Hr IH]; [by left|].
  destruct (system_step_grows s t Hs Hst) as [_ Ht].
  destruct (IH Ht He) as [Ht'|(v&v'&?&?&?)].
  - destruct (system_step_publishes s t id e' Hs Hst Ht' Hp) as [?|?]; [by left|].
    right. by exists s, t; split_and!; [apply rtc_refl|..].
  - right. exists v, v'. eauto using rtc_l.
Qed.

(** C5: No record is lost: whatever relays and hosts do, a stored record keeps
  its content and is at any later time published, quarantined, or claimable
  from some clock on.  It is published only by a settlement: either it was
  published all along, or on the way a Confirm, whose claim was fenced by
  the record at the clock of its write, turned the record into what is found. *)
Theorem never_lost s s' id e :
  valid s → rtc system_step s s' → view s id = Some e →
  ∃ e', view s' id = Some e' ∧ e_content e' = e_content e ∧
    (e_state e' = published ∨ e_state e' = quarantined ∨
     ∃ T, ∀ now, T <= now → claimable now e') ∧
    (e_state e' = published → e' = e ∨
     ∃ t t', rtc system_step s t ∧ confirmed_by t t' id e' ∧ rtc system_step t' s').
Proof.
  intros Hs Hr He. destruct (system_grows _ _ Hs Hr) as [Hg Hs'].
  destruct (Hg _ _ He) as (e'&He'&Hle). exists e'. split; [done|].
  split; [by destruct Hle as [->|(_&?&_)]|]. split.
  - destruct (e_state e') eqn:Hst; [right; right..|by left|by right; left].
    + exists (e_due e'). intros now ?. left. auto.
    + exists (e_due e'). intros now ?. left. auto.
    + destruct (publishing_leased s' id e' Hs' He' Hst) as [l Hl].
      exists l. intros now ?. right. eauto.
  - intros Hp. destruct (system_publishes s s' id e' Hs Hr He' Hp) as [?|?]; [left; congruence|by right].
Qed.
End lease.

(** ** Status snapshot *)

Definition standardUnfinishedStates : list string :=
  ["pending"; "retry_wait"; "publishing"; "quarantined"]%string.

Record StandardStatusCount : Type := mkCount {
  cnt_State : string; cnt_Count : Z; cnt_OldestCreatedAt : option Z
}.

(** [OldestAge] is the duration that [OldestAgeSeconds] reports in seconds. *)
Record StatusBucket : Type := mkBucket {
  Status : string; Count : Z; OldestCreatedAt : option Z; OldestAge : Z
}.

Record StatusSnapshot : Type := mkSnapshot {
  SnapStore : string; GeneratedAt : Z; Buckets : list StatusBucket
}.

Definition standardState (value : string) : bool :=
  existsb (λ state, value == state) standardUnfinishedStates.

Definition IsStandardUnfinishedState (value : string) : bool := standardState value.

Definition row_invalid (row : StandardStatusCount) : bool :=
  negb (standardState (cnt_State row)) || (cnt_Count row <? 0) ||
  ((cnt_Count row >? 0) &&
   match cnt_OldestCreatedAt row with None => true | Some t => t =? 0 end).

Fixpoint collect_rows (counts : list StandardStatusCount)
    (byState : gmap string StandardStatusCount) : result (gmap string StandardStatusCount) :=
  match counts with
  | [] => Ok byState
  | row :: counts =>
    if row_invalid row then
      Err (ErrMsg ("invalid standard outbox status row " +:+ cnt_State row))
    else match byState !! cnt_State row with
    | Some _ => Err (ErrMsg ("duplicate standard outbox state " +:+ cnt_State row))
    | None => collect_rows counts (<[cnt_State row := row]> byState)
    end
  end.

(** [time.Time.Sub] saturates at the range of [time.Duration]. *)
Definition time_sub (a b : Z) : Z := Z.max (- 2 ^ 63) (Z.min (2 ^ 63 - 1) (a - b)).

Definition bucket_of (now : Z) (byState : gmap string StandardStatusCount) (state : string)
    : StatusBucket :=
  let row := default (mkCount "" 0 None) (byState !! state) in
  let age := match cnt_OldestCreatedAt row with
             | None => 0
             | Some t => let age := time_sub now t in if age <? 0 then 0 else age
             end in
  mkBucket state (cnt_Count row) (cnt_OldestCreatedAt row) age.

Definition BuildStandardStatusSnapshot (store : string) (now : Z)
    (counts : list StandardStatusCount) : result StatusSnapshot :=
  if (store == ""%string) || (now =? 0) then
    Err (ErrMsg "standard status requires store and observation time")
  else
    try byState <- collect_rows counts ∅;
    Ok (mkSnapshot store now (map (bucket_of now byState) standardUnfinishedStates)).

(** The collected map is the rows by state, on top of what was there. *)
Lemma collect_rows_Ok counts byState r :
  collect_rows counts byState = Ok r →
  Forall (λ row, row_invalid row = false ∧ byState !! cnt_State row = None ∧
                 r !! cnt_State row = Some row) counts ∧
  NoDup (cnt_State <$> counts) ∧
  (∀ k, k ∉ cnt_State <$> counts → r !! k = byState !! k).
Proof.
  revert byState. induction counts as [|row counts IH]; intros byState; simpl.
  { intros [= <-]. repeat constructor. }
  destruct (row_invalid row) eqn:Hi; [done|]. destruct (byState !! cnt_State row) eqn:Hb; [done|].
  intros (Hf&Hnd&Hr)%IH.
  assert (Hni : cnt_State row ∉ cnt_State <$> counts).
  { intros (q&Hq&Hin)%list_elem_of_fmap. rewrite Forall_forall in Hf.
    destruct (Hf q Hin) as (_&Hn&_). rewrite <-Hq, lookup_insert_eq in Hn. done. }
  split; [|split; [by constructor|]].
  - constructor; [split; [done|split; [done|]]; by rewrite Hr, lookup_insert_eq|].
    eapply Forall_impl; [exact Hf|]. intros q (?&Hn&?).
    apply lookup_insert_None in Hn as [? _]. done.
  - intros k Hk. rewrite Hr by set_solver. apply lookup_insert_ne. set_solver.
Qed.

Lemma collect_rows_total counts byState :
  Forall (λ row, row_invalid row = false ∧ byState !! cnt_State row = None) counts →
  NoDup (cnt_State <$> counts) → is_Ok (collect_rows counts byState) = true.
Proof.
  revert byState. induction counts as [|row counts IH]; intros byState; simpl; [done|].
  intros [[Hi Hb] Hf]%Forall_cons [Hni Hnd]%NoDup_cons. rewrite Hi, Hb. apply IH; [|done].
  apply Forall_forall. intros q Hq. rewrite Forall_forall in Hf. destruct (Hf q Hq) as [? ?].
  split; [done|]. rewrite lookup_insert_ne; [done|]. intros He. apply Hni. rewrite He.
  by apply list_elem_of_fmap_2.
Qed.

Lemma standardState_elem v : standardState v = true → v ∈ standardUnfinishedStates.
Proof.
  unfold standardState. rewrite existsb_exists. intros (x&Hx&He). boolp. subst.
  by apply list_elem_of_In.
Qed.

(** [BuildStandardStatusSnapshot] accepts exactly the observations with a
    store name, a time and valid rows of distinct states; the snapshot then has
    one bucket per unfinished state in the fixed order, every observed row is
    its state's bucket, states without a row are empty, and no age is negative. *)
Theorem snapshot_faithful store now counts :
  (is_Ok (BuildStandardStatusSnapshot store now counts) = true ↔
   store ≠ ""%string ∧ now ≠ 0 ∧ Forall (λ row, row_invalid row = false) counts ∧
   NoDup (cnt_State <$> counts)) ∧
  ∀ snap, BuildStandardStatusSnapshot store now counts = Ok snap →
    map Status (Buckets snap) = standardUnfinishedStates ∧
    Forall (λ row, ∃ b, b ∈ Buckets snap ∧ Status b = cnt_State row ∧
                        Count b = cnt_Count row ∧ OldestCreatedAt b = cnt_OldestCreatedAt row) counts ∧
    Forall (λ b, 0 <= OldestAge b ∧ (Status b ∉ cnt_State <$> counts → Count b = 0)) (Buckets snap).
Proof.
  unfold BuildStandardStatusSnapshot. split.
  - destruct (_ || _) eqn:Hg; simpl.
    { split; [done|]. intros (?&?&_). apply orb_true_iff in Hg as [?|?]; boolp; done. }
    boolp. destruct (collect_rows counts ∅) as [r|e] eqn:Hc; simpl.
    + split; [|done]. intros _. apply collect_rows_Ok in Hc as (Hf&?&_).
      repeat split; [done..| |done]. eapply Forall_impl; [exact Hf|]. naive_solver.
    + split; [done|]. intros (_&_&Hf&Hnd).
      pose proof (collect_rows_total counts ∅) as Ht. rewrite Hc in Ht. apply Ht; [|done].
      eapply Forall_impl; [exact Hf|]. intros q ?. by rewrite lookup_empty.
  - intros snap. destruct (_ || _); [done|]. intros (r&Hc&[= <-])%rbind_Ok.
    apply collect_rows_Ok in Hc as (Hf&_&Hr). split; [done|]. split.
    + eapply Forall_impl; [exact Hf|]. intros row (Hi&_&Hrow).
      exists (bucket_of now r (cnt_State row)). unfold row_invalid in Hi. boolp.
      split; [|unfold bucket_of; by rewrite Hrow].
      exact (list_elem_of_fmap_2 (bucket_of now r) standardUnfinishedStates _
               (standardState_elem _ H)).
    + apply Forall_forall. intros b Hb.
      change (b ∈ bucket_of now r <$> standardUnfinishedStates) in Hb.
      apply list_elem_of_fmap in Hb as (st&->&_). split.
      * unfold bucket_of; simpl. destruct (cnt_OldestCreatedAt _); [|done].
        destruct (Z.ltb_spec (time_sub now z) 0); lia.
      * simpl. intros Hk. rewrite Hr, lookup_empty by done. done.
Qed.

End outbox.
