(* ===== verification/StorageMySQL.v ===== *)
(** * storage/mysql: the standard-schema outbox on MySQL

    [storage/mysql/store.go], [requeue.go] and [schema.sql].  The table is a
    finite map from the primary key to rows; every SQL statement of the package
    is one statement of [Database]; times are DATETIME(6) microseconds. *)

From S2P Require Import Prelude GoStd Database Message Outbox.

Module mysql.
Import outbox.

(** ** Data *)

(** One row of [rm_outbox]. *)
Record Row : Type := mkRow {
  content : message.Input;      (* producer, message_id, ..., occurred_at, payload *)
  row_fingerprint : bytes;
  state : State;
  next_attempt_at : Z;
  claim_token : option string;
  lease_until : option Z;
  version : Z;
  attempt_count : Z;
  failure_count : Z;
  last_error_code : string;
  transport_confirmed_at : option Z;
  manual_replay_request_id : option string;
  manual_replay_version : option Z;
  created_at : Z;
  updated_at : Z
}.

#[global] Instance Row_eq_dec : EqDecision Row.
Proof. solve_decision. Defined.

(** The table, with the AUTO_INCREMENT counter. *)
Record Table : Type := mkTable { rows : gmap Z Row; next_id : Z }.

(** UNIQUE KEY identity_key *)
Definition identity (i : message.Input) : string * string * string :=
  (message.Producer i, message.ID i, message.Destination i).

Definition find_identity (k : string * string * string) (m : gmap Z Row) : option (Z * Row) :=
  list_find (λ p, identity (content p.2) = k) (map_to_list m) ≫= λ r, Some r.2.

(** BIGINT UNSIGNED arithmetic: out of range is error 1690. *)
Definition inc64 (v : Z) : result Z :=
  if v <? max_uint64 then Ok (v + 1) else Err (ErrDriver 1690).

(** [UPDATE rm_outbox SET f WHERE id=? AND p]: the number of affected rows. *)
Definition update_row (id : Z) (p : Row → bool) (f : Row → result Row)
    (s : Table) : result (Z * Table) :=
  match rows s !! id with
  | Some r => if p r then try r' <- f r; Ok (1, mkTable (<[id := r']> (rows s)) (next_id s))
              else Ok (0, s)
  | None => Ok (0, s)
  end.

(** [databaseTimeLayout]: Go times are nanoseconds, formatted to microseconds. *)
Definition db_time (t : Z) : Z := t / 1000.

(** ** Appender *)

(** [Bind]: the nil transaction is rejected; the model has no nil handle left. *)
Definition Append (m : message.Message) (due : Z) : M Table () :=
  if negb (message.Message_Valid m) || (due =? 0) then
    raise (ErrMsg "valid message and due time required")
  else
    let i := message.Message_Input m in
    let hash := message.Fingerprint m in
    r ← catch (stmt (λ t s,
          match find_identity (identity i) (rows s) with
          | Some _ => Err ErrDuplicateKey
          | None =>
            Ok ((), mkTable (<[next_id s := mkRow i hash pending (db_time due) None None 0 0 0 ""
                                             None None None (t_now t) (t_now t)]> (rows s))
                            (next_id s + 1))
          end));
    match r with
    | Ok _ => mret ()
    | Err e =>
      if errors_is e ErrDuplicateKey then
        existing ← query (λ _ s,
          match find_identity (identity i) (rows s) with
          | Some (_, row) => Ok (row_fingerprint row)
          | None => Err ErrNoRows
          end);
        ensure (existing == hash) ErrConflict
      else raise e
    end.

(** ** Confirmed requeue *)

Record ConfirmedRequeue : Type := mkRequeue {
  rq_RecordID : string; ExpectedVersion : Z; ExpectedFingerprint : bytes; RequestID : string
}.

(** [strconv.ParseUint] succeeded, nonzero and canonical. *)
Definition canonical_id (s : string) : option Z :=
  id ← ParseUint s; if (id =? 0) || (FormatUint id != s) then None else Some id.

Definition set_requeue (req : string) (v now : Z) (r : Row) : result Row :=
  try v' <- inc64 (version r);
  Ok (mkRow (content r) (row_fingerprint r) retry_wait now None None v' (attempt_count r)
        (failure_count r) (last_error_code r) (transport_confirmed_at r)
        (Some req) (Some v) (created_at r) now).

Definition RequeueConfirmed (i : ConfirmedRequeue) : M Table Z :=
  match canonical_id (rq_RecordID i) with
  | None => raise (ErrMsg "valid original row, fingerprint, version and audit request required")
  | Some id =>
    if (ExpectedVersion i =? 0) || (ExpectedVersion i =? max_uint64) ||
       (ExpectedFingerprint i == message.zeroHash) ||
       (RequestID i == ""%string) || (len (RequestID i) >? 64) ||
       trims (RequestID i)
    then raise (ErrMsg "valid original row, fingerprint, version and audit request required")
    else
      n ← stmt (λ t s, update_row id
            (λ r, (state r == published) && bool_decide (is_Some (transport_confirmed_at r)) &&
                  (version r =? ExpectedVersion i) && (row_fingerprint r == ExpectedFingerprint i))
            (set_requeue (RequestID i) (ExpectedVersion i + 1) (t_now t)) s);
      if n =? 1 then mret (ExpectedVersion i + 1)
      else raise (ErrWrap "affected rows" ErrStaleRequeue)
  end.

(** ** Store *)

(** The WHERE clause of the claim scan. *)
Definition due (now : Z) (r : Row) : bool :=
  (((state r == pending) || (state r == retry_wait)) && (next_attempt_at r <=? now)) ||
  ((state r == publishing) && match lease_until r with Some l => l <=? now | None => false end).

(** ORDER BY next_attempt_at, id *)
Definition scan_le (p q : Z * Row) : Prop :=
  next_attempt_at p.2 < next_attempt_at q.2 ∨
  (next_attempt_at p.2 = next_attempt_at q.2 ∧ p.1 <= q.1).

#[global] Instance scan_le_dec : RelDecision scan_le.
Proof. intros p q. unfold scan_le. apply _. Defined.

#[global] Instance scan_le_total : Total scan_le.
Proof. intros p q. unfold scan_le. lia. Qed.

#[global] Instance scan_le_trans : Transitive scan_le.
Proof. intros p q r. unfold scan_le. lia. Qed.

(** SELECT ... ORDER BY ... LIMIT ? FOR UPDATE SKIP LOCKED *)
Definition select_due (now limit : Z) (locked : Z → bool) (m : gmap Z Row) : list (Z * Row) :=
  take (Z.to_nat limit)
    (merge_sort scan_le
      (filter (λ p, due now p.2 = true ∧ locked p.1 = false) (map_to_list m))).

Definition set_corrupt (now : Z) (r : Row) : result Row :=
  try f' <- inc64 (failure_count r); try v' <- inc64 (version r);
  Ok (mkRow (content r) (row_fingerprint r) quarantined (next_attempt_at r) None None v'
        (attempt_count r) f' "invalid_immutable_content" (transport_confirmed_at r)
        (manual_replay_request_id r) (manual_replay_version r) (created_at r) now).

Definition set_claimed (token : string) (lease now : Z) (r : Row) : result Row :=
  try v' <- inc64 (version r); try a' <- inc64 (attempt_count r);
  Ok (mkRow (content r) (row_fingerprint r) publishing lease (Some token) (Some lease) v'
        a' (failure_count r) (last_error_code r) (transport_confirmed_at r)
        (manual_replay_request_id r) (manual_replay_version r) (created_at r) now).

(** Does the stored content still reproduce its fingerprint? *)
Definition check_row (r : Row) : option message.Message :=
  match message.New (content r) with
  | Ok m => if message.Fingerprint m == row_fingerprint r then Some m else None
  | Err _ => None
  end.

(** One candidate of the scan: a corrupt row is quarantined and skipped. *)
Definition claim_one (now lease : Z) (p : Z * Row) : M Table (option Claim) :=
  let '(id, r) := p in
  match check_row r with
  | None =>
    n ← stmt (λ t s, update_row id (λ r', version r' =? version r) (set_corrupt (t_now t)) s);
    mret None
  | Some m =>
    entropy ← rand_read;
    let token := hex_encode entropy in
    let until := (now * 1000 + lease) / 1000 in
    n ← stmt (λ t s, update_row id (λ r', version r' =? version r)
                       (set_claimed token until (t_now t)) s);
    mret (Some (mkClaim (FormatUint id) token ((version r + 1) mod 2 ^ 64)
                  ((attempt_count r + 1) mod 2 ^ 64) (failure_count r) until m))
  end.

Definition MySQL_ClaimDue (limit lease : Z) : M Table (list Claim) :=
  if (limit <? 1) || (limit >? 1000) || (lease <? 1000) || (lease >? 86400000000000)
  then raise (ErrMsg "limit must be 1..1000 and lease 1us..24h")
  else in_tx (
    now ← query (λ t _, Ok (t_now t));
    candidates ← query (λ t s, Ok (select_due now limit (t_locked t) (rows s)));
    claims ← for_each (claim_one now lease) candidates;
    mret (omap id claims)).

(** The WHERE clause of [update] after the primary key. *)
Definition fence (now : Z) (c : Claim) (r : Row) : bool :=
  (claim_token r == Some (Token c)) && (version r =? Version c) && (state r == publishing) &&
  match lease_until r with Some l => l >? now | None => false end.

(** [update]: the fenced mutation; [set] is the SET list of the caller. *)
Definition update (c : Claim) (set : Z → Row → result Row) : M Table () :=
  match canonical_id (RecordID c) with
  | None => raise ErrStaleClaim
  | Some id =>
    if (Token c == ""%string) || (Version c =? 0) then raise ErrStaleClaim
    else
      n ← stmt (λ t s, update_row id (fence (t_now t) c) (set (t_now t)) s);
      if n =? 1 then mret () else raise (ErrWrap "affected rows" ErrStaleClaim)
  end.

Definition set_confirm (now : Z) (r : Row) : result Row :=
  try v' <- inc64 (version r);
  Ok (mkRow (content r) (row_fingerprint r) published (next_attempt_at r) None None v'
        (attempt_count r) (failure_count r) "" (Some now)
        (manual_replay_request_id r) (manual_replay_version r) (created_at r) now).

Definition set_retry (micros : Z) (code : string) (now : Z) (r : Row) : result Row :=
  try f' <- inc64 (failure_count r); try v' <- inc64 (version r);
  Ok (mkRow (content r) (row_fingerprint r) retry_wait (now + micros) None None v'
        (attempt_count r) f' code (transport_confirmed_at r)
        (manual_replay_request_id r) (manual_replay_version r) (created_at r) now).

Definition set_quarantine (code : string) (now : Z) (r : Row) : result Row :=
  try f' <- inc64 (failure_count r); try v' <- inc64 (version r);
  Ok (mkRow (content r) (row_fingerprint r) quarantined (next_attempt_at r) None None v'
        (attempt_count r) f' code (transport_confirmed_at r)
        (manual_replay_request_id r) (manual_replay_version r) (created_at r) now).

Definition MySQL_Confirm (c : Claim) : M Table () := update c set_confirm.

Definition MySQL_Retry (c : Claim) (delay : Z) (code : string) : M Table () :=
  if (delay <=? 0) || (code == ""%string) || (len code >? 128) then
    raise (ErrMsg "retry requires positive delay and bounded error code")
  else
    let micros := delay / 1000 + (if negb (delay mod 1000 =? 0) then 1 else 0) in
    update c (set_retry micros code).

Definition MySQL_Quarantine (c : Claim) (code : string) : M Table () :=
  if (code == ""%string) || (len code >? 128) then
    raise (ErrMsg "bounded quarantine reason required")
  else update c (set_quarantine code).

#[global] Instance MySQL_Store : Store Table := {
  ClaimDue := MySQL_ClaimDue;
  Confirm := MySQL_Confirm;
  Retry := MySQL_Retry;
  Quarantine := MySQL_Quarantine
}.

(** ** Invariant of the table *)

Definition row_ok (r : Row) : Prop :=
  (state r = publishing → is_Some (claim_token r) ∧ lease_until r = Some (next_attempt_at r)) ∧
  (state r ≠ publishing → claim_token r = None ∧ lease_until r = None) ∧
  (state r = published → is_Some (transport_confirmed_at r)) ∧
  0 <= version r <= max_uint64 ∧ 0 <= failure_count r ∧ 0 <= attempt_count r <= version r.

Definition table_ok (s : Table) : Prop :=
  0 < next_id s ∧
  (∀ id r, rows s !! id = Some r → 0 < id < next_id s ∧ row_ok r) ∧
  (∀ i j r q, rows s !! i = Some r → rows s !! j = Some q →
     identity (content r) = identity (content q) → i = j).

(** A later version of a row: unchanged, or at a higher version with the same
    immutable content and with its confirmation evidence kept. *)
Definition row_le (r r' : Row) : Prop :=
  r' = r ∨
  (version r < version r' ∧ content r' = content r ∧ row_fingerprint r' = row_fingerprint r ∧
   created_at r' = created_at r ∧
   (is_Some (transport_confirmed_at r) → is_Some (transport_confirmed_at r'))).

Definition extends (s s' : Table) : Prop :=
  next_id s <= next_id s' ∧
  ∀ id r, rows s !! id = Some r → ∃ r', rows s' !! id = Some r' ∧ row_le r r'.

#[global] Instance row_le_preorder : PreOrder row_le.
Proof.
  split; [by left|]. intros r q p [->|H1] [->|H2]; unfold row_le; auto.
  right. destruct H1 as (?&?&?&?&?), H2 as (?&?&?&?&?). repeat split; try congruence; [lia|auto].
Qed.

#[global] Instance extends_preorder : PreOrder extends.
Proof.
  split.
  - intros s. split; [lia|]. intros id r ?. exists r. split; [done|reflexivity].
  - intros s t u [? H1] [? H2]. split; [lia|]. intros id r (r'&Hr'&?)%H1.
    apply H2 in Hr' as (q&?&?). exists q. split; [done|]. by transitivity r'.
Qed.

(** What every operation keeps: later versions of the old rows, and the invariant. *)
Definition preserved (s s' : Table) : Prop := extends s s' ∧ (table_ok s → table_ok s').

#[global] Instance preserved_preorder : PreOrder preserved.
Proof.
  split; [by intros s; split|]. intros s t u [? ?] [? ?]. split; [by transitivity t|auto].
Qed.

Lemma inc64_Ok v v' : inc64 v = Ok v' ↔ v' = v + 1 ∧ v < max_uint64.
Proof. unfold inc64. destruct (Z.ltb_spec v max_uint64); split; [naive_solver|naive_solver|done|lia]. Qed.

(** The SET lists of the package only move a row forward. *)
Definition set_sound (f : Row → result Row) : Prop :=
  ∀ r r', f r = Ok r' → row_le r r' ∧ (row_ok r → row_ok r').

Ltac solve_set :=
  intros r r'; unfold set_requeue, set_corrupt, set_claimed, set_confirm, set_retry, set_quarantine;
  repeat (rewrite rbind_Ok; intros (?&[-> ?]%inc64_Ok&?)); 
  repeat match goal with H : rbind _ _ = Ok _ |- _ => apply rbind_Ok in H as (?&[-> ?]%inc64_Ok&?) end;
  simplify_eq/=; unfold row_le, row_ok; simpl;
  (split; [right; repeat split; eauto; lia|]);
  intros (?&?&?&?&?&?); repeat split; try done; try lia; naive_solver.

Lemma set_requeue_sound req v now : set_sound (set_requeue req v now).
Proof. solve_set. Qed.
Lemma set_corrupt_sound now : set_sound (set_corrupt now).
Proof. solve_set. Qed.
Lemma set_claimed_sound token lease now : set_sound (set_claimed token lease now).
Proof. solve_set. Qed.
Lemma set_confirm_sound now : set_sound (set_confirm now).
Proof. solve_set. Qed.
Lemma set_retry_sound micros code now : set_sound (set_retry micros code now).
Proof. solve_set. Qed.
Lemma set_quarantine_sound code now : set_sound (set_quarantine code now).
Proof. solve_set. Qed.

#[export] Hint Resolve set_requeue_sound set_corrupt_sound set_claimed_sound
  set_confirm_sound set_retry_sound set_quarantine_sound : rm.

Lemma update_row_Ok id p f s k s' :
  update_row id p f s = Ok (k, s') →
  (k = 0 ∧ s' = s) ∨
  (k = 1 ∧ ∃ r r', rows s !! id = Some r ∧ p r = true ∧ f r = Ok r' ∧
                   s' = mkTable (<[id := r']> (rows s)) (next_id s)).
Proof.
  unfold update_row. destruct (rows s !! id) as [r|]; [|naive_solver].
  destruct (p r) eqn:?; [|naive_solver]. intros (r'&?&?)%rbind_Ok. naive_solver.
Qed.

Lemma insert_preserved id r r' s :
  rows s !! id = Some r → row_le r r' → (row_ok r → row_ok r') →
  preserved s (mkTable (<[id := r']> (rows s)) (next_id s)).
Proof.
  intros Hr Hle Hok. split.
  - split; [simpl; lia|]. intros j q Hq; simpl. destruct (decide (id = j)) as [<-|].
    + rewrite lookup_insert_eq. simplify_eq. eauto.
    + rewrite lookup_insert_ne by done. exists q. split; [done|reflexivity].
  - intros (Hn&Hrow&Hid). assert (Hc : content r' = content r) by (destruct Hle as [->|(?&?&?)]; done).
    split; [done|]. split; simpl.
    + intros j q [[<- <-]|[? Hq]]%lookup_insert_Some; [|by apply Hrow].
      apply Hrow in Hr as [? ?]. auto.
    + intros i j a b [[<- <-]|[? Ha]]%lookup_insert_Some [[<- <-]|[? Hb]]%lookup_insert_Some He;
        try done; rewrite ?Hc in He; eapply Hid; eauto.
Qed.

Lemma update_row_preserved id p f s k s' :
  set_sound f → update_row id p f s = Ok (k, s') → preserved s s'.
Proof.
  intros Hf [[_ ->]|(_&r&r'&?&?&[? ?]%Hf&->)]%update_row_Ok; [reflexivity|].
  by eapply insert_preserved.
Qed.

Lemma post_update_row id (p : tick → Row → bool) (f : Z → Row → result Row) s :
  (∀ now, set_sound (f now)) →
  post (stmt (λ t s, update_row id (p t) (f (t_now t)) s)) s (λ _, preserved s).
Proof.
  intros Hf. apply post_stmt; [|reflexivity].
  intros t a s' H%update_row_preserved; auto.
Qed.

Lemma update_preserved c set s :
  (∀ now, set_sound (set now)) → post (update c set) s (λ _, preserved s).
Proof.
  intros Hset. unfold update. destruct (canonical_id _); [|by apply post_raise].
  destruct (_ || _); [by apply post_raise|]. apply post_bind.
  eapply post_mono; [by apply post_update_row|]. intros [k|e] s' Hs'; [|done].
  destruct (k =? 1); [by apply post_ret|by apply post_raise].
Qed.

Lemma claim_one_preserved now lease p s :
  post (claim_one now lease p) s (λ _, preserved s).
Proof.
  destruct p as [id r]. unfold claim_one. destruct (check_row r).
  - apply post_bind, post_query; [|reflexivity]. intros t entropy _.
    apply post_bind. eapply post_mono; [apply post_update_row; auto with rm|].
    intros [k|e] s' Hs'; [|done]. by apply post_ret.
  - apply post_bind. eapply post_mono; [apply post_update_row; auto with rm|].
    intros [k|e] s' Hs'; [|done]. by apply post_ret.
Qed.

Lemma update_row_next_id id (p : tick → Row → bool) (f : Z → Row → result Row) s :
  post (stmt (λ t s, update_row id (p t) (f (t_now t)) s)) s (λ _ s', next_id s' = next_id s).
Proof. apply post_stmt; [|done]. by intros t a s' [[_ ->]|(_&?&?&_&_&_&->)]%update_row_Ok. Qed.

Lemma claim_one_next_id now lease p s :
  post (claim_one now lease p) s (λ _ s', next_id s' = next_id s).
Proof.
  destruct p as [id r]. unfold claim_one. destruct (check_row r).
  - apply post_bind, post_query; [|done]. intros t entropy _.
    apply post_bind. eapply post_mono; [apply update_row_next_id|].
    intros [k|e] s' Hs'; [|done]. by apply post_ret.
  - apply post_bind. eapply post_mono; [apply update_row_next_id|].
    intros [k|e] s' Hs'; [|done]. by apply post_ret.
Qed.

Lemma ClaimDue_preserved limit lease s :
  post (MySQL_ClaimDue limit lease) s (λ _, preserved s).
Proof.
  unfold MySQL_ClaimDue. destruct (_ || _); [by apply post_raise|].
  apply post_in_tx; [|reflexivity].
  apply post_bind, post_query; [|done]. intros t0 now _.
  apply post_bind, post_query; [|done]. intros t1 cands _.
  apply post_bind. eapply post_mono.
  - apply (post_for_each _ _ (preserved s)); [|reflexivity].
    intros p s' Hs'. eapply post_mono; [apply claim_one_preserved|].
    intros ? s'' ?. by transitivity s'.
  - intros [claims|e] s' Hs'; [|done]. by apply post_ret.
Qed.

Lemma find_identity_None k m :
  find_identity k m = None → ∀ id r, m !! id = Some r → identity (content r) ≠ k.
Proof.
  unfold find_identity. intros H id r Hr.
  destruct (list_find _ _) as [[i q]|] eqn:E; [done|].
  apply list_find_None in E. rewrite Forall_forall in E.
  by apply (E (id, r)), elem_of_map_to_list.
Qed.

Lemma find_identity_Some k m id r :
  find_identity k m = Some (id, r) → m !! id = Some r ∧ identity (content r) = k.
Proof.
  unfold find_identity. destruct (list_find _ _) as [[i q]|] eqn:E; [|done].
  intros [= ->]. apply list_find_Some in E as (Hi&Hk&_). split; [|done].
  by eapply elem_of_map_to_list, list_elem_of_lookup_2.
Qed.

Lemma Append_preserved m d s :
  table_ok s → post (Append m d) s (λ _, preserved s).
Proof.
  intros Hs. unfold Append. destruct (_ || _); [by apply post_raise|].
  apply post_bind, post_catch, post_stmt.
  2: { intros e. destruct (errors_is _ _); [|by apply post_raise].
       apply post_bind, post_query; [|reflexivity]. intros. by apply post_ensure. }
  intros t a s' H. assert (Hp : preserved s s').
  { destruct (find_identity (identity (message.Message_Input m)) (rows s)) eqn:Hf; [done|]. simplify_eq.
    destruct Hs as (Hn&Hrow&Hid).
    assert (Hfresh : rows s !! next_id s = None).
    { destruct (rows s !! next_id s) eqn:E; [|done]. apply Hrow in E as [? _]. lia. }
    split.
    - split; [simpl; lia|]. intros j q Hq; simpl. exists q.
      rewrite lookup_insert_ne by congruence. split; [done|reflexivity].
    - intros _. split; [simpl; lia|]. split; simpl.
      + intros j q [[<- <-]|[? Hq]]%lookup_insert_Some.
        * split; [lia|]. unfold row_ok; simpl. repeat split; done.
        * apply Hrow in Hq as [? ?]. split; [lia|done].
      + intros i j x y [[<- <-]|[? Ha]]%lookup_insert_Some [[<- <-]|[? Hb]]%lookup_insert_Some He;
          simpl in He; try done.
        * by destruct (find_identity_None _ _ Hf _ _ Hb).
        * by destruct (find_identity_None _ _ Hf _ _ Ha).
        * by eapply Hid. }
  split; [by apply post_ret|]. intros e.
  destruct (errors_is _ _); [|by apply post_raise].
  apply post_bind, post_query; [|done]. intros. by apply post_ensure.
Qed.

Lemma RequeueConfirmed_preserved i s : post (RequeueConfirmed i) s (λ _, preserved s).
Proof.
  unfold RequeueConfirmed. destruct (canonical_id _) as [id|]; [|by apply post_raise].
  destruct (_ || _); [by apply post_raise|]. apply post_bind.
  eapply post_mono; [apply (post_update_row id (λ _, _) (set_requeue _ _)); auto with rm|].
  intros [k|e] s' Hs'; [|done].
  destruct (k =? 1); [by apply post_ret|by apply post_raise].
Qed.

(** ** The contract of [outbox.Store] *)

Definition entry_of (r : Row) : entry :=
  mkEntry (content r) (row_fingerprint r) (state r) (claim_token r) (version r) (lease_until r)
    (next_attempt_at r) (attempt_count r) (failure_count r) (transport_confirmed_at r).

Definition table_view (s : Table) (rid : string) : option entry :=
  id ← canonical_id rid; entry_of <$> rows s !! id.

Lemma canonical_id_Some rid id :
  canonical_id rid = Some id → rid = FormatUint id ∧ 0 ≠ id.
Proof.
  unfold canonical_id. intros (i&_&H)%bind_Some. case_match; simplify_eq. boolp. done.
Qed.

Lemma canonical_id_format id : 0 < id <= max_uint64 → canonical_id (FormatUint id) = Some id.
Proof.
  intros H. unfold canonical_id. rewrite ParseUint_FormatUint by lia. simpl.
  rewrite (proj2 (Z.eqb_neq id 0)) by lia. by rewrite bool_decide_eq_true_2.
Qed.

Lemma table_view_insert s id r' k rid :
  table_view (mkTable (<[id := r']> (rows s)) k) rid =
  if decide (canonical_id rid = Some id) then Some (entry_of r') else table_view s rid.
Proof.
  unfold table_view; simpl. destruct (canonical_id rid) as [j|] eqn:E; simpl.
  - case_decide as Hj; simplify_eq.
    + by rewrite lookup_insert_eq.
    + by rewrite lookup_insert_ne by congruence.
  - done.
Qed.

(** Running [update]: nothing changes, or the fenced row gets the SET list. *)
Lemma update_run c set w n s o :
  update c set w (n, s) = o →
  (o.2.2 = s ∧ o.1 ≠ Ok ()) ∨
  ∃ id r r', canonical_id (RecordID c) = Some id ∧ rows s !! id = Some r ∧
    fence (t_now (w n)) c r = true ∧ set (t_now (w n)) r = Ok r' ∧
    o.2.2 = mkTable (<[id := r']> (rows s)) (next_id s).
Proof.
  intros <-. unfold update. destruct (canonical_id _) as [id|]; [|by left].
  destruct (_ || _); [by left|]. unfold mbind, M_bind, stmt.
  destruct (t_fault (w n)) as [e|].
  - destruct (update_row _ _ _ _) as [[k s']|e'] eqn:E; simpl; [|by left].
    destruct (t_applied (w n)); [|by left]. apply update_row_Ok in E as [[_ ->]|(_&r&r'&?&?&?&->)];
      [by left|right]. by exists id, r, r'.
  - destruct (update_row _ _ _ _) as [[k s']|e'] eqn:E; simpl; [|by left].
    apply update_row_Ok in E as [[-> ->]|(->&r&r'&?&?&?&->)]; simpl; [by left|right].
    by exists id, r, r'.
Qed.

Definition set_of (r : request) : Z → Row → result Row :=
  match r with
  | RConfirm => set_confirm
  | RRetry d code => set_retry (d / 1000 + (if negb (d mod 1000 =? 0) then 1 else 0)) code
  | RQuarantine code => set_quarantine code
  end.

Lemma set_of_sound r now : set_sound (set_of r now).
Proof. destruct r; simpl; auto with rm. Qed.

(** The three mutations are the fenced update behind their argument checks. *)
Lemma perform_update (r : request) (c : Claim) :
  request_valid r = true ∧ perform (S:=Table) r c = update c (set_of r) ∨
  request_valid r = false ∧ ∃ e, perform (S:=Table) r c = raise e.
Proof.
  destruct r as [|d code|code]; simpl; [by left|..].
  - unfold MySQL_Retry. rewrite !Z.gtb_ltb, (Z.leb_antisym 0 d), (Z.ltb_antisym (len code) 128).
    destruct (0 <? d), (code == ""%string), (len code <=? 128); simpl; eauto.
  - unfold MySQL_Quarantine. rewrite !Z.gtb_ltb, (Z.ltb_antisym (len code) 128).
    destruct (code == ""%string), (len code <=? 128); simpl; eauto.
Qed.

Lemma set_of_settle req now r r' :
  set_of req now r = Ok r' → entry_of r' = settle 1000 now (request_settlement req) (entry_of r).
Proof.
  destruct req as [|d code|code]; simpl;
    unfold set_confirm, set_retry, set_quarantine, settle, round_up;
    repeat (rewrite rbind_Ok; intros (?&[-> ?]%inc64_Ok&?));
    repeat match goal with H : rbind _ _ = Ok _ |- _ => apply rbind_Ok in H as (?&[-> ?]%inc64_Ok&?) end;
    simplify_eq/=; try done.
  by destruct (d mod 1000 =? 0).
Qed.

Lemma set_of_room req now r :
  is_Ok (set_of req now r) = true ↔
  version r < max_uint64 ∧ (req ≠ RConfirm → failure_count r < max_uint64).
Proof.
  destruct req as [|d code|code]; simpl;
    unfold set_confirm, set_retry, set_quarantine, inc64;
    repeat (case_match; simpl); boolp; split; naive_solver lia.
Qed.

(** A fenced settlement whose counters have room is applied. *)
Lemma settle_runs req c w n s id r :
  request_valid req = true → t_fault (w n) = None → Token c ≠ ""%string → Version c ≠ 0 →
  canonical_id (RecordID c) = Some id → rows s !! id = Some r → fence (t_now (w n)) c r = true →
  version r < max_uint64 ∧ (req ≠ RConfirm → failure_count r < max_uint64) →
  (perform (S:=Table) req c w (n, s)).1 = Ok ().
Proof.
  intros Hval Hq Ht Hv Hc Hr Hf Hroom. destruct (perform_update req c) as [[_ ->]|[? _]]; [|congruence].
  unfold update. rewrite Hc, bool_decide_eq_false_2, (proj2 (Z.eqb_neq _ 0)) by done. simpl.
  unfold mbind, M_bind, stmt. rewrite Hq. unfold update_row. rewrite Hr, Hf.
  apply (set_of_room req (t_now (w n))) in Hroom. by destruct (set_of req (t_now (w n)) r).
Qed.

Lemma fence_fenced now c r : fence now c r = true → fenced now c (entry_of r).
Proof.
  unfold fence, fenced. intros. boolp. destruct (lease_until r) as [l|] eqn:E; [|done]. boolp.
  simpl. repeat split; auto. eauto.
Qed.

Lemma settle_view req c now s i r r' k :
  canonical_id (RecordID c) = Some i → rows s !! i = Some r →
  fence now c r = true → set_of req now r = Ok r' →
  ∃ e, table_view s (RecordID c) = Some e ∧ fenced now c e ∧
       table_view (mkTable (<[i := r']> (rows s)) k) (RecordID c)
         = Some (settle 1000 now (request_settlement req) e).
Proof.
  intros Hc Hr Hf Hs. exists (entry_of r).
  rewrite table_view_insert, decide_True by done.
  unfold table_view. rewrite Hc; simpl. rewrite Hr. split; [done|].
  split; [by apply fence_fenced|]. by rewrite (set_of_settle _ _ _ _ Hs).
Qed.

(** ** The claim scan *)

(** What a successful [claim_one] leaves behind for a candidate. *)
Definition claim_outcome (now lease : Z) (id : Z) (r : Row) (oc : option Claim) (r' : Row) : Prop :=
  match oc with
  | None => check_row r = None ∧ ∃ t, set_corrupt t r = Ok r'
  | Some c => ∃ t m token, check_row r = Some m ∧
      set_claimed token ((now * 1000 + lease) / 1000) t r = Ok r' ∧
      c = mkClaim (FormatUint id) token (version r + 1) (attempt_count r + 1) (failure_count r)
            ((now * 1000 + lease) / 1000) m
  end.

Lemma update_row_found id p f s r k s' :
  rows s !! id = Some r → p r = true → update_row id p f s = Ok (k, s') →
  ∃ r', f r = Ok r' ∧ s' = mkTable (<[id := r']> (rows s)) (next_id s).
Proof. unfold update_row. intros -> ->. intros (r'&?&?)%rbind_Ok. naive_solver. Qed.

Lemma row_ok_mod r r' t token l :
  row_ok r → set_claimed token l t r = Ok r' →
  (version r + 1) mod 2 ^ 64 = version r + 1 ∧ (attempt_count r + 1) mod 2 ^ 64 = attempt_count r + 1.
Proof.
  intros (_&_&_&Hv&_&Ha). unfold set_claimed.
  intros (?&[-> ?]%inc64_Ok&(?&[-> ?]%inc64_Ok&_)%rbind_Ok)%rbind_Ok.
  unfold max_uint64 in *. rewrite !Z.mod_small; lia.
Qed.

Lemma claim_one_Ok now lease id r s w n oc n' s' :
  rows s !! id = Some r → row_ok r →
  claim_one now lease (id, r) w (n, s) = (Ok oc, (n', s')) →
  (n < n')%nat ∧ ∃ r', s' = mkTable (<[id := r']> (rows s)) (next_id s) ∧
             claim_outcome now lease id r oc r'.
Proof.
  intros Hr Hok. unfold claim_one. destruct (check_row r) as [m|] eqn:Hc.
  - intros (ent&[n1 s1]&He&(k&[n2 s2]&Hu&[= <- <- <-])%bind_run)%bind_run.
    apply stmt_Ok in He as [(x&_&[= <- <-])%rbind_Ok ->]. apply stmt_Ok in Hu as [Hu ->].
    apply (update_row_found _ _ _ _ r) in Hu as (r'&Hs&->); [|done|by apply Z.eqb_refl].
    split; [lia|]. exists r'. split; [done|]. destruct (row_ok_mod _ _ _ _ _ Hok Hs) as [-> ->].
    simpl. eauto 10.
  - intros (k&[n2 s2]&Hu&[= <- <- <-])%bind_run. apply stmt_Ok in Hu as [Hu ->].
    apply (update_row_found _ _ _ _ r) in Hu as (r'&Hs&->); [|done|by apply Z.eqb_refl].
    split; [lia|]. exists r'. split; [done|]. simpl. eauto.
Qed.

Lemma claim_loop_Ok now lease cands s w n ocs n' s' :
  NoDup (cands.*1) → (∀ p, p ∈ cands → rows s !! p.1 = Some p.2 ∧ row_ok p.2) →
  for_each (claim_one now lease) cands w (n, s) = (Ok ocs, (n', s')) →
  (n <= n')%nat ∧
  Forall2 (λ p oc, ∃ r', rows s' !! p.1 = Some r' ∧ claim_outcome now lease p.1 p.2 oc r') cands ocs ∧
  (∀ id, id ∉ cands.*1 → rows s' !! id = rows s !! id).
Proof.
  revert s n ocs; induction cands as [|[id r] cands IH]; intros s n ocs Hnd Hin; simpl.
  - intros [= <- <- <-]. split; [done|]. split; [constructor|done].
  - apply NoDup_cons in Hnd as [Hni Hnd].
    intros (oc&[n1 s1]&H1&(ocs'&[n2 s2]&H2&[= <- <- <-])%bind_run)%bind_run.
    destruct (Hin (id, r)) as [Hr Hok]; [by left|].
    apply claim_one_Ok in H1 as (?&r'&->&Ho); [|done|done].
    apply IH in H2 as (?&Hf&Hrest); [|done|].
    + split; [lia|]. split.
      * constructor; [|done]. exists r'. rewrite Hrest by done. simpl. by rewrite lookup_insert_eq.
      * intros j Hj. simpl in Hj. rewrite Hrest by set_solver. simpl.
        apply lookup_insert_ne. set_solver.
    + intros [j q] Hj. simpl. rewrite lookup_insert_ne; [by apply (Hin (j, q)); right|].
      intros ->. apply Hni, list_elem_of_fmap. by exists (j, q).
Qed.

Lemma select_due_elem now limit locked m p :
  p ∈ select_due now limit locked m → m !! p.1 = Some p.2 ∧ due now p.2 = true ∧ locked p.1 = false.
Proof.
  unfold select_due. intros Hp%(elem_of_take_sorted scan_le). destruct p as [id r].
  apply list_elem_of_filter in Hp as [? ?%elem_of_map_to_list]. done.
Qed.

Lemma select_due_NoDup now limit locked m : NoDup ((select_due now limit locked m).*1).
Proof.
  unfold select_due. rewrite fmap_take. eapply sublist_NoDup; [|apply sublist_take].
  rewrite (merge_sort_Permutation scan_le). eapply sublist_NoDup.
  - apply (NoDup_fst_map_to_list m).
  - apply fmap_sublist, sublist_filter.
Qed.
(** A due, unlocked row left out of the scan means a full scan of rows before it. *)
Lemma select_due_full now limit locked m id r :
  1 <= limit → m !! id = Some r → due now r = true → locked id = false →
  (id, r) ∉ select_due now limit locked m →
  llen (select_due now limit locked m) = limit ∧
  ∀ p, p ∈ select_due now limit locked m → m !! p.1 = Some p.2 ∧ scan_le p (id, r).
Proof.
  intros Hlim Hr Hd Hl Hout. unfold select_due in Hout.
  apply (take_merge_sort scan_le) in Hout as [Hn Hle].
  - split; [unfold llen, select_due; rewrite Hn; lia|]. intros p Hp. split; [|by apply Hle].
    by apply (select_due_elem now limit locked m).
  - apply list_elem_of_filter. by rewrite elem_of_map_to_list.
Qed.

(** Writes of the host in its own transactions. *)
Inductive host_write : Table → Table → Prop :=
| host_append m d w n s : host_write s (Append m d w (n, s)).2.2
| host_requeue i w n s : host_write s (RequeueConfirmed i w (n, s)).2.2.

Lemma row_le_entry r r' : row_le r r' → entry_le (entry_of r) (entry_of r').
Proof. intros [->|(?&?&?&_&?)]; [by left|right]. done. Qed.

Lemma extends_grows s s' : extends s s' → grows (table_view s) (table_view s').
Proof.
  intros [_ H] rid e. unfold table_view. destruct (canonical_id rid) as [id|]; [|done]. simpl.
  destruct (rows s !! id) as [r|] eqn:E; [|done]. intros [= <-].
  apply H in E as (r'&->&?). simpl. eauto using row_le_entry.
Qed.

Lemma check_row_intact r m : check_row r = Some m → intact (entry_of r) m.
Proof.
  unfold check_row, intact. destruct (message.New _); [|done]. case_match; [|done].
  boolp. naive_solver.
Qed.

Lemma due_claimable now r : due now r = true → claimable now (entry_of r).
Proof.
  unfold due, claimable. intros H. apply orb_true_iff in H as [H|H]; boolp; simpl.
  - left. split; [|done]. destruct (state r); naive_solver.
  - right. split; [done|]. destruct (lease_until r); [|done]. boolp. eauto.
Qed.

Lemma claim_outcome_granted now lease id r c r' :
  due now r = true → claim_outcome now lease id r (Some c) r' →
  RecordID c = FormatUint id ∧ granted now c (entry_of r) (entry_of r').
Proof.
  intros Hd (t&m&token&Hm&Hs&->). split; [done|].
  unfold set_claimed in Hs. apply rbind_Ok in Hs as (?&[-> ?]%inc64_Ok&(?&[-> ?]%inc64_Ok&?)%rbind_Ok).
  simplify_eq/=. unfold granted; simpl. eauto 20 using due_claimable, check_row_intact.
Qed.

(** The ids of a table fit the column type. *)
Lemma table_view_id s id r :
  rows s !! id = Some r → 0 < id <= max_uint64 → table_view s (FormatUint id) = Some (entry_of r).
Proof. intros Hr Hid. unfold table_view. rewrite canonical_id_format by done. simpl. by rewrite Hr. Qed.

Lemma FormatUint_inj i j :
  0 < i <= max_uint64 → 0 < j <= max_uint64 → FormatUint i = FormatUint j → i = j.
Proof.
  intros Hi Hj H%(f_equal canonical_id). rewrite !canonical_id_format in H by done. by simplify_eq.
Qed.

Lemma claim_outcomes_ids now lease cands ocs s' :
  Forall2 (λ p oc, ∃ r', rows s' !! p.1 = Some r' ∧ claim_outcome now lease p.1 p.2 oc r') cands ocs →
  sublist (map RecordID (omap id ocs)) (FormatUint <$> cands.*1).
Proof.
  induction 1 as [|p oc cands ocs (r'&_&Ho) _ IH]; [constructor|].
  destruct oc as [c|]; simpl; [|by constructor].
  destruct Ho as (?&?&?&_&_&->). by constructor.
Qed.

Lemma claims_from_scan limit lease w n s claims n' s' :
  table_ok s → MySQL_ClaimDue limit lease w (n, s) = (Ok claims, (n', s')) →
  ∃ now ocs, now = t_now (w (Datatypes.S n)) ∧ (Datatypes.S n < n')%nat ∧ 1 <= limit ∧
    claims = omap id ocs ∧
    let cands := select_due now limit (t_locked (w (Datatypes.S (Datatypes.S n)))) (rows s) in
    Forall2 (λ p oc, ∃ r', rows s' !! p.1 = Some r' ∧ claim_outcome now lease p.1 p.2 oc r') cands ocs ∧
    (∀ id, id ∉ cands.*1 → rows s' !! id = rows s !! id).
Proof.
  intros (_&Hrow&_). unfold MySQL_ClaimDue. destruct (_ || _) eqn:Hb; [done|]. boolp.
  unfold in_tx. destruct (t_fault (w n)); [done|].
  destruct ((_ : M Table (list Claim)) w (Datatypes.S n, s)) as [[cl|e] [m t]] eqn:E; [|done].
  destruct (t_fault (w m)); [done|]. intros [= <- <- <-].
  apply bind_run in E as (now&[n1 s1]&E1&(cands&[n2 s2]&E2&(ocs&[n3 s3]&E3&[= <- <- <-])%bind_run)%bind_run).
  apply stmt_Ok in E1 as [(?&[= <-]&[= <- <-])%rbind_Ok ->].
  apply stmt_Ok in E2 as [(?&[= <-]&[= <- <-])%rbind_Ok ->].
  apply claim_loop_Ok in E3 as (?&Hf&Hrest); [|apply select_due_NoDup|].
  - eexists _, ocs. repeat (split; [first [done|lia]|]). done.
  - intros p (Hp&_)%select_due_elem. split; [done|]. by apply Hrow in Hp as [_ ?].
Qed.

(** The candidates of a scan of a well-formed table are its due rows. *)
Lemma select_due_ids s now limit locked p :
  table_ok s → next_id s <= max_uint64 → p ∈ select_due now limit locked (rows s) →
  rows s !! p.1 = Some p.2 ∧ 0 < p.1 <= max_uint64 ∧ due now p.2 = true.
Proof.
  intros (_&Hrow&_) Hn (Hp&?&?)%select_due_elem. split; [done|]. apply Hrow in Hp as [? _].
  split; [lia|done].
Qed.

Lemma claims_len limit lease w n s claims n' s' :
  table_ok s → MySQL_ClaimDue limit lease w (n, s) = (Ok claims, (n', s')) → llen claims <= limit.
Proof.
  intros Hs Hc. apply claims_from_scan in Hc as (now&ocs&->&Hlt&?&->&Hf&_); [|done].
  pose proof (claim_outcomes_ids _ _ _ _ _ Hf) as Hl%sublist_length.
  rewrite length_map, !length_fmap in Hl. unfold select_due in Hl. rewrite length_take in Hl.
  unfold llen. lia.
Qed.

Lemma claims_distinct limit lease w n s claims n' s' :
  table_ok s → next_id s <= max_uint64 →
  MySQL_ClaimDue limit lease w (n, s) = (Ok claims, (n', s')) → NoDup (map RecordID claims).
Proof.
  intros Hs Hn Hc. apply claims_from_scan in Hc as (now&ocs&->&Hlt&?&->&Hf&_); [|done].
  eapply sublist_NoDup; [|by eapply claim_outcomes_ids].
  apply NoDup_fmap_2_strong; [|apply select_due_NoDup].
  intros x y (p&->&Hp)%list_elem_of_fmap (q&->&Hq)%list_elem_of_fmap.
  apply select_due_ids in Hp as (_&?&_); [|done..]. apply select_due_ids in Hq as (_&?&_); [|done..].
  by apply FormatUint_inj.
Qed.

Lemma claims_stand limit lease w n s claims n' s' :
  table_ok s → next_id s <= max_uint64 →
  MySQL_ClaimDue limit lease w (n, s) = (Ok claims, (n', s')) →
  Forall (λ c, ∃ k e e', (n <= k < n')%nat ∧ table_view s (RecordID c) = Some e ∧
                table_view s' (RecordID c) = Some e' ∧ granted (t_now (w k)) c e e') claims.
Proof.
  intros Hs Hn Hc. apply claims_from_scan in Hc as (now&ocs&->&Hlt&?&->&Hf&_); [|done].
  apply Forall_forall. intros c (oc&Hoc&Heq)%list_elem_of_omap. unfold id in Heq; subst oc.
  apply list_elem_of_lookup in Hoc as [i Hi].
  destruct (Forall2_lookup_r _ _ _ _ _ Hf Hi) as ([id r]&Hp&r'&Hr'&Ho).
  apply list_elem_of_lookup_2, (select_due_ids s) in Hp as (Hr&Hid&Hd); [|done..].
  apply claim_outcome_granted in Ho as [-> Hg]; [|done].
  exists (Datatypes.S n), (entry_of r), (entry_of r'). split; [lia|].
  split; [by apply table_view_id|]. split; [by apply table_view_id|done].
Qed.

(** Claiming, appending and requeueing make no record published. *)
Definition publishes_nothing (s s' : Table) : Prop :=
  ∀ rid e, table_view s' rid = Some e → e_state e = published → table_view s rid = Some e.

#[global] Instance publishes_nothing_preorder : PreOrder publishes_nothing.
Proof. split; [by intros s rid e ? ?|]. intros s t u H1 H2 rid e ? ?. auto. Qed.

Lemma update_row_published id (p : tick → Row → bool) (f : Z → Row → result Row) s :
  (∀ now r r', f now r = Ok r' → state r' ≠ published) →
  post (stmt (λ t s, update_row id (p t) (f (t_now t)) s)) s (λ _, publishes_nothing s).
Proof.
  intros Hf. apply post_stmt; [|reflexivity].
  intros t a s' [[_ ->]|(_&r&r'&_&_&Hr&->)]%update_row_Ok; [by split; [|intros _]; reflexivity|].
  assert (publishes_nothing s (mkTable (<[id := r']> (rows s)) (next_id s))); [|by split].
  intros rid e. rewrite table_view_insert. case_decide; [|done].
  intros [= <-] Hst. by apply Hf in Hr.
Qed.

Ltac solve_unpublished :=
  intros ? ? ?; unfold set_requeue, set_corrupt, set_claimed;
  repeat (rewrite rbind_Ok; intros (?&_&?));
  repeat match goal with H : rbind _ _ = Ok _ |- _ => apply rbind_Ok in H as (?&_&?) end;
  by simplify_eq/=.

Lemma claim_one_published now lease p s :
  post (claim_one now lease p) s (λ _, publishes_nothing s).
Proof.
  destruct p as [id r]. unfold claim_one. destruct (check_row r).
  - apply post_bind, post_query; [|reflexivity]. intros t entropy _.
    apply post_bind. eapply post_mono; [apply update_row_published; solve_unpublished|].
    intros [k|e] s' Hs'; [|done]. by apply post_ret.
  - apply post_bind. eapply post_mono; [apply update_row_published; solve_unpublished|].
    intros [k|e] s' Hs'; [|done]. by apply post_ret.
Qed.

Lemma ClaimDue_published limit lease s :
  table_ok s → post (MySQL_ClaimDue limit lease) s (λ _, publishes_nothing s).
Proof.
  intros _. unfold MySQL_ClaimDue. destruct (_ || _); [by apply post_raise|].
  apply post_in_tx; [|reflexivity].
  do 2 (apply post_bind, post_query; [|done]; intros ? ? _).
  apply post_bind. eapply post_mono.
  - apply (post_for_each _ _ (publishes_nothing s)); [|reflexivity].
    intros p s' Hs'. eapply post_mono; [apply claim_one_published|].
    intros ? s'' ?. by transitivity s'.
  - intros [claims|e] s' Hs'; [|done]. by apply post_ret.
Qed.

Lemma RequeueConfirmed_published i s : post (RequeueConfirmed i) s (λ _, publishes_nothing s).
Proof.
  unfold RequeueConfirmed. destruct (canonical_id _) as [id|]; [|by apply post_raise].
  destruct (_ || _); [by apply post_raise|]. apply post_bind.
  eapply post_mono.
  - apply (update_row_published id (λ _, _) (set_requeue _ _)). solve_unpublished.
  - intros [k|e] s' Hs'; [|done]. destruct (k =? 1); [by apply post_ret|by apply post_raise].
Qed.

Lemma Append_published m d s : table_ok s → post (Append m d) s (λ _, publishes_nothing s).
Proof.
  intros Hs. unfold Append. destruct (_ || _); [by apply post_raise|].
  assert (Hfail : ∀ s' e, publishes_nothing s s' → post (if errors_is e ErrDuplicateKey then
    existing ← query (λ _ s,
      match find_identity (identity (message.Message_Input m)) (rows s) with
      | Some (_, row) => Ok (row_fingerprint row)
      | None => Err ErrNoRows
      end);
    ensure (existing == message.Fingerprint m) ErrConflict else raise e) s' (λ _, publishes_nothing s)).
  { intros s' e Hp. destruct (errors_is _ _); [|by apply post_raise].
    apply post_bind, post_query; [|done]. intros. by apply post_ensure. }
  apply post_bind, post_catch, post_stmt; [|by intros; apply Hfail].
  intros t a s' Ha. assert (Hp : publishes_nothing s s').
  { destruct (find_identity _ _); simplify_eq. intros rid e. rewrite table_view_insert.
    case_decide; [|done]. by intros [= <-]. }
  split; [by apply post_ret|]. intros e. by apply Hfail.
Qed.

#[global] Program Instance MySQL_StoreLaws : StoreLaws Table := {
  unit_ns := 1000;
  record_of rid := rid;
  view := table_view;
  valid s := table_ok s ∧ next_id s <= max_uint64;
  host_step s s' := host_write s s' ∧ next_id s' <= max_uint64
}.
Next Obligation. done. Qed.
Next Obligation.
  intros req c w n s id Hid. destruct (perform_update req c) as [[_ ->]|[_ [e ->]]]; [|done].
  destruct (update_run c (set_of req) w n s _ eq_refl) as [[-> _]|(i&r&r'&Hc&_&_&_&->)]; [done|].
  rewrite table_view_insert. case_decide as Hi; [|done].
  apply canonical_id_Some in Hi as [? _], Hc as [? _]. simpl in Hid. congruence.
Qed.
Next Obligation.
  intros req c w n s. destruct (perform_update req c) as [[_ ->]|[_ [e ->]]]; [|by left].
  destruct (update_run c (set_of req) w n s _ eq_refl) as [[-> _]|(i&r&r'&Hc&Hr&Hf&Hs&->)]; [by left|right].
  by eapply settle_view.
Qed.
Next Obligation.
  intros req c w n s Hok. destruct (perform_update req c) as [[Hv Hp]|[_ [e He]]].
  2: { by rewrite He in Hok. }
  rewrite Hp in *. split; [done|].
  destruct (update_run c (set_of req) w n s _ eq_refl) as [[_ ?]|(i&r&r'&Hc&Hr&Hf&Hs&->)]; [done|].
  by eapply settle_view.
Qed.
Next Obligation.
  intros req c w n s e. unfold table_view. intros (id&Hc&He)%bind_Some.
  apply fmap_Some in He as (r&Hr&->). intros Hf [? ?] ? ? ? ?. simpl in *.
  apply (settle_runs req c w n s id r); try done; [|unfold max_uint64; split; [lia|intros _; lia]].
  destruct Hf as (?&?&?&l&?&?). simpl in *. unfold fence.
  rewrite !bool_decide_eq_true_2 by done. destruct (lease_until r); simplify_eq. simpl. lia.
Qed.
Next Obligation.
  intros req c w n s [Hs Hn]. destruct (perform_update req c) as [[_ ->]|[_ [e ->]]]; [|done].
  destruct (update_run c (set_of req) w n s _ eq_refl) as [[-> _]|(i&r&r'&Hc&Hr&Hf&Hset&->)]; [done|].
  split; [|done]. eapply insert_preserved; eauto; by eapply set_of_sound.
Qed.
Next Obligation.
  intros limit lease w n s claims n' s' [Hs Hn] Hc.
  pose proof (claims_len _ _ _ _ _ _ _ _ Hs Hc). apply claims_stand in Hc; [|done..].
  split; [done|]. eapply Forall_impl; [exact Hc|].
  intros c (k&e&e'&?&?&?&?). exists k, e, e, e', e'. split; [done|]. split_and!; try done; by left.
Qed.
Next Obligation.
  intros limit lease w n s claims n' s' [Hs Hn] Hc _.
  split; [by eapply claims_distinct|]. apply claims_stand in Hc; [|done..].
  eapply Forall_impl; [exact Hc|]. intros c (k&e&e'&_&_&He'&Hg). exists e'. split; [done|].
  unfold granted in Hg. unfold held. naive_solver.
Qed.
Next Obligation.
  intros limit lease w n s [Hs Hn]. split; [|split].
  - apply extends_grows. by apply ClaimDue_preserved.
  - by apply ClaimDue_preserved.
  - assert (He : post (MySQL_ClaimDue limit lease) s (λ _ s', next_id s' = next_id s)).
    { unfold MySQL_ClaimDue. destruct (_ || _); [by apply post_raise|]. apply post_in_tx; [|done].
      do 2 (apply post_bind, post_query; [|done]; intros ? ? _).
      apply post_bind. eapply post_mono.
      - apply (post_for_each _ _ (λ s', next_id s' = next_id s)); [|done].
        intros p s' Hs'. rewrite <-Hs'. apply claim_one_next_id.
      - intros [?|?] s' ?; [|done]. by apply post_ret. }
    simpl. by rewrite He.
Qed.
Next Obligation.
  intros s s' [Hs Hn] [Hw Hn']. assert (preserved s s') as [? ?].
  { destruct Hw; [by apply Append_preserved|by apply RequeueConfirmed_preserved]. }
  split; [by apply extends_grows|auto].
Qed.
Next Obligation.
  intros limit lease w n s rid e [Hs _] He Hst. simpl in *.
  exact (ClaimDue_published limit lease s Hs w n rid e He Hst).
Qed.
Next Obligation.
  intros s s' rid e [Hs _] [Hw _] He Hst. simpl in *.
  destruct Hw as [m d w n s|i w n s].
  - exact (Append_published m d s Hs w n rid e He Hst).
  - exact (RequeueConfirmed_published i s w n rid e He Hst).
Qed.
Next Obligation.
  intros s rid e [(_&Hrow&_) _] He Hst. simpl in *. unfold table_view in He.
  apply bind_Some in He as (id&_&He). apply fmap_Some in He as (r&Hr&->).
  apply Hrow in Hr as [_ (Hp&_)]. simpl in *. destruct (Hp Hst) as [_ ->]. done.
Qed.

(** ** Correctness of the adapter *)

(** C18: Every operation of the adapter keeps the table invariant (tokens and
    leases exactly on publishing rows, unique identities, bounded counters) and
    only ever moves a row to a higher version with the same immutable content,
    fingerprint and confirmation evidence, under any driver failures. *)
Theorem rows_only_advance s s' :
  table_ok s → next_id s <= max_uint64 → rtc system_step s s' → extends s s' ∧ table_ok s'.
Proof.
  intros Hs Hn Hr. revert Hs Hn. induction Hr as [s|s t u Hst _ IH]; intros Hs Hn; [by split|].
  assert (preserved s t ∧ next_id t <= max_uint64) as [[Hx Hk] Ht].
  { assert (Hvs : valid s) by exact (conj Hs Hn).
    destruct (system_step_grows s t Hvs Hst) as [_ [_ Hv]]. split; [|done].
    destruct Hst as [limit lease w n s|req c w n s|s t [Hw _]].
    - by apply ClaimDue_preserved.
    - destruct (perform_update req c) as [[_ ->]|[_ [e ->]]]; [|reflexivity].
      apply (update_preserved c (set_of req)); auto using set_of_sound.
    - destruct Hw; [by apply Append_preserved|by apply RequeueConfirmed_preserved]. }
  destruct (IH (Hk Hs) Ht) as [? ?]. split; [by transitivity t|done].
Qed.

(** What [ClaimDue] did to a row of its scan: it handed out a claim of it, or
    quarantined it because its content no longer matches its fingerprint. *)
Definition taken (claims : list Claim) (s' : Table) (p : Z * Row) : Prop :=
  (∃ c, c ∈ claims ∧ RecordID c = FormatUint p.1) ∨
  (check_row p.2 = None ∧ state <$> rows s' !! p.1 = Some quarantined).

Lemma outcomes_taken now lease s' cands ocs p :
  Forall2 (λ p oc, ∃ r', rows s' !! p.1 = Some r' ∧ claim_outcome now lease p.1 p.2 oc r') cands ocs →
  p ∈ cands → taken (omap id ocs) s' p.
Proof.
  intros Hf [i Hi]%list_elem_of_lookup.
  destruct (Forall2_lookup_l _ _ _ _ _ Hf Hi) as ([c|]&Hoc&r'&Hr'&Ho); [left|right].
  - exists c. destruct Ho as (?&?&?&_&_&->). split; [|done].
    apply list_elem_of_omap. eexists. split; [by eapply list_elem_of_lookup_2|done].
  - destruct Ho as [? [t Ho]]. split; [done|]. rewrite Hr'. simpl.
    unfold set_corrupt in Ho.
    apply rbind_Ok in Ho as (?&_&(?&_&?)%rbind_Ok). by simplify_eq.
Qed.

(** C25: [ClaimDue] starves nobody: when it succeeds, every due row that no other
    session holds locked is taken by this call (claimed, or quarantined
    because its content no longer matches its fingerprint), or else this call
    took as many other rows as the limit allows, each of them due at the same
    clock, unlocked, and no later in (next_attempt_at, id) order. *)
Theorem claim_no_starvation s s' limit lease w n claims n' id r :
  table_ok s → MySQL_ClaimDue limit lease w (n, s) = (Ok claims, (n', s')) →
  rows s !! id = Some r → due (t_now (w (Datatypes.S n))) r = true →
  t_locked (w (Datatypes.S (Datatypes.S n))) id = false →
  taken claims s' (id, r) ∨
  (∃ batch, NoDup batch.*1 ∧ llen batch = limit ∧ (id, r) ∉ batch ∧
     ∀ p, p ∈ batch → rows s !! p.1 = Some p.2 ∧ due (t_now (w (Datatypes.S n))) p.2 = true ∧
       t_locked (w (Datatypes.S (Datatypes.S n))) p.1 = false ∧
       taken claims s' p ∧ scan_le p (id, r)).
Proof.
  intros Hs Hc Hr Hd Hl. apply claims_from_scan in Hc as (now&ocs&->&_&Hlim&->&Hf&_); [|done].
  set (cands := select_due _ _ _ _) in *.
  destruct (decide ((id, r) ∈ cands)) as [Hin|Hout]; [left; by eapply outcomes_taken|].
  right. exists cands. split; [apply select_due_NoDup|].
  destruct (select_due_full _ _ _ _ _ _ Hlim Hr Hd Hl Hout) as [Hn Hle].
  split; [exact Hn|]. split; [done|]. intros p Hp. destruct (Hle p Hp) as [_ ?].
  destruct (select_due_elem _ _ _ _ _ Hp) as (?&?&?). eauto 6 using outcomes_taken.
Qed.

(** [Append] on every branch, with no driver failure: a fresh identity is
    inserted as a pending row due at the given time; a present one is left
    alone, successfully when the stored fingerprint is that of the message and
    with the conflict error otherwise. *)
Theorem append_outcome s m d w n :
  message.Message_Valid m = true → d ≠ 0 →
  t_fault (w n) = None → t_fault (w (Datatypes.S n)) = None →
  match find_identity (identity (message.Message_Input m)) (rows s) with
  | None =>
    Append m d w (n, s) = (Ok (), (Datatypes.S n,
      mkTable (<[next_id s := mkRow (message.Message_Input m) (message.Fingerprint m) pending
                 (d / 1000) None None 0 0 0 "" None None None (t_now (w n)) (t_now (w n))]> (rows s))
              (next_id s + 1)))
  | Some (_, r) =>
    Append m d w (n, s) =
      (if row_fingerprint r == message.Fingerprint m then Ok () else Err ErrConflict,
       (Datatypes.S (Datatypes.S n), s))
  end.
Proof.
  intros Hm Hd H1 H2. unfold Append. rewrite Hm, (proj2 (Z.eqb_neq d 0)) by done. simpl.
  unfold mbind, M_bind, catch, stmt. rewrite H1.
  destruct (find_identity _ (rows s)) as [[id r]|] eqn:Hf; [|done].
  simpl. rewrite H2, Hf. simpl. by destruct (_ == _).
Qed.

(** A settlement, with no driver failure, succeeds exactly when its
    arguments are acceptable, the stored row still carries the claim (state,
    token, version, an unexpired lease) and its counters have room; otherwise
    nothing is written. *)
Theorem settle_iff s req c w n :
  t_fault (w n) = None → Token c ≠ ""%string → Version c ≠ 0 →
  ((perform (S:=Table) req c w (n, s)).1 = Ok () ↔
     request_valid req = true ∧
     ∃ id r, canonical_id (RecordID c) = Some id ∧ rows s !! id = Some r ∧
             fence (t_now (w n)) c r = true ∧ version r < max_uint64 ∧
             (req ≠ RConfirm → failure_count r < max_uint64)) ∧
  ((perform (S:=Table) req c w (n, s)).1 ≠ Ok () → (perform (S:=Table) req c w (n, s)).2.2 = s).
Proof.
  intros Hq Ht Hv. destruct (perform_update req c) as [[Hval ->]|[Hval [e ->]]].
  2: { simpl. rewrite Hval. split; [|done]. split; [done|]. by intros [? _]. }
  unfold update. destruct (canonical_id (RecordID c)) as [id|] eqn:Hc.
  2: { simpl. split; [|done]. split; [done|]. intros (_&?&?&?&_). congruence. }
  rewrite bool_decide_eq_false_2, (proj2 (Z.eqb_neq _ 0)) by done. simpl.
  unfold mbind, M_bind, stmt. rewrite Hq. unfold update_row.
  destruct (rows s !! id) as [r|] eqn:Hr; simpl.
  2: { split; [|done]. split; [done|]. intros (_&?&?&?&?&_). congruence. }
  destruct (fence (t_now (w n)) c r) eqn:Hf; simpl.
  2: { split; [|done]. split; [done|]. intros (_&?&?&?&?&?&_). congruence. }
  pose proof (set_of_room req (t_now (w n)) r) as Hroom.
  destruct (set_of req (t_now (w n)) r) as [r'|e]; simpl in *.
  - split; [|done]. split; [|done]. intros _. split; [done|]. exists id, r.
    destruct Hroom as [Hroom _]. by destruct (Hroom eq_refl).
  - split; [|done]. split; [done|]. intros (_&?&?&?&?&_&Hrest). simplify_eq.
    by apply Hroom in Hrest.
Qed.

(** A relay that settles in time succeeds: a record handed out by [ClaimDue]
    and untouched since accepts Confirm, Retry or Quarantine at any clock before
    the lease end of the claim. *)
Theorem claim_then_settle s s' limit lease w n n' claims c req w' k :
  table_ok s → next_id s <= max_uint64 →
  MySQL_ClaimDue limit lease w (n, s) = (Ok claims, (n', s')) → c ∈ claims →
  request_valid req = true → Token c ≠ ""%string →
  Version c < max_uint64 → FailureCount c < max_uint64 →
  t_fault (w' k) = None → t_now (w' k) < LeaseUntil c →
  (perform (S:=Table) req c w' (k, s')).1 = Ok ().
Proof.
  intros Hs Hn Hc Hin Hreq Ht Hv Hfc Hq Hnow.
  apply claims_from_scan in Hc as (now&ocs&->&_&Hlim&->&Hf&_); [|done].
  apply list_elem_of_omap in Hin as (oc&Hoc&Heq). unfold id in Heq; subst oc.
  apply list_elem_of_lookup in Hoc as [i Hi].
  destruct (Forall2_lookup_r _ _ _ _ _ Hf Hi) as ([id r]&Hp&r'&Hr'&Ho).
  apply list_elem_of_lookup_2, select_due_elem in Hp as (Hr&_&_). simpl in Hr, Hr'.
  destruct Hs as (_&Hrow&_). apply Hrow in Hr as [Hid Hok].
  destruct Ho as (t&m&token&Hm&Hset&->). simpl in *.
  unfold set_claimed in Hset. apply rbind_Ok in Hset as (?&[-> ?]%inc64_Ok&(?&[-> ?]%inc64_Ok&?)%rbind_Ok).
  destruct Hok as (_&_&_&?&_). simplify_eq/=.
  eapply (settle_runs req _ w' k s' id); [done|done|done|simpl; lia| |exact Hr'| |simpl; split; [lia|done]].
  - apply canonical_id_format. lia.
  - unfold fence; simpl. rewrite bool_decide_eq_true_2, Z.eqb_refl by done. simpl. lia.
Qed.

(** ** A concrete run

    One message is appended, claimed, confirmed; the clock is in microseconds. *)

Definition ex_world (now : Z) : world := λ _, mkTick now None false "entropy" (λ _, false).

Definition ex_message : message.Message :=
  let i := message.vector_input (message.vector_payload "1") in
  message.mkMessage i (message.compute_fingerprint i).

Definition ex_s0 : Table := mkTable ∅ 1.
Definition ex_s1 : Table := (Append ex_message 5000 (ex_world 1) (0%nat, ex_s0)).2.2.
Definition ex_claim : Claim :=
  mkClaim "1" (hex_encode "entropy") 1 1 0 1100 ex_message.
Definition ex_s2 : Table := (MySQL_ClaimDue 10 1000000 (ex_world 100) (0%nat, ex_s1)).2.2.
Definition ex_row1 : Row :=
  mkRow (message.input ex_message) (message.fingerprint ex_message) pending 5 None None 0 0 0 ""
    None None None 1 1.

Lemma ex_s1_ok : table_ok ex_s1 ∧ next_id ex_s1 <= max_uint64.
Proof.
  split; [|vm_compute; discriminate].
  assert (Hs : table_ok ex_s0) by (repeat split; intros *; rewrite ?lookup_empty; done).
  apply (Append_preserved ex_message 5000 ex_s0 Hs (ex_world 1) 0%nat), Hs.
Qed.

Lemma ex_claims : MySQL_ClaimDue 10 1000000 (ex_world 100) (0%nat, ex_s1)
  = (Ok [ex_claim], (6%nat, ex_s2)).
Proof. vm_compute. reflexivity. Qed.

Lemma ex_s2_ok : table_ok ex_s2 ∧ next_id ex_s2 <= max_uint64.
Proof.
  split; [|vm_compute; discriminate].
  apply (ClaimDue_preserved 10 1000000 ex_s1 (ex_world 100) 0%nat), ex_s1_ok.
Qed.

Lemma rows_only_advance_witness : extends ex_s1 ex_s2 ∧ table_ok ex_s2.
Proof.
  apply rows_only_advance; [apply ex_s1_ok|apply ex_s1_ok|].
  apply rtc_once. exact (step_claim 10 1000000 (ex_world 100) 0%nat ex_s1).
Defined.

(** With room for one row, the second of two due rows waits: the call took the
    first one instead. *)
Definition ex_later : message.Message :=
  let i := message.mkInput "iam" "iam-fixture-2" "iam.authz.version.v2" "iam.authz.version_changed.v2"
             "legacy-v2" "scope:global" "application/json" "2026-09-22T00:00:00Z"
             (message.vector_payload "2") in
  message.mkMessage i (message.compute_fingerprint i).
Definition ex_two : Table := (Append ex_later 6000 (ex_world 1) (0%nat, ex_s1)).2.2.
Definition ex_two' : Table := (MySQL_ClaimDue 1 1000000 (ex_world 100) (0%nat, ex_two)).2.2.
Definition ex_row2 : Row :=
  mkRow (message.input ex_later) (message.fingerprint ex_later) pending 6 None None 0 0 0 ""
    None None None 1 1.

Lemma ex_two_ok : table_ok ex_two.
Proof. apply (Append_preserved ex_later 6000 ex_s1 (proj1 ex_s1_ok) (ex_world 1) 0%nat), ex_s1_ok. Qed.

Lemma ex_two_claims : MySQL_ClaimDue 1 1000000 (ex_world 100) (0%nat, ex_two)
  = (Ok [ex_claim], (6%nat, ex_two')).
Proof. vm_compute. reflexivity. Qed.

Lemma claim_no_starvation_witness :
  taken [ex_claim] ex_two' (2, ex_row2) ∨
  (∃ batch, NoDup batch.*1 ∧ llen batch = 1 ∧ (2, ex_row2) ∉ batch ∧
     ∀ p, p ∈ batch → rows ex_two !! p.1 = Some p.2 ∧ due 100 p.2 = true ∧ false = false ∧
       taken [ex_claim] ex_two' p ∧ scan_le p (2, ex_row2)).
Proof.
  eapply (claim_no_starvation ex_two ex_two' 1 1000000 (ex_world 100) 0%nat [ex_claim] 6%nat);
    [apply ex_two_ok|exact ex_two_claims|vm_compute; reflexivity..].
Defined.

Lemma append_outcome_witness :
  Append ex_message 5000 (ex_world 1) (0%nat, ex_s1) = (Ok (), (2%nat, ex_s1)).
Proof.
  exact (append_outcome ex_s1 ex_message 5000 (ex_world 1) 0%nat eq_refl
           ltac:(discriminate) eq_refl eq_refl).
Defined.

Lemma settle_iff_witness :
  (perform (S:=Table) RConfirm ex_claim (ex_world 200) (0%nat, ex_s2)).1 = Ok () ∧
  (perform (S:=Table) RConfirm ex_claim (ex_world 2000) (0%nat, ex_s2)).2.2 = ex_s2.
Proof.
  split.
  - apply settle_iff; [reflexivity|discriminate|discriminate|]. split; [reflexivity|].
    eexists 1, _. split; [vm_compute; reflexivity|]. split; [vm_compute; reflexivity|].
    split; [vm_compute; reflexivity|]. split; [vm_compute; reflexivity|]. by intros [].
  - apply settle_iff; [reflexivity|discriminate|discriminate|]. vm_compute. discriminate.
Defined.

Lemma claim_then_settle_witness :
  (perform (S:=Table) (RRetry 1500 "transport") ex_claim (ex_world 1099) (0%nat, ex_s2)).1 = Ok ().
Proof.
  apply (claim_then_settle ex_s1 ex_s2 10 1000000 (ex_world 100) 0%nat 6%nat [ex_claim]);
    [apply ex_s1_ok|apply ex_s1_ok|exact ex_claims|by left|reflexivity|discriminate|
     vm_compute; reflexivity..].
Defined.

Lemma settled_once_witness :
  (perform (S:=Table) RConfirm ex_claim (ex_world 200) (0%nat, ex_s2)).1 = Ok () ∧
  (perform (S:=Table) RConfirm ex_claim (ex_world 300)
     (0%nat, (perform (S:=Table) RConfirm ex_claim (ex_world 200) (0%nat, ex_s2)).2.2)).1 ≠ Ok ().
Proof.
  split; [vm_compute; reflexivity|].
  assert (Hv : valid ex_s2) by exact ex_s2_ok.
  refine (proj1 (settled_once ex_s2 _ RConfirm ex_claim (ex_world 200) 0%nat Hv _
                   (rtc_refl _ _) RConfirm (ex_world 300) 0%nat)).
  vm_compute. reflexivity.
Defined.

(** The record is claimed and confirmed, so a Confirm on the way explains it. *)
Definition ex_s2' : Table := (perform (S:=Table) RConfirm ex_claim (ex_world 200) (0%nat, ex_s2)).2.2.

Lemma never_lost_witness :
  ∃ e e', view ex_s1 "1" = Some e ∧ view ex_s2' "1" = Some e' ∧ e_content e' = e_content e ∧
    e_state e' = published ∧
    (e' = e ∨ ∃ t t', rtc system_step ex_s1 t ∧ confirmed_by t t' "1" e' ∧ rtc system_step t' ex_s2').
Proof.
  assert (Hv : valid ex_s1) by exact ex_s1_ok.
  assert (He : view ex_s1 "1" = Some (entry_of ex_row1)) by (vm_compute; reflexivity).
  destruct (never_lost ex_s1 ex_s2' "1" (entry_of ex_row1) Hv
    (rtc_l _ _ _ _ (step_claim 10 1000000 (ex_world 100) 0%nat ex_s1)
       (rtc_once _ _ (step_settle RConfirm ex_claim (ex_world 200) 0%nat ex_s2))) He) as (e'&H1&H2&_&H4).
  assert (Hp : e_state e' = published) by (vm_compute in H1; injection H1 as <-; reflexivity).
  exists (entry_of ex_row1), e'. split; [exact He|]. split; [exact H1|]. split; [exact H2|].
  split; [exact Hp|exact (H4 Hp)].
Defined.

(** The lease of [ex_claim] ends at 1100; the record is claimed again at 1200. *)
Definition ex_claim2 : Claim := mkClaim "1" (hex_encode "entropy") 2 2 0 2200 ex_message.
Definition ex_s3 : Table := (MySQL_ClaimDue 1 1000000 (ex_world 1200) (0%nat, ex_s2)).2.2.

Lemma superseded_claim_witness :
  MySQL_ClaimDue 1 1000000 (ex_world 1200) (0%nat, ex_s2) = (Ok [ex_claim2], (6%nat, ex_s3)) ∧
  (perform (S:=Table) RConfirm ex_claim (ex_world 1300) (0%nat, ex_s3)).1 ≠ Ok ().
Proof.
  assert (Hv : valid ex_s2) by exact ex_s2_ok.
  assert (Hc : MySQL_ClaimDue 1 1000000 (ex_world 1200) (0%nat, ex_s2)
               = (Ok [ex_claim2], (6%nat, ex_s3))) by (vm_compute; reflexivity).
  split; [exact Hc|].
  exact (proj1 (superseded_claim ex_s2 ex_s3 ex_s3 1 1000000 (ex_world 1200) 0%nat 6%nat [ex_claim2]
           ex_claim2 ex_claim Hv Hc ltac:(by left) eq_refl eq_refl (rtc_refl _ _)
           RConfirm (ex_world 1300) 0%nat)).
Defined.

End mysql.
