(* ===== verification/StorageMongo.v ===== *)
(** * storage/mongo: the standard-schema outbox on MongoDB

    [storage/mongo/store.go] and [appender.go].  The collection is a finite map
    from the raw octets of the [_id] value to documents; every driver call is
    one statement of [Database]; times are BSON dates, in milliseconds.  The
    BSON codec belongs to the driver and is the class [BSON].  Counters are
    BSON longs, assumed to stay below 2^63. *)

From S2P Require Import Prelude GoStd Database Message Outbox.

(** What the adapter relies on of the driver's BSON library: documents built
    from different identities have different octets, an encoded document is
    not empty and passes [bson.Raw.Validate], and the server orders [_id]
    values totally. *)
Class BSON : Type := {
  marshal_identity : string * string * string → bytes;
  raw_valid : bytes → bool;
  id_le : bytes → bytes → Prop;
  id_le_dec : RelDecision id_le;
  id_le_total : Total id_le;
  id_le_trans : Transitive id_le;
  marshal_inj : Inj (=) (=) marshal_identity;
  marshal_valid : ∀ i, raw_valid (marshal_identity i) = true ∧ marshal_identity i ≠ ""%string
}.
#[export] Existing Instances id_le_dec id_le_total id_le_trans marshal_inj.

Module mongo.
Import outbox.

(** One document; counters that [Append] does not write may be missing. *)
Record Doc : Type := mkDoc {
  content : message.Input;
  doc_fingerprint : bytes;
  state : State;
  next_attempt_at : Z;
  claim_token : option string;
  lease_until : option Z;
  version : Z;
  attempt_count : option Z;
  failure_count : option Z;
  last_error_code : string;
  transport_confirmed_at : option Z;
  created_at : Z;
  updated_at : Z
}.

#[global] Instance Doc_eq_dec : EqDecision Doc.
Proof. solve_decision. Defined.

Abbreviation Collection := (gmap bytes Doc).

Definition identity (i : message.Input) : string * string * string :=
  (message.Producer i, message.ID i, message.Destination i).

(** BSON dates are whole milliseconds. *)
Definition bson_date (t : Z) : Z := t / 1000000.

Section mongo.
Context `{BSON}.

(** ** Appender

    [active] tells whether the session runs a transaction, [now] is the host's
    clock; the collection handle is never nil. *)
Definition Append (active : bool) (now : Z) (m : message.Message) (due : Z) : M Collection () :=
  if negb active then raise ErrTransactionRequired
  else if negb (message.Message_Valid m) || (due =? 0) then
    raise (ErrMsg "valid message and due time required")
  else
    let i := message.Message_Input m in
    let hash := message.Fingerprint m in
    let id := marshal_identity (identity i) in
    _ ← stmt (λ _ s,
          Ok ((), match s !! id with
                  | Some _ => s
                  | None => <[id := mkDoc i hash pending (bson_date due) None None 0 None None ""
                                      None (bson_date now) (bson_date now)]> s
                  end));
    existing ← query (λ _ s, match s !! id with
                             | Some d => Ok (doc_fingerprint d)
                             | None => Err ErrNoRows
                             end);
    ensure (existing == hash) ErrConflict.

(** ** Store *)

(** The claim filter; a missing date sorts before every date. *)
Definition claim_filter (now : Z) (d : Doc) : bool :=
  ((state d == pending) || (state d == retry_wait) || (state d == publishing)) &&
  (next_attempt_at d <=? now) &&
  (((state d == pending) || (state d == retry_wait)) ||
   ((state d == publishing) && match lease_until d with Some l => l <=? now | None => true end)).

(** Sort by next_attempt_at, then _id. *)
Definition sort_le (p q : bytes * Doc) : Prop :=
  next_attempt_at p.2 < next_attempt_at q.2 ∨
  (next_attempt_at p.2 = next_attempt_at q.2 ∧ id_le p.1 q.1).

#[global] Instance sort_le_dec : RelDecision sort_le.
Proof. intros p q. unfold sort_le. apply _. Defined.

#[global] Instance sort_le_total : Total sort_le.
Proof. intros p q. unfold sort_le.
  destruct (Z.lt_trichotomy (next_attempt_at p.2) (next_attempt_at q.2)) as [?|[?|?]]; [auto..|auto].
  destruct (total id_le p.1 q.1); auto.
Qed.

#[global] Instance sort_le_trans : Transitive sort_le.
Proof.
  intros p q r. unfold sort_le. intros [?|[? ?]] [?|[? ?]]; [left; lia..|right].
  split; [lia|]. by transitivity q.1.
Qed.

Definition first_due (now : Z) (s : Collection) : option (bytes * Doc) :=
  head (merge_sort sort_le (filter (λ p, claim_filter now p.2 = true) (map_to_list s))).

Definition if_null (v : option Z) : Z := default 0 v.

(** The update pipeline of the claim. *)
Definition set_claimed (token : string) (lease_due now : Z) (d : Doc) : Doc :=
  mkDoc (content d) (doc_fingerprint d) publishing lease_due (Some token) (Some lease_due)
    (version d + 1) (Some (if_null (attempt_count d) + 1)) (failure_count d) (last_error_code d)
    (transport_confirmed_at d) (created_at d) now.

(** FindOneAndUpdate ... SetReturnDocument(After): the updated document. *)
Definition find_and_claim (token : string) (lease : Z) : M Collection (option (bytes * Doc)) :=
  stmt (λ t s,
    match first_due (t_now t) s with
    | None => Ok (None, s)
    | Some (id, d) =>
      let d' := set_claimed token (t_now t + lease / 1000000) (t_now t) d in
      Ok (Some (id, d'), <[id := d']> s)
    end).

(** [update]: the fenced mutation of one document. *)
Definition fence (now : Z) (c : Claim) (d : Doc) : bool :=
  (claim_token d == Some (Token c)) && (version d =? Version c) && (state d == publishing) &&
  match lease_until d with Some l => l >? now | None => false end.

Definition set_settled (st : State) (code : string) (confirm : bool) (delay : Z) (failure : bool)
    (now : Z) (d : Doc) : Doc :=
  mkDoc (content d) (doc_fingerprint d) st
    (if delay >? 0 then
       now + (delay / 1000000 + (if negb (delay mod 1000000 =? 0) then 1 else 0))
     else next_attempt_at d)
    None None (version d + 1) (attempt_count d)
    (if failure then Some (if_null (failure_count d) + 1) else failure_count d) code
    (if confirm then Some now else transport_confirmed_at d) (created_at d) now.

Definition record_key (rid : string) : option bytes :=
  id ← hex_decode rid; if (len id =? 0) || negb (raw_valid id) then None else Some id.

Definition update (c : Claim) (st : State) (code : string) (confirm : bool) (delay : Z)
    (failure : bool) : M Collection () :=
  match record_key (RecordID c) with
  | None => raise ErrStaleClaim
  | Some id =>
    if (Token c == ""%string) || (Version c =? 0) then raise ErrStaleClaim
    else
      n ← stmt (λ t s,
        match s !! id with
        | Some d => if fence (t_now t) c d
                    then Ok (1, <[id := set_settled st code confirm delay failure (t_now t) d]> s)
                    else Ok (0, s)
        | None => Ok (0, s)
        end);
      if n =? 1 then mret () else raise (ErrWrap "matched" ErrStaleClaim)
  end.

Definition Mongo_Confirm (c : Claim) : M Collection () := update c published "" true 0 false.

Definition Mongo_Retry (c : Claim) (delay : Z) (code : string) : M Collection () :=
  if (delay <=? 0) || (code == ""%string) || (len code >? 128) then
    raise (ErrMsg "retry requires positive delay and bounded code")
  else update c retry_wait code false delay true.

Definition Mongo_Quarantine (c : Claim) (code : string) : M Collection () :=
  if (code == ""%string) || (len code >? 128) then
    raise (ErrMsg "bounded quarantine code required")
  else update c quarantined code false 0 true.

Definition check_doc (d : Doc) : option message.Message :=
  match message.New (content d) with
  | Ok m => if message.Fingerprint m == doc_fingerprint d then Some m else None
  | Err _ => None
  end.

Definition claim_of (id : bytes) (token : string) (d : Doc) (m : message.Message) : Claim :=
  mkClaim (hex_encode id) token (version d) (if_null (attempt_count d)) (if_null (failure_count d))
    (default 0 (lease_until d)) m.

(** The loop of [ClaimDue]: each round claims one document of its own accord;
    a corrupt one is quarantined with the claim just taken. *)
Fixpoint claim_rounds (rounds : nat) (lease : Z) : M Collection (list Claim) :=
  match rounds with
  | O => mret []
  | Datatypes.S rounds =>
    entropy ← rand_read;
    let token := hex_encode entropy in
    found ← find_and_claim token lease;
    match found with
    | None => mret []
    | Some (id, d) =>
      match check_doc d with
      | None =>
        _ ← Mongo_Quarantine (claim_of id token d message.zeroMessage) "invalid_immutable_content";
        claim_rounds rounds lease
      | Some m => claims ← claim_rounds rounds lease; mret (claim_of id token d m :: claims)
      end
    end
  end.

Definition Mongo_ClaimDue (limit lease : Z) : M Collection (list Claim) :=
  if (limit <? 1) || (limit >? 1000) || (lease <? 1000000) || (lease >? 86400000000000)
  then raise (ErrMsg "limit 1..1000 and lease 1ms..24h required")
  else claim_rounds (Z.to_nat limit) lease.

#[global] Instance Mongo_Store : Store Collection := {
  ClaimDue := Mongo_ClaimDue;
  Confirm := Mongo_Confirm;
  Retry := Mongo_Retry;
  Quarantine := Mongo_Quarantine
}.

(** ** Invariant and contract *)

Definition doc_ok (d : Doc) : Prop :=
  (state d = publishing → is_Some (claim_token d) ∧ lease_until d = Some (next_attempt_at d)) ∧
  (state d ≠ publishing → claim_token d = None ∧ lease_until d = None) ∧ 0 <= version d.

Definition collection_ok (s : Collection) : Prop :=
  ∀ id d, s !! id = Some d → doc_ok d ∧ id ≠ ""%string ∧ raw_valid id = true.

Definition entry_of (d : Doc) : entry :=
  mkEntry (content d) (doc_fingerprint d) (state d) (claim_token d) (version d) (lease_until d)
    (next_attempt_at d) (if_null (attempt_count d)) (if_null (failure_count d))
    (transport_confirmed_at d).

Definition collection_view (s : Collection) (rid : string) : option entry :=
  id ← record_key rid; entry_of <$> s !! id.

Definition normal_id (rid : string) : string :=
  match hex_decode rid with Some b => hex_encode b | None => rid end.

Lemma record_key_normal rid : record_key (normal_id rid) = record_key rid.
Proof.
  unfold record_key, normal_id. destruct (hex_decode rid) eqn:E; [|by rewrite E].
  by rewrite hex_decode_encode.
Qed.

Lemma record_key_Some rid id : record_key rid = Some id → normal_id rid = hex_encode id.
Proof.
  unfold record_key, normal_id. destruct (hex_decode rid); simpl; [|done].
  case_match; [done|]. by intros [= ->].
Qed.

Lemma record_key_encode id :
  id ≠ ""%string → raw_valid id = true → record_key (hex_encode id) = Some id.
Proof.
  intros Hn Hv. unfold record_key. rewrite hex_decode_encode; simpl. rewrite Hv.
  destruct id; [done|]. done.
Qed.

Lemma collection_view_insert s id d rid :
  collection_view (<[id := d]> s) rid =
  if decide (record_key rid = Some id) then Some (entry_of d) else collection_view s rid.
Proof.
  unfold collection_view. destruct (record_key rid) as [j|]; simpl; [|done].
  case_decide; simplify_eq.
  - by rewrite lookup_insert_eq.
  - by rewrite lookup_insert_ne by congruence.
Qed.

(** What claiming and settling keep. *)
Definition preserved (s s' : Collection) : Prop :=
  grows (collection_view s) (collection_view s') ∧ (collection_ok s → collection_ok s') ∧
  dom s' = dom s.

#[global] Instance preserved_preorder : PreOrder preserved.
Proof.
  split; [intros s; split; [reflexivity|done]|]. intros s t u (?&?&?) (?&?&?).
  split; [by transitivity (collection_view t)|]. split; [auto|congruence].
Qed.

Lemma mongo_insert_preserved s id d d' :
  s !! id = Some d → entry_le (entry_of d) (entry_of d') → (doc_ok d → doc_ok d') →
  preserved s (<[id := d']> s).
Proof.
  intros Hd Hle Hok. split; [|split].
  - intros rid e He. rewrite collection_view_insert. case_decide as Hk; [|by exists e; split; [|left]].
    exists (entry_of d'). split; [done|]. unfold collection_view in He. rewrite Hk in He. simpl in He.
    by rewrite Hd in He; simplify_eq/=.
  - intros Hs j q [[<- <-]|[? Hq]]%lookup_insert_Some; [|by apply Hs].
    apply Hs in Hd as (?&?&?). auto.
  - rewrite dom_insert_lookup_L; [done|by eexists].
Qed.

Lemma set_claimed_le token l now d :
  entry_le (entry_of d) (entry_of (set_claimed token l now d)) ∧
  (doc_ok d → doc_ok (set_claimed token l now d)).
Proof.
  split; [right; simpl; repeat split; [lia|done]|]. unfold doc_ok; simpl.
  intros (_&_&?). repeat split; eauto; lia || done.
Qed.

Lemma set_settled_le st code confirm delay failure now d :
  st ≠ publishing →
  entry_le (entry_of d) (entry_of (set_settled st code confirm delay failure now d)) ∧
  (doc_ok d → doc_ok (set_settled st code confirm delay failure now d)).
Proof.
  intros Hst. split.
  - right; simpl. repeat split; [lia|]. destruct confirm; eauto.
  - unfold doc_ok; simpl. intros (_&_&?). repeat split; [done..|lia].
Qed.

Lemma mongo_update_preserved c st code confirm delay failure s :
  st ≠ publishing → post (update c st code confirm delay failure) s (λ _, preserved s).
Proof.
  intros Hst. unfold update. destruct (record_key _) as [b|]; [|by apply post_raise].
  destruct (_ || _); [by apply post_raise|]. apply post_bind, post_stmt; [|reflexivity].
  intros t a s' Ha. assert (Hp : preserved s s').
  { destruct (s !! b) eqn:Hd; [|by simplify_eq]. destruct (fence _ _ _); simplify_eq; [|done].
    by eapply mongo_insert_preserved; [done|apply set_settled_le..]. }
  split; [|done]. destruct (a =? 1); [by apply post_ret|by apply post_raise].
Qed.

Lemma first_due_Some now s id d :
  first_due now s = Some (id, d) → s !! id = Some d ∧ claim_filter now d = true.
Proof.
  unfold first_due. intros Hh%head_Some_elem_of.
  rewrite (merge_sort_Permutation sort_le) in Hh.
  by apply list_elem_of_filter in Hh as [? ?%elem_of_map_to_list].
Qed.

Lemma find_and_claim_preserved token lease s :
  post (find_and_claim token lease) s (λ _, preserved s).
Proof.
  apply post_stmt; [|reflexivity]. intros t a s' Ha.
  destruct (first_due (t_now t) s) as [[id d]|] eqn:E; simplify_eq; [|done].
  apply first_due_Some in E as [Hd _]. assert (preserved s (<[id:=set_claimed token (t_now t + lease / 1000000) (t_now t) d]> s)).
  { by eapply mongo_insert_preserved; [done|apply set_claimed_le..]. }
  cbv zeta in Ha. by simplify_eq.
Qed.

Lemma claim_rounds_preserved k lease s : post (claim_rounds k lease) s (λ _, preserved s).
Proof.
  revert s. induction k as [|k IH]; intros s; simpl; [by apply post_ret|].
  apply post_bind, post_query; [|reflexivity]. intros _ entropy _.
  apply post_bind. eapply post_mono; [apply find_and_claim_preserved|].
  intros [[[id d]|]|e] s1 H1; [|by apply post_ret|done].
  destruct (check_doc d).
  - apply post_bind. eapply post_mono; [apply IH|].
    intros [cs|e] s2 H2; [apply post_ret|]; by transitivity s1.
  - apply post_bind. unfold Mongo_Quarantine; simpl.
    eapply post_mono; [by apply mongo_update_preserved|].
    intros [[]|e] s2 H2; [|by transitivity s1].
    eapply post_mono; [apply IH|]. intros ? s3 H3. transitivity s1; [done|by transitivity s2].
Qed.

(** ** The contract of [outbox.Store] *)

Definition state_of (r : request) : State :=
  match r with RConfirm => published | RRetry _ _ => retry_wait | RQuarantine _ => quarantined end.
Definition code_of (r : request) : string :=
  match r with RConfirm => "" | RRetry _ code | RQuarantine code => code end.
Definition delay_of (r : request) : Z := match r with RRetry d _ => d | _ => 0 end.
Definition confirms (r : request) : bool := match r with RConfirm => true | _ => false end.

Definition settled_doc (r : request) : Z → Doc → Doc :=
  set_settled (state_of r) (code_of r) (confirms r) (delay_of r) (negb (confirms r)).

Definition update_of (r : request) (c : Claim) : M Collection () :=
  update c (state_of r) (code_of r) (confirms r) (delay_of r) (negb (confirms r)).

Lemma mongo_perform_update (r : request) (c : Claim) :
  request_valid r = true ∧ perform (S:=Collection) r c = update_of r c ∨
  request_valid r = false ∧ ∃ e, perform (S:=Collection) r c = raise e.
Proof.
  destruct r as [|d code|code]; simpl; [by left|..].
  - unfold Mongo_Retry. rewrite !Z.gtb_ltb, (Z.leb_antisym 0 d), (Z.ltb_antisym (len code) 128).
    destruct (0 <? d), (code == ""%string), (len code <=? 128); simpl; eauto.
  - unfold Mongo_Quarantine. rewrite !Z.gtb_ltb, (Z.ltb_antisym (len code) 128).
    destruct (code == ""%string), (len code <=? 128); simpl; eauto.
Qed.

Lemma mongo_update_run r c w n s o :
  update_of r c w (n, s) = o →
  (o.2.2 = s ∧ o.1 ≠ Ok ()) ∨
  ∃ id d, record_key (RecordID c) = Some id ∧ s !! id = Some d ∧
    fence (t_now (w n)) c d = true ∧ o.2.2 = <[id := settled_doc r (t_now (w n)) d]> s.
Proof.
  intros <-. unfold update_of, update. destruct (record_key _) as [id|]; [|by left].
  destruct (_ || _); [by left|]. unfold mbind, M_bind, stmt.
  destruct (t_fault (w n)) as [e|].
  - destruct (s !! id) as [d|] eqn:Hd; [|by destruct (t_applied _); left].
    destruct (fence _ c d) eqn:Hf; [|by destruct (t_applied _); left].
    simpl. destruct (t_applied (w n)); [right|by left]. by exists id, d.
  - destruct (s !! id) as [d|] eqn:Hd; [|by left].
    destruct (fence _ c d) eqn:Hf; [|by left]. right. by exists id, d.
Qed.

Lemma settled_doc_settle r now d :
  request_valid r = true →
  entry_of (settled_doc r now d) = settle 1000000 now (request_settlement r) (entry_of d).
Proof.
  destruct r as [|delay code|code]; simpl; intros Hv; [done| |done].
  boolp. unfold settled_doc, set_settled, entry_of, settle, round_up; simpl.
  rewrite (proj2 (Z.gtb_lt delay 0)) by lia. by destruct (delay mod 1000000 =? 0).
Qed.

Lemma mongo_fence_fenced now c d : fence now c d = true ↔ fenced now c (entry_of d).
Proof.
  unfold fence, fenced. simpl. split.
  - intros. boolp. destruct (lease_until d) as [l|] eqn:E; [|done]. boolp. eauto 10.
  - intros (?&?&?&l&->&?). rewrite !bool_decide_eq_true_2 by done. simpl.
    rewrite (proj2 (Z.eqb_eq _ _)) by done. simpl. lia.
Qed.

Lemma mongo_settle_view r c now s id d :
  request_valid r = true → record_key (RecordID c) = Some id → s !! id = Some d →
  fence now c d = true →
  ∃ e, collection_view s (RecordID c) = Some e ∧ fenced now c e ∧
       collection_view (<[id := settled_doc r now d]> s) (RecordID c)
         = Some (settle 1000000 now (request_settlement r) e).
Proof.
  intros Hv Hk Hd Hf. exists (entry_of d).
  rewrite collection_view_insert, decide_True by done.
  unfold collection_view. rewrite Hk; simpl. rewrite Hd. split; [done|].
  split; [by apply mongo_fence_fenced|]. by rewrite settled_doc_settle.
Qed.

Lemma claim_filter_claimable now d :
  doc_ok d → claim_filter now d = true → claimable now (entry_of d).
Proof.
  unfold claim_filter, claimable. intros (Hp&_&_) Hf. boolp. simpl.
  apply orb_true_iff in H1 as [H1|H1].
  - left. split; [|done]. apply orb_true_iff in H1 as [?|?]; boolp; auto.
  - right. boolp. destruct (Hp H1) as [_ ->]. split; [done|]. eauto.
Qed.

(** One successful round of the loop. *)
Lemma round_Ok lease w n s (token : string) id d' n' s' :
  collection_ok s → find_and_claim token lease w (n, s) = (Ok (Some (id, d')), (n', s')) →
  ∃ d, s !! id = Some d ∧ claim_filter (t_now (w n)) d = true ∧ id ≠ ""%string ∧ raw_valid id = true ∧
    d' = set_claimed token (t_now (w n) + lease / 1000000) (t_now (w n)) d ∧ n' = Datatypes.S n ∧
    s' = <[id := d']> s.
Proof.
  intros Hs [Hf ->]%stmt_Ok. destruct (first_due (t_now (w n)) s) as [[j d]|] eqn:E; [|done].
  cbv zeta in Hf. simplify_eq. apply first_due_Some in E as [Hd ?]. exists d.
  apply Hs in Hd as Hok. destruct Hok as (?&?&?). done.
Qed.

Lemma check_doc_intact token l now d m :
  check_doc (set_claimed token l now d) = Some m → intact (entry_of d) m.
Proof.
  unfold check_doc, intact. simpl. destruct (message.New _); [|done]. case_match; [|done].
  boolp. naive_solver.
Qed.

Lemma round_granted lease token now id d m :
  doc_ok d → claim_filter now d = true → 
  let d' := set_claimed token (now + lease / 1000000) now d in
  check_doc d' = Some m →
  granted now (claim_of id token d' m) (entry_of d) (entry_of d').
Proof.
  intros Hok Hf d' Hm. apply check_doc_intact in Hm. unfold granted; simpl.
  split; [by apply claim_filter_claimable|]. done.
Qed.

(** The claim [c] was granted somewhere between [s] and [s']. *)
Definition granted_between (w : world) (n n' : nat) (s s' : Collection) (c : Claim) : Prop :=
  ∃ k e0 e e' e1, (n <= k < n')%nat ∧
    collection_view s (RecordID c) = Some e0 ∧ entry_le e0 e ∧ granted (t_now (w k)) c e e' ∧
    collection_view s' (RecordID c) = Some e1 ∧ entry_le e' e1.

Lemma preserved_back s s' rid e :
  preserved s s' → collection_view s' rid = Some e →
  ∃ e0, collection_view s rid = Some e0 ∧ entry_le e0 e.
Proof.
  intros (Hg&_&Hdom) He. pose proof He as He'. unfold collection_view in He'.
  apply bind_Some in He' as (id&Hk&Hd). apply fmap_Some in Hd as (d&Hd&_).
  apply elem_of_dom_2 in Hd. rewrite Hdom in Hd. apply elem_of_dom in Hd as [d0 Hd0].
  assert (H0 : collection_view s rid = Some (entry_of d0)).
  { unfold collection_view. rewrite Hk. simpl. by rewrite Hd0. }
  exists (entry_of d0). split; [done|]. apply Hg in H0 as (e1&?&?). by simplify_eq.
Qed.

Lemma granted_between_back w m n n' s s1 s' c :
  preserved s s1 → (m <= n)%nat → granted_between w n n' s1 s' c → granted_between w m n' s s' c.
Proof.
  intros Hp Hm (k&e0&e&e'&e1&?&He0&?&?&?&?). destruct (preserved_back _ _ _ _ Hp He0) as (e00&?&?).
  exists k, e00, e, e', e1. split; [lia|]. split; [done|]. split; [by transitivity e0|done].
Qed.

Lemma run_preserved {A} (c : M Collection A) w n s r n' s' :
  post c s (λ _, preserved s) → c w (n, s) = (r, (n', s')) → preserved s s'.
Proof. intros Hp Hc. specialize (Hp w n). by rewrite Hc in Hp. Qed.

(** What a successful run of at least one round did: nothing was due; or a
    corrupt document was quarantined and the rest ran; or one was claimed. *)
Lemma claim_rounds_inv k lease w n s claims n' s' :
  collection_ok s → claim_rounds (Datatypes.S k) lease w (n, s) = (Ok claims, (n', s')) →
  (claims = [] ∧ s' = s ∧ (n <= n')%nat) ∨
  ∃ id d s1 cs token,
    let now := t_now (w (Datatypes.S n)) in
    let d' := set_claimed token (now + lease / 1000000) now d in
    s !! id = Some d ∧ claim_filter now d = true ∧ id ≠ ""%string ∧ raw_valid id = true ∧
    preserved s s1 ∧
    ((check_doc d' = None ∧ claims = cs ∧ (∀ j, j ≠ id → s1 !! j = s !! j) ∧
      ∃ n1, (Datatypes.S n < n1)%nat ∧ claim_rounds k lease w (n1, s1) = (Ok cs, (n', s'))) ∨
     (∃ m, check_doc d' = Some m ∧ claims = claim_of id token d' m :: cs ∧
      s1 = <[id := d']> s ∧
      claim_rounds k lease w (Datatypes.S (Datatypes.S n), s1) = (Ok cs, (n', s')))).
Proof.
  intros Hs. simpl. intros (ent&[n0 s0]&He&Hr)%bind_run.
  apply stmt_Ok in He as [(?&[= <-]&[= <- <-])%rbind_Ok ->].
  apply bind_run in Hr as (found&[n1 s1]&Hf&Hr).
  pose proof (run_preserved _ _ _ _ _ _ _ (find_and_claim_preserved _ _ _) Hf) as Hp1.
  destruct found as [[id d']|].
  2: { left. apply stmt_Ok in Hf as [Hf ->].
       destruct (first_due _ _) as [[? ?]|]; simplify_eq/=. injection Hr as <- <- <-. auto. }
  right. apply round_Ok in Hf as (d&Hd&Hfil&Hne&Hv&->&->&->); [|done].
  destruct (check_doc _) as [m|] eqn:Hm.
  - apply bind_run in Hr as (cs&[n2 s2]&Hr&[= <- <- <-]).
    exists id, d, (<[id := set_claimed (hex_encode (t_rand (w n))) (t_now (w (Datatypes.S n)) + lease / 1000000)
      (t_now (w (Datatypes.S n))) d]> s), cs, (hex_encode (t_rand (w n))).
    cbv zeta. split_and!; try done. right. eauto.
  - apply bind_run in Hr as ([]&[n2 s2]&Hq&Hr).
    exists id, d, s2, claims, (hex_encode (t_rand (w n))). cbv zeta.
    assert (Hp2 : preserved s s2).
    { etransitivity; [exact Hp1|]. eapply run_preserved; [|exact Hq].
      unfold Mongo_Quarantine; simpl. by apply mongo_update_preserved. }
    split_and!; try done. left. split; [done|]. split; [done|].
    assert (Hq' : ∃ c, RecordID c = hex_encode id ∧
      update_of (RQuarantine "invalid_immutable_content") c w
        (Datatypes.S (Datatypes.S n), <[id := set_claimed (hex_encode (t_rand (w n)))
          (t_now (w (Datatypes.S n)) + lease / 1000000) (t_now (w (Datatypes.S n))) d]> s)
        = (Ok (), (n2, s2))) by (eexists; split; [|exact Hq]; done).
    destruct Hq' as (c&Hc&Hu). split.
    + intros j Hj. destruct (mongo_update_run _ _ _ _ _ _ Hu) as [[_ ?]|(i&q&Hi&_&_&Hs2)]; [done|].
      simpl in Hs2. rewrite Hc, record_key_encode in Hi by done. injection Hi as <-.
      rewrite Hs2, !lookup_insert_ne by done. done.
    + exists n2. split; [|done]. unfold update_of, update in Hu.
      destruct (record_key _); [|done]. destruct (_ || _); [done|].
      apply bind_run in Hu as (k0&[n3 s3]&[_ ->]%stmt_Ok&Hu).
      destruct (k0 =? 1); [|done]. injection Hu as <- _. lia.
Qed.

Lemma claim_rounds_grants k lease w n s claims n' s' :
  collection_ok s → claim_rounds k lease w (n, s) = (Ok claims, (n', s')) →
  (n <= n')%nat ∧ (length claims <= k)%nat ∧ Forall (granted_between w n n' s s') claims.
Proof.
  revert n s claims. induction k as [|k IH]; intros n s claims Hs.
  { intros [= <- <- <-]. split_and!; [lia|done|constructor]. }
  intros Hr. destruct (claim_rounds_inv _ _ _ _ _ _ _ _ Hs Hr) as
    [(->&->&?)|(id&d&s1&cs&token&Hd&Hfil&Hne&Hv&Hp&Hcase)].
  { split_and!; [lia|simpl; lia|constructor]. }
  assert (Hs1 : collection_ok s1) by by apply Hp.
  destruct Hcase as [(_&->&_&n1&?&Hrest)|(m&Hm&->&->&Hrest)].
  - apply IH in Hrest as (?&?&Hall); [|done]. split_and!; [lia|lia|].
    eapply Forall_impl; [exact Hall|]. intros c. by apply granted_between_back; [|lia].
  - pose proof (run_preserved _ _ _ _ _ _ _ (claim_rounds_preserved _ _ _) Hrest) as (Hg&_).
    apply IH in Hrest as (?&?&Hall); [|done]. split_and!; [lia|simpl; lia|]. constructor.
    + assert (Hk : record_key (hex_encode id) = Some id) by by apply record_key_encode.
      assert (Hview : collection_view s (hex_encode id) = Some (entry_of d)).
      { unfold collection_view. rewrite Hk. simpl. by rewrite Hd. }
      destruct (Hg (hex_encode id) (entry_of (set_claimed token (t_now (w (Datatypes.S n)) + lease / 1000000)
          (t_now (w (Datatypes.S n))) d))) as (e1&?&?).
      { rewrite collection_view_insert. by rewrite decide_True. }
      eexists (Datatypes.S n), (entry_of d), (entry_of d), _, e1. simpl RecordID. split; [lia|].
      split; [done|]. split; [by left|]. split; [|done].
      apply round_granted; [by apply Hs in Hd as (?&_)|done|done].
    + eapply Forall_impl; [exact Hall|]. intros c. by apply granted_between_back; [|lia].
Qed.

(** Rounds at clocks before the end of a lease leave the leased document alone. *)
Lemma claim_rounds_keep k lease w n s claims n' s' id d l :
  collection_ok s → claim_rounds k lease w (n, s) = (Ok claims, (n', s')) →
  s !! id = Some d → state d = publishing → lease_until d = Some l →
  (∀ j, (n <= j < n')%nat → t_now (w j) < l) →
  s' !! id = Some d ∧ hex_encode id ∉ map RecordID claims.
Proof.
  revert n s claims. induction k as [|k IH]; intros n s claims Hs.
  { intros [= <- <- <-] ? ? ? ?. split; [done|by intros ?%not_elem_of_nil]. }
  intros Hr Hid Hst Hl Hclock. pose proof Hr as Hn%claim_rounds_grants; [|done].
  destruct Hn as (Hn&_&_).
  destruct (claim_rounds_inv _ _ _ _ _ _ _ _ Hs Hr) as
    [(->&->&?)|(i&di&s1&cs&token&Hd&Hfil&Hne&Hv&Hp&Hcase)].
  { split; [done|by intros ?%not_elem_of_nil]. }
  assert (Hlt : (Datatypes.S n < n')%nat).
  { destruct Hcase as [(_&_&_&n1&?&Hrest)|(m&_&_&->&Hrest)];
      apply claim_rounds_grants in Hrest as (?&_); try lia; by apply Hp. }
  assert (Hi : id ≠ i).
  { intros <-. simplify_eq. specialize (Hclock (Datatypes.S n) ltac:(lia)).
    apply claim_filter_claimable in Hfil; [|by apply Hs in Hid as (?&_)].
    destruct Hfil as [[[?|?] _]|[_ (l'&Hl'&?)]]; simpl in *; [congruence..|].
    rewrite Hl in Hl'. injection Hl' as <-. lia. }
  assert (Hs1 : collection_ok s1) by by apply Hp.
  destruct Hcase as [(_&->&Hother&n1&?&Hrest)|(m&Hm&->&->&Hrest)].
  - eapply (IH n1 s1); eauto; [by rewrite Hother by done|]. intros j ?. apply Hclock. lia.
  - destruct (IH _ _ _ Hs1 Hrest) as [? Hni]; try done.
    { by rewrite lookup_insert_ne. }
    { intros j ?. apply Hclock. lia. }
    split; [done|]. simpl. rewrite elem_of_cons. intros [?%hex_encode_inj|?]; [done|done].
Qed.

Lemma claim_rounds_distinct k lease w n s claims n' s' :
  collection_ok s → claim_rounds k lease w (n, s) = (Ok claims, (n', s')) →
  (∀ c j, c ∈ claims → (n <= j < n')%nat → t_now (w j) < LeaseUntil c) →
  NoDup (map RecordID claims) ∧
  Forall (λ c, ∃ e, collection_view s' (RecordID c) = Some e ∧ held c e) claims.
Proof.
  revert n s claims. induction k as [|k IH]; intros n s claims Hs.
  { intros [= <- <- <-] _. by split; constructor. }
  intros Hr Hclock. destruct (claim_rounds_inv _ _ _ _ _ _ _ _ Hs Hr) as
    [(->&->&?)|(i&di&s1&cs&token&Hd&Hfil&Hne&Hv&Hp&Hcase)].
  { by split; constructor. }
  assert (Hs1 : collection_ok s1) by by apply Hp.
  destruct Hcase as [(_&->&_&n1&?&Hrest)|(m&Hm&->&->&Hrest)].
  - eapply IH; [done|exact Hrest|]. intros c j ? ?. apply Hclock; [done|lia].
  - destruct (IH _ _ _ Hs1 Hrest) as [Hnd Hall].
    { intros c j ? ?. apply Hclock; [by right|lia]. }
    destruct (claim_rounds_keep _ _ _ _ _ _ _ _ i _ _ Hs1 Hrest (lookup_insert_eq _ _ _) eq_refl eq_refl)
      as [Hkeep Hni].
    { intros j ?. pose proof (Hclock _ j ltac:(by left) ltac:(lia)) as Hc. exact Hc. }
    split; [by constructor|]. constructor; [|done].
    eexists. split; [|cycle 1].
    + simpl RecordID. unfold collection_view. rewrite record_key_encode by done. simpl.
      rewrite Hkeep. reflexivity.
    + unfold held; simpl. done.
Qed.

(** Writes of the host in its own transactions. *)
Inductive host_write : Collection → Collection → Prop :=
| host_append active now m due w n s : host_write s (Append active now m due w (n, s)).2.2.

Lemma Append_grows active now m due s :
  collection_ok s →
  post (Append active now m due) s
    (λ _ s', grows (collection_view s) (collection_view s') ∧ collection_ok s').
Proof.
  intros Hs. unfold Append. destruct (negb active); [by apply post_raise|].
  destruct (_ || _); [by apply post_raise|].
  set (key := marshal_identity (identity (message.Message_Input m))).
  apply post_bind, post_stmt; [|by split].
  intros t [] s' [= <-].
  assert (Hp : ∀ s', s' = (match s !! key with
    | Some _ => s
    | None => <[key := mkDoc (message.Message_Input m) (message.Fingerprint m) pending (bson_date due)
        None None 0 None None "" None (bson_date now) (bson_date now)]> s end) →
    grows (collection_view s) (collection_view s') ∧ collection_ok s').
  { intros s' ->. destruct (s !! key) eqn:Hk; [by split|]. split.
    - intros rid e He. rewrite collection_view_insert. case_decide as Hd; [|by exists e; split; [|left]].
      unfold collection_view in He. rewrite Hd in He. simpl in He. by rewrite Hk in He.
    - intros j q [[<- <-]|[? Hq]]%lookup_insert_Some; [|by apply Hs].
      destruct (marshal_valid (identity (message.Message_Input m))). done. }
  split; [|by intros; apply Hp].
  apply post_bind, post_query; [|by intros; apply Hp].
  intros. by apply post_ensure; intros; apply Hp.
Qed.

(** Claiming and appending make no record published. *)
Definition publishes_nothing (s s' : Collection) : Prop :=
  ∀ rid e, collection_view s' rid = Some e → e_state e = published → collection_view s rid = Some e.

#[global] Instance publishes_nothing_preorder : PreOrder publishes_nothing.
Proof. split; [by intros s rid e ? ?|]. intros s t u H1 H2 rid e ? ?. auto. Qed.

Lemma insert_published s id d : state d ≠ published → publishes_nothing s (<[id := d]> s).
Proof.
  intros Hd rid e. rewrite collection_view_insert. case_decide; [|done]. by intros [= <-].
Qed.

Lemma claim_rounds_published k lease s : post (claim_rounds k lease) s (λ _, publishes_nothing s).
Proof.
  revert s. induction k as [|k IH]; intros s; simpl; [by apply post_ret|].
  apply post_bind, post_query; [|reflexivity]. intros _ entropy _.
  apply post_bind. eapply post_mono.
  { apply (post_stmt _ s (λ _, publishes_nothing s)); [|reflexivity]. intros t a s' Ha.
    assert (publishes_nothing s s'); [|done].
    destruct (first_due (t_now t) s) as [[id d]|]; cbv zeta in Ha; simplify_eq; [|done].
    by apply insert_published. }
  intros [[[id d]|]|e] s1 H1; [|by apply post_ret|done].
  destruct (check_doc d).
  - apply post_bind. eapply post_mono; [apply IH|].
    intros [cs|e] s2 H2; [apply post_ret|]; by transitivity s1.
  - apply post_bind. unfold Mongo_Quarantine; simpl.
    assert (Hq : post (update (claim_of id (hex_encode entropy) d message.zeroMessage) quarantined
      "invalid_immutable_content" false 0 true) s1 (λ _, publishes_nothing s1)).
    { unfold update. destruct (record_key _) as [b|]; [|by apply post_raise].
      destruct (_ || _); [by apply post_raise|]. apply post_bind, post_stmt; [|reflexivity].
      intros t a s' Ha. assert (Hp : publishes_nothing s1 s').
      { destruct (s1 !! b); [|by simplify_eq]. destruct (fence _ _ _); simplify_eq; [|done].
        by apply insert_published. }
      split; [|done]. destruct (a =? 1); [by apply post_ret|by apply post_raise]. }
    eapply post_mono; [exact Hq|]. intros [[]|e] s2 H2; [|by transitivity s1].
    eapply post_mono; [apply IH|]. intros ? s3 H3. transitivity s1; [done|by transitivity s2].
Qed.

Lemma mongo_Append_published active now m due s :
  post (Append active now m due) s (λ _, publishes_nothing s).
Proof.
  unfold Append. destruct (negb active); [by apply post_raise|].
  destruct (_ || _); [by apply post_raise|]. apply post_bind, post_stmt; [|reflexivity].
  intros t [] s' [= <-].
  assert (Hp : publishes_nothing s (match s !! marshal_identity (identity (message.Message_Input m)) with
    | Some _ => s
    | None => <[marshal_identity (identity (message.Message_Input m)) :=
        mkDoc (message.Message_Input m) (message.Fingerprint m) pending (bson_date due)
        None None 0 None None "" None (bson_date now) (bson_date now)]> s end)).
  { destruct (s !! _); [done|]. by apply insert_published. }
  split; [|done]. apply post_bind, post_query; [|done]. intros. by apply post_ensure.
Qed.

#[global] Program Instance Mongo_StoreLaws : StoreLaws Collection := {
  unit_ns := 1000000;
  record_of := normal_id;
  view := collection_view;
  valid := collection_ok;
  host_step := host_write
}.
Next Obligation. intros s rid. unfold collection_view. by rewrite record_key_normal. Qed.
Next Obligation.
  intros r c w n s rid Hne. destruct (mongo_perform_update r c) as [[_ ->]|[_ [e ->]]]; [|done].
  destruct (mongo_update_run r c w n s _ eq_refl) as [[-> _]|(i&d&Hk&_&_&->)]; [done|].
  rewrite collection_view_insert. case_decide as Hd; [|done].
  apply record_key_Some in Hk, Hd. congruence.
Qed.
Next Obligation.
  intros r c w n s. destruct (mongo_perform_update r c) as [[Hv ->]|[_ [e ->]]]; [|by left].
  destruct (mongo_update_run r c w n s _ eq_refl) as [[-> _]|(i&d&Hk&Hd&Hf&->)]; [by left|right].
  by apply mongo_settle_view.
Qed.
Next Obligation.
  intros r c w n s Hok. destruct (mongo_perform_update r c) as [[Hv Hp]|[_ [e He]]].
  2: { by rewrite He in Hok. }
  rewrite Hp in *. split; [done|].
  destruct (mongo_update_run r c w n s _ eq_refl) as [[_ ?]|(i&d&Hk&Hd&Hf&->)]; [done|].
  by apply mongo_settle_view.
Qed.
Next Obligation.
  intros r c w n s e. unfold collection_view. intros (id&Hk&He)%bind_Some.
  apply fmap_Some in He as (d&Hd&->). intros Hf%mongo_fence_fenced _ Hv Ht Hver Hq.
  destruct (mongo_perform_update r c) as [[_ ->]|[? _]]; [|congruence].
  unfold update_of, update. rewrite Hk, bool_decide_eq_false_2, (proj2 (Z.eqb_neq _ 0)) by done. simpl.
  unfold mbind, M_bind, stmt. by rewrite Hq, Hd, Hf.
Qed.
Next Obligation.
  intros r c w n s Hs. destruct (mongo_perform_update r c) as [[_ ->]|[_ [e ->]]]; [|done].
  by apply mongo_update_preserved; [destruct r|].
Qed.
Next Obligation.
  intros limit lease w n s claims n' s' Hs. simpl. unfold Mongo_ClaimDue.
  destruct (_ || _) eqn:Hb; [done|]. boolp. intros (_&?&?)%claim_rounds_grants; [|done].
  split; [unfold llen; lia|done].
Qed.
Next Obligation.
  intros limit lease w n s claims n' s' Hs. simpl. unfold Mongo_ClaimDue.
  destruct (_ || _); [done|]. by apply claim_rounds_distinct.
Qed.
Next Obligation.
  intros limit lease w n s Hs. simpl. unfold Mongo_ClaimDue. destruct (_ || _); [by split|].
  destruct (claim_rounds_preserved (Z.to_nat limit) lease s w n) as (?&?&_). auto.
Qed.
Next Obligation.
  intros s s' Hs Hw. destruct Hw as [active now m due w n s].
  exact (Append_grows active now m due s Hs w n).
Qed.
Next Obligation.
  intros limit lease w n s rid e Hs. simpl. unfold Mongo_ClaimDue.
  destruct (_ || _); [done|]. intros He Hst.
  exact (claim_rounds_published (Z.to_nat limit) lease s w n rid e He Hst).
Qed.
Next Obligation.
  intros s s' rid e Hs Hw He Hst. simpl in *. destruct Hw as [active now m due w n s].
  exact (mongo_Append_published active now m due s w n rid e He Hst).
Qed.
Next Obligation.
  intros s rid e Hs He Hst. simpl in *. unfold collection_view in He.
  apply bind_Some in He as (id&_&He). apply fmap_Some in He as (d&Hd&->).
  apply Hs in Hd as ((Hp&_)&_). simpl in *. destruct (Hp Hst) as [_ ->]. done.
Qed.

(** The claim loop takes the earliest document: when it answers without a
    failure and some document is due, it claims one that sorts no later than
    any due document, by due time and then by key. *)
Theorem mongo_earliest_first s token lease w n id d :
  t_fault (w n) = None → s !! id = Some d → claim_filter (t_now (w n)) d = true →
  ∃ id' d', s !! id' = Some d' ∧ claim_filter (t_now (w n)) d' = true ∧ sort_le (id', d') (id, d) ∧
    find_and_claim token lease w (n, s) =
      (Ok (Some (id', set_claimed token (t_now (w n) + lease / 1000000) (t_now (w n)) d')),
       (Datatypes.S n, <[id' := set_claimed token (t_now (w n) + lease / 1000000) (t_now (w n)) d']> s)).
Proof.
  intros Hq Hd Hf. unfold find_and_claim, stmt. rewrite Hq.
  pose proof (first_due_Some (t_now (w n)) s) as Hfirst. unfold first_due in *.
  set (l := merge_sort _ _) in *.
  assert (Hin : (id, d) ∈ l).
  { subst l. rewrite (merge_sort_Permutation sort_le).
    apply list_elem_of_filter. by rewrite elem_of_map_to_list. }
  assert (Hsort : StronglySorted sort_le l) by apply (StronglySorted_merge_sort sort_le).
  destruct l as [|[id' d'] l]; [by apply not_elem_of_nil in Hin|]. simpl in *.
  destruct (Hfirst id' d' eq_refl) as [? ?]. exists id', d'. split; [done|]. split; [done|].
  split; [|done]. apply StronglySorted_inv in Hsort as [_ Hall]. rewrite Forall_forall in Hall.
  apply elem_of_cons in Hin as [Heq|Hin]; [injection Heq as -> ->; by destruct (total sort_le (id', d') (id', d'))|].
  by apply Hall.
Qed.

(** Within one call of [ClaimDue] no document is handed out twice, and every
    claim handed out still stands when it returns, provided no lease runs out
    while the batch is being collected. *)
Theorem mongo_batch_distinct s s' limit lease w n claims n' :
  collection_ok s → Mongo_ClaimDue limit lease w (n, s) = (Ok claims, (n', s')) →
  (∀ c k, c ∈ claims → (n <= k < n')%nat → t_now (w k) < LeaseUntil c) →
  NoDup (map RecordID claims) ∧
  Forall (λ c, ∃ e, collection_view s' (RecordID c) = Some e ∧ held c e) claims.
Proof.
  unfold Mongo_ClaimDue. intros Hs. destruct (_ || _); [done|]. by apply claim_rounds_distinct.
Qed.

(** [Append] on every branch, with no driver failure: outside a transaction
    it is refused; otherwise a fresh identity is inserted as a pending document
    due at the given time, an identical message is accepted again and one with
    the same identity but other content is a conflict that changes nothing. *)
Theorem mongo_append_outcome s active now m due w n :
  message.Message_Valid m = true → due ≠ 0 →
  t_fault (w n) = None → t_fault (w (Datatypes.S n)) = None →
  let id := marshal_identity (identity (message.Message_Input m)) in
  Append active now m due w (n, s) =
    if active then
      match s !! id with
      | None => (Ok (), (Datatypes.S (Datatypes.S n),
          <[id := mkDoc (message.Message_Input m) (message.Fingerprint m) pending (bson_date due)
                    None None 0 None None "" None (bson_date now) (bson_date now)]> s))
      | Some d => (if doc_fingerprint d == message.Fingerprint m then Ok () else Err ErrConflict,
                   (Datatypes.S (Datatypes.S n), s))
      end
    else (Err ErrTransactionRequired, (n, s)).
Proof.
  intros Hm Hd H1 H2 id. unfold Append. destruct active; simpl; [|done].
  rewrite Hm, (proj2 (Z.eqb_neq due 0)) by done. simpl.
  unfold mbind, M_bind, stmt, query. rewrite H1. simpl. rewrite H2. fold id.
  destruct (s !! id) as [d|] eqn:Hs; simpl.
  - rewrite Hs. simpl. by destruct (_ == _).
  - rewrite lookup_insert_eq. simpl. by rewrite bool_decide_eq_true_2.
Qed.

End mongo.

(** ** A concrete run

    A codec that meets the class: the decimal numeral of the identity's code. *)

Definition ex_marshal (i : string * string * string) : bytes := "k" +:+ pretty (encode i).

Definition ex_le (x y : bytes) : Prop := (encode x <= encode y)%positive.

Lemma ex_le_total : Total ex_le.
Proof. intros x y. unfold ex_le. lia. Qed.
Lemma ex_le_trans : Transitive ex_le.
Proof. intros x y z. unfold ex_le. lia. Qed.

Lemma ex_marshal_inj : Inj (=) (=) ex_marshal.
Proof.
  intros x y H. unfold ex_marshal in H. rewrite !string_cons_app, !string_nil_app in H.
  injection H as H. by apply (inj pretty), (inj encode) in H.
Qed.

Lemma ex_marshal_valid i : true = true ∧ ex_marshal i ≠ ""%string.
Proof. split; [done|]. unfold ex_marshal. by rewrite string_cons_app. Qed.

#[local] Instance ex_BSON : BSON :=
  Build_BSON ex_marshal (λ _, true) ex_le (λ x y, Pos.le_dec (encode x) (encode y))
    ex_le_total ex_le_trans ex_marshal_inj ex_marshal_valid.

Definition ex_world (now : Z) : world := λ _, mkTick now None false "entropy" (λ _, false).

Definition ex_message : message.Message :=
  let i := message.mkInput "p" "m" "d" "e" "v1" "s" "text/plain" "2026-01-01T00:00:00Z" "x" in
  message.mkMessage i (message.compute_fingerprint i).

Definition ex_key : bytes := marshal_identity (identity (message.input ex_message)).
Definition ex_s1 : Collection := (Append true 7 ex_message 5000000 (ex_world 1) (0%nat, ∅)).2.2.
Definition ex_doc : Doc :=
  mkDoc (message.input ex_message) (message.fingerprint ex_message) pending 5 None None 0 None None ""
    None 0 0.
Definition ex_claim : Claim :=
  mkClaim (hex_encode ex_key) (hex_encode "entropy") 1 1 0 101 ex_message.
Definition ex_s2 : Collection := (Mongo_ClaimDue 1 1000000 (ex_world 100) (0%nat, ex_s1)).2.2.

Lemma mongo_ex_s1_ok : collection_ok ex_s1.
Proof.
  assert (Hs : collection_ok ∅) by (intros ? ?; by rewrite lookup_empty).
  apply (Append_grows true 7 ex_message 5000000 ∅ Hs (ex_world 1) 0%nat).
Qed.

Lemma mongo_earliest_first_witness :
  ∃ id' d', ex_s1 !! id' = Some d' ∧ sort_le (id', d') (ex_key, ex_doc).
Proof.
  destruct (mongo_earliest_first ex_s1 "t" 1000000 (ex_world 100) 0%nat ex_key ex_doc)
    as (id'&d'&H1&_&H2&_); [reflexivity|vm_compute; reflexivity..|].
  exists id', d'. split; [exact H1|exact H2].
Defined.

Lemma mongo_batch_distinct_witness :
  Mongo_ClaimDue 1 1000000 (ex_world 100) (0%nat, ex_s1) = (Ok [ex_claim], (2%nat, ex_s2)) ∧
  NoDup (map RecordID [ex_claim]).
Proof.
  assert (Hc : Mongo_ClaimDue 1 1000000 (ex_world 100) (0%nat, ex_s1)
               = (Ok [ex_claim], (2%nat, ex_s2))) by (vm_compute; reflexivity).
  split; [exact Hc|].
  apply (mongo_batch_distinct ex_s1 ex_s2 1 1000000 (ex_world 100) 0%nat [ex_claim] 2%nat);
    [apply mongo_ex_s1_ok|exact Hc|].
  intros c k Hin _. apply list_elem_of_singleton in Hin. subst c. vm_compute. reflexivity.
Defined.

Lemma mongo_append_outcome_witness :
  Append true 7 ex_message 5000000 (ex_world 1) (0%nat, ∅) = (Ok (), (2%nat, {[ex_key := ex_doc]})).
Proof.
  rewrite (mongo_append_outcome ∅ true 7 ex_message 5000000 (ex_world 1) 0%nat);
    [vm_compute; reflexivity|reflexivity|discriminate|reflexivity|reflexivity].
Defined.

End mongo.
