(* ===== verification/Relay.v ===== *)
(** * package relay: from the outbox to the broker

    [relay/relay.go] with the outcome type of [transport/publisher.go].  One
    delivery is a function of the publisher's answer; [Run] is a step relation,
    because the deliveries of a batch run concurrently and the context may be
    cancelled at any moment.  Several relays share one store. *)

From S2P Require Import Prelude GoStd Database Message Outbox StorageMySQL.

Module transport.

(** [type Outcome uint8] and [type Result struct]. *)
Definition Outcome : Type := Z.
Definition Unknown : Outcome := 0.
Definition Confirmed : Outcome := 1.
Definition Rejected : Outcome := 2.

Record Result : Type := mkResult { result_Outcome : Outcome }.

End transport.

Module relay.
Import outbox transport.

Record RetryDecision : Type := mkDecision { Delay : Z; DoQuarantine : bool }.

Record Event : Type := mkEvent { Kind : string; EvOutcome : Outcome; EvErr : option error }.

(** Observer and wake channel are effects of the model, not fields. *)
Record Config : Type := mkConfig {
  Concurrency : Z;
  PollInterval : Z;
  Lease : Z;
  PublishTimeout : Z;
  WriteTimeout : Z;
  RetryPolicy : Claim → Outcome → RetryDecision
}.

(** [New], with its handles present. *)
Definition New (c : Config) : result Config :=
  if (Concurrency c <? 1) || (Concurrency c >? 1000) || (PollInterval c <=? 0) ||
     (PublishTimeout c <=? 0) || (WriteTimeout c <=? 0) || (Lease c >? 86400000000000) ||
     (Lease c <=? PublishTimeout c) || (WriteTimeout c >=? Lease c - PublishTimeout c)
  then Err (ErrMsg "invalid relay bounds: lease must exceed publish plus write timeout")
  else Ok c.

(** The normalisation at the start of [deliver]. *)
Definition classify (r : Result) : Outcome :=
  if negb (result_Outcome r =? Confirmed) && negb (result_Outcome r =? Rejected)
  then Unknown else result_Outcome r.

(** Which settlement the outcome calls for; [None] is the policy error. *)
Definition decide_write (cfg : Config) (c : Claim) (o : Outcome) : option request :=
  if o =? Confirmed then Some RConfirm
  else
    let decision := RetryPolicy cfg c o in
    let code := if o =? Rejected then "publish_rejected"%string else "publish_unknown"%string in
    if DoQuarantine decision then Some (RQuarantine code)
    else if Delay decision <=? 0 then None
    else Some (RRetry (Delay decision) code).

Definition policy_error : error :=
  ErrMsg "retry policy requires positive delay or explicit quarantine".

Definition write_event (o : Outcome) (r : result ()) : Event :=
  match r with
  | Ok _ => mkEvent "write_succeeded" o None
  | Err e => mkEvent (if errors_is e ErrStaleClaim then "stale_write_rejected" else "write_failed")
                     o (Some e)
  end.

Section relay.
Context {S : Type} `{Store S}.

(** The second half of [deliver]: the store write and its event. *)
Definition write_outcome (cfg : Config) (c : Claim) (o : Outcome) : M S (list Event) :=
  match decide_write cfg c o with
  | Some req => r ← catch (perform req c); mret [write_event o r]
  | None => mret [write_event o (Err policy_error)]
  end.

(** [deliver] with the answer of the publisher. *)
Definition deliver (cfg : Config) (publish : message.Message → Result) (c : Claim)
    : M S (list Event) :=
  let o := classify (publish (ClaimMessage c)) in
  evs ← write_outcome cfg c o;
  mret (mkEvent "publish_result" o None :: evs).

(** ** Run *)

(** Where a [Run] is: about to scan; delivering a batch (claims not yet started,
    started, and published with their outcome; whether the batch was full);
    waiting for the timer or a hint; returned. *)
Inductive Phase : Type :=
| Scanning
| Batch (queued started : list Claim) (published_ : list (Claim * Outcome)) (full : bool)
| Waiting
| Returned (r : result ()).

(** The host's view of one relay. *)
Record Relay : Type := mkRelay { running : bool; phase : Phase; observed : list Event }.

Definition idle : Relay := mkRelay false (Returned (Ok ())) [].

(** The call of [Run]: [running.CompareAndSwap(false, true)]. *)
Definition start (r : Relay) : result Relay :=
  if running r then Err (ErrMsg "relay already running")
  else Ok (mkRelay true Scanning (observed r)).

(** Return from [Run]: the deferred [running.Store(false)]. *)
Definition finish (r : Relay) (res : result ()) (evs : list Event) : Relay :=
  mkRelay false (Returned res) (observed r ++ evs).

Definition to (r : Relay) (p : Phase) (evs : list Event) : Relay :=
  mkRelay true p (observed r ++ evs).

(** Handling of the scan's answer; [cancelled] is [ctx.Err() != nil] after it. *)
Definition after_scan (cfg : Config) (cancelled : bool) (r : Relay)
    (res : result (list Claim)) : Relay :=
  match res with
  | Err e => if cancelled then finish r (Ok ()) []
             else finish r (Err e) [mkEvent "claim_failed" Unknown (Some e)]
  | Ok claims =>
    if llen claims >? Concurrency cfg
    then finish r (Err (ErrMsg "store exceeded requested claim limit")) []
    else to r (Batch claims [] [] (llen claims =? Concurrency cfg))
            [mkEvent "scan_succeeded" Unknown None]
  end.

(** One step of one relay on the store; [log] collects the confirmed publishes. *)
Inductive relay_step (cfg : Config) : (Relay * S * list Claim) → (Relay * S * list Claim) → Prop :=
| step_start r r' s log :
    start r = Ok r' → relay_step cfg (r, s, log) (r', s, log)
| step_cancelled r s log :
    phase r = Scanning → running r = true →
    relay_step cfg (r, s, log) (finish r (Ok ()) [], s, log)
| step_scan r s log cancelled w n :
    phase r = Scanning → running r = true →
    relay_step cfg (r, s, log)
      (after_scan cfg cancelled r (ClaimDue (Concurrency cfg) (Lease cfg) w (n, s)).1,
       (ClaimDue (Concurrency cfg) (Lease cfg) w (n, s)).2.2, log)
| step_spawn r s log c queued started done full :
    phase r = Batch (c :: queued) started done full → running r = true →
    relay_step cfg (r, s, log) (to r (Batch queued (c :: started) done full) [], s, log)
| step_break r s log queued started done full :
    phase r = Batch queued started done full → running r = true →
    relay_step cfg (r, s, log) (to r (Batch [] started done full) [], s, log)
| step_publish r s log queued l1 c l2 done full res :
    phase r = Batch queued (l1 ++ c :: l2) done full → running r = true →
    relay_step cfg (r, s, log)
      (to r (Batch queued (l1 ++ l2) ((c, classify res) :: done) full)
          [mkEvent "publish_result" (classify res) None], s,
       if classify res =? Confirmed then c :: log else log)
| step_write r s log queued started l1 c o l2 full w n evs n' s' :
    phase r = Batch queued started (l1 ++ (c, o) :: l2) full → running r = true →
    write_outcome cfg c o w (n, s) = (Ok evs, (n', s')) →
    relay_step cfg (r, s, log) (to r (Batch queued started (l1 ++ l2) full) evs, s', log)
| step_drained r s log full cancelled :
    phase r = Batch [] [] [] full → running r = true →
    relay_step cfg (r, s, log)
      (if cancelled : bool then finish r (Ok ()) []
       else to r (if full : bool then Scanning else Waiting) [], s, log)
| step_wake r s log cancelled :
    phase r = Waiting → running r = true →
    relay_step cfg (r, s, log)
      (if cancelled : bool then finish r (Ok ()) [] else to r Scanning [], s, log).

End relay.

(** ** A deployment: relays and hosts around one store *)

Section deployment.
Context {S : Type} `{StoreLaws S}.
Implicit Types (s : S) (log : list Claim) (r : Relay).

Record Deployment : Type := mkDeployment {
  relays : nat → Relay; store : S; confirmed_log : list Claim
}.

Definition set_relay (f : nat → Relay) (i : nat) (r : Relay) : nat → Relay :=
  λ j, if decide (j = i) then r else f j.

(** Any relay moves, the host writes, or somebody else uses the store without
    confirming. *)
Inductive deploy_step (cfgs : nat → Config) : Deployment → Deployment → Prop :=
| deploy_relay d i r' s' log' :
    relay_step (cfgs i) (relays d i, store d, confirmed_log d) (r', s', log') →
    deploy_step cfgs d (mkDeployment (set_relay (relays d) i r') s' log')
| deploy_host d s' :
    host_step (store d) s' → deploy_step cfgs d (mkDeployment (relays d) s' (confirmed_log d))
| deploy_claim d limit lease w n :
    deploy_step cfgs d
      (mkDeployment (relays d) (ClaimDue limit lease w (n, store d)).2.2 (confirmed_log d))
| deploy_settle d req c w n :
    req ≠ RConfirm →
    deploy_step cfgs d
      (mkDeployment (relays d) (perform req c w (n, store d)).2.2 (confirmed_log d)).

Definition claims_in (p : Phase) : list Claim :=
  match p with Batch queued started done _ => queued ++ started ++ done.*1 | _ => [] end.
Definition done_in (p : Phase) : list (Claim * Outcome) :=
  match p with Batch _ _ done _ => done | _ => [] end.

(** The claim's message is the stored content of its record. *)
Definition knows s (c : Claim) : Prop :=
  ∃ e, view s (RecordID c) = Some e ∧ e_content e = message.Message_Input (ClaimMessage c).

Definition relay_ok s log r : Prop :=
  Forall (knows s) (claims_in (phase r)) ∧
  Forall (λ p, p.2 = Confirmed → p.1 ∈ log) (done_in (phase r)).

Definition published_confirmed s log : Prop :=
  ∀ id e, view s id = Some e → e_state e = published →
    ∃ c, c ∈ log ∧ record_of (RecordID c) = record_of id ∧
         e_content e = message.Message_Input (ClaimMessage c).

Lemma entry_le_content e e' : entry_le e e' → e_content e' = e_content e.
Proof. by intros [->|(_&?&_)]. Qed.

Lemma knows_grows s s' c : grows (view s) (view s') → knows s c → knows s' c.
Proof.
  intros Hg (e&He&Hc). apply Hg in He as (e'&?&?%entry_le_content). exists e'. split; [done|congruence].
Qed.

Lemma relay_ok_mono s s' log log' r :
  grows (view s) (view s') → log ⊆ log' → relay_ok s log r → relay_ok s' log' r.
Proof.
  intros Hg Hl [H1 H2]. split.
  - eapply Forall_impl; [exact H1|]. intros c. by apply knows_grows.
  - eapply Forall_impl; [exact H2|]. auto.
Qed.

Lemma classify_range res : classify res = Unknown ∨ classify res = Confirmed ∨ classify res = Rejected.
Proof. unfold classify. destruct (_ && _) eqn:E; [by left|]. apply andb_false_iff in E as [?|?]; boolp; auto. Qed.

(** What a claim returns is stored content. *)
Lemma claims_known limit lease w n s claims n' s' :
  valid s → ClaimDue limit lease w (n, s) = (Ok claims, (n', s')) → Forall (knows s') claims.
Proof.
  intros Hs [_ Hall]%claim_grants; [|done]. eapply Forall_impl; [exact Hall|].
  intros c (k&e0&e&e'&e1&_&_&_&Hg&He1&Hle). exists e1. split; [done|].
  destruct Hg as (_&[Hm _]&_&_&_&_&_&_&_&_&Hc&_).
  rewrite (entry_le_content _ _ Hle), Hc. by apply message.New_spec in Hm as [_ ->].
Qed.

(** A settlement that is not a confirmation publishes nothing; a confirmation
    publishes at most its own record. *)
Lemma perform_published req c w n s id e :
  view (perform req c w (n, s)).2.2 id = Some e → e_state e = published →
  view s id = Some e ∨
  (req = RConfirm ∧ record_of id = record_of (RecordID c) ∧
   ∃ e0, view s (RecordID c) = Some e0 ∧ e_content e = e_content e0).
Proof.
  intros He Hst. destruct (decide (record_of id = record_of (RecordID c))) as [Hid|Hid].
  - rewrite <-view_record, Hid, view_record in He. rewrite <-(view_record s id), Hid, view_record.
    destruct (settle_effect req c w n s) as [Hv|(e0&He0&_&Hv)]; rewrite Hv in He; [by left|right].
    simplify_eq. split_and!; [by destruct req|done|]. by exists e0.
  - left. by rewrite settle_frame in He by done.
Qed.

Lemma write_outcome_run cfg c o w n s evs n' s' :
  write_outcome cfg c o w (n, s) = (Ok evs, (n', s')) →
  (decide_write cfg c o = None ∧ s' = s) ∨
  ∃ req, decide_write cfg c o = Some req ∧ s' = (perform req c w (n, s)).2.2.
Proof.
  unfold write_outcome. destruct (decide_write cfg c o) as [req|].
  2: { intros [= _ _ ->]. by left. }
  unfold mbind, M_bind, catch. intros Hw. right. exists req. split; [done|].
  destruct (perform req c w (n, s)) as [res [n1 s1]]. unfold mret, M_ret in Hw. simpl in *. congruence.
Qed.

Lemma decide_write_confirm cfg c o : decide_write cfg c o = Some RConfirm → o = Confirmed.
Proof.
  unfold decide_write. destruct (o =? Confirmed) eqn:E; [by boolp|].
  destruct (DoQuarantine _); [done|]. by destruct (Delay _ <=? 0).
Qed.

Lemma relay_step_sound cfg r s log r' s' log' :
  relay_step cfg (r, s, log) (r', s', log') →
  valid s → relay_ok s log r → published_confirmed s log →
  valid s' ∧ grows (view s) (view s') ∧ log ⊆ log' ∧ relay_ok s' log' r' ∧
  published_confirmed s' log'.
Proof.
  intros Hst Hs [Hk Hd] Hp. inversion Hst; subst; clear Hst;
    try (match goal with Hph : phase r = _ |- _ => rewrite Hph in Hk, Hd; simpl in Hk, Hd end).
  - unfold start in *. destruct (running r); simplify_eq. split_and!; [done|reflexivity|done|done|done].
  - split_and!; [done|reflexivity|done|done|done].
  - destruct (claim_grows (Concurrency cfg) (Lease cfg) w n s Hs) as [Hg Hv].
    split_and!; [done|done|done| |].
    + unfold after_scan. destruct (ClaimDue _ _ w (n, s)) as [[claims|e] [n1 s1]] eqn:E; simpl.
      * destruct (llen claims >? _); [done|]. split; simpl; [|done].
        rewrite app_nil_r. exact (claims_known _ _ _ _ _ _ _ _ Hs E).
      * by destruct cancelled.
    + intros id e He Hpub. eapply Hp; [by eapply claim_publishes_nothing|done].
  - split_and!; [done|reflexivity|done| |done]. split; simpl; [|done].
    eapply Forall_incl; [|exact Hk]. set_solver.
  - split_and!; [done|reflexivity|done| |done]. split; simpl; [|done].
    eapply Forall_incl; [|exact Hk]. set_solver.
  - assert (Hl : log ⊆ if classify res =? Confirmed then c :: log else log)
      by (destruct (_ =? _); set_solver).
    split_and!; [done|reflexivity|done| |].
    + split; simpl.
      * eapply Forall_incl; [|exact Hk]. set_solver.
      * constructor; [simpl; intros ->; by left|].
        eapply Forall_impl; [exact Hd|]. auto.
    + intros id e He Hpub. destruct (Hp id e He Hpub) as (c'&?&?). eauto.
  - assert (Hkc : knows s c ∧ (o = Confirmed → c ∈ log')).
    { rewrite fmap_app, !Forall_app in Hk. simpl in Hk. rewrite Forall_cons in Hk.
      rewrite Forall_app, Forall_cons in Hd. naive_solver. }
    assert (Hrest : relay_ok s log' (to r (Batch queued started (l1 ++ l2) full) evs)).
    { split; simpl.
      - eapply Forall_incl; [|exact Hk]. rewrite !fmap_app. simpl. set_solver.
      - eapply Forall_incl; [|exact Hd]. set_solver. }
    match goal with Hw : write_outcome _ _ _ _ _ = _ |- _ =>
      apply write_outcome_run in Hw as [[_ ->]|(req&Hreq&->)] end.
    { split_and!; [done|reflexivity|done|done|done]. }
    assert (Hg := settle_grows req c w n s).
    split_and!; [by apply settle_valid|done|done|by eapply relay_ok_mono|].
    intros id e He Hpub. destruct (perform_published _ _ _ _ _ _ _ He Hpub) as
      [?|(->&Hid&e0&He0&Hc)]; [by eapply Hp|].
    apply decide_write_confirm in Hreq as ->. destruct Hkc as [(e1&He1&Hc1) Hin].
    exists c. split; [by apply Hin|]. split; [done|]. congruence.
  - split_and!; [done|reflexivity|done| |done].
    destruct cancelled, full; by split; simpl.
  - split_and!; [done|reflexivity|done| |done].
    destruct cancelled; by split; simpl.
Qed.

(** Invariant of a deployment. *)
Definition deployment_ok (d : Deployment) : Prop :=
  valid (store d) ∧ (∀ i, relay_ok (store d) (confirmed_log d) (relays d i)) ∧
  published_confirmed (store d) (confirmed_log d).

Lemma deploy_step_ok cfgs d d' : deploy_step cfgs d d' → deployment_ok d → deployment_ok d'.
Proof.
  intros Hst (Hs&Hr&Hp). destruct Hst as [d i r' s' log' Hst|d s' Hh|d limit lease w n|d req c w n Hreq].
  - apply relay_step_sound in Hst as (?&Hg&Hl&Hri&?); [|done|apply Hr|done].
    split_and!; [done| |done]. intros j. simpl. unfold set_relay. case_decide; [done|].
    by eapply relay_ok_mono.
  - destruct (host_grows _ _ Hs Hh) as [Hg Hv]. split_and!; [done| |].
    + intros j. by eapply relay_ok_mono; [exact Hg|simpl|apply Hr].
    + intros id e He Hpub. eapply Hp; [by eapply host_publishes_nothing|done].
  - destruct (claim_grows limit lease w n _ Hs) as [Hg Hv]. split_and!; [done| |].
    + intros j. by eapply relay_ok_mono; [exact Hg|simpl|apply Hr].
    + intros id e He Hpub. eapply Hp; [by eapply claim_publishes_nothing|done].
  - split_and!; [by apply settle_valid| |].
    + intros j. by eapply relay_ok_mono; [apply settle_grows|simpl|apply Hr].
    + intros id e He Hpub. destruct (perform_published _ _ _ _ _ _ _ He Hpub) as [?|[? _]]; [|done].
      by eapply Hp.
Qed.


(** ** One delivery *)

Lemma decide_write_valid cfg c o req : decide_write cfg c o = Some req → request_valid req = true.
Proof.
  unfold decide_write. destruct (o =? Confirmed); [by intros [= <-]|].
  destruct (DoQuarantine _); [by destruct (o =? Rejected); intros [= <-]|].
  destruct (Z.leb_spec (Delay (RetryPolicy cfg c o)) 0); [done|].
  intros [= <-]. simpl. rewrite (proj2 (Z.ltb_lt 0 _)) by done. by destruct (o =? Rejected).
Qed.

(** A delivery records the publisher's answer: while the lease of a claim
    lasts and the driver does not fail, [deliver] reports the normalised
    outcome and leaves the record published on Confirmed, waiting for the
    policy's delay or quarantined otherwise, unless the policy itself is
    invalid, which is reported and writes nothing. *)
Theorem deliver_records cfg publish c w n s e :
  view s (RecordID c) = Some e → held c e → has_room e →
  Token c ≠ ""%string → Version c ≠ 0 → t_fault (w n) = None → t_now (w n) < LeaseUntil c →
  let o := classify (publish (ClaimMessage c)) in
  match decide_write cfg c o with
  | Some req =>
    (deliver cfg publish c w (n, s)).1
      = Ok [mkEvent "publish_result" o None; mkEvent "write_succeeded" o None] ∧
    view (deliver cfg publish c w (n, s)).2.2 (RecordID c)
      = Some (settle unit_ns (t_now (w n)) (request_settlement req) e)
  | None =>
    o ≠ Confirmed ∧
    deliver cfg publish c w (n, s)
      = (Ok [mkEvent "publish_result" o None; mkEvent "write_failed" o (Some policy_error)], (n, s))
  end.
Proof.
  intros He (Hst&Ht&Hv&Hl) Hroom Htok Hver Hq Hnow o.
  unfold deliver. fold o. unfold write_outcome. destruct (decide_write cfg c o) as [req|] eqn:Hd.
  - assert (Hf : fenced (t_now (w n)) c e) by (split_and!; eauto).
    pose proof (settle_live req c w n s e He Hf Hroom (decide_write_valid _ _ _ _ Hd) Htok Hver Hq) as Hok.
    destruct (settle_ok req c w n s Hok) as (_&e0&He0&_&Hview). rewrite He in He0. injection He0 as <-.
    unfold mbind, M_bind, catch. destruct (perform req c w (n, s)) as [res [n1 s1]]. simpl in *.
    subst res. done.
  - split; [|done]. intros Ho. unfold decide_write in Hd. by rewrite Ho in Hd.
Qed.

(** ** Admission *)

Definition relay_bounded (cfg : Config) (r : Relay) : Prop :=
  llen (claims_in (phase r)) <= Z.max 0 (Concurrency cfg) ∧
  (running r = false → ∃ res, phase r = Returned res).

Ltac lengths :=
  cbn [claims_in phase to] in *;
  rewrite ?length_app, ?length_fmap, ?length_app, ?length_cons, ?length_nil in *;
  repeat (rewrite ?length_app, ?length_cons in *; simpl length in * ); lia.

Lemma relay_step_bounded cfg r s log r' s' log' :
  relay_step cfg (r, s, log) (r', s', log') → relay_bounded cfg r → relay_bounded cfg r'.
Proof.
  intros Hst [Hb Hi]. inversion Hst; subst; clear Hst; unfold relay_bounded, llen in *;
    try (match goal with Hph : phase r = _ |- _ => rewrite Hph in Hb; cbn [claims_in] in Hb end).
  - unfold start in *. destruct (running r); simplify_eq. split; [simpl; lia|done].
  - split; [simpl; lia|eauto].
  - unfold after_scan. destruct (ClaimDue _ _ _ _).1 as [claims|e];
      [|destruct cancelled; split; simpl; [lia|eauto|lia|eauto]].
    destruct (_ >? _) eqn:Hlen; split; simpl; [lia|eauto| |done].
    rewrite app_nil_r. rewrite Z.gtb_ltb in Hlen. apply Z.ltb_ge in Hlen. unfold llen in *. lia.
  - split; [|done]. lengths.
  - split; [|done]. lengths.
  - split; [|done]. lengths.
  - split; [|done]. lengths.
  - destruct cancelled, full; split; simpl; first [lia|eauto|done].
  - destruct cancelled; split; simpl; first [lia|eauto|done].
Qed.

(** Admission is bounded: in every reachable deployment no relay has more
    claims queued, publishing or waiting for their write than its configured
    concurrency, a relay that is not running has none (Run returns only after
    its batch is drained), and a second Run on a running relay is refused. *)
Theorem admission_bounded cfgs s0 d i :
  rtc (deploy_step cfgs) (mkDeployment (λ _, idle) s0 []) d → is_Ok (New (cfgs i)) = true →
  llen (claims_in (phase (relays d i))) <= Concurrency (cfgs i) <= 1000 ∧
  (running (relays d i) = false → claims_in (phase (relays d i)) = []) ∧
  (running (relays d i) = true → start (relays d i) = Err (ErrMsg "relay already running")).
Proof.
  intros Hr Hcfg. assert (Hinv : ∀ j, relay_bounded (cfgs j) (relays d j)).
  { eapply (rtc_invariant (deploy_step cfgs) (λ d, ∀ j, relay_bounded (cfgs j) (relays d j))); [|exact Hr|].
    - intros a b Ha Hab. destruct Hab as [d0 k r' s' log' Hst| | |]; try done.
      intros j. simpl. unfold set_relay. case_decide as Hj; [subst|done].
      by eapply relay_step_bounded.
    - intros j. split; [|by eauto]. simpl. unfold llen. simpl. lia. }
  destruct (Hinv i) as [Hb Hi]. unfold New in Hcfg. destruct (_ || _) eqn:Hg; [done|]. boolp.
  split; [lia|]. split.
  - intros Hrun. by destruct (Hi Hrun) as [res ->].
  - intros Hrun. unfold start. by rewrite Hrun.
Qed.

End deployment.

(** ** A concrete deployment on the MySQL store *)

Definition ex_config : Config :=
  mkConfig 10 1000000 1000000 400000 400000 (λ _ _, mkDecision 5000 false).

Definition ex_relay1 : Relay := mkRelay true Scanning [].
Definition ex_relay2 : Relay :=
  after_scan ex_config false ex_relay1 (Ok [mysql.ex_claim]).
Definition ex_relay3 : Relay := to ex_relay2 (Batch [] [mysql.ex_claim] [] false) [].
Definition ex_relay4 : Relay :=
  to ex_relay3 (Batch [] [] [(mysql.ex_claim, Confirmed)] false)
    [mkEvent "publish_result" Confirmed None].
Definition ex_relay5 : Relay :=
  to ex_relay4 (Batch [] [] [] false) [mkEvent "write_succeeded" Confirmed None].
Definition ex_s3 : mysql.Table :=
  (mysql.MySQL_Confirm mysql.ex_claim (mysql.ex_world 200) (0%nat, mysql.ex_s2)).2.2.

Definition ex_start : Deployment (S:=mysql.Table) := mkDeployment (λ _, idle) mysql.ex_s1 [].
Definition ex_end : Deployment (S:=mysql.Table) :=
  mkDeployment
    (set_relay (set_relay (set_relay (set_relay (set_relay (λ _, idle) 0 ex_relay1) 0 ex_relay2)
       0 ex_relay3) 0 ex_relay4) 0 ex_relay5)
    ex_s3 [mysql.ex_claim].

Lemma ex_run : rtc (deploy_step (λ _, ex_config)) ex_start ex_end.
Proof.
  eapply rtc_l. { eapply (deploy_relay _ ex_start 0%nat). by eapply (step_start _ idle ex_relay1). }
  eapply rtc_l.
  { eapply (deploy_relay _ _ 0%nat).
    exact (step_scan ex_config ex_relay1 mysql.ex_s1 [] false (mysql.ex_world 100) 0%nat eq_refl eq_refl). }
  replace (after_scan _ _ _ _) with ex_relay2 by (vm_compute; reflexivity).
  change ((ClaimDue (Concurrency ex_config) (Lease ex_config) (mysql.ex_world 100) (0%nat, mysql.ex_s1)).2.2)
    with mysql.ex_s2.
  eapply rtc_l. { eapply (deploy_relay _ _ 0%nat). by eapply step_spawn. }
  eapply rtc_l.
  { eapply (deploy_relay _ _ 0%nat).
    by apply (step_publish ex_config ex_relay3 mysql.ex_s2 [] [] [] mysql.ex_claim [] [] false (mkResult 1)). }
  eapply rtc_l.
  { eapply (deploy_relay _ _ 0%nat).
    eapply (step_write ex_config ex_relay4 mysql.ex_s2 [mysql.ex_claim] [] [] [] mysql.ex_claim Confirmed [] false
      (mysql.ex_world 200) 0%nat [mkEvent "write_succeeded" Confirmed None] 1%nat ex_s3); [done|done|].
    vm_compute. reflexivity. }
  apply rtc_refl.
Qed.

Lemma ex_none_published : ∀ id e, view mysql.ex_s1 id = Some e → e_state e ≠ published.
Proof.
  intros id e He. simpl in He. unfold mysql.table_view in He.
  apply bind_Some in He as (k&_&He). apply fmap_Some in He as (r&Hr&->).
  assert (Hrows : mysql.rows mysql.ex_s1 = {[1 := mysql.ex_row1]}) by (vm_compute; reflexivity).
  rewrite Hrows in Hr. apply lookup_singleton_Some in Hr as [_ <-]. discriminate.
Qed.


Lemma admission_bounded_witness :
  llen (claims_in (phase (relays ex_end 0%nat))) <= Concurrency ex_config <= 1000.
Proof.
  apply (admission_bounded (λ _, ex_config) mysql.ex_s1 ex_end 0%nat ex_run). reflexivity.
Defined.

Lemma deliver_records_witness :
  (deliver (S:=mysql.Table) ex_config (λ _, mkResult 7) mysql.ex_claim (mysql.ex_world 200)
     (0%nat, mysql.ex_s2)).1
  = Ok [mkEvent "publish_result" Unknown None; mkEvent "write_succeeded" Unknown None].
Proof.
  eapply (deliver_records (S:=mysql.Table) ex_config (λ _, mkResult 7) mysql.ex_claim (mysql.ex_world 200)
    0%nat mysql.ex_s2); [vm_compute; reflexivity|..]; try (vm_compute; reflexivity); try discriminate.
  - vm_compute. repeat split.
  - vm_compute. split; reflexivity.
Defined.

End relay.
