(* ===== verification/Json.v ===== *)
(** * encoding/json and encoding/base64

    The parts of the two packages that the codecs of the repository use:
    [json.Marshal] of values built from strings, integers, arrays and objects
    (with Go's escaping), the scanner with its string decoding, and the rules by
    which members are matched to struct fields.  The scanner's nesting limit of
    10000 is not modelled. *)

From S2P Require Import Prelude GoStd.
From Stdlib Require Import Ascii.

Module json.

Inductive value : Type :=
| JNull
| JBool (b : bool)
| JNum (text : string)
| JStr (s : string)
| JArr (l : list value)
| JObj (l : list (string * value)).

(** ** Strings *)

Definition chr (z : Z) : ascii := byte_of z.
Definition str1 (z : Z) : string := String (chr z) "".
Definition octet (z : Z) (a : ascii) : bool := byte_val a =? z.

Definition backslash : string := str1 92.

(** The well-formed multi-byte prefixes, as [utf8.DecodeRune] accepts them. *)
Definition lead2 (a b : ascii) : bool := in_range 194 223 a && utf8_cont b.
Definition lead3 (a b c : ascii) : bool :=
  in_range 224 239 a &&
  in_range (if byte_val a =? 224 then 160 else 128) (if byte_val a =? 237 then 159 else 191) b &&
  utf8_cont c.
Definition lead4 (a b c d : ascii) : bool :=
  in_range 240 244 a &&
  in_range (if byte_val a =? 240 then 144 else 128) (if byte_val a =? 244 then 143 else 191) b &&
  utf8_cont c && utf8_cont d.

(** U+2028 and U+2029 are E2 80 A8 and E2 80 A9. *)
Definition line_sep (a b c : ascii) : bool :=
  octet 226 a && octet 128 b && (octet 168 c || octet 169 c).

(** The ASCII octets that [json.Marshal] writes as they are. *)
Definition html_safe (a : ascii) : bool :=
  (32 <=? byte_val a) && (byte_val a <? 128) &&
  negb (octet 34 a || octet 92 a || octet 60 a || octet 62 a || octet 38 a).

Definition hex4 (v : Z) : string :=
  String (hex_digit (v / 4096)) (String (hex_digit (v / 256 mod 16))
    (String (hex_digit (v / 16 mod 16)) (String (hex_digit (v mod 16)) ""))).

Definition escape_ascii (a : ascii) (rest : string) : string :=
  if html_safe a then String a rest
  else if octet 34 a || octet 92 a then String (chr 92) (String a rest)
  else if octet 8 a then String (chr 92) (String "b" rest)
  else if octet 12 a then String (chr 92) (String "f" rest)
  else if octet 10 a then String (chr 92) (String "n" rest)
  else if octet 13 a then String (chr 92) (String "r" rest)
  else if octet 9 a then String (chr 92) (String "t" rest)
  else String (chr 92) (String "u" (hex4 (byte_val a) +:+ rest)).

Definition replacement (rest : string) : string :=
  String (chr 92) (String "u" (String "f" (String "f" (String "f" (String "d" rest))))).

Fixpoint escape (s : string) : string :=
  match s with
  | ""%string => ""%string
  | String a s1 =>
    if byte_val a <? 128 then escape_ascii a (escape s1)
    else match s1 with
    | ""%string => replacement (escape s1)
    | String b s2 =>
      if lead2 a b then String a (String b (escape s2))
      else match s2 with
      | ""%string => replacement (escape s1)
      | String c s3 =>
        if lead3 a b c then
          if line_sep a b c then
            String (chr 92) (String "u" (String "2" (String "0" (String "2"
              (String (hex_digit (byte_val c mod 16)) (escape s3))))))
          else String a (String b (String c (escape s3)))
        else match s3 with
        | ""%string => replacement (escape s1)
        | String d s4 =>
          if lead4 a b c d then String a (String b (String c (String d (escape s4))))
          else replacement (escape s1)
        end
      end
    end
  end.

Definition quote (s : string) : string := String (chr 34) (escape s +:+ dquote).

(** The octets of a code point. *)
Definition utf8_encode (r : Z) (rest : string) : string :=
  if r <? 128 then String (chr r) rest
  else if r <? 2048 then String (chr (192 + r / 64)) (String (chr (128 + r mod 64)) rest)
  else if r <? 65536 then
    String (chr (224 + r / 4096)) (String (chr (128 + r / 64 mod 64)) (String (chr (128 + r mod 64)) rest))
  else String (chr (240 + r / 262144)) (String (chr (128 + r / 4096 mod 64))
         (String (chr (128 + r / 64 mod 64)) (String (chr (128 + r mod 64)) rest))).

Definition getu4 (a b c d : ascii) : option Z :=
  w ← hex_value a; x ← hex_value b; y ← hex_value c; z ← hex_value d;
  Some (((w * 16 + x) * 16 + y) * 16 + z).

Definition surrogate (r : Z) : bool := (55296 <=? r) && (r <? 57344).
Definition high_surrogate (r : Z) : bool := (55296 <=? r) && (r <? 56320).
Definition low_surrogate (r : Z) : bool := (56320 <=? r) && (r <? 57344).

(** The simple escapes. *)
Definition unescape_char (e : ascii) : option ascii :=
  if octet 34 e || octet 92 e || octet 47 e then Some e
  else if octet 98 e then Some (chr 8)
  else if octet 102 e then Some (chr 12)
  else if octet 110 e then Some (chr 10)
  else if octet 114 e then Some (chr 13)
  else if octet 116 e then Some (chr 9)
  else None.

Definition consr (f : string → string) (r : option (string * string)) : option (string * string) :=
  '(x, rest) ← r; Some (f x, rest).

(** The text after the opening quote: its value and what follows the closing
    quote.  Ill-formed UTF-8 and lone surrogates become U+FFFD. *)
Fixpoint unquote (s : string) : option (string * string) :=
  match s with
  | ""%string => None
  | String a s1 =>
    if octet 34 a then Some (""%string, s1)
    else if octet 92 a then
      match s1 with
      | String e s2 =>
        if octet 117 e then
          match s2 with
          | String h1 (String h2 (String h3 (String h4 s3))) =>
            match getu4 h1 h2 h3 h4 with
            | None => None
            | Some r =>
              if surrogate r then
                match s3 with
                | String x (String y (String g1 (String g2 (String g3 (String g4 s4))))) =>
                  if octet 92 x && octet 117 y && high_surrogate r &&
                     match getu4 g1 g2 g3 g4 with Some r2 => low_surrogate r2 | None => false end
                  then consr (utf8_encode (65536 + (r - 55296) * 1024 +
                                (default 0 (getu4 g1 g2 g3 g4) - 56320))) (unquote s4)
                  else consr (utf8_encode 65533) (unquote s3)
                | _ => consr (utf8_encode 65533) (unquote s3)
                end
              else consr (utf8_encode r) (unquote s3)
            end
          | _ => None
          end
        else match unescape_char e with
             | Some c => consr (String c) (unquote s2)
             | None => None
             end
      | ""%string => None
      end
    else if byte_val a <? 32 then None
    else if byte_val a <? 128 then consr (String a) (unquote s1)
    else match s1 with
    | ""%string => None
    | String b s2 =>
      if lead2 a b then consr (λ x, String a (String b x)) (unquote s2)
      else match s2 with
      | ""%string => consr (utf8_encode 65533) (unquote s1)
      | String c s3 =>
        if lead3 a b c then consr (λ x, String a (String b (String c x))) (unquote s3)
        else match s3 with
        | ""%string => consr (utf8_encode 65533) (unquote s1)
        | String d s4 =>
          if lead4 a b c d then consr (λ x, String a (String b (String c (String d x)))) (unquote s4)
          else consr (utf8_encode 65533) (unquote s1)
        end
      end
    end
  end.

Lemma escape_ascii_app a r t : escape_ascii a r +:+ t = escape_ascii a (r +:+ t).
Proof.
  unfold escape_ascii. repeat case_match; rewrite ?string_cons_app, ?string_app_assoc; done.
Qed.

(** Every ASCII octet survives its escaping. *)
Lemma unquote_escape_ascii a rest :
  byte_val a < 128 →
  unquote (escape_ascii a rest) = consr (String a) (unquote rest).
Proof.
  intros Ha. destruct a as [[] [] [] [] [] [] [] []]; try (vm_compute in Ha; discriminate Ha);
    cbn -[unquote consr]; reflexivity || (rewrite ?string_cons_app, ?string_nil_app; reflexivity).
Qed.

Lemma line_sep_octets a b c :
  line_sep a b c = true → a = chr 226 ∧ b = chr 128 ∧ (c = chr 168 ∨ c = chr 169).
Proof.
  unfold line_sep, octet. intros. boolp.
  apply orb_true_iff in H0 as [?|?]; boolp;
    rewrite <-(byte_of_val a), <-(byte_of_val b), <-(byte_of_val c); repeat match goal with H : byte_val _ = _ |- _ => rewrite H end; auto.
Qed.

Lemma octet_ne z a : byte_val a ≠ z → octet z a = false.
Proof. intros. by apply Z.eqb_neq. Qed.

Lemma in_range_true lo hi a : in_range lo hi a = true ↔ lo <= byte_val a <= hi.
Proof. unfold in_range. rewrite andb_true_iff, !Z.leb_le. done. Qed.

Lemma unquote_high a s :
  128 <= byte_val a →
  unquote (String a s) =
  match s with
  | ""%string => None
  | String b s2 =>
    if lead2 a b then consr (λ x, String a (String b x)) (unquote s2)
    else match s2 with
    | ""%string => consr (utf8_encode 65533) (unquote s)
    | String c s3 =>
      if lead3 a b c then consr (λ x, String a (String b (String c x))) (unquote s3)
      else match s3 with
      | ""%string => consr (utf8_encode 65533) (unquote s)
      | String d s4 =>
        if lead4 a b c d then consr (λ x, String a (String b (String c (String d x)))) (unquote s4)
        else consr (utf8_encode 65533) (unquote s)
      end
    end
  end.
Proof.
  intros Ha. cbn [unquote]. rewrite !octet_ne by lia.
  rewrite (proj2 (Z.ltb_ge (byte_val a) 32)), (proj2 (Z.ltb_ge (byte_val a) 128)) by lia. done.
Qed.

(** [utf8_valid] by its leading sequences. *)
Lemma utf8_valid_cases s :
  utf8_valid s = true →
  s = ""%string ∨
  (∃ a t, s = String a t ∧ byte_val a < 128 ∧ utf8_valid t = true) ∨
  (∃ a b t, s = String a (String b t) ∧ 128 <= byte_val a ∧ lead2 a b = true ∧ utf8_valid t = true) ∨
  (∃ a b c t, s = String a (String b (String c t)) ∧ 128 <= byte_val a ∧ lead2 a b = false ∧
     lead3 a b c = true ∧ utf8_valid t = true) ∨
  (∃ a b c d t, s = String a (String b (String c (String d t))) ∧ 128 <= byte_val a ∧
     lead2 a b = false ∧ lead3 a b c = false ∧ lead4 a b c d = true ∧ utf8_valid t = true).
Proof.
  destruct s as [|a s1]; [by left|]. cbn [utf8_valid]. unfold lead2, lead3, lead4.
  destruct (Z.ltb_spec (byte_val a) 128); [right; left; eauto|].
  destruct s1 as [|b s2]; [done|]. destruct (in_range 194 223 a) eqn:H2.
  { intros ?; boolp. right; right; left. exists a, b, s2. rewrite H2. naive_solver. }
  destruct s2 as [|c s3]; [done|]. destruct (in_range 224 239 a) eqn:H3.
  { intros ?; boolp. do 3 right; left. exists a, b, c, s3. rewrite H2, H3. simpl.
    split_and!; try done. by rewrite ?andb_true_iff. }
  destruct s3 as [|d s4]; [done|]. intros ?; boolp. do 4 right.
  exists a, b, c, d, s4. rewrite H2, H3. simpl. split_and!; try done.
  by rewrite ?andb_true_iff.
Qed.

Lemma unquote_escape s rest :
  utf8_valid s = true → unquote (escape s +:+ String (chr 34) rest) = Some (s, rest).
Proof.
  remember (String.length s) as n eqn:Hn. revert s Hn.
  induction (lt_wf n) as [n _ IH]. intros s -> Hv.
  destruct (utf8_valid_cases s Hv) as
    [->|[(a&t&->&Ha&Ht)|[(a&b&t&->&Ha&H2&Ht)|[(a&b&c&t&->&Ha&H2&H3&Ht)|(a&b&c&d&t&->&Ha&H2&H3&H4&Ht)]]]].
  - reflexivity.
  - cbn [escape]. rewrite (proj2 (Z.ltb_lt _ _)) by done.
    rewrite escape_ascii_app, unquote_escape_ascii by done.
    by rewrite (IH (String.length t)) by (done || simpl; lia).
  - cbn [escape]. rewrite (proj2 (Z.ltb_ge _ _)) by lia. rewrite H2, !string_cons_app, unquote_high by done.
    rewrite H2. by rewrite (IH (String.length t)) by (done || simpl; lia).
  - cbn [escape]. rewrite (proj2 (Z.ltb_ge _ _)) by lia. rewrite H2, H3.
    destruct (line_sep a b c) eqn:Hl.
    + apply line_sep_octets in Hl as (->&->&[->| ->]); rewrite !string_cons_app;
        [transitivity (consr (utf8_encode 8232) (unquote (escape t +:+ String (chr 34) rest)))
        |transitivity (consr (utf8_encode 8233) (unquote (escape t +:+ String (chr 34) rest)))];
        try reflexivity; by rewrite (IH (String.length t)) by (done || simpl; lia).
    + rewrite !string_cons_app, unquote_high by done. rewrite H2, H3.
      by rewrite (IH (String.length t)) by (done || simpl; lia).
  - cbn [escape]. rewrite (proj2 (Z.ltb_ge _ _)) by lia. rewrite H2, H3, H4.
    rewrite !string_cons_app, unquote_high by done. rewrite H2, H3, H4.
    by rewrite (IH (String.length t)) by (done || simpl; lia).
Qed.

(** ** Values *)

(** [json.Marshal] followed by [rest]. *)
Fixpoint print_to (v : value) (rest : string) {struct v} : string :=
  match v with
  | JNull => "null" +:+ rest
  | JBool true => "true" +:+ rest
  | JBool false => "false" +:+ rest
  | JNum t => t +:+ rest
  | JStr s => String (chr 34) (escape s +:+ String (chr 34) rest)
  | JArr l =>
    String (chr 91)
      ((fix go (first : bool) (l : list value) : string :=
          match l with
          | [] => String (chr 93) rest
          | v :: l => (if first then λ x, x else String (chr 44)) (print_to v (go false l))
          end) true l)
  | JObj l =>
    String (chr 123)
      ((fix go (first : bool) (l : list (string * value)) : string :=
          match l with
          | [] => String (chr 125) rest
          | (k, v) :: l =>
            (if first then λ x, x else String (chr 44))
              (String (chr 34) (escape k +:+ String (chr 34) (String (chr 58) (print_to v (go false l)))))
          end) true l)
  end.

Definition marshal (v : value) : string := print_to v "".

Definition white (a : ascii) : bool := octet 32 a || octet 9 a || octet 10 a || octet 13 a.

Fixpoint skip_ws (s : string) : string :=
  match s with
  | String a s' => if white a then skip_ws s' else s
  | ""%string => s
  end.

Definition is_digit (a : ascii) : bool := in_range 48 57 a.

Fixpoint take_digits (s : string) : string * string :=
  match s with
  | String a s' => if is_digit a then let '(d, r) := take_digits s' in (String a d, r) else (""%string, s)
  | ""%string => (""%string, s)
  end.

(** Digits, at least one. *)
Definition digits1 (s : string) : option (string * string) :=
  let '(d, r) := take_digits s in if d == ""%string then None else Some (d, r).

Definition number_int (s : string) : option (string * string) :=
  match s with
  | String a s' => if octet 48 a then Some (String a "", s') else digits1 s
  | ""%string => None
  end.

Definition number_frac (s : string) : option (string * string) :=
  match s with
  | String a s' => if octet 46 a then consr (String a) (digits1 s') else Some (""%string, s)
  | ""%string => Some (""%string, s)
  end.

Definition number_exp (s : string) : option (string * string) :=
  match s with
  | String a s' =>
    if octet 101 a || octet 69 a then
      match s' with
      | String b s'' =>
        if octet 43 b || octet 45 b then consr (λ x, String a (String b x)) (digits1 s'')
        else consr (String a) (digits1 s')
      | ""%string => None
      end
    else Some (""%string, s)
  | ""%string => Some (""%string, s)
  end.

Definition parse_number (s : string) : option (string * string) :=
  let '(sign, s0) := match s with
    | String a s' => if octet 45 a then (String a "", s') else (""%string, s)
    | ""%string => (""%string, s)
    end in
  '(i, s1) ← number_int s0; '(f, s2) ← number_frac s1; '(e, s3) ← number_exp s2;
  Some (sign +:+ i +:+ f +:+ e, s3).

(** A literal name. *)
Fixpoint literal (t s : string) : option string :=
  match t, s with
  | ""%string, _ => Some s
  | String a t, String b s => if Ascii.eqb a b then literal t s else None
  | _, _ => None
  end.

(** The scanner; every value and every separator uses one unit of fuel, and
    consumes at least one octet per two units. *)
Fixpoint parse_value (fuel : nat) (s : string) : option (value * string) :=
  match fuel with
  | O => None
  | S fuel =>
    match skip_ws s with
    | ""%string => None
    | String a s1 =>
      if octet 34 a then '(x, r) ← unquote s1; Some (JStr x, r)
      else if octet 91 a then
        match skip_ws s1 with
        | String b r => if octet 93 b then Some (JArr [], r)
                        else '(l, r) ← parse_elems fuel s1; Some (JArr l, r)
        | ""%string => None
        end
      else if octet 123 a then
        match skip_ws s1 with
        | String b r => if octet 125 b then Some (JObj [], r)
                        else '(l, r) ← parse_members fuel s1; Some (JObj l, r)
        | ""%string => None
        end
      else if octet 110 a then r ← literal "ull" s1; Some (JNull, r)
      else if octet 116 a then r ← literal "rue" s1; Some (JBool true, r)
      else if octet 102 a then r ← literal "alse" s1; Some (JBool false, r)
      else '(t, r) ← parse_number (String a s1); Some (JNum t, r)
    end
  end
with parse_elems (fuel : nat) (s : string) : option (list value * string) :=
  match fuel with
  | O => None
  | S fuel =>
    '(v, s1) ← parse_value fuel s;
    match skip_ws s1 with
    | String a s2 => if octet 93 a then Some ([v], s2)
                     else if octet 44 a then '(l, r) ← parse_elems fuel s2; Some (v :: l, r)
                     else None
    | ""%string => None
    end
  end
with parse_members (fuel : nat) (s : string) : option (list (string * value) * string) :=
  match fuel with
  | O => None
  | S fuel =>
    match skip_ws s with
    | String q s1 =>
      if octet 34 q then
        '(k, s2) ← unquote s1;
        match skip_ws s2 with
        | String c s3 =>
          if octet 58 c then
            '(v, s4) ← parse_value fuel s3;
            match skip_ws s4 with
            | String a s5 => if octet 125 a then Some ([(k, v)], s5)
                             else if octet 44 a then '(l, r) ← parse_members fuel s5; Some ((k, v) :: l, r)
                             else None
            | ""%string => None
            end
          else None
        | ""%string => None
        end
      else None
    | ""%string => None
    end
  end.

(** One value and nothing after it. *)
Definition parse (s : string) : option value :=
  '(v, r) ← parse_value (2 * String.length s + 2) s;
  if skip_ws r == ""%string then Some v else None.

(** ** The fuel is enough

    Every value consumes an octet, so that with [2 * length + 1] units the scanner
    never stops for lack of fuel: more fuel changes nothing, on any input. *)

Lemma skip_ws_length s : (String.length (skip_ws s) <= String.length s)%nat.
Proof. induction s as [|a s IH]; simpl; [lia|]. destruct (white a); simpl; lia. Qed.

Lemma consr_Some f r x rest : consr f r = Some (x, rest) → ∃ y, r = Some (y, rest).
Proof. intros ([y t]&Hr&[= <- <-])%bind_Some. by exists y. Qed.

Lemma unquote_length s x r : unquote s = Some (x, r) → (String.length r < String.length s)%nat.
Proof.
  remember (String.length s) as n eqn:Hn. revert s x r Hn.
  induction n as [n IH] using lt_wf_ind. intros s x r ->.
  assert (Hrec : ∀ f s' y, (String.length s' < String.length s)%nat → consr f (unquote s') = Some (y, r) →
    (String.length r < String.length s)%nat).
  { intros f s' y Hlt (z&Hz)%consr_Some. specialize (IH _ Hlt s' z r eq_refl Hz). lia. }
  destruct s as [|a s1]; [done|]. cbn [unquote]. intros H.
  repeat (case_match; try done);
    match type of H with
    | Some _ = Some _ => injection H as _ <-; simpl; lia
    | _ => eapply Hrec; [|exact H]; simpl; lia
    end.
Qed.

Lemma take_digits_length s : (String.length (take_digits s).2 <= String.length s)%nat ∧
  ((take_digits s).1 ≠ ""%string → (String.length (take_digits s).2 < String.length s)%nat).
Proof.
  induction s as [|a s [IH _]]; simpl; [done|]. destruct (is_digit a); [|by split].
  destruct (take_digits s) as [d r]. simpl in *. split; intros; lia.
Qed.
Lemma digits1_length s d r : digits1 s = Some (d, r) → (String.length r < String.length s)%nat.
Proof.
  unfold digits1. pose proof (take_digits_length s) as [_ H]. destruct (take_digits s) as [d' r'].
  destruct (bool_decide_reflect (d' = ""%string)) as [|Hne]; [done|]. intros [= <- <-]. by apply H.
Qed.
Lemma number_rest_length (sign s0 t r : string) :
  ('(i, s1) ← number_int s0; '(f, s2) ← number_frac s1; '(e, s3) ← number_exp s2;
   Some (sign +:+ i +:+ f +:+ e, s3)) = Some (t, r) → (String.length r < String.length s0)%nat.
Proof.
  intros ([i s1]&Hi&([f s2]&Hf&([e s3]&He&[= _ <-])%bind_Some)%bind_Some)%bind_Some.
  assert (H1 : (String.length s1 < String.length s0)%nat).
  { destruct s0 as [|a s0]; [done|]. simpl in Hi. destruct (octet 48 a); [injection Hi as _ <-; simpl; lia|].
    by apply digits1_length in Hi. }
  assert (H2 : (String.length s2 <= String.length s1)%nat).
  { destruct s1 as [|a s1]; simpl in Hf; [by injection Hf as _ <-|]. destruct (octet 46 a); [|by injection Hf as _ <-].
    apply consr_Some in Hf as (y&Hy%digits1_length). simpl. lia. }
  assert (H3 : (String.length s3 <= String.length s2)%nat).
  { destruct s2 as [|a s2]; simpl in He; [by injection He as _ <-|]. destruct (octet 101 a || octet 69 a); [|by injection He as _ <-].
    destruct s2 as [|c s2]; [done|]. destruct (octet 43 c || octet 45 c);
      apply consr_Some in He as (y&Hy%digits1_length); simpl in *; lia. }
  lia.
Qed.
Lemma number_length s t r : parse_number s = Some (t, r) → (String.length r < String.length s)%nat.
Proof.
  unfold parse_number. destruct s as [|a s]; [done|]. destruct (octet 45 a); intros H%number_rest_length; simpl in *; lia.
Qed.
Lemma literal_length t s r : literal t s = Some r → (String.length r <= String.length s)%nat.
Proof.
  revert s. induction t as [|a t IH]; intros s H.
  - assert (Hr : s = r) by (destruct s; by injection H). by rewrite Hr.
  - destruct s as [|c s]; [done|]. simpl in H. destruct (Ascii.eqb a c); [|done]. apply IH in H. simpl. lia.
Qed.

Lemma parse_consumes fuel :
  (∀ s v r, parse_value fuel s = Some (v, r) → (String.length r < String.length s)%nat) ∧
  (∀ s v r, parse_elems fuel s = Some (v, r) → (String.length r < String.length s)%nat) ∧
  (∀ s v r, parse_members fuel s = Some (v, r) → (String.length r < String.length s)%nat).
Proof.
  induction fuel as [|fuel (IHv&IHe&IHm)]; [done|]. split; [|split]; intros s v r; cbn [parse_value parse_elems parse_members].
  - pose proof (skip_ws_length s) as Hs. destruct (skip_ws s) as [|a s1]; [done|]. simpl in Hs.
    pose proof (skip_ws_length s1) as Hs1.
    destruct (octet 34 a); [intros ([x q]&Hq%unquote_length&[= _ <-])%bind_Some; lia|].
    destruct (octet 91 a).
    { destruct (skip_ws s1) as [|c q]; [done|]. simpl in Hs1. destruct (octet 93 c); [intros [= _ <-]; lia|].
      intros ([l q']&Hq%IHe&[= _ <-])%bind_Some. lia. }
    destruct (octet 123 a).
    { destruct (skip_ws s1) as [|c q]; [done|]. simpl in Hs1. destruct (octet 125 c); [intros [= _ <-]; lia|].
      intros ([l q']&Hq%IHm&[= _ <-])%bind_Some. lia. }
    do 3 (case_match; [intros (q&Hq%literal_length&[= _ <-])%bind_Some; lia|]).
    intros ([t q]&Hq%number_length&[= _ <-])%bind_Some. simpl in Hq. lia.
  - intros ([x s1]&Hx%IHv&H)%bind_Some. pose proof (skip_ws_length s1). destruct (skip_ws s1) as [|a s2]; [done|].
    simpl in *. destruct (octet 93 a); [injection H as _ <-; lia|]. destruct (octet 44 a); [|done].
    apply bind_Some in H as ([l q]&Hq%IHe&[= _ <-]). lia.
  - pose proof (skip_ws_length s). destruct (skip_ws s) as [|q s1]; [done|]. simpl in *. destruct (octet 34 q); [|done].
    intros ([k s2]&Hk%unquote_length&H1)%bind_Some. pose proof (skip_ws_length s2). destruct (skip_ws s2) as [|c s3]; [done|].
    simpl in *. destruct (octet 58 c); [|done]. apply bind_Some in H1 as ([x s4]&Hx%IHv&H1). pose proof (skip_ws_length s4).
    destruct (skip_ws s4) as [|a s5]; [done|]. simpl in *. destruct (octet 125 a); [injection H1 as _ <-; lia|].
    destruct (octet 44 a); [|done]. apply bind_Some in H1 as ([l q']&Hq%IHm&[= _ <-]). lia.
Qed.

Lemma option_bind_ext {A B} (o : option A) (f g : A → option B) : (∀ x, o = Some x → f x = g x) → o ≫= f = o ≫= g.
Proof. destruct o; simpl; auto. Qed.

Lemma parse_stable n :
  (∀ s m, (2 * String.length s + 1 <= n)%nat → (n <= m)%nat → parse_value m s = parse_value n s) ∧
  (∀ s m, (2 * String.length s + 2 <= n)%nat → (n <= m)%nat → parse_elems m s = parse_elems n s) ∧
  (∀ s m, (2 * String.length s + 2 <= n)%nat → (n <= m)%nat → parse_members m s = parse_members n s).
Proof.
  induction n as [|n (IHv&IHe&IHm)]; [split; [|split]; intros; lia|].
  split; [|split]; intros s [|m] Hn Hm; try lia; cbn [parse_value parse_elems parse_members].
  - pose proof (skip_ws_length s) as Hs. destruct (skip_ws s) as [|a s1]; [done|]. simpl in Hs.
    destruct (octet 34 a); [done|]. destruct (octet 91 a).
    { destruct (skip_ws s1); [done|]. destruct (octet 93 _); [done|]. rewrite (IHe s1 m); [done|lia|lia]. }
    destruct (octet 123 a); [|done]. destruct (skip_ws s1); [done|]. destruct (octet 125 _); [done|].
    rewrite (IHm s1 m); [done|lia|lia].
  - rewrite (IHv s m) by lia. apply option_bind_ext. intros [v s1] Hv%parse_consumes. pose proof (skip_ws_length s1).
    destruct (skip_ws s1) as [|a s2]; [done|]. simpl in *. destruct (octet 93 a); [done|]. destruct (octet 44 a); [|done].
    rewrite (IHe s2 m); [done|lia|lia].
  - pose proof (skip_ws_length s). destruct (skip_ws s) as [|q s1]; [done|]. simpl in *. destruct (octet 34 q); [|done].
    apply option_bind_ext. intros [k s2] Hk%unquote_length. pose proof (skip_ws_length s2). destruct (skip_ws s2) as [|c s3]; [done|].
    simpl in *. destruct (octet 58 c); [|done]. rewrite (IHv s3 m) by lia. apply option_bind_ext. intros [x s4] Hx%parse_consumes.
    pose proof (skip_ws_length s4). destruct (skip_ws s4) as [|a s5]; [done|]. simpl in *. destruct (octet 125 a); [done|].
    destruct (octet 44 a); [|done]. rewrite (IHm s5 m); [done|lia|lia].
Qed.

(** The scanner of [parse] has all the fuel it can use. *)
Lemma parse_fuel_enough s fuel :
  (2 * String.length s + 2 <= fuel)%nat → parse_value fuel s = parse_value (2 * String.length s + 2) s.
Proof. intros Hf. by apply parse_stable; [lia|]. Qed.

(** ** Round trip *)

Definition delim (rest : string) : bool :=
  match rest with
  | ""%string => true
  | String a _ => octet 44 a || octet 93 a || octet 125 a
  end.

(** Values that [json.Marshal] writes and the scanner reads back unchanged. *)
Definition num_ok (t : string) : Prop := ∃ n, 0 <= n <= max_uint64 ∧ t = FormatUint n.

Fixpoint clean (v : value) : Prop :=
  match v with
  | JNull | JBool _ => True
  | JNum t => num_ok t
  | JStr s => utf8_valid s = true
  | JArr l => (fix go l := match l with [] => True | v :: l => clean v ∧ go l end) l
  | JObj l => (fix go l := match l with
                           | [] => True | (k, v) :: l => utf8_valid k = true ∧ clean v ∧ go l end) l
  end.

Fixpoint size (v : value) : nat :=
  match v with
  | JArr l => S ((fix go l := match l with [] => O | v :: l => S (size v + go l) end) l)
  | JObj l => S ((fix go l := match l with [] => O | (_, v) :: l => S (size v + go l) end) l)
  | _ => 1%nat
  end.

(** The inner loops of the printer by name. *)
Fixpoint print_elems (first : bool) (l : list value) (rest : string) : string :=
  match l with
  | [] => String (chr 93) rest
  | v :: l => (if first then λ x, x else String (chr 44)) (print_to v (print_elems false l rest))
  end.

Fixpoint print_members (first : bool) (l : list (string * value)) (rest : string) : string :=
  match l with
  | [] => String (chr 125) rest
  | (k, v) :: l =>
    (if first then λ x, x else String (chr 44))
      (String (chr 34) (escape k +:+ String (chr 34)
         (String (chr 58) (print_to v (print_members false l rest)))))
  end.

Lemma print_to_arr l rest : print_to (JArr l) rest = String (chr 91) (print_elems true l rest).
Proof.
  simpl. f_equal. generalize true. induction l as [|v l IH]; intros first; [done|].
  cbn [print_elems]. by rewrite IH.
Qed.

Lemma print_to_obj l rest : print_to (JObj l) rest = String (chr 123) (print_members true l rest).
Proof.
  simpl. f_equal. generalize true. induction l as [|[k v] l IH]; intros first; [done|].
  cbn [print_members]. by rewrite IH.
Qed.

Lemma take_digits_app t rest :
  Forall (λ z, 48 <= z <= 57) (octets t) →
  match rest with ""%string => True | String a _ => is_digit a = false end →
  take_digits (t +:+ rest) = (t, rest).
Proof.
  intros Ht Hr. induction t as [|a t IH].
  - rewrite string_nil_app. destruct rest as [|a r]; [done|]. simpl. by rewrite Hr.
  - inversion Ht; subst. rewrite string_cons_app. simpl. unfold is_digit.
    rewrite (proj2 (in_range_true _ _ _)) by done. by rewrite IH.
Qed.

Lemma delim_head rest :
  delim rest = true →
  match rest with
  | ""%string => True
  | String a _ => is_digit a = false ∧ octet 46 a = false ∧ octet 101 a = false ∧ octet 69 a = false
  end.
Proof.
  destruct rest as [|a r]; [done|]. simpl. unfold is_digit, in_range, octet.
  intros H. apply orb_true_iff in H as [H|H]; [apply orb_true_iff in H as [H|H]|];
    apply Z.eqb_eq in H; rewrite H; done.
Qed.

Lemma parse_number_format n rest :
  0 <= n <= max_uint64 → delim rest = true →
  parse_number (FormatUint n +:+ rest) = Some (FormatUint n, rest).
Proof.
  intros Hn Hr. destruct (FormatUint_shape n Hn) as (d&t&Hd&->&Hz&Ht).
  apply delim_head in Hr. rewrite string_cons_app. unfold parse_number.
  assert (Hb : byte_val (byte_of (48 + d)) = 48 + d) by (rewrite byte_val_of, Z.mod_small; lia).
  rewrite (octet_ne 45) by lia.
  assert (Hi : number_int (String (byte_of (48 + d)) (t +:+ rest)) = Some (String (byte_of (48 + d)) t, rest)).
  { unfold number_int. destruct (decide (d = 0)) as [->|Hne].
    - rewrite (Hz eq_refl), string_nil_app. unfold octet. by rewrite Hb.
    - rewrite octet_ne by lia. unfold digits1. cbn [take_digits]. unfold is_digit at 1.
      rewrite (proj2 (in_range_true _ _ _)) by lia.
      rewrite take_digits_app; [done|done|]. destruct rest; naive_solver. }
  rewrite Hi. simpl. destruct rest as [|a r]; simpl; [by rewrite string_nil_app, string_app_nil_r|].
  destruct Hr as (_&->&He1&He2). simpl. rewrite He1, He2. simpl.
  by rewrite string_nil_app, string_app_nil_r.
Qed.

(** The first octet of a printed value is neither blank nor a closing bracket. *)
Lemma print_head v rest :
  clean v → ∃ a t, print_to v rest = String a t ∧ white a = false ∧ octet 93 a = false.
Proof.
  destruct v as [|[]|t|s|l|l]; intros Hc; rewrite ?print_to_arr, ?print_to_obj; cbn [print_to];
    rewrite ?string_cons_app; try (by eexists _, _).
  destruct Hc as (n&Hn&->). destruct (FormatUint_shape n Hn) as (d&t&Hd&->&_).
  rewrite string_cons_app. eexists _, _. split; [done|].
  unfold white. rewrite !octet_ne; rewrite ?byte_val_of, ?Z.mod_small; lia.
Qed.

Lemma skip_ws_nonwhite a t : white a = false → skip_ws (String a t) = String a t.
Proof. intros H. simpl. by rewrite H. Qed.

Lemma parse_string_print fuel s rest :
  utf8_valid s = true →
  parse_value (S fuel) (String (chr 34) (escape s +:+ String (chr 34) rest)) = Some (JStr s, rest).
Proof. intros Hs. cbn [parse_value]. rewrite skip_ws_nonwhite by done. simpl. by rewrite unquote_escape. Qed.

Lemma parse_num_print fuel t rest :
  num_ok t → delim rest = true → parse_value (S fuel) (t +:+ rest) = Some (JNum t, rest).
Proof.
  intros (n&Hn&->) Hr. pose proof (parse_number_format n rest Hn Hr) as Hp.
  destruct (FormatUint_shape n Hn) as (d&t&Hd&Ht&_). rewrite Ht in *. rewrite string_cons_app in *.
  assert (Hb : byte_val (byte_of (48 + d)) = 48 + d) by (rewrite byte_val_of, Z.mod_small; lia).
  cbn [parse_value]. rewrite skip_ws_nonwhite by (unfold white; rewrite !octet_ne by lia; done).
  rewrite !octet_ne by lia. by rewrite Hp.
Qed.

Fixpoint sizes (l : list value) : nat :=
  match l with [] => O | v :: l => S (size v + sizes l) end.
Definition member_sizes (l : list (string * value)) : nat := sizes l.*2.
Definition clean_member (p : string * value) : Prop := utf8_valid p.1 = true ∧ clean p.2.

Lemma size_arr l : size (JArr l) = S (sizes l).
Proof. reflexivity. Qed.
Lemma size_obj l : size (JObj l) = S (member_sizes l).
Proof. simpl. f_equal. unfold member_sizes. induction l as [|[k v] l IH]; simpl; [done|]. by rewrite IH. Qed.
Lemma clean_arr l : clean (JArr l) ↔ Forall clean l.
Proof. simpl. induction l as [|v l IH]; [by split|]. rewrite Forall_cons, <-IH. done. Qed.
Lemma clean_obj l : clean (JObj l) ↔ Forall clean_member l.
Proof.
  simpl. induction l as [|[k v] l IH]; [by split|]. rewrite Forall_cons, <-IH.
  unfold clean_member. simpl. tauto.
Qed.

Lemma parse_print_mutual fuel :
  (∀ v rest, (size v <= fuel)%nat → clean v → delim rest = true →
     parse_value fuel (print_to v rest) = Some (v, rest)) ∧
  (∀ v l rest, (sizes (v :: l) <= fuel)%nat → clean v → Forall clean l →
     parse_elems fuel (print_to v (print_elems false l rest)) = Some (v :: l, rest)) ∧
  (∀ k v l rest, (member_sizes ((k, v) :: l) <= fuel)%nat → clean_member (k, v) → Forall clean_member l →
     parse_members fuel (print_members true ((k, v) :: l) rest) = Some ((k, v) :: l, rest)).
Proof.
  induction fuel as [|fuel (IHv&IHe&IHm)].
  { split_and!.
    - intros v rest Hsz. destruct v; simpl in Hsz; lia.
    - intros v l rest Hsz. simpl in Hsz. lia.
    - intros k v l rest Hsz. unfold member_sizes in Hsz. simpl in Hsz. lia. }
  split_and!.
  - intros v rest Hsz Hc Hr. destruct v as [|[]|t|s|l|l].
    1-3: reflexivity.
    + by apply parse_num_print.
    + by apply parse_string_print.
    + rewrite print_to_arr. rewrite size_arr in Hsz. apply clean_arr in Hc.
      destruct l as [|v l]; [reflexivity|]. apply Forall_cons in Hc as [Hv Hl].
      destruct (print_head v (print_elems false l rest) Hv) as (a&t&Hp&Hw&Hb).
      cbn [parse_value]. rewrite skip_ws_nonwhite by done.
      change (octet 34 (chr 91)) with false. change (octet 91 (chr 91)) with true.
      cbv iota. cbn [print_elems]. rewrite Hp, skip_ws_nonwhite, Hb, <-Hp by done.
      by rewrite IHe by (done || simpl in *; lia).
    + rewrite print_to_obj. rewrite size_obj in Hsz. apply clean_obj in Hc.
      destruct l as [|[k v] l]; [reflexivity|]. apply Forall_cons in Hc as [Hv Hl].
      cbn [parse_value]. rewrite skip_ws_nonwhite by done.
      change (octet 34 (chr 123)) with false. change (octet 91 (chr 123)) with false.
      change (octet 123 (chr 123)) with true. cbv iota. cbn [print_members].
      rewrite skip_ws_nonwhite by done. change (octet 125 (chr 34)) with false. cbv iota.
      pose proof (IHm k v l rest) as Hm. cbn [print_members] in Hm. by rewrite Hm by (done || simpl in *; lia).
  - intros v l rest Hsz Hv Hl. cbn [parse_elems sizes] in *.
    rewrite IHv; [|lia|done|by destruct l]. simpl. destruct l as [|v' l]; [reflexivity|].
    apply Forall_cons in Hl as [Hv' Hl]. simpl. by rewrite IHe by (done || simpl in *; lia).
  - intros k v l rest Hsz [Hk Hv] Hl. unfold member_sizes in *. cbn [fmap list_fmap sizes] in *. simpl in Hk, Hv.
    cbn [parse_members print_members]. rewrite skip_ws_nonwhite by done. change (octet 34 (chr 34)) with true.
    cbv iota. rewrite unquote_escape by done. simpl. rewrite IHv; [|simpl in *; lia|done|by destruct l as [|[]]].
    simpl. destruct l as [|[k' v'] l]; [reflexivity|]. apply Forall_cons in Hl as [Hv' Hl].
    cbn [print_members]. rewrite skip_ws_nonwhite by done. change (octet 125 (chr 44)) with false.
    change (octet 44 (chr 44)) with true. cbv iota.
    pose proof (IHm k' v' l rest) as Hm. cbn [print_members] in Hm. rewrite Hm; [done| |done|done].
    change (S (size v + S (size v' + sizes l.*2)) <= S fuel)%nat in Hsz. simpl. lia.
Qed.

(** Printing uses at least one octet per unit of size. *)
Lemma print_length n v rest :
  (size v <= n)%nat → clean v → (size v + String.length rest <= String.length (print_to v rest))%nat.
Proof.
  revert v rest. induction n as [|n IH]; intros v rest Hsz Hc; [destruct v; simpl in Hsz; lia|].
  destruct v as [|[]|t|s|l|l].
  1-3: simpl; rewrite ?string_cons_app, ?string_nil_app; simpl; lia.
  - destruct Hc as (m&Hm&->). destruct (FormatUint_shape m Hm) as (d&t&_&->&_).
    cbn [print_to size]. rewrite string_length_app. simpl. lia.
  - cbn [print_to size]. simpl. rewrite string_length_app. simpl. lia.
  - rewrite print_to_arr. rewrite size_arr in *. apply clean_arr in Hc. simpl.
    assert (Hl : ∀ first : bool, (sizes l + (if first then 0 else 1) + String.length rest
                           <= String.length (print_elems first l rest))%nat).
    { assert (Hb : (sizes l <= n)%nat) by lia. clear Hsz.
      induction l as [|v l IHl]; intros first; [destruct first; simpl; lia|].
      apply Forall_cons in Hc as [Hv Hl]. cbn [sizes print_elems] in *.
      specialize (IHl Hl ltac:(lia) false).
      pose proof (IH v (print_elems false l rest) ltac:(lia) Hv) as Hp.
      destruct first; cbv iota beta in *; cbn [String.length]; lia. }
    specialize (Hl true). cbv iota in Hl. lia.
  - rewrite print_to_obj. rewrite size_obj in *. apply clean_obj in Hc. simpl.
    assert (Hl : ∀ first : bool, (member_sizes l + (if first then 0 else 1) + String.length rest
                           <= String.length (print_members first l rest))%nat).
    { assert (Hb : (member_sizes l <= n)%nat) by lia. clear Hsz.
      induction l as [|[k v] l IHl]; intros first; [destruct first; simpl; lia|].
      apply Forall_cons in Hc as [[_ Hv] Hl]. unfold member_sizes in *.
      cbn [sizes print_members fmap list_fmap] in *. simpl snd in *.
      specialize (IHl Hl ltac:(lia) false).
      pose proof (IH v (print_members false l rest) ltac:(lia) Hv) as Hp.
      destruct first; cbv iota beta in *; cbn [String.length]; rewrite string_length_app;
        cbn [String.length]; lia. }
    specialize (Hl true). cbv iota in Hl. lia.
Qed.

(** [parse] recovers what [marshal] wrote. *)
Lemma parse_marshal v : clean v → parse (marshal v) = Some v.
Proof.
  intros Hc. unfold parse, marshal. pose proof (print_length (size v) v "" ltac:(done) Hc).
  simpl String.length in *.
  destruct (parse_print_mutual (2 * String.length (print_to v "") + 2)) as (Hp&_&_).
  rewrite Hp; [done|lia|done|done].
Qed.

(** ** Members and struct fields *)

(** [foldName]: ASCII letters fold to upper case, and so do the two other code
    points whose fold orbit contains an ASCII letter (U+017F and U+212A). *)
Fixpoint fold_name (s : string) : string :=
  match s with
  | ""%string => ""%string
  | String a s1 =>
    if in_range 97 122 a then String (chr (byte_val a - 32)) (fold_name s1)
    else match s1 with
    | String b s2 =>
      if octet 197 a && octet 191 b then String (chr 83) (fold_name s2)
      else match s2 with
      | String c s3 =>
        if octet 226 a && octet 132 b && octet 170 c then String (chr 75) (fold_name s3)
        else String a (fold_name s1)
      | ""%string => String a (fold_name s1)
      end
    | ""%string => String a (fold_name s1)
    end
  end.

(** The field a member name denotes: the exact one, else one equal up to folding. *)
Definition resolve (fields : list string) (k : string) : option string :=
  match find (λ f, f == k) fields with
  | Some f => Some f
  | None => find (λ f, fold_name f == fold_name k) fields
  end.

Definition unknown_field (k : string) : error := ErrMsg ("json: unknown field " +:+ k).
Definition type_error : error := ErrMsg "json: cannot unmarshal".
Definition syntax_error : error := ErrMsg "json: syntax".

(** The members of an object with their names resolved, in order. *)
Fixpoint assign (disallow : bool) (fields : list string) (ms : list (string * value))
    : result (list (string * value)) :=
  match ms with
  | [] => Ok []
  | (k, v) :: ms =>
    match resolve fields k with
    | Some f => try rest <- assign disallow fields ms; Ok ((f, v) :: rest)
    | None => if disallow then Err (unknown_field k) else assign disallow fields ms
    end
  end.

(** Assign the members called [f] one after the other with [set]. *)
Fixpoint fold_field {A} (f : string) (set : A → value → result A) (ms : list (string * value))
    (acc : A) : result A :=
  match ms with
  | [] => Ok acc
  | (k, v) :: ms => if k == f then try acc <- set acc v; fold_field f set ms acc
                    else fold_field f set ms acc
  end.

Definition set_string (acc : string) (v : value) : result string :=
  match v with JStr s => Ok s | JNull => Ok acc | _ => Err type_error end.

(** Integers are written without fraction or exponent. *)
Definition set_uint (acc : Z) (v : value) : result Z :=
  match v with
  | JNum t => match ParseUint t with Some n => Ok n | None => Err type_error end
  | JNull => Ok acc
  | _ => Err type_error
  end.

Definition ParseInt (t : string) : option Z :=
  match t with
  | String a r =>
    if octet 45 a then n ← ParseUint r; if n <=? 2 ^ 63 then Some (- n) else None
    else n ← ParseUint t; if n <? 2 ^ 63 then Some n else None
  | ""%string => None
  end.

Definition set_int (acc : Z) (v : value) : result Z :=
  match v with
  | JNum t => match ParseInt t with Some n => Ok n | None => Err type_error end
  | JNull => Ok acc
  | _ => Err type_error
  end.

Lemma ParseInt_FormatUint n : 0 <= n < 2 ^ 63 → ParseInt (FormatUint n) = Some n.
Proof.
  intros Hn. assert (Hm : 0 <= n <= max_uint64) by (unfold max_uint64; lia).
  pose proof (ParseUint_FormatUint n Hm) as Hp. destruct (FormatUint_shape n Hm) as (d&t&Hd&He&_).
  unfold ParseInt. rewrite He in *. unfold octet. rewrite byte_val_of, Z.mod_small by lia.
  rewrite (proj2 (Z.eqb_neq _ _)) by lia. rewrite Hp. simpl. by rewrite (proj2 (Z.ltb_lt _ _)) by lia.
Qed.

(** ** encoding/base64, [StdEncoding] *)

Definition b64_char (n : Z) : ascii :=
  chr (if n <? 26 then 65 + n else if n <? 52 then 71 + n else if n <? 62 then n - 4
       else if n =? 62 then 43 else 47).

Definition b64_value (a : ascii) : option Z :=
  let v := byte_val a in
  if (65 <=? v) && (v <=? 90) then Some (v - 65)
  else if (97 <=? v) && (v <=? 122) then Some (v - 71)
  else if (48 <=? v) && (v <=? 57) then Some (v + 4)
  else if v =? 43 then Some 62
  else if v =? 47 then Some 63
  else None.

Fixpoint b64_encode (s : bytes) : string :=
  match s with
  | ""%string => ""%string
  | String x ""%string =>
    let a := byte_val x in
    String (b64_char (a / 4)) (String (b64_char (a mod 4 * 16)) (String (chr 61) (String (chr 61) "")))
  | String x (String y ""%string) =>
    let a := byte_val x in let b := byte_val y in
    String (b64_char (a / 4)) (String (b64_char (a mod 4 * 16 + b / 16))
      (String (b64_char (b mod 16 * 4)) (String (chr 61) "")))
  | String x (String y (String z s)) =>
    let a := byte_val x in let b := byte_val y in let c := byte_val z in
    String (b64_char (a / 4)) (String (b64_char (a mod 4 * 16 + b / 16))
      (String (b64_char (b mod 16 * 4 + c / 64)) (String (b64_char (c mod 64)) (b64_encode s))))
  end.

(** Line ends are skipped before decoding. *)
Fixpoint drop_newlines (s : string) : string :=
  match s with
  | ""%string => ""%string
  | String a s => if octet 10 a || octet 13 a then drop_newlines s else String a (drop_newlines s)
  end.

Fixpoint b64_quanta (s : string) : option bytes :=
  match s with
  | ""%string => Some ""%string
  | String p (String q (String r (String t s))) =>
    x ← b64_value p; y ← b64_value q;
    if octet 61 r then
      if octet 61 t && (s == ""%string) then Some (String (chr (x * 4 + y / 16)) "") else None
    else
      z ← b64_value r;
      if octet 61 t then
        if s == ""%string then Some (String (chr (x * 4 + y / 16)) (String (chr (y mod 16 * 16 + z / 4)) ""))
        else None
      else
        u ← b64_value t; rest ← b64_quanta s;
        Some (String (chr (x * 4 + y / 16)) (String (chr (y mod 16 * 16 + z / 4))
                (String (chr (z mod 4 * 64 + u)) rest)))
  | _ => None
  end.

Definition b64_decode (s : string) : option bytes := b64_quanta (drop_newlines s).

(** A []byte field: base64 text, an array of octets, or null. *)
Definition octet_elem (v : value) : result Z :=
  try n <- set_uint 0 v; if n <? 256 then Ok n else Err type_error.

Definition set_bytes (acc : bytes) (v : value) : result bytes :=
  match v with
  | JStr s => match b64_decode s with Some b => Ok b | None => Err (ErrMsg "base64") end
  | JArr l => try zs <- rmap_list octet_elem l; Ok (of_octets zs)
  | JNull => Ok ""%string
  | _ => Err type_error
  end.

(** [json.Marshal] of a []byte. *)
Definition of_bytes (b : bytes) : value := JStr (b64_encode b).

Lemma b64_value_char n : 0 <= n < 64 → b64_value (b64_char n) = Some n ∧ octet 61 (b64_char n) = false ∧
  octet 10 (b64_char n) = false ∧ octet 13 (b64_char n) = false ∧ byte_val (b64_char n) < 128.
Proof.
  intros Hn. set (f := λ n, (b64_value (b64_char n) == Some n) && negb (octet 61 (b64_char n)) &&
    negb (octet 10 (b64_char n)) && negb (octet 13 (b64_char n)) && (byte_val (b64_char n) <? 128)).
  assert (Hf : forallb f (seqZ 0 64) = true) by (vm_compute; reflexivity).
  rewrite forallb_forall in Hf. specialize (Hf n). unfold f in Hf.
  rewrite <-list_elem_of_In, elem_of_seqZ in Hf. specialize (Hf ltac:(lia)). boolp. auto.
Qed.

Ltac b64_bounds := Z.to_euclidean_division_equations; lia.

Lemma b64_round s : drop_newlines (b64_encode s) = b64_encode s ∧ b64_quanta (b64_encode s) = Some s.
Proof.
  remember (String.length s) as n eqn:Hn. revert s Hn.
  induction (lt_wf n) as [n _ IH]. intros s ->.
  destruct s as [|x [|y [|z s]]]; [done|..]; cbn [b64_encode].
  - pose proof (byte_val_range x) as Hx. set (a := byte_val x) in *.
    destruct (b64_value_char (a / 4)) as (V1&_&N1&R1&_); [b64_bounds|].
    destruct (b64_value_char (a mod 4 * 16)) as (V2&_&N2&R2&_); [b64_bounds|].
    cbn [drop_newlines b64_quanta]. rewrite N1, R1, N2, R2. split; [done|]. rewrite V1, V2. simpl.
    do 2 f_equal. rewrite <-(byte_of_val x). fold a. unfold chr. f_equal. b64_bounds.
  - pose proof (byte_val_range x) as Hx. pose proof (byte_val_range y) as Hy.
    set (a := byte_val x) in *. set (b := byte_val y) in *.
    destruct (b64_value_char (a / 4)) as (V1&_&N1&R1&_); [b64_bounds|].
    destruct (b64_value_char (a mod 4 * 16 + b / 16)) as (V2&_&N2&R2&_); [b64_bounds|].
    destruct (b64_value_char (b mod 16 * 4)) as (V3&E3&N3&R3&_); [b64_bounds|].
    cbn [drop_newlines b64_quanta]. rewrite N1, R1, N2, R2, N3, R3. split; [done|].
    rewrite V1, V2, V3, E3. simpl.
    f_equal. transitivity (String (byte_of a) (String (byte_of b) ""));
      [unfold chr; repeat f_equal; b64_bounds|]. subst a b. by rewrite !byte_of_val.
  - pose proof (byte_val_range x) as Hx. pose proof (byte_val_range y) as Hy. pose proof (byte_val_range z) as Hz.
    set (a := byte_val x) in *. set (b := byte_val y) in *. set (c := byte_val z) in *.
    destruct (b64_value_char (a / 4)) as (V1&_&N1&R1&_); [b64_bounds|].
    destruct (b64_value_char (a mod 4 * 16 + b / 16)) as (V2&_&N2&R2&_); [b64_bounds|].
    destruct (b64_value_char (b mod 16 * 4 + c / 64)) as (V3&E3&N3&R3&_); [b64_bounds|].
    destruct (b64_value_char (c mod 64)) as (V4&E4&N4&R4&_); [b64_bounds|].
    destruct (IH (String.length s) ltac:(simpl; lia) s eq_refl) as [Hd Hq].
    cbn [drop_newlines b64_quanta]. rewrite N1, R1, N2, R2, N3, R3, N4, R4, Hd. split; [done|].
    rewrite V1, V2, V3, E3, V4, E4, Hq. simpl. f_equal.
    transitivity (String (byte_of a) (String (byte_of b) (String (byte_of c) s)));
      [unfold chr; repeat f_equal; b64_bounds|]. subst a b c. by rewrite !byte_of_val.
Qed.

Lemma b64_decode_encode s : b64_decode (b64_encode s) = Some s.
Proof. unfold b64_decode. by rewrite (proj1 (b64_round s)), (proj2 (b64_round s)). Qed.

(** ASCII text is UTF-8. *)
Lemma utf8_ascii s : Forall (λ z, z < 128) (octets s) → utf8_valid s = true.
Proof.
  induction s as [|a s IH]; simpl; [done|]. intros [Ha Hs]%Forall_cons.
  rewrite (proj2 (Z.ltb_lt _ _)) by done. auto.
Qed.

Lemma hex_digit_ascii n : 0 <= n < 16 → byte_val (hex_digit n) < 128.
Proof. intros Hn. unfold hex_digit. rewrite byte_val_of. destruct (n <? 10); rewrite Z.mod_small; lia. Qed.

Lemma utf8_hex s : utf8_valid (hex_encode s) = true.
Proof.
  apply utf8_ascii. induction s as [|a s IH]; simpl; [constructor|].
  pose proof (byte_val_range a). repeat constructor; [..|done]; apply hex_digit_ascii; b64_bounds.
Qed.

Lemma utf8_b64 s : utf8_valid (b64_encode s) = true.
Proof.
  apply utf8_ascii. remember (String.length s) as n eqn:Hn. revert s Hn.
  induction (lt_wf n) as [n _ IH]. intros s ->.
  destruct s as [|x [|y [|z s]]]; cbn [b64_encode octets]; [constructor|..];
    repeat first [constructor | match goal with |- byte_val (b64_char ?k) < 128 =>
      destruct (b64_value_char k) as (_&_&_&_&?); [|done];
      pose proof (byte_val_range x); try pose proof (byte_val_range y); try pose proof (byte_val_range z); b64_bounds end];
    try (vm_compute; reflexivity).
  apply (IH (String.length s)); [simpl; lia|done].
Qed.

(** One object, decoded and read back. *)
Lemma clean_str s : utf8_valid s = true → clean (JStr s).
Proof. done. Qed.
Lemma clean_of_bytes b : clean (of_bytes b).
Proof. apply utf8_b64. Qed.
Lemma clean_uint n : 0 <= n <= max_uint64 → clean (JNum (FormatUint n)).
Proof. intros. by exists n. Qed.

#[export] Hint Resolve clean_str clean_of_bytes clean_uint utf8_hex : rm.

(** Members written in field order are read back field by field. *)
Lemma resolve_self fields k : k ∈ fields → resolve fields k = Some k.
Proof.
  intros Hk. unfold resolve. assert (Hf : find (λ f, f == k) fields = Some k); [|by rewrite Hf].
  induction fields as [|f fields IH]; [by apply not_elem_of_nil in Hk|]. simpl.
  destruct (decide (f = k)) as [->|Hne]; [by rewrite bool_decide_eq_true_2|].
  rewrite bool_decide_eq_false_2 by done. apply IH. by apply elem_of_cons in Hk as [->|?].
Qed.

Lemma assign_zip d fields names vs :
  names ⊆ fields → assign d fields (zip names vs) = Ok (zip names vs).
Proof.
  revert vs. induction names as [|k names IH]; intros [|v vs] Hs; try done. simpl.
  rewrite resolve_self by (apply Hs; by left). rewrite IH; [done|]. set_solver.
Qed.

Lemma fold_field_skip {A} f (set : A → value → result A) names vs acc :
  f ∉ names → fold_field f set (zip names vs) acc = Ok acc.
Proof.
  revert vs. induction names as [|k names IH]; intros [|v vs] Hf; try done. simpl.
  apply not_elem_of_cons in Hf as [? ?]. rewrite bool_decide_eq_false_2 by done. auto.
Qed.

Lemma fold_field_zip {A} i f (set : A → value → result A) names vs v acc :
  NoDup names → names !! i = Some f → vs !! i = Some v →
  fold_field f set (zip names vs) acc = set acc v.
Proof.
  revert names vs. induction i as [|i IH]; intros [|k names] [|u vs] Hnd Hn Hv; try done; simpl in *;
    apply NoDup_cons in Hnd as [Hni Hnd].
  - simplify_eq. rewrite bool_decide_eq_true_2 by done.
    destruct (set acc v) as [a|e]; simpl; [|done]. by apply fold_field_skip.
  - rewrite bool_decide_eq_false_2; [by apply IH|]. intros ->. apply Hni. by eapply list_elem_of_lookup_2.
Qed.

Lemma clean_zip names vs :
  Forall (λ k, utf8_valid k = true) names → Forall clean vs → clean (JObj (zip names vs)).
Proof.
  intros Hn Hv. apply clean_obj. revert vs Hv. induction Hn as [|k names Hk _ IH]; intros vs Hv; [constructor|].
  destruct Hv as [|v vs Hv Hvs]; [constructor|]. constructor; [by split|auto].
Qed.

(** The members of a struct: name, whether [omitempty] drops it, value. *)
Definition members (spec : list (string * bool * value)) : list (string * value) :=
  concat (map (λ x : string * bool * value, if x.1.2 then [] else [(x.1.1, x.2)]) spec).

Lemma assign_known d fields ms :
  Forall (λ p, p.1 ∈ fields) ms → assign d fields ms = Ok ms.
Proof.
  induction 1 as [|[k v] ms Hk _ IH]; [done|]. simpl in *. by rewrite resolve_self, IH by done.
Qed.

Lemma members_Forall (P : string * value → Prop) spec :
  Forall (λ x : string * bool * value, x.1.2 = false → P (x.1.1, x.2)) spec → Forall P (members spec).
Proof.
  intros H. apply Forall_concat, Forall_map. eapply Forall_impl; [exact H|]. intros [[k e] v] Hx. simpl in *.
  destruct e; repeat constructor; auto.
Qed.

Lemma members_known fields spec : spec.*1.*1 ⊆ fields → Forall (λ p, p.1 ∈ fields) (members spec).
Proof.
  intros Hs. apply members_Forall, Forall_forall. intros [[k e] v] Hin _. simpl. apply Hs.
  apply list_elem_of_fmap. exists (k, e). split; [done|]. apply list_elem_of_fmap. by exists (k, e, v).
Qed.

Lemma fold_field_absent {A} f (set : A → value → result A) spec acc :
  f ∉ spec.*1.*1 → fold_field f set (members spec) acc = Ok acc.
Proof.
  induction spec as [|[[k e] v] spec IH]; [done|]. simpl. intros [? ?]%not_elem_of_cons.
  unfold members in *. simpl. destruct e; simpl; [auto|]. rewrite bool_decide_eq_false_2 by done. auto.
Qed.

Lemma fold_field_members {A} i f (set : A → value → result A) spec (e : bool) v acc :
  NoDup spec.*1.*1 → spec !! i = Some (f, e, v) →
  fold_field f set (members spec) acc = if e then Ok acc else set acc v.
Proof.
  revert spec. induction i as [|i IH]; intros [|[[k e'] u] spec]; simpl; try done;
    intros [Hk Hnd]%NoDup_cons Hi.
  - simplify_eq. unfold members. simpl. destruct e; simpl; [by apply fold_field_absent|].
    rewrite bool_decide_eq_true_2 by done. destruct (set acc v); simpl; [|done]. by apply fold_field_absent.
  - assert (Hne : k ≠ f).
    { intros ->. apply Hk, list_elem_of_fmap. exists (f, e). split; [done|]. apply list_elem_of_fmap.
      exists (f, e, v). split; [done|]. by eapply list_elem_of_lookup_2. }
    unfold members in *. simpl. destruct e'; simpl; [by apply IH|].
    rewrite bool_decide_eq_false_2 by done. by apply IH.
Qed.

(** ** Sizes of printed values *)

Definition vlen (v : value) : Z := len (marshal v).

Lemma len_cons a s : len (String a s) = 1 + len s.
Proof. unfold len. simpl. lia. Qed.

Lemma print_to_len_aux n v rest : (size v <= n)%nat → len (print_to v rest) = len (print_to v "") + len rest.
Proof.
  revert v rest. induction n as [|n IH]; intros v rest Hn; [destruct v; simpl in Hn; lia|].
  destruct v as [|b|t|s|l|l].
  - simpl print_to. rewrite !len_app. unfold len; simpl; lia.
  - destruct b; simpl print_to; rewrite !len_app; unfold len; simpl; lia.
  - simpl print_to. rewrite !len_app. unfold len; simpl; lia.
  - simpl print_to. rewrite !len_cons, !len_app, !len_cons. unfold len; simpl; lia.
  - rewrite !print_to_arr, !len_cons. rewrite size_arr in Hn. generalize true as first.
    assert (Hl : (sizes l <= n)%nat) by lia. clear Hn.
    induction l as [|v l IHl]; intros first; cbn [print_elems]; [rewrite !len_cons; unfold len; simpl; lia|].
    cbn [sizes] in Hl. specialize (IHl ltac:(lia) false). destruct first; rewrite ?len_cons;
      rewrite (IH v (print_elems false l rest)), (IH v (print_elems false l "")) by lia; lia.
  - rewrite !print_to_obj, !len_cons. rewrite size_obj in Hn. generalize true as first.
    assert (Hl : (member_sizes l <= n)%nat) by lia. clear Hn.
    induction l as [|[k v] l IHl]; intros first; cbn [print_members]; [rewrite !len_cons; unfold len; simpl; lia|].
    unfold member_sizes in *. cbn [sizes fmap list_fmap snd] in Hl. specialize (IHl ltac:(lia) false).
    destruct first; rewrite ?len_cons, !len_app, !len_cons;
      rewrite (IH v (print_members false l rest)), (IH v (print_members false l "")) by lia; lia.
Qed.

Lemma print_to_len v rest : len (print_to v rest) = vlen v + len rest.
Proof. by apply (print_to_len_aux (size v)). Qed.

Lemma vlen_str s : vlen (JStr s) = len (escape s) + 2.
Proof. unfold vlen, marshal. simpl print_to. rewrite len_cons, len_app, len_cons. unfold len; simpl; lia. Qed.

Lemma vlen_num t : vlen (JNum t) = len t.
Proof. unfold vlen, marshal. simpl print_to. rewrite len_app. unfold len; simpl; lia. Qed.

(** What a struct field adds to the text, its comma included. *)
Definition cost (x : string * bool * value) : Z :=
  if x.1.2 then 0 else len (escape x.1.1) + 4 + vlen x.2.
Fixpoint total (spec : list (string * bool * value)) : Z :=
  match spec with [] => 0 | x :: spec => cost x + total spec end.

Lemma members_len spec first :
  len (print_members first (members spec) "") =
  1 + total spec - (if first && negb (bool_decide (members spec = [])) then 1 else 0).
Proof.
  revert first. induction spec as [|[[k e] v] spec IH]; intros first; [by destruct first|].
  unfold members in *. cbn [map concat total cost fst snd]. destruct e; cbn [app].
  - rewrite IH. cbn [cost fst snd]. lia.
  - cbn [print_members]. specialize (IH false). cbn [andb] in IH.
    rewrite (bool_decide_eq_false_2 (_ :: _ = [])) by done. cbn [negb andb cost fst snd].
    destruct first; cbn [andb]; rewrite ?len_cons, len_app, !len_cons, print_to_len, IH; lia.
Qed.

(** The size of a struct with at least one field written. *)
Lemma struct_len spec : members spec ≠ [] → vlen (JObj (members spec)) = 1 + total spec.
Proof.
  intros Hne. unfold vlen, marshal. rewrite print_to_obj, len_cons, members_len.
  rewrite (bool_decide_eq_false_2 (members spec = [])) by done. cbn [negb andb]. lia.
Qed.

Lemma total_mono spec spec' : Forall2 (λ x y, cost x <= cost y) spec spec' → total spec <= total spec'.
Proof. induction 1; simpl; lia. Qed.

Lemma total_nonneg spec : 0 <= total spec.
Proof.
  induction spec as [|[[k e] v] spec IH]; simpl; [lia|]. unfold cost. simpl.
  pose proof (len_nonneg (escape k)). pose proof (len_nonneg (marshal v)). unfold vlen. destruct e; lia.
Qed.

(** Decoding fewer fields skips the other members. *)
Lemma assign_narrow {A} fields names f (set : A → value → result A) ms acc :
  forallb (λ k, resolve fields k == (if bool_decide (k ∈ fields) then Some k else None)) names = true →
  Forall (λ p, p.1 ∈ names) ms → f ∈ fields →
  (try l <- assign false fields ms; fold_field f set l acc) = fold_field f set ms acc.
Proof.
  intros Hn Hms Hf. rewrite forallb_forall in Hn.
  assert (Ha : ∃ l, assign false fields ms = Ok l ∧ ∀ acc, fold_field f set l acc = fold_field f set ms acc).
  { induction Hms as [|[k v] ms Hk _ (l&Hl&IH)]; [by exists []|]. simpl in *.
    rewrite list_elem_of_In in Hk. apply Hn in Hk. apply bool_decide_eq_true in Hk. rewrite Hk.
    destruct (bool_decide (k ∈ fields)) eqn:Hin.
    - rewrite Hl. eexists. split; [done|]. intros a. simpl. destruct (k == f); [|done]. by destruct (set a v); simpl.
    - exists l. split; [done|]. intros a. rewrite IH, (bool_decide_eq_false_2 (k = f)); [done|].
      boolp. by intros ->. }
  destruct Ha as (l&->&Hl). simpl. apply Hl.
Qed.

End json.
