(* ===== verification/Routing.v ===== *)
(** * transport: route bindings

    [routing.go], [routing_v2.go] and [routing_v3.go]: the three namings of
    broker resources, the validation of a binding list, the resolver built from
    active and historical lists, and the manifest parser.  Go maps used as
    dictionaries are finite maps; only membership and lookup are observed. *)

From Stdlib Require Import Ascii.
From S2P Require Import Prelude GoStd Json.

Module routing.
Import json.

Record RouteBinding : Type := mkRoute {
  Topic : string; Subscription : string; PhysTopic : string; Group : string;
  MessageType : string; Owner : string; RouteRevision : string; NamingScheme : string
}.

#[global] Instance RouteBinding_eq_dec : EqDecision RouteBinding.
Proof. solve_decision. Defined.

(** ** Version 1 names *)

(** The hexadecimal form of the first 16 octets of a SHA-256 digest. *)
Definition digest16 (preimage : bytes) : string := hex_encode (String.substring 0 16 (sha256 preimage)).

Definition routeDigest (value : string) : string := digest16 value.
Definition PhysicalTopic (topic : string) : string := "rmq_t_" +:+ routeDigest topic.
Definition ConsumerGroup (topic subscription : string) : string :=
  "rmq_g_" +:+ routeDigest (topic +:+ nul +:+ subscription).

(** ** Version 2 names *)

Definition NormalMessageType : string := "NORMAL".
Definition TransactionMessageType : string := "TRANSACTION".

Definition routeField (value : string) (limit : Z) : bool :=
  (value != ""%string) && (len value <=? limit) && utf8_valid value && negb (contains_nul value).

Definition routePreimageV2 (domain : string) (fields : list string) : bytes := domain +:+ frames fields.
Definition routeDigestV2 (domain : string) (fields : list string) : string :=
  digest16 (routePreimageV2 domain fields).

Definition topic_domain : string := "rmq-topic-v2" +:+ nul.
Definition group_domain : string := "rmq-group-v2" +:+ nul.

Definition PhysicalTopicV2 (topic messageType owner revision : string) : result string :=
  if negb (routeField topic 255) || negb (routeField owner 128) || negb (routeField revision 128) ||
     ((messageType != NormalMessageType) && (messageType != TransactionMessageType))
  then Err (ErrMsg "invalid v2 topic identity")
  else Ok ("rmq2_t_" +:+ routeDigestV2 topic_domain [topic; messageType; owner; revision]).

Definition ConsumerGroupV2 (topic subscription : string) : result string :=
  if negb (routeField topic 255) || negb (routeField subscription 255)
  then Err (ErrMsg "invalid v2 subscription identity")
  else Ok ("rmq2_g_" +:+ routeDigestV2 group_domain [topic; subscription]).

(** ** Version 3: readable names *)

Definition ReadableNamingV1 : string := "readable-v1".

Definition dash : ascii := byte_of 45.
Definition dot : ascii := byte_of 46.
Definition token_char (a : ascii) : bool := in_range 97 122 a || in_range 48 57 a.

(** The regular expression ^[a-z0-9]+([.-][a-z0-9]+)*$ as its automaton;
    [after] tells that the last octet read was one of [a-z0-9]. *)
Fixpoint readable_from (after : bool) (s : string) : bool :=
  match s with
  | ""%string => after
  | String a s =>
    if token_char a then readable_from true s
    else ((a == dash) || (a == dot)) && after && readable_from false s
  end.
Definition readableField (s : string) : bool := readable_from false s.

(** [strings.ReplaceAll(field, ".", "-")] *)
Fixpoint dashed (s : string) : string :=
  match s with
  | ""%string => ""%string
  | String a s => String (if a == dot then dash else a) (dashed s)
  end.

(** [strings.Join(parts, "--")] *)
Fixpoint join_dashes (parts : list string) : string :=
  match parts with
  | [] => ""%string
  | [x] => x
  | x :: rest => x +:+ "--" +:+ join_dashes rest
  end.

Definition readableName (fields : list string) : result string :=
  if negb (forallb readableField fields)
  then Err (ErrMsg "readable route requires lowercase single-separated tokens")
  else
    let name := join_dashes (map dashed fields) in
    if len name >? 64 then Err (ErrMsg "readable resource exceeds 64 bytes") else Ok name.

Definition PhysicalTopicV3 (topic messageType owner revision : string) : result string :=
  if messageType == NormalMessageType then readableName [topic; "normal"; owner; revision]%string
  else if messageType == TransactionMessageType then readableName [topic; "tx"; owner; revision]%string
  else Err (ErrMsg "NORMAL or TRANSACTION required").

Definition ConsumerGroupV3 (topic subscription : string) : result string :=
  readableName [topic; subscription].

(** ** The expected names of a binding *)

Definition ExpectedPhysicalTopic (topic messageType owner revision scheme : string) : result string :=
  if scheme == ReadableNamingV1 then PhysicalTopicV3 topic messageType owner revision
  else if scheme == ""%string then
    if messageType == ""%string then
      if (owner != ""%string) || (revision != ""%string) then Err (ErrMsg "incomplete typed route")
      else Ok (PhysicalTopic topic)
    else PhysicalTopicV2 topic messageType owner revision
  else Err (ErrMsg "unknown route naming scheme").

Definition expectedConsumerGroup (r : RouteBinding) : result string :=
  if Subscription r == ""%string then Ok ""%string
  else if NamingScheme r == ReadableNamingV1 then ConsumerGroupV3 (Topic r) (Subscription r)
  else if NamingScheme r != ""%string then Err (ErrMsg "unknown route naming scheme")
  else if MessageType r != ""%string then ConsumerGroupV2 (Topic r) (Subscription r)
  else Ok (ConsumerGroup (Topic r) (Subscription r)).

(** ** Validation of a binding list *)

Definition route_tuple (r : RouteBinding) : string * string * string * string * string :=
  (Topic r, Subscription r, MessageType r, Owner r, RouteRevision r).

(** [RouteKey], also the [4]string identity of ValidateRoutes. *)
Record RouteKey : Type := mkKey { k_Topic : string; k_MessageType : string; k_Owner : string; k_RouteRevision : string }.
#[global] Instance RouteKey_eq_dec : EqDecision RouteKey.
Proof. solve_decision. Defined.
Definition keyFor (r : RouteBinding) : RouteKey := mkKey (Topic r) (MessageType r) (Owner r) (RouteRevision r).

Record Seen : Type := mkSeen {
  seen : gset (string * string * string * string * string);
  physical : gmap string RouteKey;
  groups : gmap string (string * string)
}.

(** A present entry that differs. *)
Definition clashes {V} `{EqDecision V} (m : gmap string V) (k : string) (v : V) : bool :=
  match m !! k with Some old => old != v | None => false end.

Definition validate_route (st : Seen) (r : RouteBinding) : result Seen :=
  try expected <- ExpectedPhysicalTopic (Topic r) (MessageType r) (Owner r) (RouteRevision r) (NamingScheme r);
  try group <- expectedConsumerGroup r;
  if (Topic r == ""%string) || contains_nul (Topic r) || contains_nul (Subscription r) ||
     (PhysTopic r != expected) || (Group r != group) then Err (ErrMsg "invalid canonical route binding")
  else if bool_decide (route_tuple r ∈ seen st) then Err (ErrMsg "duplicate route binding")
  else if clashes (physical st) (PhysTopic r) (keyFor r) then Err (ErrMsg "physical topic collision")
  else if Subscription r == ""%string
  then Ok (mkSeen ({[route_tuple r]} ∪ seen st) (<[PhysTopic r := keyFor r]> (physical st)) (groups st))
  else
    let logical := (Topic r, Subscription r) in
    if clashes (groups st) (Group r) logical then Err (ErrMsg "consumer group collision")
    else Ok (mkSeen ({[route_tuple r]} ∪ seen st) (<[PhysTopic r := keyFor r]> (physical st))
               (<[Group r := logical]> (groups st))).

Definition ValidateRoutes (routes : list RouteBinding) : result () :=
  match routes with
  | [] => Err (ErrMsg "explicit route bindings required")
  | _ => try _ <- rfold validate_route routes (mkSeen ∅ ∅ ∅); Ok ()
  end.

(** ** The resolver *)

Record RouteResolver : Type := mkResolver { active : list RouteBinding; recorded : gmap string RouteBinding }.

Record Merge : Type := mkMerge {
  g_recorded : gmap string RouteBinding;
  g_groups : gmap string (string * string);
  g_logical : gmap (string * string) string;
  g_physical : gset string        (* topics of the list being read *)
}.

Definition merge_row (first : bool) (st : Merge) (row : RouteBinding) : result Merge :=
  try _ <- match g_recorded st !! PhysTopic row with
  | Some previous =>
    if bool_decide (PhysTopic row ∉ g_physical st) then
      if (keyFor previous != keyFor row) || (NamingScheme previous != NamingScheme row)
      then Err (ErrMsg "route identity collision")
      else Err (ErrMsg "active/historical resource overlap")
    else Ok ()
  | None => Ok ()
  end;
  let commit groups logical :=
    Ok (mkMerge (<[PhysTopic row := row]> (g_recorded st)) groups logical ({[PhysTopic row]} ∪ g_physical st)) in
  if Group row == ""%string then commit (g_groups st) (g_logical st)
  else
    let identity := (Topic row, Subscription row) in
    if first && match g_logical st !! identity with Some old => old != Group row | None => false end
    then Err (ErrMsg "logical subscription mixes consumer group schemes")
    else if clashes (g_groups st) (Group row) identity then Err (ErrMsg "consumer group collision")
    else commit (<[Group row := identity]> (g_groups st))
           (if first then <[identity := Group row]> (g_logical st) else g_logical st).

Definition NewRouteResolver (act historical : list RouteBinding) : result RouteResolver :=
  try _ <- ValidateRoutes act;
  try _ <- (if llen historical =? 0 then Ok () else ValidateRoutes historical);
  try st <- rfold (merge_row true) act (mkMerge ∅ ∅ ∅ ∅);
  try st <- rfold (merge_row false) historical
              (mkMerge (g_recorded st) (g_groups st) (g_logical st) ∅);
  Ok (mkResolver act (g_recorded st)).

Definition PublishRoute (r : RouteResolver) (key : RouteKey) : result RouteBinding :=
  match find (λ row, keyFor row == key) (active r) with
  | Some row => Ok row
  | None => Err (ErrMsg "publishing route not in active manifest")
  end.

Definition RecordedRoute (r : RouteResolver) (key : RouteKey) (phys : string) : result RouteBinding :=
  match recorded r !! phys with
  | Some row => if keyFor row == key then Ok row else Err (ErrMsg "recorded route not in trusted manifest")
  | None => Err (ErrMsg "recorded route not in trusted manifest")
  end.

Definition SubscriptionRoutes (r : RouteResolver) (topic subscription : string) : result (list RouteBinding) :=
  match filter (λ row, Topic row = topic ∧ Subscription row = subscription ∧ Group row ≠ ""%string) (active r) with
  | [] => Err (ErrMsg "subscription not in active manifest")
  | out => Ok out
  end.

(** ** Manifests *)

Record RouteManifest : Type := mkManifest {
  Version : Z; Routes : list RouteBinding; HistoricalRoutes : list RouteBinding
}.

Definition route_names : list string :=
  ["topic"; "subscription"; "physical_topic"; "consumer_group"; "message_type"; "owner";
   "route_revision"; "naming_scheme"]%string.

Definition set_route (acc : RouteBinding) (v : value) : result RouteBinding :=
  match v with
  | JNull => Ok acc
  | JObj ms =>
    try l <- assign false route_names ms;
    try a <- fold_field "topic" set_string l (Topic acc);
    try b <- fold_field "subscription" set_string l (Subscription acc);
    try c <- fold_field "physical_topic" set_string l (PhysTopic acc);
    try d <- fold_field "consumer_group" set_string l (Group acc);
    try e <- fold_field "message_type" set_string l (MessageType acc);
    try f <- fold_field "owner" set_string l (Owner acc);
    try g <- fold_field "route_revision" set_string l (RouteRevision acc);
    try h <- fold_field "naming_scheme" set_string l (NamingScheme acc);
    Ok (mkRoute a b c d e f g h)
  | _ => Err type_error
  end.

Definition set_routes (acc : list RouteBinding) (v : value) : result (list RouteBinding) :=
  match v with
  | JNull => Ok []
  | JArr l => rmap_list (set_route (mkRoute "" "" "" "" "" "" "" "")) l
  | _ => Err type_error
  end.

Definition set_manifest (acc : RouteManifest) (v : value) : result RouteManifest :=
  match v with
  | JNull => Ok acc
  | JObj ms =>
    try l <- assign false ["version"; "routes"; "historical_routes"]%string ms;
    try a <- fold_field "version" set_int l (Version acc);
    try b <- fold_field "routes" set_routes l (Routes acc);
    try c <- fold_field "historical_routes" set_routes l (HistoricalRoutes acc);
    Ok (mkManifest a b c)
  | _ => Err type_error
  end.

(** The codec a manifest version prescribes for an active route. *)
Definition codec_differs (version : Z) (row : RouteBinding) : bool :=
  ((version =? 1) && ((MessageType row != ""%string) || (NamingScheme row != ""%string))) ||
  ((version =? 2) && ((MessageType row == ""%string) || (NamingScheme row != ""%string))) ||
  ((version =? 3) && ((MessageType row == ""%string) || (NamingScheme row != ReadableNamingV1))).

Definition check_manifest (m : RouteManifest) : result RouteManifest :=
  if (Version m <? 1) || (Version m >? 3) then Err (ErrMsg "unsupported route manifest")
  else if existsb (codec_differs (Version m)) (Routes m)
  then Err (ErrMsg "route codec differs from manifest version")
  else if negb (Version m =? 3) && negb (llen (HistoricalRoutes m) =? 0)
  then Err (ErrMsg "historical routes require manifest v3")
  else if existsb (λ row, (MessageType row == ""%string) || (NamingScheme row != ""%string)) (HistoricalRoutes m)
  then Err (ErrMsg "historical typed hash route required")
  else try _ <- NewRouteResolver (Routes m) (HistoricalRoutes m); Ok m.

Definition ParseRouteManifest (raw : bytes) : result RouteManifest :=
  if (len raw =? 0) || (len raw >? 1048576) then Err (ErrMsg "unsupported route manifest")
  else match parse raw with
       | Some v =>
         match set_manifest (mkManifest 0 [] []) v with
         | Ok m => check_manifest m
         | Err _ => Err (ErrMsg "unsupported route manifest")
         end
       | None => Err (ErrMsg "unsupported route manifest")
       end.

(** ** The vectors of contracts/rocketmq-routing-v2.json and -v3.json *)

Example vector_v2 :
  PhysicalTopicV2 "qs.events" "NORMAL" "qs.mysql" "r1"
    = Ok "rmq2_t_d1a160f362422758c00586c40f7c5b92"%string ∧
  PhysicalTopicV2 "qs.events" "TRANSACTION" "qs.mongo" "r1"
    = Ok "rmq2_t_319bcdfe831d32aaf2411f96b3fa2243"%string ∧
  ConsumerGroupV2 "qs.events" "worker" = Ok "rmq2_g_714a15af0d2e5e4dc1529f85393f4669"%string.
Proof. split; [|split]; vm_compute; reflexivity. Qed.

Example vector_v3 :
  PhysicalTopicV3 "iam.authz.version.v2" "TRANSACTION" "iam.mysql" "m3-1"
    = Ok "iam-authz-version-v2--tx--iam-mysql--m3-1"%string ∧
  ConsumerGroupV3 "iam.authz.version.v2" "iam-policy-sync.iam-primary-1"
    = Ok "iam-authz-version-v2--iam-policy-sync-iam-primary-1"%string.
Proof. split; vm_compute; reflexivity. Qed.

(** ** Readable names *)

(** No two dashes in a row, none at either end. *)
Fixpoint single_dashed (after : bool) (s : string) : Prop :=
  match s with
  | ""%string => after = true
  | String a s => if a == dash then after = true ∧ single_dashed false s else single_dashed true s
  end.

Lemma dashed_single after s : readable_from after s = true → single_dashed after (dashed s).
Proof.
  revert after. induction s as [|a s IH]; intros after; [done|]. cbn [readable_from dashed single_dashed].
  destruct (token_char a) eqn:Ht.
  - assert (Hd : a ≠ dot ∧ a ≠ dash) by (split; intros ->; vm_compute in Ht; discriminate).
    rewrite (bool_decide_eq_false_2 (a = dot)) by apply Hd.
    rewrite (bool_decide_eq_false_2 (a = dash)) by apply Hd. apply IH.
  - intros [[Ha Haf]%andb_true_iff Hr]%andb_true_iff. destruct (a == dot) eqn:Hdot.
    + rewrite bool_decide_eq_true_2 by done. auto.
    + apply orb_true_iff in Ha as [Ha|Ha]; [|done]. rewrite Ha. auto.
Qed.

(** A dashed field is determined by a string that continues it with the
    separator, and so is the continuation. *)
Lemma single_dashed_split after x y s t :
  single_dashed after x → single_dashed after y →
  x +:+ "--" +:+ s = y +:+ "--" +:+ t → x = y ∧ s = t.
Proof.
  revert after y. induction x as [|a x IH]; intros after y; cbn [single_dashed].
  - destruct y as [|b y]; cbn [single_dashed].
    + intros _ _ He. by injection He.
    + intros _ Hy He. rewrite string_cons_app in He. injection He as <- He.
      rewrite bool_decide_eq_true_2 in Hy by done. destruct Hy as [_ Hy]. destruct y as [|b y]; [done|].
      rewrite string_cons_app in He. injection He as <- He. cbn [single_dashed] in Hy.
      rewrite bool_decide_eq_true_2 in Hy by done. by destruct Hy.
  - destruct y as [|b y]; cbn [single_dashed].
    + intros Hx _ He. rewrite string_cons_app in He. injection He as -> He.
      rewrite bool_decide_eq_true_2 in Hx by done. destruct Hx as [_ Hx]. destruct x as [|b x]; [done|].
      rewrite string_cons_app in He. injection He as -> He. cbn [single_dashed] in Hx.
      rewrite bool_decide_eq_true_2 in Hx by done. by destruct Hx.
    + intros Hx Hy He. rewrite !string_cons_app in He. injection He as -> He.
      destruct (b == dash); [destruct Hx as [_ Hx], Hy as [_ Hy]|]; destruct (IH _ _ Hx Hy He); by subst.
Qed.

Lemma single_dashed_whole after x y s : single_dashed after x → x ≠ y +:+ "--" +:+ s.
Proof.
  revert after x. induction y as [|b y IH]; intros after x Hx ->.
  - rewrite string_nil_app in Hx. change ("--" +:+ s) with (String dash (String dash s)) in Hx. cbn [single_dashed] in Hx.
    rewrite !bool_decide_eq_true_2 in Hx by done. by destruct Hx as [_ [? _]].
  - rewrite string_cons_app in Hx. cbn [single_dashed] in Hx.
    destruct (b == dash); [destruct Hx as [_ Hx]|]; by eapply IH.
Qed.

Lemma join_dashes_inj xs ys :
  Forall (single_dashed false) xs → Forall (single_dashed false) ys → xs ≠ [] → ys ≠ [] →
  join_dashes xs = join_dashes ys → xs = ys.
Proof.
  intros Hxs. revert ys. induction Hxs as [|x xs Hx Hxs IH]; intros ys Hys Hn Hm; [done|].
  destruct Hys as [|y ys Hy Hys]; [done|]. cbn [join_dashes].
  destruct xs as [|x' xs], ys as [|y' ys]; intros He.
  - by subst.
  - by apply (single_dashed_whole false) in He.
  - symmetry in He. by apply (single_dashed_whole false) in He.
  - apply (single_dashed_split false) in He as [-> He]; [|done|done]. f_equal. by apply IH.
Qed.

Lemma readableName_Ok fs n :
  readableName fs = Ok n ↔
  Forall (λ f, readableField f = true) fs ∧ len (join_dashes (map dashed fs)) <= 64 ∧
  n = join_dashes (map dashed fs).
Proof.
  unfold readableName. destruct (forallb readableField fs) eqn:Hf; cbn [negb].
  - cbv zeta. rewrite (Forall_forall _ fs). rewrite forallb_forall in Hf. setoid_rewrite list_elem_of_In.
    destruct (len _ >? 64) eqn:Hl; boolp; split; try done.
    + intros (_&?&_). lia.
    + intros [= <-]. split_and!; [done|lia|done].
    + by intros (_&_&->).
  - split; [done|]. intros (H&_). apply not_true_iff_false in Hf. destruct Hf. rewrite forallb_forall.
    rewrite Forall_forall in H. setoid_rewrite <- list_elem_of_In. done.
Qed.

Lemma readableName_fields fs gs n :
  readableName fs = Ok n → readableName gs = Ok n → fs ≠ [] → gs ≠ [] → map dashed fs = map dashed gs.
Proof.
  intros (Hfs&_&->)%readableName_Ok (Hgs&_&He)%readableName_Ok Hf Hg.
  assert (Hs : ∀ l, Forall (λ f, readableField f = true) l → Forall (single_dashed false) (map dashed l)).
  { intros l Hl. apply Forall_map. eapply Forall_impl; [exact Hl|]. intros f. apply dashed_single. }
  apply join_dashes_inj; auto; intros ?%map_eq_nil; done.
Qed.

Lemma PhysicalTopicV3_Ok t m o r n :
  PhysicalTopicV3 t m o r = Ok n ↔
  (m = NormalMessageType ∧ readableName [t; "normal"; o; r]%string = Ok n) ∨
  (m = TransactionMessageType ∧ readableName [t; "tx"; o; r]%string = Ok n).
Proof.
  unfold PhysicalTopicV3. destruct (decide (m = NormalMessageType)) as [->|H1].
  - rewrite bool_decide_eq_true_2 by done. split; [auto|]. intros [[_ ?]|[? _]]; [done|discriminate].
  - rewrite bool_decide_eq_false_2 by done. destruct (decide (m = TransactionMessageType)) as [->|H2].
    + rewrite bool_decide_eq_true_2 by done. split; [auto|]. intros [[? _]|[_ ?]]; [done|done].
    + rewrite bool_decide_eq_false_2 by done. split; [done|]. by intros [[? _]|[? _]].
Qed.

(** Readable names identify resources.  Two readable physical topics are equal
    only for the same message type and for topics, owners and revisions that
    agree up to writing '.' for '-'; and no readable physical topic is the name
    of a readable consumer group. *)
Theorem readable_topic_identity t m o r t' m' o' r' n :
  PhysicalTopicV3 t m o r = Ok n → PhysicalTopicV3 t' m' o' r' = Ok n →
  m = m' ∧ dashed t = dashed t' ∧ dashed o = dashed o' ∧ dashed r = dashed r' ∧
  ∀ t'' s, ConsumerGroupV3 t'' s ≠ Ok n.
Proof.
  intros [[-> H]|[-> H]]%PhysicalTopicV3_Ok [[-> H']|[-> H']]%PhysicalTopicV3_Ok;
    pose proof (readableName_fields _ _ _ H H' ltac:(done) ltac:(done)) as He; simplify_eq/=;
    (split_and!; [done..|]); intros t'' s Hg;
    by pose proof (readableName_fields _ _ _ H Hg ltac:(done) ltac:(done)).
Qed.

Lemma readable_topic_identity_witness :
  PhysicalTopicV3 "a.b" "NORMAL" "o" "r" = PhysicalTopicV3 "a-b" "NORMAL" "o" "r" ∧
  dashed "a.b" = dashed "a-b".
Proof.
  split; [vm_compute; reflexivity|].
  exact (proj1 (proj2 (readable_topic_identity "a.b" "NORMAL" "o" "r" "a-b" "NORMAL" "o" "r"
    "a-b--normal--o--r" ltac:(vm_compute; reflexivity) ltac:(vm_compute; reflexivity)))).
Defined.

Ltac fields_fit Hf Hm :=
  rewrite !Forall_cons; split_and!; first [constructor|by apply Hm|eapply Hf; [|eassumption]; lia].

(** Version 2 names have no delimiter ambiguity: the octets hashed for two
    accepted topic identities are equal exactly when the identities are, never
    equal to those hashed for a consumer group, and the consumer groups' octets
    identify topic and subscription. *)
Theorem hashed_topic_identity t m o r n t' m' o' r' n' u s g u' s' g' :
  PhysicalTopicV2 t m o r = Ok n → PhysicalTopicV2 t' m' o' r' = Ok n' →
  ConsumerGroupV2 u s = Ok g → ConsumerGroupV2 u' s' = Ok g' →
  (routePreimageV2 topic_domain [t; m; o; r] = routePreimageV2 topic_domain [t'; m'; o'; r'] ↔
   (t, m, o, r) = (t', m', o', r')) ∧
  (routePreimageV2 group_domain [u; s] = routePreimageV2 group_domain [u'; s'] ↔ (u, s) = (u', s')) ∧
  routePreimageV2 topic_domain [t; m; o; r] ≠ routePreimageV2 group_domain [u; s].
Proof.
  assert (Hf : ∀ v l, 0 <= l <= 255 → routeField v l = true → addressable v).
  { intros v l Hl H. unfold routeField in H. boolp. unfold addressable. lia. }
  unfold PhysicalTopicV2, ConsumerGroupV2. intros H1 H2 H3 H4.
  repeat match goal with H : (if ?b then _ else _) = Ok _ |- _ => destruct b eqn:?; [done|] end.
  clear H1 H2 H3 H4. boolp.
  assert (Hm : ∀ v, (v != NormalMessageType) && (v != TransactionMessageType) = false → addressable v).
  { intros v Hv. apply andb_false_iff in Hv as [Hv|Hv]; boolp; subst; by vm_compute. }
  assert (HT : Forall addressable [t; m; o; r]) by fields_fit Hf Hm.
  assert (HT' : Forall addressable [t'; m'; o'; r']) by fields_fit Hf Hm.
  assert (HG : Forall addressable [u; s]) by fields_fit Hf Hm.
  assert (HG' : Forall addressable [u'; s']) by fields_fit Hf Hm.
  unfold routePreimageV2. split; [split|split; [split|]].
  - intros [_ He%frames_inj]%string_app_inj_len; [|done..]. by injection He as -> -> -> ->.
  - by intros [= -> -> -> ->].
  - intros [_ He%frames_inj]%string_app_inj_len; [|done..]. by injection He as -> ->.
  - by intros [= -> ->].
  - intros [He _]%string_app_inj_len; [|done]. discriminate.
Qed.

Lemma hashed_topic_identity_witness :
  routePreimageV2 topic_domain ["a"; "NORMAL"; "bc"; "d"]%string
  ≠ routePreimageV2 group_domain ["a"; "b"]%string.
Proof.
  destruct (PhysicalTopicV2 "a" "NORMAL" "bc" "d") as [n|] eqn:H1; [|vm_compute in H1; discriminate].
  destruct (ConsumerGroupV2 "a" "b") as [g|] eqn:H2; [|vm_compute in H2; discriminate].
  exact (proj2 (proj2 (hashed_topic_identity _ _ _ _ _ _ _ _ _ _ _ _ _ _ _ _ H1 H1 H2 H2))).
Defined.

(** ** Validated lists *)

(** The names a binding carries are the ones its identity prescribes. *)
Definition canonical (r : RouteBinding) : Prop :=
  ExpectedPhysicalTopic (Topic r) (MessageType r) (Owner r) (RouteRevision r) (NamingScheme r) = Ok (PhysTopic r) ∧
  expectedConsumerGroup r = Ok (Group r) ∧ Topic r ≠ ""%string ∧
  contains_nul (Topic r) = false ∧ contains_nul (Subscription r) = false.

Definition valid_prefix (l : list RouteBinding) (st : Seen) : Prop :=
  Forall canonical l ∧ NoDup (map route_tuple l) ∧ (∀ x, x ∈ seen st ↔ x ∈ map route_tuple l) ∧
  (∀ r, r ∈ l → physical st !! PhysTopic r = Some (keyFor r)) ∧
  (∀ r, r ∈ l → Subscription r ≠ ""%string → groups st !! Group r = Some (Topic r, Subscription r)).

Lemma clashes_false {V} `{EqDecision V} (m : gmap string V) k v :
  clashes m k v = false → ∀ u, m !! k = Some u → u = v.
Proof. unfold clashes. intros H u Hu. rewrite Hu in H. by boolp. Qed.

(** Writing an entry that does not clash keeps the entries of earlier rows. *)
Lemma keeps_entry {V} `{EqDecision V} (m : gmap string V) k v j u :
  clashes m k v = false → m !! j = Some u → <[k := v]> m !! j = Some u.
Proof.
  intros Hc Hj. destruct (decide (j = k)) as [->|Hne].
  - rewrite lookup_insert_eq. f_equal. symmetry. by eapply clashes_false.
  - by rewrite lookup_insert_ne.
Qed.

Lemma validate_route_inv l r st st' :
  valid_prefix l st → validate_route st r = Ok st' → valid_prefix (l ++ [r]) st'.
Proof.
  intros (Hcan&Hnd&Hseen&Hphys&Hgrp) (ex&Hex&(gr&Hgr&H)%rbind_Ok)%rbind_Ok.
  destruct (_ || _) eqn:Hb; [done|]. destruct (bool_decide (route_tuple r ∈ seen st)) eqn:Hdup; [done|].
  destruct (clashes (physical st) _ _) eqn:Hp; [done|]. boolp. subst.
  assert (Hc : canonical r) by (by split_and!).
  assert (Hst : seen st' = {[route_tuple r]} ∪ seen st ∧ physical st' = <[PhysTopic r := keyFor r]> (physical st) ∧
    ((Subscription r = ""%string ∧ groups st' = groups st) ∨
     (clashes (groups st) (Group r) (Topic r, Subscription r) = false ∧
      groups st' = <[Group r := (Topic r, Subscription r)]> (groups st)))).
  { destruct (Subscription r == ""%string) eqn:Hs; [injection H as <-; boolp; auto|].
    cbv zeta in H. destruct (clashes (groups st) _ _) eqn:Hg; [done|]. injection H as <-. auto. }
  destruct Hst as (Hs1&Hs2&Hs3). unfold valid_prefix. rewrite Hs1, Hs2. clear H. rewrite map_app. simpl. split_and!.
  - apply Forall_app; auto.
  - apply NoDup_app. split_and!; [done| |apply NoDup_singleton]. intros x Hx ->%list_elem_of_singleton.
    apply Hseen in Hx. done.
  - intros x. rewrite elem_of_union, elem_of_singleton, elem_of_app, list_elem_of_singleton, Hseen. tauto.
  - intros q [Hq|Hq%list_elem_of_singleton]%elem_of_app; [|subst q; apply lookup_insert_eq].
    apply keeps_entry; auto.
  - intros q [Hq|Hq%list_elem_of_singleton]%elem_of_app Hsub; destruct Hs3 as [[Hz Hs3]|[Hg Hs3]]; rewrite Hs3.
    + auto.
    + apply keeps_entry; auto.
    + by subst.
    + subst q. apply lookup_insert_eq.
Qed.

Lemma ValidateRoutes_Ok l :
  ValidateRoutes l = Ok () → l ≠ [] ∧ ∃ st, valid_prefix l st.
Proof.
  unfold ValidateRoutes. destruct l as [|r l]; [done|]. intros (st&Hf&_)%rbind_Ok. split; [done|]. exists st.
  apply (rfold_invariant _ valid_prefix _ _ _ (λ d x s s', validate_route_inv d x s s') Hf []).
  split_and!; [constructor|constructor|set_solver..].
Qed.

(** ** The merged lists *)

(** What the resolver has recorded after the rows [a] of the active list and [h]
    of the historical list. *)
Definition merged (a h : list RouteBinding) (st : Merge) : Prop :=
  (∀ p row, g_recorded st !! p = Some row → row ∈ a ++ h ∧ PhysTopic row = p) ∧
  (∀ row, row ∈ a ++ h → is_Some (g_recorded st !! PhysTopic row)) ∧
  (∀ x y, x ∈ a → y ∈ h → PhysTopic x ≠ PhysTopic y) ∧
  (∀ row, row ∈ a ++ h → Group row ≠ ""%string → g_groups st !! Group row = Some (Topic row, Subscription row)) ∧
  (∀ row, row ∈ a → Group row ≠ ""%string → g_logical st !! (Topic row, Subscription row) = Some (Group row)).

(** The topics of the list being read. *)
Definition reading (l : list RouteBinding) (st : Merge) : Prop :=
  ∀ p, p ∈ g_physical st ↔ ∃ row, row ∈ l ∧ PhysTopic row = p.

Lemma merge_row_Ok first st row st' :
  merge_row first st row = Ok st' →
  (is_Some (g_recorded st !! PhysTopic row) → PhysTopic row ∈ g_physical st) ∧
  g_recorded st' = <[PhysTopic row := row]> (g_recorded st) ∧
  g_physical st' = {[PhysTopic row]} ∪ g_physical st ∧
  ((Group row = ""%string ∧ g_groups st' = g_groups st ∧ g_logical st' = g_logical st) ∨
   (clashes (g_groups st) (Group row) (Topic row, Subscription row) = false ∧
    g_groups st' = <[Group row := (Topic row, Subscription row)]> (g_groups st) ∧
    (first = true → ∀ old, g_logical st !! (Topic row, Subscription row) = Some old → old = Group row) ∧
    g_logical st' = if first then <[(Topic row, Subscription row) := Group row]> (g_logical st) else g_logical st)).
Proof.
  intros (u&Hu&H)%rbind_Ok. split.
  { intros [prev Hp]. rewrite Hp in Hu. destruct (decide (PhysTopic row ∈ g_physical st)) as [|Hn]; [done|].
    rewrite bool_decide_eq_true_2 in Hu by done. by destruct (_ || _). }
  clear Hu. cbv zeta in H. destruct (Group row == ""%string) eqn:Hg.
  { injection H as <-. boolp. simpl. split_and!; [done|done|]. by left. }
  destruct (first && _) eqn:Hl; [done|]. destruct (clashes _ _ _) eqn:Hc; [done|]. injection H as <-. simpl.
  split_and!; [done|done|]. right. split_and!; [done|done| |done].
  intros -> old Ho. rewrite Ho in Hl. simpl in Hl. by boolp.
Qed.

Lemma reading_snoc l row st st' :
  reading l st → g_physical st' = {[PhysTopic row]} ∪ g_physical st → reading (l ++ [row]) st'.
Proof.
  intros Hl Hp p. rewrite Hp, elem_of_union, elem_of_singleton, (Hl p). split.
  - intros [->|(r&Hr&Hpr)]; [exists row|exists r]; (split; [|done]); apply elem_of_app;
      [right; by apply list_elem_of_singleton|by left].
  - intros (r&[Hr| ->%list_elem_of_singleton]%elem_of_app&Hpr); [right; by exists r|by left].
Qed.

Lemma elem_of_snoc (l : list RouteBinding) row : row ∈ l ++ [row].
Proof. apply elem_of_app. right. by apply list_elem_of_singleton. Qed.

Lemma merge_active_inv a row st st' :
  merged a [] st ∧ reading a st → merge_row true st row = Ok st' →
  merged (a ++ [row]) [] st' ∧ reading (a ++ [row]) st'.
Proof.
  intros [(Hrec&Hall&_&Hgrp&Hlog) Hread] (_&Hr&Hp&Hg)%merge_row_Ok.
  rewrite app_nil_r in *. split; [|by eapply reading_snoc].
  unfold merged. rewrite app_nil_r, Hr. split_and!.
  - intros p q [[<- <-]|[_ Hq]]%lookup_insert_Some; [split; [apply elem_of_snoc|done]|].
    destruct (Hrec p q Hq) as [Hin Hpq]. split; [apply elem_of_app; by left|done].
  - intros q [Hq| ->%list_elem_of_singleton]%elem_of_app; rewrite lookup_insert_is_Some'; auto.
  - intros x y _ Hy. by apply not_elem_of_nil in Hy.
  - intros q [Hq| ->%list_elem_of_singleton]%elem_of_app Hne; destruct Hg as [(?&->&_)|(Hc&->&_)]; auto.
    + apply keeps_entry; auto.
    + done.
    + apply lookup_insert_eq.
  - intros q [Hq| ->%list_elem_of_singleton]%elem_of_app Hne; destruct Hg as [(?&_&->)|(_&_&Hc&->)]; auto.
    + destruct (decide ((Topic q, Subscription q) = (Topic row, Subscription row))) as [He|He].
      * rewrite He, lookup_insert_eq. f_equal. symmetry. apply Hc; [done|]. rewrite <- He. auto.
      * rewrite lookup_insert_ne by done. auto.
    + done.
    + apply lookup_insert_eq.
Qed.

Lemma merge_historical_inv a h row st st' :
  merged a h st ∧ reading h st → merge_row false st row = Ok st' →
  merged a (h ++ [row]) st' ∧ reading (h ++ [row]) st'.
Proof.
  intros [(Hrec&Hall&Hdis&Hgrp&Hlog) Hread] (Hnew&Hr&Hp&Hg)%merge_row_Ok.
  split; [|by eapply reading_snoc]. unfold merged. rewrite Hr, app_assoc. split_and!.
  - intros p q [[<- <-]|[_ Hq]]%lookup_insert_Some; [split; [apply elem_of_snoc|done]|].
    destruct (Hrec p q Hq) as [Hin Hpq]. split; [apply elem_of_app; by left|done].
  - intros q [Hq| ->%list_elem_of_singleton]%elem_of_app; rewrite lookup_insert_is_Some'; auto.
  - intros x y Hx [Hy| ->%list_elem_of_singleton]%elem_of_app; [by apply Hdis|].
    intros He. assert (Hin : PhysTopic row ∈ g_physical st).
    { apply Hnew. rewrite <- He. apply Hall, elem_of_app. by left. }
    apply Hread in Hin as (z&Hz&Hpz). apply (Hdis x z); [done|done|congruence].
  - intros q [Hq| ->%list_elem_of_singleton]%elem_of_app Hne; destruct Hg as [(?&->&_)|(Hc&->&_)]; auto.
    + apply keeps_entry; auto.
    + done.
    + apply lookup_insert_eq.
  - intros q Hq Hne. destruct Hg as [(?&_&->)|(_&_&_&->)]; auto.
Qed.

Lemma reading_empty r g l : reading [] (mkMerge r g l ∅).
Proof. intros p. simpl. split; [set_solver|]. intros (row&Hr&_). by apply not_elem_of_nil in Hr. Qed.

Lemma merged_empty : merged [] [] (mkMerge ∅ ∅ ∅ ∅) ∧ reading [] (mkMerge ∅ ∅ ∅ ∅).
Proof.
  split; [|apply reading_empty]. split_and!; simpl.
  - intros p row. by rewrite lookup_empty.
  - intros row Hr. by apply not_elem_of_nil in Hr.
  - intros x y Hr. by apply not_elem_of_nil in Hr.
  - intros row Hr. by apply not_elem_of_nil in Hr.
  - intros row Hr. by apply not_elem_of_nil in Hr.
Qed.

(** A built resolver: validated lists, merged. *)
Lemma NewRouteResolver_Ok act hist r :
  NewRouteResolver act hist = Ok r →
  active r = act ∧ act ≠ [] ∧ (∃ st, valid_prefix act st) ∧ (∃ st, valid_prefix hist st) ∧
  ∃ st, merged act hist st ∧ recorded r = g_recorded st.
Proof.
  intros ([]&Ha&([]&Hh&(s1&H1&(s2&H2&[= <-])%rbind_Ok)%rbind_Ok)%rbind_Ok)%rbind_Ok. simpl.
  apply ValidateRoutes_Ok in Ha as [Hne Ha]. split_and!; try done.
  - destruct hist as [|x l]; [|by apply ValidateRoutes_Ok in Hh as [_ ?]].
    exists (mkSeen ∅ ∅ ∅). split_and!; [constructor|constructor|set_solver..].
  - exists s2. split; [|done].
    pose proof (rfold_invariant _ (λ d st, merged d [] st ∧ reading d st) _ _ _
      (λ d x s s', merge_active_inv d x s s') H1 []) as Hact. simpl in Hact.
    destruct Hact as [Hm _]. { apply merged_empty. }
    apply (rfold_invariant _ (λ d st, merged act d st ∧ reading d st) _ _ _
      (λ d x s s', merge_historical_inv act d x s s') H2 []).
    split; [exact Hm|apply reading_empty].
Qed.

(** C23: A resolver is unambiguous.  Every binding of a resolver carries exactly the
    names its identity prescribes; bindings with one physical topic have one
    publishing key, active and historical lists share no physical topic, a
    consumer group belongs to one logical subscription, and the active bindings
    of a logical subscription share one consumer group. *)
Theorem resolver_unambiguous act hist r :
  NewRouteResolver act hist = Ok r →
  Forall canonical (act ++ hist) ∧
  (∀ x y, x ∈ act ++ hist → y ∈ act ++ hist → PhysTopic x = PhysTopic y → keyFor x = keyFor y) ∧
  (∀ x y, x ∈ act → y ∈ hist → PhysTopic x ≠ PhysTopic y) ∧
  (∀ x y, x ∈ act ++ hist → y ∈ act ++ hist → Group x = Group y → Group x ≠ ""%string →
     Topic x = Topic y ∧ Subscription x = Subscription y) ∧
  (∀ x y, x ∈ act → y ∈ act → Topic x = Topic y → Subscription x = Subscription y →
     Group x ≠ ""%string → Group y ≠ ""%string → Group x = Group y).
Proof.
  intros (_&_&[sa (Hca&_&_&Hpa&_)]&[sh (Hch&_&_&Hph&_)]&st&(_&_&Hdis&Hgrp&Hlog)&_)%NewRouteResolver_Ok.
  split_and!; [by apply Forall_app| |done| |].
  - intros x y [Hx|Hx]%elem_of_app [Hy|Hy]%elem_of_app He.
    + apply Hpa in Hx. apply Hpa in Hy. rewrite He in Hx. congruence.
    + by destruct (Hdis x y).
    + by destruct (Hdis y x).
    + apply Hph in Hx. apply Hph in Hy. rewrite He in Hx. congruence.
  - intros x y Hx Hy He Hne. pose proof (Hgrp x Hx Hne) as H1. rewrite He in Hne, H1.
    pose proof (Hgrp y Hy Hne) as H2. by simplify_eq.
  - intros x y Hx Hy Ht Hs Hnx Hny. pose proof (Hlog x Hx Hnx) as H1. pose proof (Hlog y Hy Hny) as H2.
    rewrite Ht, Hs in H1. congruence.
Qed.

(** Lookups are confined to the reviewed lists.  Publishing and subscribing use
    active bindings only, and every active key publishes; evidence is accepted
    for exactly the recorded bindings, active or historical, under their own
    key; the routes of a subscription are all its active bindings and share one
    consumer group. *)
Theorem resolver_lookups act hist r :
  NewRouteResolver act hist = Ok r →
  (∀ key, match PublishRoute r key with
          | Ok row => row ∈ act ∧ keyFor row = key
          | Err _ => ∀ row, row ∈ act → keyFor row ≠ key
          end) ∧
  (∀ key p, match RecordedRoute r key p with
            | Ok row => row ∈ act ++ hist ∧ PhysTopic row = p ∧ keyFor row = key
            | Err _ => ∀ row, row ∈ act ++ hist → PhysTopic row = p → keyFor row ≠ key
            end) ∧
  (∀ t s, match SubscriptionRoutes r t s with
          | Ok out => (∀ row, row ∈ out ↔ row ∈ act ∧ Topic row = t ∧ Subscription row = s ∧ Group row ≠ ""%string) ∧
                      ∃ g, Forall (λ row, Group row = g) out
          | Err _ => ∀ row, row ∈ act → Topic row = t → Subscription row = s → Group row = ""%string
          end).
Proof.
  intros (Ha&_&[sa (_&_&_&Hpa&_)]&[sh (_&_&_&Hph&_)]&st&(Hrec&Hall&Hdis&_&Hlog)&Hst)%NewRouteResolver_Ok.
  split_and!.
  - intros key. unfold PublishRoute. rewrite Ha. destruct (find _ act) as [row|] eqn:Hf.
    + apply find_some in Hf as [Hin Hk]. boolp. by rewrite list_elem_of_In.
    + intros row Hin Hk. rewrite list_elem_of_In in Hin. eapply find_none in Hf; [|exact Hin].
      cbv beta in Hf. by boolp.
  - intros key p. unfold RecordedRoute. rewrite Hst. destruct (g_recorded st !! p) as [row|] eqn:Hp.
    + destruct (Hrec p row Hp) as [Hin Hrp]. destruct (keyFor row == key) eqn:Hk; boolp; [done|].
      intros q Hq Hqp Hqk. apply Hk. rewrite <- Hqk. rewrite <- Hqp in Hrp. clear Hk Hp.
      apply elem_of_app in Hin as [Hx|Hx]; apply elem_of_app in Hq as [Hy|Hy].
      * apply Hpa in Hx. apply Hpa in Hy. rewrite Hrp in Hx. congruence.
      * by destruct (Hdis row q).
      * by destruct (Hdis q row).
      * apply Hph in Hx. apply Hph in Hy. rewrite Hrp in Hx. congruence.
    + intros q Hq Hqp. apply Hall in Hq as [z Hz]. rewrite Hqp in Hz. congruence.
  - intros t s. unfold SubscriptionRoutes. rewrite Ha.
    assert (Hf : ∀ row, row ∈ filter (λ row, Topic row = t ∧ Subscription row = s ∧ Group row ≠ ""%string) act ↔
      row ∈ act ∧ Topic row = t ∧ Subscription row = s ∧ Group row ≠ ""%string).
    { intros row. rewrite list_elem_of_filter. tauto. }
    destruct (filter _ act) as [|x out].
    + intros row Hin Ht Hs. destruct (decide (Group row = ""%string)) as [|Hne]; [done|].
      exfalso. eapply not_elem_of_nil, (Hf row). done.
    + split; [done|]. exists (Group x). apply Forall_forall. intros y Hy.
      destruct (proj1 (Hf x) (list_elem_of_here _ _)) as (Hxa&Hxt&Hxs&Hxg).
      destruct (proj1 (Hf y) Hy) as (Hya&Hyt&Hys&Hyg).
      pose proof (Hlog x Hxa Hxg) as H1. pose proof (Hlog y Hya Hyg) as H2. rewrite Hxt, Hxs in H1.
      rewrite Hyt, Hys in H2. congruence.
Qed.

(** An accepted manifest is one of the three reviewed kinds: untyped hashed
    routes (1), typed hashed routes (2), or readable routes with typed hashed
    history (3); its lists build a resolver. *)
Theorem manifest_accepted raw m :
  ParseRouteManifest raw = Ok m →
  (∃ r, NewRouteResolver (Routes m) (HistoricalRoutes m) = Ok r) ∧
  Forall (λ row, MessageType row ≠ ""%string ∧ NamingScheme row = ""%string) (HistoricalRoutes m) ∧
  ((Version m = 1 ∧ HistoricalRoutes m = [] ∧
      Forall (λ row, MessageType row = ""%string ∧ NamingScheme row = ""%string) (Routes m)) ∨
   (Version m = 2 ∧ HistoricalRoutes m = [] ∧
      Forall (λ row, MessageType row ≠ ""%string ∧ NamingScheme row = ""%string) (Routes m)) ∨
   (Version m = 3 ∧ Forall (λ row, MessageType row ≠ ""%string ∧ NamingScheme row = ReadableNamingV1) (Routes m))).
Proof.
  unfold ParseRouteManifest. destruct (_ || _); [done|]. destruct (parse raw) as [v|]; [|done].
  destruct (set_manifest _ v) as [m'|]; [|done]. unfold check_manifest.
  destruct (_ || _) eqn:Hv; [done|]. destruct (existsb _ (Routes m')) eqn:Hr; [done|].
  destruct (_ && _) eqn:Hh3; [done|]. destruct (existsb _ (HistoricalRoutes m')) eqn:Hh; [done|].
  intros (r&Hres&[= ->])%rbind_Ok. split; [by exists r|].
  assert (Hno : ∀ (f : RouteBinding → bool) l, existsb f l = false → Forall (λ x, f x = false) l).
  { intros f l H. apply Forall_forall. intros x Hx. rewrite list_elem_of_In in Hx.
    apply not_true_iff_false. intros Ht. apply not_true_iff_false in H. apply H, existsb_exists. eauto. }
  apply Hno in Hr, Hh. split.
  { eapply Forall_impl; [exact Hh|]. intros row Hrow. cbv beta in Hrow. by boolp. }
  assert (Hhist : Version m ≠ 3 → HistoricalRoutes m = []).
  { intros Hne. rewrite (proj2 (Z.eqb_neq _ _) Hne) in Hh3. simpl in Hh3. boolp. unfold llen in *.
    apply length_zero_iff_nil. lia. }
  assert (Hcase : Version m = 1 ∨ Version m = 2 ∨ Version m = 3) by (boolp; lia).
  assert (Hrows : ∀ P, (∀ row, codec_differs (Version m) row = false → P row) → Forall P (Routes m)).
  { intros P HP. eapply Forall_impl; [exact Hr|]. exact HP. }
  destruct Hcase as [Hm|[Hm|Hm]]; [left|right; left|right; right].
  - split; [done|]. split; [apply Hhist; lia|]. apply Hrows. rewrite Hm. unfold codec_differs. intros row Hrow.
    simpl in Hrow. by boolp.
  - split; [done|]. split; [apply Hhist; lia|]. apply Hrows. rewrite Hm. unfold codec_differs. intros row Hrow.
    simpl in Hrow. by boolp.
  - split; [done|]. apply Hrows. rewrite Hm. unfold codec_differs. intros row Hrow. simpl in Hrow. by boolp.
Qed.

(** A version 3 manifest with one active and one historical route. *)
Definition ex_active : RouteBinding :=
  mkRoute "qs.plan.task" "qs-worker" "qs-plan-task--tx--qs-mysql--m3-1" "qs-plan-task--qs-worker"
    "TRANSACTION" "qs.mysql" "m3-1" "readable-v1".
Definition ex_historical : RouteBinding :=
  mkRoute "qs.events" "worker" "rmq2_t_d1a160f362422758c00586c40f7c5b92"
    "rmq2_g_714a15af0d2e5e4dc1529f85393f4669" "NORMAL" "qs.mysql" "r1" "".

Definition route_value (r : RouteBinding) : value :=
  JObj (zip route_names (map JStr [Topic r; Subscription r; PhysTopic r; Group r; MessageType r; Owner r;
    RouteRevision r; NamingScheme r])).
Definition ex_manifest : bytes :=
  marshal (JObj [("version"%string, JNum "3"%string); ("routes"%string, JArr [route_value ex_active]);
                 ("historical_routes"%string, JArr [route_value ex_historical])]).
Definition ex_resolver : RouteResolver :=
  mkResolver [ex_active] {[PhysTopic ex_historical := ex_historical; PhysTopic ex_active := ex_active]}.

Lemma ex_resolver_built : NewRouteResolver [ex_active] [ex_historical] = Ok ex_resolver.
Proof. vm_compute. reflexivity. Qed.
Lemma ex_manifest_parsed : ParseRouteManifest ex_manifest = Ok (mkManifest 3 [ex_active] [ex_historical]).
Proof. vm_compute. reflexivity. Qed.

Lemma resolver_unambiguous_witness : PhysTopic ex_active ≠ PhysTopic ex_historical.
Proof.
  exact (proj1 (proj2 (proj2 (resolver_unambiguous _ _ _ ex_resolver_built))) ex_active ex_historical
    (list_elem_of_here _ _) (list_elem_of_here _ _)).
Defined.

Lemma resolver_lookups_witness :
  match PublishRoute ex_resolver (keyFor ex_historical) with
  | Ok row => row ∈ [ex_active] ∧ keyFor row = keyFor ex_historical
  | Err _ => ∀ row, row ∈ [ex_active] → keyFor row ≠ keyFor ex_historical
  end.
Proof. exact (proj1 (resolver_lookups _ _ _ ex_resolver_built) (keyFor ex_historical)). Defined.

Lemma manifest_accepted_witness : ∃ r, NewRouteResolver [ex_active] [ex_historical] = Ok r.
Proof. exact (proj1 (manifest_accepted _ _ ex_manifest_parsed)). Defined.

End routing.
