(* ===== verification/Wire.v ===== *)
(** * wire/legacy: historical envelopes

    [envelope.go] and [handoff.go]: the message envelope of component-base
    consumers in its two revisions, and the failure record published before a
    message is given up.  Metadata is a finite map; where the source iterates it
    in sorted order (the checksum, [json.Marshal] of a map) the entries are
    sorted by key octets.  Nil and empty metadata are one value: the codec
    copies metadata into a fresh map, so both encode alike. *)

From Stdlib Require Import Ascii.
From S2P Require Import Prelude GoStd Json.

Module legacy.
Import json.

Definition envelopeType : string := "component-base.messaging.message.v1".
Definition Revision1 : Z := 1.
Definition Revision2 : Z := 2.

Record Envelope : Type := mkEnvelope { UUID : string; Metadata : gmap string string; Payload : bytes }.

#[global] Instance Envelope_eq_dec : EqDecision Envelope.
Proof. solve_decision. Defined.

Record encodedEnvelope : Type := mkEncoded {
  e_Type : string; e_SchemaRevision : Z; e_UUID : string; e_Metadata : gmap string string;
  e_Payload : bytes; e_Checksum : string
}.

(** [sort.Strings] on the keys. *)
Definition key_le (p q : string * string) : Prop := String.leb p.1 q.1 = true.
#[global] Instance key_le_dec : RelDecision key_le.
Proof. intros p q. unfold key_le. apply _. Defined.
Definition entries (m : gmap string string) : list (string * string) := merge_sort key_le (map_to_list m).

Definition checksum_parts (uuid : string) (metadata : gmap string string) (payload : bytes) : list bytes :=
  uuid :: concat (map (λ p, [p.1; p.2]) (entries metadata)) ++ [payload].
Definition checksum (uuid : string) (metadata : gmap string string) (payload : bytes) : string :=
  hex_encode (sha256 (frames (checksum_parts uuid metadata payload))).

(** ** json.Marshal and json.Unmarshal of the structs *)

Definition metadata_value (m : gmap string string) : value :=
  JObj (map (λ p, (p.1, JStr p.2)) (entries m)).
(** A nil []byte is written as null. *)
Definition payload_value (b : bytes) : value := if b == ""%string then JNull else of_bytes b.

Definition envelope_spec (e : encodedEnvelope) : list (string * bool * value) :=
  [("type"%string, false, JStr (e_Type e));
   ("schema_revision"%string, e_SchemaRevision e =? 0, JNum (FormatUint (e_SchemaRevision e)));
   ("uuid"%string, e_UUID e == ""%string, JStr (e_UUID e));
   ("metadata"%string, bool_decide (e_Metadata e = ∅), metadata_value (e_Metadata e));
   ("payload"%string, false, payload_value (e_Payload e));
   ("checksum"%string, e_Checksum e == ""%string, JStr (e_Checksum e))].
Definition envelope_value (e : encodedEnvelope) : value := JObj (members (envelope_spec e)).

(** An object decoded into a map: entries are added to the map already there;
    a null value stores the empty string, null instead of the object a nil map. *)
Fixpoint set_entries (ms : list (string * value)) (acc : gmap string string) : result (gmap string string) :=
  match ms with
  | [] => Ok acc
  | (k, JStr s) :: ms => set_entries ms (<[k := s]> acc)
  | (k, JNull) :: ms => set_entries ms (<[k := ""%string]> acc)
  | _ => Err type_error
  end.
Definition set_map (acc : gmap string string) (v : value) : result (gmap string string) :=
  match v with
  | JNull => Ok ∅
  | JObj ms => set_entries ms acc
  | _ => Err type_error
  end.

Definition envelope_names : list string :=
  ["type"; "schema_revision"; "uuid"; "metadata"; "payload"; "checksum"]%string.

Definition set_envelope (v : value) : result encodedEnvelope :=
  match v with
  | JNull => Ok (mkEncoded "" 0 "" ∅ "" "")
  | JObj ms =>
    try l <- assign false envelope_names ms;
    try a <- fold_field "type" set_string l ""%string;
    try b <- fold_field "schema_revision" set_int l 0;
    try c <- fold_field "uuid" set_string l ""%string;
    try d <- fold_field "metadata" set_map l ∅;
    try e <- fold_field "payload" set_bytes l ""%string;
    try f <- fold_field "checksum" set_string l ""%string;
    Ok (mkEncoded a b c d e f)
  | _ => Err type_error
  end.

(** The discriminator: [json.Unmarshal] into a struct with the type alone. *)
Definition probe_type (v : value) : result string :=
  match v with
  | JNull => Ok ""%string
  | JObj ms => try l <- assign false ["type"%string] ms; fold_field "type" set_string l ""%string
  | _ => Err type_error
  end.

(** [json.Unmarshal] with its error ignored: a value of the wrong kind leaves the
    field as it is, and stores the empty string in a map entry. *)
Definition recover_string (acc : string) (v : value) : result string :=
  match v with JStr s => Ok s | _ => Ok acc end.
Fixpoint recover_entries (ms : list (string * value)) (acc : gmap string string) : gmap string string :=
  match ms with
  | [] => acc
  | (k, v) :: ms => recover_entries ms (<[k := match v with JStr s => s | _ => ""%string end]> acc)
  end.
Definition recover_map (acc : gmap string string) (v : value) : result (gmap string string) :=
  match v with JNull => Ok ∅ | JObj ms => Ok (recover_entries ms acc) | _ => Ok acc end.

Definition recover (v : value) : string * gmap string string :=
  match v with
  | JObj ms =>
    match assign false ["uuid"; "metadata"]%string ms with
    | Ok l =>
      (match fold_field "uuid" recover_string l ""%string with Ok u => u | Err _ => ""%string end,
       match fold_field "metadata" recover_map l ∅ with Ok m => m | Err _ => ∅ end)
    | Err _ => (""%string, ∅)
    end
  | _ => (""%string, ∅)
  end.

(** ** Encode and Decode *)

Definition Encode (value : Envelope) (revision : Z) : result bytes :=
  if negb (revision =? Revision1) && negb (revision =? Revision2)
  then Err (ErrMsg "unsupported legacy envelope revision")
  else
    let '(rev, sum) := if revision =? Revision2
      then (Revision2, checksum (UUID value) (Metadata value) (Payload value)) else (0, ""%string) in
    Ok (marshal (envelope_value (mkEncoded envelopeType rev (UUID value) (Metadata value) (Payload value) sum))).

(** The three results: the envelope, whether it was recognized, the error. *)
Definition Decode (body : bytes) : Envelope * bool * option error :=
  match parse body with
  | None => (mkEnvelope "" ∅ "", false, None)
  | Some v =>
    match probe_type v with
    | Err _ => (mkEnvelope "" ∅ "", false, None)
    | Ok t =>
      if t != envelopeType then (mkEnvelope "" ∅ "", false, None)
      else match set_envelope v with
      | Err e => let '(u, m) := recover v in (mkEnvelope u m body, true, Some (ErrMsg "decode recognized legacy envelope"))
      | Ok e =>
        let value := mkEnvelope (e_UUID e) (e_Metadata e) (e_Payload e) in
        if (e_SchemaRevision e =? 0) || (e_SchemaRevision e =? Revision1) then (value, true, None)
        else if e_SchemaRevision e =? Revision2 then
          if e_Checksum e == ""%string then (value, true, Some (ErrMsg "legacy envelope checksum is required"))
          else if e_Checksum e != checksum (e_UUID e) (e_Metadata e) (e_Payload e)
          then (value, true, Some (ErrMsg "legacy envelope checksum mismatch"))
          else (value, true, None)
        else (value, true, Some (ErrMsg "unsupported legacy envelope revision"))
      end
    end
  end.

(** ** Failure records *)

Definition failedEnvelopeType : string := "component-base.messaging.failed.v1".
Definition FailedHandoffChannel : string := "cb-failed-handler".

Record FailedHandoff : Type := mkHandoff {
  h_Topic : string; h_Channel : string; h_UUID : string; h_TransportMessageID : string;
  h_Metadata : gmap string string; h_Payload : bytes; h_Attempts : Z; h_Timestamp : Z; h_Cause : string
}.

(** A signed integer as encoding/json writes it. *)
Definition FormatInt (z : Z) : string :=
  if z <? 0 then "-" +:+ FormatUint (- z) else FormatUint z.

Definition handoff_spec (h : FailedHandoff) : list (string * bool * value) :=
  [("type"%string, false, JStr failedEnvelopeType); ("provider"%string, false, JStr "nsq"%string);
   ("topic"%string, false, JStr (h_Topic h)); ("channel"%string, false, JStr (h_Channel h));
   ("uuid"%string, false, JStr (h_UUID h));
   ("transport_message_id"%string, h_TransportMessageID h == ""%string, JStr (h_TransportMessageID h));
   ("metadata"%string, bool_decide (h_Metadata h = ∅), metadata_value (h_Metadata h));
   ("payload"%string, false, payload_value (h_Payload h));
   ("attempts"%string, false, JNum (FormatInt (h_Attempts h)));
   ("timestamp"%string, h_Timestamp h =? 0, JNum (FormatInt (h_Timestamp h)));
   ("cause"%string, false, JStr (h_Cause h))].
Definition handoff_value (h : FailedHandoff) : value := JObj (members (handoff_spec h)).

(** The fields without which a record is not a failure record. *)
Definition handoff_incomplete (h : FailedHandoff) : bool :=
  (h_Topic h == ""%string) || (h_Channel h == ""%string) || (h_UUID h == ""%string) ||
  (h_Attempts h <? 1) || (h_Cause h == ""%string).

Definition EncodeFailedHandoff (value : FailedHandoff) : result bytes :=
  if handoff_incomplete value then Err (ErrMsg "invalid legacy NSQ failed handoff")
  else Ok (marshal (handoff_value value)).

Definition handoff_names : list string :=
  ["type"; "provider"; "topic"; "channel"; "uuid"; "transport_message_id"; "metadata"; "payload";
   "attempts"; "timestamp"; "cause"]%string.

(** The decoded struct: type, provider and the record. *)
Definition set_handoff (v : value) : result (string * string * FailedHandoff) :=
  match v with
  | JNull => Ok (""%string, ""%string, mkHandoff "" "" "" "" ∅ "" 0 0 "")
  | JObj ms =>
    try l <- assign false handoff_names ms;
    try a <- fold_field "type" set_string l ""%string;
    try b <- fold_field "provider" set_string l ""%string;
    try c <- fold_field "topic" set_string l ""%string;
    try d <- fold_field "channel" set_string l ""%string;
    try e <- fold_field "uuid" set_string l ""%string;
    try f <- fold_field "transport_message_id" set_string l ""%string;
    try g <- fold_field "metadata" set_map l ∅;
    try h <- fold_field "payload" set_bytes l ""%string;
    try i <- fold_field "attempts" set_int l 0;
    try j <- fold_field "timestamp" set_int l 0;
    try k <- fold_field "cause" set_string l ""%string;
    Ok (a, b, mkHandoff c d e f g h i j k)
  | _ => Err type_error
  end.

Definition DecodeFailedHandoff (body : bytes) : result FailedHandoff :=
  match parse body with
  | None => Err (ErrMsg "decode legacy NSQ failed handoff")
  | Some v =>
    match set_handoff v with
    | Err _ => Err (ErrMsg "decode legacy NSQ failed handoff")
    | Ok (t, p, h) =>
      if (t != failedEnvelopeType) || (p != "nsq"%string) || handoff_incomplete h
      then Err (ErrMsg "invalid legacy NSQ failed handoff") else Ok h
    end
  end.

(** The hexadecimal form of the first 12 octets of a digest. *)
Definition digest12 (preimage : bytes) : string := hex_encode (String.substring 0 12 (sha256 preimage)).
Definition FailedHandoffTopic (topic channel : string) : string :=
  "cb.failed." +:+ digest12 (topic +:+ nul +:+ channel).
Definition FailedHandoffTopicForGroup (topic group : string) : string :=
  "cb.failed." +:+ digest12 ("group" +:+ nul +:+ topic +:+ nul +:+ group).

(** ** Metadata round trip *)

Lemma entries_perm m : entries m ≡ₚ map_to_list m.
Proof. apply merge_sort_Permutation. Qed.

Lemma entries_NoDup m : NoDup (entries m).*1.
Proof. rewrite entries_perm. apply NoDup_fst_map_to_list. Qed.

Lemma entries_map m : list_to_map (entries m) = m.
Proof.
  rewrite (list_to_map_proper _ (map_to_list m)); [apply list_to_map_to_list|apply entries_NoDup|apply entries_perm].
Qed.

Lemma set_entries_list l acc :
  NoDup l.*1 → set_entries (map (λ p, (p.1, JStr p.2)) l) acc = Ok (list_to_map l ∪ acc).
Proof.
  revert acc. induction l as [|[k v] l IH]; intros acc; simpl.
  - intros _. by rewrite map_empty_union.
  - intros [Hk Hnd]%NoDup_cons. rewrite IH by done. f_equal.
    assert (Hn : (list_to_map l : gmap string string) !! k = None) by by apply not_elem_of_list_to_map_1.
    rewrite <- insert_union_r by done. by rewrite <- insert_union_l.
Qed.

Lemma set_map_value m : set_map ∅ (metadata_value m) = Ok m.
Proof.
  unfold set_map, metadata_value. rewrite set_entries_list by apply entries_NoDup.
  by rewrite entries_map, map_union_empty.
Qed.

(** Metadata whose keys and values are UTF-8. *)
Definition utf8_map (m : gmap string string) : Prop :=
  map_Forall (λ k v, utf8_valid k = true ∧ utf8_valid v = true) m.

Lemma clean_metadata m : utf8_map m → clean (metadata_value m).
Proof.
  intros Hm. unfold metadata_value. apply clean_obj, Forall_map, Forall_forall. intros [k v] Hin.
  rewrite entries_perm in Hin. apply elem_of_map_to_list in Hin. by apply Hm in Hin as [? ?].
Qed.

Lemma clean_payload b : clean (payload_value b).
Proof. unfold payload_value. destruct (b == ""%string); [done|apply clean_of_bytes]. Qed.

Lemma set_payload_value b : set_bytes "" (payload_value b) = Ok b.
Proof.
  unfold payload_value. destruct (b == ""%string) eqn:E; boolp; [by subst|].
  unfold of_bytes, set_bytes. by rewrite b64_decode_encode.
Qed.

#[export] Hint Resolve clean_metadata clean_payload : rm.

(** ** Envelopes *)

Lemma envelope_fields e : (envelope_spec e).*1.*1 = envelope_names.
Proof. reflexivity. Qed.
Lemma envelope_names_ok : NoDup envelope_names.
Proof. apply (bool_decide_unpack _). vm_compute. reflexivity. Qed.

(** Read field number [i] of a struct written with [omitempty]. *)
Ltac read_member i Hnd :=
  erewrite (fold_field_members i); [|exact Hnd|reflexivity].

Lemma set_if_present s : (if s == ""%string then Ok ""%string else set_string "" (JStr s)) = Ok s.
Proof. destruct (s == ""%string) eqn:E; boolp; by subst. Qed.

Lemma set_map_if_present m :
  (if bool_decide (m = ∅) then Ok ∅ else set_map ∅ (metadata_value m)) = Ok m.
Proof. rewrite set_map_value. destruct (bool_decide (m = ∅)) eqn:E; boolp; by subst. Qed.

Lemma set_envelope_value e :
  e_SchemaRevision e = 0 ∨ e_SchemaRevision e = Revision2 → set_envelope (envelope_value e) = Ok e.
Proof.
  intros Hrev. unfold set_envelope, envelope_value.
  rewrite assign_known by (apply members_known; by rewrite envelope_fields). cbn [rbind].
  pose proof envelope_names_ok as Hnd. rewrite <- (envelope_fields e) in Hnd.
  read_member 0%nat Hnd. cbn [set_string rbind]. read_member 1%nat Hnd. read_member 2%nat Hnd.
  read_member 3%nat Hnd. read_member 4%nat Hnd. read_member 5%nat Hnd.
  rewrite set_map_if_present, set_payload_value, !set_if_present. cbn [rbind].
  destruct e as [t r u m p c]; simpl in *. by destruct Hrev as [-> | ->].
Qed.

Lemma probe_value e : probe_type (envelope_value e) = Ok (e_Type e).
Proof.
  unfold probe_type, envelope_value. rewrite (assign_narrow _ envelope_names);
    [|vm_compute; reflexivity|apply members_known; by rewrite envelope_fields|by left].
  pose proof envelope_names_ok as Hnd. rewrite <- (envelope_fields e) in Hnd. by read_member 0%nat Hnd.
Qed.

Ltac clean_value :=
  cbn [snd fst]; first [assumption|reflexivity|by apply clean_metadata|apply clean_payload|by apply clean_uint].

Lemma clean_envelope e :
  utf8_valid (e_Type e) = true → utf8_valid (e_UUID e) = true → utf8_valid (e_Checksum e) = true →
  utf8_map (e_Metadata e) → 0 <= e_SchemaRevision e <= max_uint64 → clean (envelope_value e).
Proof.
  intros. apply clean_obj, members_Forall. unfold envelope_spec. rewrite !Forall_cons.
  split_and!; try (intros _; split; [reflexivity|clean_value]); constructor.
Qed.


Definition ex_envelope : Envelope :=
  mkEnvelope "event-a" {["k"%string := "v"%string; "a"%string := "b"%string]} (of_octets [0; 255; 48]).
Definition ex_body : bytes := match Encode ex_envelope Revision2 with Ok b => b | Err _ => ""%string end.
Lemma ex_encoded : Encode ex_envelope Revision2 = Ok ex_body.
Proof. vm_compute. reflexivity. Qed.
Lemma ex_metadata_utf8 : utf8_map (Metadata ex_envelope).
Proof. apply (bool_decide_unpack _). vm_compute. reflexivity. Qed.


(** An identity that is not UTF-8 is replaced on the wire; the checksum, taken
    over the original octets, makes the reader refuse it. *)
Example encode_invalid_utf8 :
  match Encode (mkEnvelope (of_octets [255]) ∅ "") Revision2 with
  | Ok body => (Decode body).2 = Some (ErrMsg "legacy envelope checksum mismatch")
  | Err _ => False
  end.
Proof. vm_compute. reflexivity. Qed.

(** ** The checksum *)

Lemma pairs_inj (l l' : list (string * string)) (p p' : bytes) :
  concat (map (λ p, [p.1; p.2]) l) ++ [p] = concat (map (λ p, [p.1; p.2]) l') ++ [p'] → l = l' ∧ p = p'.
Proof.
  revert l'. induction l as [|[k v] l IH]; intros [|[k' v'] l']; simpl.
  - by intros [= ->].
  - discriminate.
  - intros He. exfalso. injection He as _ He. by destruct (concat _).
  - intros [= -> -> He]. by apply IH in He as [-> ->].
Qed.

Definition fits (u : string) (m : gmap string string) (p : bytes) : Prop :=
  Forall addressable (checksum_parts u m p).

(** The revision 2 checksum commits to the whole envelope: two envelopes with
    one checksum are equal, metadata included, or exhibit a SHA-256 collision. *)
Theorem checksum_commits u m p u' m' p' :
  fits u m p → fits u' m' p' → checksum u m p = checksum u' m' p' →
  (u = u' ∧ m = m' ∧ p = p') ∨ collide (frames (checksum_parts u m p)) (frames (checksum_parts u' m' p')).
Proof.
  intros Hf Hf' [He|Hc]%hex_encode_inj%sha256_inj; [left|by right]. apply frames_inj in He; [|done|done].
  injection He as -> He. apply pairs_inj in He as [He ->]. split_and!; [done| |done].
  by rewrite <- (entries_map m), <- (entries_map m'), He.
Qed.

Lemma checksum_commits_witness :
  let m := {["k"%string := "v"%string]} : gmap string string in
  ("u" = "u" ∧ m = m ∧ "p" = "p")%string ∨
  collide (frames (checksum_parts "u" m "p")) (frames (checksum_parts "u" m "p")).
Proof.
  intros m. assert (Hf : fits "u" m "p").
  { unfold fits. assert (He : checksum_parts "u" m "p" = ["u"; "k"; "v"; "p"]%string) by (vm_compute; reflexivity).
    rewrite He. repeat (apply Forall_cons; split; [vm_compute; reflexivity|]). apply Forall_nil. done. }
  exact (checksum_commits "u" m "p" "u" m "p" Hf Hf eq_refl).
Defined.

(** ** Failure records *)

Lemma handoff_fields h : (handoff_spec h).*1.*1 = handoff_names.
Proof. reflexivity. Qed.
Lemma handoff_names_ok : NoDup handoff_names.
Proof. apply (bool_decide_unpack _). vm_compute. reflexivity. Qed.

Lemma set_int_format n : 0 <= n < 2 ^ 63 → set_int 0 (JNum (FormatInt n)) = Ok n.
Proof.
  intros Hn. unfold FormatInt. rewrite (proj2 (Z.ltb_ge _ _)) by lia. unfold set_int.
  by rewrite ParseInt_FormatUint.
Qed.

Lemma set_handoff_value h :
  0 <= h_Attempts h < 2 ^ 63 → 0 <= h_Timestamp h < 2 ^ 63 →
  set_handoff (handoff_value h) = Ok (failedEnvelopeType, "nsq"%string, h).
Proof.
  intros Ha Ht. unfold set_handoff, handoff_value.
  rewrite assign_known by (apply members_known; by rewrite handoff_fields). cbn [rbind].
  pose proof handoff_names_ok as Hnd. rewrite <- (handoff_fields h) in Hnd.
  read_member 0%nat Hnd. read_member 1%nat Hnd. read_member 2%nat Hnd. read_member 3%nat Hnd.
  read_member 4%nat Hnd. read_member 5%nat Hnd. read_member 6%nat Hnd. read_member 7%nat Hnd.
  read_member 8%nat Hnd. read_member 9%nat Hnd. read_member 10%nat Hnd.
  rewrite set_map_if_present, set_payload_value, set_if_present, !set_int_format by done. cbn [set_string rbind].
  destruct h as [a b c d e f g i j]; cbn [h_Timestamp] in *.
  destruct (i =? 0) eqn:E; boolp; cbn [rbind]; by subst.
Qed.

Lemma clean_int n : 0 <= n < 2 ^ 63 → clean (JNum (FormatInt n)).
Proof.
  intros Hn. unfold FormatInt. rewrite (proj2 (Z.ltb_ge _ _)) by lia. apply clean_uint. unfold max_uint64. lia.
Qed.

(** A failure record survives the wire: for UTF-8 identities and metadata and
    counters in the range the broker reports, DecodeFailedHandoff returns exactly
    the record EncodeFailedHandoff was given, so nothing of the failed delivery
    is lost to the audit. *)
Theorem handoff_roundtrip h body :
  Forall (λ s, utf8_valid s = true) [h_Topic h; h_Channel h; h_UUID h; h_TransportMessageID h; h_Cause h] →
  utf8_map (h_Metadata h) → h_Attempts h < 2 ^ 63 → 0 <= h_Timestamp h < 2 ^ 63 →
  EncodeFailedHandoff h = Ok body → DecodeFailedHandoff body = Ok h.
Proof.
  intros Hs Hm Ha Ht. unfold EncodeFailedHandoff. destruct (handoff_incomplete h) eqn:Hi; [done|].
  intros [= <-]. assert (Ha' : 0 <= h_Attempts h < 2 ^ 63) by (unfold handoff_incomplete in Hi; boolp; lia).
  unfold DecodeFailedHandoff. rewrite parse_marshal.
  - rewrite set_handoff_value by done. by rewrite Hi, !bool_decide_eq_true_2 by done.
  - rewrite !Forall_cons in Hs. destruct Hs as (?&?&?&?&?&_).
    apply clean_obj, members_Forall. unfold handoff_spec. rewrite !Forall_cons.
    split_and!; try (intros _; split; [reflexivity|first [clean_value|by apply clean_int]]); constructor.
Qed.

Definition ex_handoff : FailedHandoff :=
  mkHandoff "orders" "worker" "event-a" "0123456789abcdef" {["k"%string := "v"%string]} "payload" 3 1700000000 "boom".
Definition ex_handoff_body : bytes := marshal (handoff_value ex_handoff).

Lemma handoff_roundtrip_witness : DecodeFailedHandoff ex_handoff_body = Ok ex_handoff.
Proof.
  assert (Hm : utf8_map (h_Metadata ex_handoff)) by (apply (bool_decide_unpack _); vm_compute; reflexivity).
  assert (He : EncodeFailedHandoff ex_handoff = Ok ex_handoff_body) by reflexivity.
  refine (handoff_roundtrip ex_handoff ex_handoff_body _ Hm _ _ He);
    [repeat constructor|vm_compute; reflexivity|split; [vm_compute; discriminate|vm_compute; reflexivity]].
Defined.

End legacy.

(** ** wire/protected/budget.go *)

Module budget.
Import json legacy.

Definition NSQMaxBytes : Z := 262144.
Definition MaxMetadataBytes : Z := 4096.
Definition MaxCauseBytes : nat := 1024.

Fixpoint repeated (n : nat) (a : ascii) : string :=
  match n with O => ""%string | S n => String a (repeated n a) end.

(** The record the budget is computed from. *)
Definition worst_handoff (value : Envelope) (topic channel : string) (wire : bytes) : FailedHandoff :=
  mkHandoff topic channel (UUID value) "0000000000000000" (Metadata value) wire 65535 9223372036854775807
    (repeated MaxCauseBytes "x").

Definition FitsNSQ (value : Envelope) (topic channel : string) : bool :=
  if len (marshal (metadata_value (Metadata value))) >? MaxMetadataBytes then false
  else match Encode value Revision2 with
       | Err _ => false
       | Ok wire =>
         match EncodeFailedHandoff (worst_handoff value topic channel wire) with
         | Err _ => false
         | Ok handoff => (len wire <=? NSQMaxBytes) && (len handoff <=? NSQMaxBytes)
         end
       end.

Lemma handoff_len h : len (marshal (handoff_value h)) = 1 + total (handoff_spec h).
Proof. apply struct_len. done. Qed.

Lemma escape_safe n a : html_safe a = true → escape (repeated n a) = repeated n a.
Proof.
  intros Ha. assert (H128 : byte_val a <? 128 = true) by (apply Z.ltb_lt; unfold html_safe in Ha; by boolp).
  induction n as [|n IH]; [done|]. cbn [repeated escape]. rewrite H128. unfold escape_ascii. by rewrite Ha, IH.
Qed.

Lemma repeated_len n a : len (repeated n a) = Z.of_nat n.
Proof. induction n as [|n IH]; [done|]. cbn [repeated]. rewrite len_cons, IH. lia. Qed.

(** The cost of a field grows with the text of its value. *)
Lemma cost_le k e v e' v' : vlen v <= vlen v' → (e' = true → e = true) → cost (k, e, v) <= cost (k, e', v').
Proof.
  intros Hv He. unfold cost. simpl. pose proof (len_nonneg (escape k)). pose proof (len_nonneg (marshal v')).
  unfold vlen in *. destruct e, e'; simpl; try lia; by specialize (He eq_refl).
Qed.

(** The NSQ budget holds.  When FitsNSQ accepts an envelope, its revision 2
    wire fits the broker's limit, and so does every failure record the
    subscription can build from it whose transport id and cause are written
    within 16 and 1024 octets of JSON text, whatever the attempt count and the
    timestamp. *)
Theorem budget_covers value topic channel wire h :
  FitsNSQ value topic channel = true → Encode value Revision2 = Ok wire →
  h_Topic h = topic → h_Channel h = channel → h_UUID h = UUID value → h_Metadata h = Metadata value →
  h_Payload h = wire → len (escape (h_TransportMessageID h)) <= 16 → 1 <= h_Attempts h <= 65535 →
  0 <= h_Timestamp h < 2 ^ 63 → h_Cause h ≠ ""%string → len (escape (h_Cause h)) <= Z.of_nat MaxCauseBytes →
  len wire <= NSQMaxBytes ∧
  ∃ body, EncodeFailedHandoff h = Ok body ∧ len body <= NSQMaxBytes.
Proof.
  unfold FitsNSQ. intros Hfit Henc Ht Hc Hu Hm Hp Hid Ha Hts Hne Hcause. rewrite Henc in Hfit.
  destruct (_ >? _); [done|]. set (w := worst_handoff value topic channel wire) in *.
  unfold EncodeFailedHandoff in *. destruct (handoff_incomplete w) eqn:Hw; [done|].
  apply andb_true_iff in Hfit as [Hwire Hlen]. boolp. split; [done|].
  assert (Hi : handoff_incomplete h = false).
  { unfold handoff_incomplete in *. cbn [w worst_handoff h_Topic h_Channel h_UUID h_Attempts h_Cause] in Hw.
    rewrite Ht, Hc, Hu. boolp. rewrite !orb_false_iff. split_and!;
      first [by apply bool_decide_eq_false|apply Z.ltb_ge; lia]. }
  rewrite Hi. eexists. split; [done|]. etransitivity; [|exact Hlen]. rewrite !handoff_len.
  cut (total (handoff_spec h) <= total (handoff_spec w)); [lia|]. apply total_mono.
  destruct h as [a b c d e f g i j]. simpl in Ht, Hc, Hu, Hm, Hp. subst a b c e f.
  unfold handoff_spec, w, worst_handoff.
  cbn [h_Topic h_Channel h_UUID h_TransportMessageID h_Metadata h_Payload h_Attempts h_Timestamp h_Cause] in *.
  repeat (apply Forall2_cons; split; [first [reflexivity|apply cost_le; [|done]]|]); [..|constructor].
  - rewrite !vlen_str. change (len (escape "0000000000000000")) with 16. lia.
  - unfold FormatInt. rewrite (proj2 (Z.ltb_ge _ _)) by lia. rewrite !vlen_num.
    change (len (if 65535 <? 0 then _ else _)) with 5. apply (FormatUint_len g 5); simpl; lia.
  - unfold FormatInt. rewrite (proj2 (Z.ltb_ge i 0)) by lia. rewrite !vlen_num.
    change (len (if 9223372036854775807 <? 0 then _ else _)) with 19. apply (FormatUint_len i 19); simpl; lia.
  - rewrite !vlen_str, escape_safe by done. rewrite repeated_len. lia.
Qed.

Definition with_cause (h : FailedHandoff) (cause : string) : FailedHandoff :=
  mkHandoff (h_Topic h) (h_Channel h) (h_UUID h) (h_TransportMessageID h) (h_Metadata h) (h_Payload h)
    (h_Attempts h) (h_Timestamp h) cause.

Lemma escape_control n : len (escape (repeated n "001")) = 6 * Z.of_nat n.
Proof.
  induction n as [|n IH]; [done|]. cbn [repeated escape]. change (byte_val "001" <? 128) with true. cbn iota.
  unfold escape_ascii. change (html_safe "001") with false.
  change (octet 34 "001" || octet 92 "001") with false. change (octet 8 "001") with false.
  change (octet 12 "001") with false. change (octet 10 "001") with false. change (octet 13 "001") with false.
  change (octet 9 "001") with false. cbn iota. rewrite !len_cons, len_app, IH.
  change (len (hex4 (byte_val "001"))) with 4. lia.
Qed.

(** The budget's cause is not the worst one: a cause of as many octets that
    JSON has to escape makes the same failure record 5120 octets longer than
    the record FitsNSQ measures. *)
Theorem budget_ignores_escapes h :
  len (marshal (handoff_value (with_cause h (repeated MaxCauseBytes "001")))) =
  len (marshal (handoff_value (with_cause h (repeated MaxCauseBytes "x")))) + 5120.
Proof.
  rewrite !handoff_len. unfold handoff_spec, with_cause.
  cbn [h_Topic h_Channel h_UUID h_TransportMessageID h_Metadata h_Payload h_Attempts h_Timestamp h_Cause total].
  assert (Hc : ∀ s, cost ("cause"%string, false, JStr s) = len (escape "cause") + 6 + len (escape s)).
  { intros s. unfold cost. simpl fst. simpl snd. rewrite vlen_str. lia. }
  rewrite !Hc, escape_control, escape_safe by done. rewrite repeated_len. unfold MaxCauseBytes. lia.
Qed.

Definition ex_failure : FailedHandoff :=
  mkHandoff "orders" "worker" "event-a" "" (Metadata ex_envelope) ex_body 1 0 "boom".

Lemma budget_covers_witness :
  len ex_body <= NSQMaxBytes ∧ ∃ body, EncodeFailedHandoff ex_failure = Ok body ∧ len body <= NSQMaxBytes.
Proof.
  assert (Hf : FitsNSQ ex_envelope "orders" "worker" = true) by (vm_compute; reflexivity).
  refine (budget_covers ex_envelope "orders" "worker" ex_body ex_failure Hf ex_encoded eq_refl eq_refl eq_refl
    eq_refl eq_refl _ _ _ _ _); [vm_compute; discriminate|cbn; lia|cbn; lia|discriminate|vm_compute; discriminate].
Defined.

End budget.
