(* ===== verification/Transaction.v ===== *)
(** * package transaction: frozen plans, references, evidence

    [transaction/plan.go], [evidence.go], [store.go], [receipt.go] and
    [lifecycle.go]: the pure contracts of the transaction protocol.  A Go array
    [[32]byte] is an octet string of length 32. *)

From S2P Require Import Prelude GoStd Message.

Module transaction.

(** ** Plans *)

Definition MaxFence : Z := 9223372036854775807.
Definition MaxBranches : Z := 16.

Record BranchInput : Type := mkBranch {
  b_ID : string; b_PhysicalTopic : string; b_RouteRevision : string;
  b_Message : message.Message; b_Wire : bytes
}.

#[global] Instance BranchInput_eq_dec : EqDecision BranchInput.
Proof. solve_decision. Defined.

Record PlanInput : Type := mkPlanInput {
  p_Owner : string; p_Scope : string; p_OperationID : string; p_IdempotencyKey : string;
  p_InputHash : bytes; p_Branches : list BranchInput
}.

#[global] Instance PlanInput_eq_dec : EqDecision PlanInput.
Proof. solve_decision. Defined.

Record FrozenPlan : Type := mkPlan { plan_input : PlanInput; plan_digest : bytes }.

#[global] Instance FrozenPlan_eq_dec : EqDecision FrozenPlan.
Proof. solve_decision. Defined.

Definition zeroPlan : FrozenPlan := mkPlan (mkPlanInput "" "" "" "" message.zeroHash []) message.zeroHash.

Definition required (values : list string) : bool :=
  forallb (λ v, negb ((v == ""%string) || negb (utf8_valid v))) values.

(** The checks on one branch; [ids] are the branch ids seen before. *)
Definition branch_ok (scope : string) (ids : list string) (b : BranchInput) : bool :=
  negb ((len (b_ID b) >? 128) || (len (b_PhysicalTopic b) >? 255) || (len (b_RouteRevision b) >? 128)) &&
  negb (negb (required [b_ID b; b_PhysicalTopic b; b_RouteRevision b]) ||
        bool_decide (b_ID b ∈ ids) || negb (message.Message_Valid (b_Message b)) ||
        (len (b_Wire b) =? 0) || (message.Scope (message.Message_Input (b_Message b)) != scope)).

Fixpoint branches_ok (scope : string) (ids : list string) (bs : list BranchInput) : bool :=
  match bs with
  | [] => true
  | b :: bs => branch_ok scope ids b && branches_ok scope (b_ID b :: ids) bs
  end.

Definition input_ok (i : PlanInput) : bool :=
  negb (negb (required [p_Owner i; p_Scope i; p_OperationID i; p_IdempotencyKey i]) ||
        (llen (p_Branches i) =? 0) || (llen (p_Branches i) >? MaxBranches)) &&
  negb ((len (p_Owner i) >? 128) || (len (p_Scope i) >? 255) || (len (p_OperationID i) >? 128) ||
        (len (p_IdempotencyKey i) >? 1024)) &&
  branches_ok (p_Scope i) [] (p_Branches i).

Definition branch_fields (b : BranchInput) : list bytes :=
  [b_ID b; message.Fingerprint (b_Message b); b_PhysicalTopic b; b_RouteRevision b; sha256 (b_Wire b)].

(** Everything written to the digest. *)
Definition digest_fields (i : PlanInput) : list bytes :=
  [p_Owner i; p_Scope i; p_OperationID i; p_IdempotencyKey i; p_InputHash i;
   put_uint64 (llen (p_Branches i))] ++ concat (map branch_fields (p_Branches i)).

Definition digest_preimage (i : PlanInput) : bytes :=
  ("rm-tx-plan-draft-v1" +:+ nul) +:+ frames (digest_fields i).

Definition NewPlan (i : PlanInput) : result FrozenPlan :=
  if input_ok i then Ok (mkPlan i (sha256 (digest_preimage i))) else Err ErrInvalidPlan.

Definition plan_Valid (p : FrozenPlan) : bool := p_Owner (plan_input p) != ""%string.
Definition plan_Input (p : FrozenPlan) : PlanInput := plan_input p.
Definition plan_Digest (p : FrozenPlan) : bytes := plan_digest p.

Definition MatchRequest (p : FrozenPlan) (owner scope key : string) (inputHash : bytes) : result () :=
  if negb (plan_Valid p) || (p_Owner (plan_input p) != owner) || (p_Scope (plan_input p) != scope) ||
     (p_IdempotencyKey (plan_input p) != key) then Err ErrRequestIdentity
  else if p_InputHash (plan_input p) != inputHash then Err ErrInputConflict
  else Ok ().

(** ** Evidence *)

Abbreviation State := string (only parsing).
Definition Prepared : State := "prepared".
Definition Committed : State := "committed".
Definition Aborted : State := "aborted".

Abbreviation Decision := string (only parsing).
Definition Unknown : Decision := "unknown".
Definition Commit : Decision := "commit".
Definition Rollback : Decision := "rollback".

Record Reference : Type := mkRef {
  Owner : string; Scope : string; OperationID : string; BranchID : string;
  MessageID : string; LogicalTopic : string; PhysicalTopic : string; RouteRevision : string;
  WriterEpoch : string; PlanDigest : bytes; WireHash : bytes; MessageFingerprint : bytes; Fence : Z
}.

#[global] Instance Reference_eq_dec : EqDecision Reference.
Proof. solve_decision. Defined.

Definition ref_Valid (r : Reference) : bool :=
  (Fence r >? 0) && (Fence r <=? MaxFence) &&
  required [Owner r; Scope r; OperationID r; BranchID r; MessageID r; LogicalTopic r;
            PhysicalTopic r; RouteRevision r; WriterEpoch r].

Definition reference_of (p : FrozenPlan) (fence : Z) (epoch : string) (b : BranchInput) : Reference :=
  let i := plan_input p in
  let m := message.Message_Input (b_Message b) in
  mkRef (p_Owner i) (p_Scope i) (p_OperationID i) (b_ID b) (message.ID m) (message.Destination m)
    (b_PhysicalTopic b) (b_RouteRevision b) epoch (plan_digest p) (sha256 (b_Wire b))
    (message.Fingerprint (b_Message b)) fence.

(** [FrozenPlan.Reference] *)
Definition plan_Reference (p : FrozenPlan) (branchID : string) (fence : Z) (epoch : string)
    : result Reference :=
  if negb (plan_Valid p) || (fence =? 0) || (fence >? MaxFence) || negb (required [epoch])
  then Err ErrInvalidPlan
  else match find (λ b, b_ID b == branchID) (p_Branches (plan_input p)) with
       | Some b => Ok (reference_of p fence epoch b)
       | None => Err ErrInvalidPlan
       end.

Record Evidence : Type := mkEvidence {
  ev_Reference : Reference; ExecutionState : State; BranchState : State
}.

Definition Resolve (ref : Reference) (evidence : option Evidence) : Decision :=
  match evidence with
  | None => Unknown
  | Some e =>
    if negb (ref_Valid ref) || (ev_Reference e != ref) then Unknown
    else if (ExecutionState e == Committed) && (BranchState e == Committed) then Commit
    else if (ExecutionState e == Aborted) && (BranchState e == Aborted) then Rollback
    else Unknown
  end.

Abbreviation HalfOutcome := string (only parsing).
Definition HalfNotAttempted : HalfOutcome := "not_attempted".
Definition HalfPrepared : HalfOutcome := "prepared".
Definition HalfRejected : HalfOutcome := "rejected".
Definition HalfUnknown : HalfOutcome := "unknown".

Abbreviation LocalOutcome := string (only parsing).
Definition LocalNotStarted : LocalOutcome := "not_started".
Definition LocalCommitted : LocalOutcome := "committed".
Definition LocalAborted : LocalOutcome := "aborted".
Definition LocalUnknown : LocalOutcome := "unknown".

Abbreviation FinalOutcome := string (only parsing).
Definition FinalNotAttempted : FinalOutcome := "not_attempted".
Definition FinalCommitConfirmed : FinalOutcome := "commit_confirmed".
Definition FinalRollbackConfirmed : FinalOutcome := "rollback_confirmed".
Definition FinalUnknown : FinalOutcome := "unknown".

Record BranchResult : Type := mkBranchResult {
  br_Reference : Reference; br_Half : HalfOutcome; br_Final : FinalOutcome;
  br_BrokerMessageID : string; br_BrokerTransactionID : string; br_ErrorCode : string
}.
Record Result : Type := mkResult { Local : LocalOutcome; Branches : list BranchResult }.

(** ** Requests and executions *)

Record Request : Type := mkRequest {
  rq_Owner : string; rq_Scope : string; rq_Key : string; rq_InputHash : bytes
}.

Definition RequestFor (p : FrozenPlan) : Request :=
  let i := plan_input p in mkRequest (p_Owner i) (p_Scope i) (p_IdempotencyKey i) (p_InputHash i).
Definition Match (r : Request) (p : FrozenPlan) : result () :=
  MatchRequest p (rq_Owner r) (rq_Scope r) (rq_Key r) (rq_InputHash r).
Definition request_Valid (r : Request) : bool := required [rq_Owner r; rq_Scope r; rq_Key r].

Definition key_preimage (r : Request) : bytes :=
  ("rm-tx-request-v1" +:+ nul) +:+ frames [rq_Owner r; rq_Scope r; rq_Key r].
Definition KeyDigest (r : Request) : bytes := sha256 (key_preimage r).

Record Binding : Type := mkBinding { bn_Owner : string; StoreID : string; bn_WriterEpoch : string }.
Definition binding_Valid (b : Binding) : bool := required [bn_Owner b; StoreID b; bn_WriterEpoch b].

(** [ReserveOptions.Valid]: a lease in nanoseconds. *)
Definition options_Valid (lease : Z) : bool := (lease >=? 1000000) && (lease <=? 86400000000000).

(** [LeaseUntil] counts storage units from the zero time. *)
Record Execution : Type := mkExecution {
  ex_Plan : FrozenPlan; ex_Fence : Z; ex_WriterEpoch : string; ex_Token : bytes; ex_LeaseUntil : Z
}.

Definition execution_Valid (e : Execution) : bool :=
  plan_Valid (ex_Plan e) && (ex_Fence e >? 0) && (ex_Fence e <=? MaxFence) &&
  required [ex_WriterEpoch e] && (ex_Token e != message.zeroHash) && negb (ex_LeaseUntil e =? 0).

Definition zeroRef : Reference :=
  mkRef "" "" "" "" "" "" "" "" "" message.zeroHash message.zeroHash message.zeroHash 0.

(** The error of a branch lookup is ignored, as in the source. *)
Definition References (e : Execution) : list Reference :=
  if negb (plan_Valid (ex_Plan e)) || (ex_Fence e =? 0) || (ex_Fence e >? MaxFence) ||
     negb (required [ex_WriterEpoch e]) then []
  else map (λ b, match plan_Reference (ex_Plan e) (b_ID b) (ex_Fence e) (ex_WriterEpoch e) with
                 | Ok r => r | Err _ => zeroRef end)
           (p_Branches (plan_input (ex_Plan e))).

Record Reservation : Type := mkReservation { rs_Execution : Execution; Acquired : bool; rs_State : State }.

(** [StoreChecker.Check] with the answer of [Store.Evidence]. *)
Definition Check (ref : Reference) (answer : result (option Evidence)) : Decision :=
  if negb (ref_Valid ref) then Unknown
  else match answer with Err _ => Unknown | Ok e => Resolve ref e end.

Definition ClassifyHalf (confirmed rejected : bool) : HalfOutcome :=
  if confirmed && negb rejected then HalfPrepared
  else if rejected && negb confirmed then HalfRejected
  else HalfUnknown.

Definition same_execution (a b : Reference) : bool :=
  negb ((Owner a != Owner b) || (Scope a != Scope b) || (OperationID a != OperationID b) ||
        negb (Fence a =? Fence b) || (WriterEpoch a != WriterEpoch b) || (PlanDigest a != PlanDigest b)).

Fixpoint all_resolve (decision : Decision) (first : Reference) (refs : list Reference)
    (evidence : list (option Evidence)) : bool :=
  match refs, evidence with
  | r :: refs, e :: evidence =>
    same_execution r first && (Resolve r e == decision) && all_resolve decision first refs evidence
  | _, _ => true
  end.

Definition DecideLocal (refs : list Reference) (evidence : list (option Evidence)) : LocalOutcome :=
  match refs, evidence with
  | r0 :: rest, e0 :: evs =>
    if negb (llen refs =? llen evidence) then LocalUnknown
    else
      let decision := Resolve r0 e0 in
      if decision == Unknown then LocalUnknown
      else if negb (all_resolve decision r0 rest evs) then LocalUnknown
      else if decision == Commit then LocalCommitted else LocalAborted
  | _, _ => LocalUnknown
  end.

Definition InitialResult (e : Execution) : Result :=
  mkResult LocalNotStarted
    (map (λ r, mkBranchResult r HalfNotAttempted FinalNotAttempted "" "" "") (References e)).

Definition ValidateAdvance (previous : Execution) (candidate : FrozenPlan)
    (evidence : list (option Evidence)) (replan : bool) : result () :=
  if (ex_Fence previous =? 0) || (ex_Fence previous >=? MaxFence) ||
     negb (plan_Valid (ex_Plan previous)) || negb (plan_Valid candidate)
  then Err ErrInvalidPlan
  else
    try _ <- Match (RequestFor (ex_Plan previous)) candidate;
    if DecideLocal (References previous) evidence != LocalAborted then Err ErrStaleExecution
    else if replan then
      if p_OperationID (plan_input candidate) == p_OperationID (plan_input (ex_Plan previous))
      then Err ErrInvalidPlan else Ok ()
    else if plan_digest candidate != plan_digest (ex_Plan previous)
      then Err ErrInvalidPlan else Ok ().

(** ** Receipts *)

Record HalfReceipt : Type := mkHalf {
  h_Outcome : HalfOutcome; h_BrokerMessageID : string; h_BrokerTransactionID : string; h_ErrorCode : string
}.

Definition half_Valid (h : HalfReceipt) : bool :=
  if (len (h_BrokerMessageID h) >? 512) || (len (h_BrokerTransactionID h) >? 4096) ||
     (len (h_ErrorCode h) >? 128) || negb (utf8_valid (h_ErrorCode h)) then false
  else if h_Outcome h == HalfPrepared then required [h_BrokerMessageID h; h_BrokerTransactionID h]
  else (h_Outcome h == HalfUnknown) || (h_Outcome h == HalfRejected).

Definition RecoveryFinalState (f : FinalOutcome) : result State :=
  if f == FinalCommitConfirmed then Ok Committed
  else if f == FinalRollbackConfirmed then Ok Aborted
  else Err ErrInvalidPlan.

Definition MatchExecution (e : Execution) (ref : Reference) : bool :=
  execution_Valid e && bool_decide (ref ∈ References e).

Definition ValidFinal (f : FinalOutcome) (code : string) : bool :=
  (len code <=? 128) && utf8_valid code &&
  ((f == FinalCommitConfirmed) || (f == FinalRollbackConfirmed) || (f == FinalUnknown)).

(** ** Limits *)

Record Limits : Type := mkLimits {
  Sends : Z; MaxBranchesPerSend : Z; CheckWorkers : Z; CheckQueue : Z; ReconcileBatch : Z;
  CheckTimeout : Z; RPCTimeout : Z; LeaseTime : Z; ReconcileInterval : Z
}.

Definition second : Z := 1000000000.
Definition DefaultLimits : Limits :=
  mkLimits 8 16 4 32 100 (2 * second) (5 * second) (60 * second) (5 * second).

Definition limits_Valid (l : Limits) : bool :=
  (Sends l >? 0) && (Sends l <=? 1024) && (MaxBranchesPerSend l >? 0) && (MaxBranchesPerSend l <=? MaxBranches) &&
  (CheckWorkers l >? 0) && (CheckWorkers l <=? 128) && (CheckQueue l >=? 0) && (CheckQueue l <=? 10000) &&
  (ReconcileBatch l >? 0) && (ReconcileBatch l <=? 1000) && (CheckTimeout l >? 0) && (RPCTimeout l >? 0) &&
  (LeaseTime l >? RPCTimeout l) && (LeaseTime l >=? 1000000) && (LeaseTime l <=? 86400000000000) &&
  (ReconcileInterval l >? 0).

(** ** Facts about plans *)

(** A message built by its constructor; Go's unexported fields admit no other. *)
Definition built (m : message.Message) : Prop := message.New (message.Message_Input m) = Ok m.

Definition hash32 (h : bytes) : Prop := String.length h = 32%nat.

(** A plan as [NewPlan] builds it. *)
Definition plan_built (p : FrozenPlan) : Prop :=
  NewPlan (plan_input p) = Ok p ∧ hash32 (p_InputHash (plan_input p)) ∧
  Forall (λ b, built (b_Message b) ∧ addressable (b_Wire b)) (p_Branches (plan_input p)).

Lemma NewPlan_spec i p :
  NewPlan i = Ok p ↔ input_ok i = true ∧ p = mkPlan i (sha256 (digest_preimage i)).
Proof. unfold NewPlan. destruct (input_ok i); naive_solver. Qed.

Lemma required_Forall l :
  required l = true ↔ Forall (λ v, v ≠ ""%string ∧ utf8_valid v = true) l.
Proof.
  unfold required. induction l as [|v l IH]; simpl; [by split|].
  rewrite andb_true_iff, IH, Forall_cons. apply and_iff_compat_r. split.
  - intros H. boolp. done.
  - intros [? ->]. by rewrite bool_decide_eq_false_2.
Qed.

Definition branch_wf (scope : string) (b : BranchInput) : Prop :=
  len (b_ID b) <= 128 ∧ len (b_PhysicalTopic b) <= 255 ∧ len (b_RouteRevision b) <= 128 ∧
  required [b_ID b; b_PhysicalTopic b; b_RouteRevision b] = true ∧
  message.Message_Valid (b_Message b) = true ∧ len (b_Wire b) ≠ 0 ∧
  message.Scope (message.Message_Input (b_Message b)) = scope.

Lemma branches_ok_spec scope ids bs :
  branches_ok scope ids bs = true ↔
  Forall (branch_wf scope) bs ∧ NoDup (map b_ID bs) ∧ (∀ b, b ∈ bs → b_ID b ∉ ids).
Proof.
  revert ids. induction bs as [|b bs IH]; intros ids; simpl.
  { split; [|done]. intros _. split; [constructor|]. split; [constructor|]. by intros b ?%not_elem_of_nil. }
  rewrite andb_true_iff, IH, Forall_cons, NoDup_cons. unfold branch_ok, branch_wf. split.
  - intros (Hb&Hw&Hnd&Hids). boolp. split_and!; try done.
    + intros (b'&He&Hin)%list_elem_of_fmap. apply (Hids b'); [done|]. rewrite He. by left.
    + intros b' [->|Hin]%elem_of_cons; [done|]. specialize (Hids b' Hin). set_solver.
  - intros (((?&?&?&?&?&?&?)&Hw)&[Hni Hnd]&Hids). split_and!.
    + rewrite !andb_true_iff, !negb_true_iff, !orb_false_iff. split_and!; try (apply Z.gtb_ltb; lia); try lia.
      all: rewrite ?negb_false_iff; try done.
      * apply bool_decide_eq_false_2. apply Hids. by left.
      * by rewrite bool_decide_eq_true_2.
    + done.
    + done.
    + intros b' Hb'. rewrite not_elem_of_cons. split.
      * intros He. apply Hni. rewrite <-He. by apply list_elem_of_fmap_2.
      * apply Hids. by right.
Qed.

Lemma input_ok_spec i :
  input_ok i = true ↔
  required [p_Owner i; p_Scope i; p_OperationID i; p_IdempotencyKey i] = true ∧
  0 < llen (p_Branches i) <= MaxBranches ∧
  len (p_Owner i) <= 128 ∧ len (p_Scope i) <= 255 ∧ len (p_OperationID i) <= 128 ∧
  len (p_IdempotencyKey i) <= 1024 ∧
  Forall (branch_wf (p_Scope i)) (p_Branches i) ∧ NoDup (map b_ID (p_Branches i)).
Proof.
  unfold input_ok. rewrite !andb_true_iff, branches_ok_spec. split.
  - intros [[? ?] (?&?&_)]. boolp. assert (0 <= llen (p_Branches i)) by (unfold llen; lia).
    split_and!; try done; lia.
  - intros (Hr&Hb&?&?&?&?&?&?). split_and!; try done.
    + rewrite Hr. simpl. rewrite (proj2 (Z.eqb_neq _ 0)) by lia. simpl. rewrite Z.gtb_ltb.
      apply negb_true_iff, Z.ltb_ge. lia.
    + rewrite negb_true_iff, !orb_false_iff, !Z.gtb_ltb, !Z.ltb_ge. lia.
    + by intros b _ ?%not_elem_of_nil.
Qed.

Lemma NewPlan_Valid i p : NewPlan i = Ok p → plan_Valid p = true.
Proof.
  intros [(Hr&_)%input_ok_spec ->]%NewPlan_spec. apply required_Forall, Forall_cons in Hr as [[? _] _].
  unfold plan_Valid. simpl. by rewrite bool_decide_eq_false_2.
Qed.

Lemma find_distinct (bs : list BranchInput) b :
  NoDup (map b_ID bs) → b ∈ bs → find (λ x, b_ID x == b_ID b) bs = Some b.
Proof.
  induction bs as [|x bs IH]; intros Hnd Hin; [by apply not_elem_of_nil in Hin|].
  apply NoDup_cons in Hnd as [Hni Hnd]. simpl.
  destruct (decide (b_ID x = b_ID b)) as [He|He].
  - rewrite bool_decide_eq_true_2 by done. apply elem_of_cons in Hin as [->|Hin]; [done|].
    destruct Hni. rewrite He. by apply list_elem_of_fmap_2.
  - rewrite bool_decide_eq_false_2 by done. apply elem_of_cons in Hin as [->|Hin]; [done|]. auto.
Qed.

(** The references of an execution are those of its branches, in order. *)
Lemma References_branches e :
  plan_built (ex_Plan e) → 0 < ex_Fence e <= MaxFence → required [ex_WriterEpoch e] = true →
  References e = map (reference_of (ex_Plan e) (ex_Fence e) (ex_WriterEpoch e))
                     (p_Branches (plan_input (ex_Plan e))).
Proof.
  intros (Hp&_&_) Hf He. unfold References.
  assert (Hv : plan_Valid (ex_Plan e) = true) by by eapply NewPlan_Valid.
  assert (Hg : negb (plan_Valid (ex_Plan e)) || (ex_Fence e =? 0) || (ex_Fence e >? MaxFence) ||
     negb (required [ex_WriterEpoch e]) = false).
  { rewrite Hv, He, (proj2 (Z.eqb_neq _ 0)) by lia. simpl. rewrite Z.gtb_ltb, orb_false_r.
    apply Z.ltb_ge. lia. }
  rewrite Hg. apply map_ext_in. intros b Hb%list_elem_of_In.
  unfold plan_Reference. rewrite Hg. apply NewPlan_spec in Hp as [(_&_&_&_&_&_&_&Hnd)%input_ok_spec _].
  by rewrite find_distinct.
Qed.

Lemma built_fields m : built m → message.well_formed (message.Message_Input m) = true.
Proof. unfold built. by intros [? _]%message.New_spec. Qed.

Lemma field_required v n : message.field_ok v n = true → v ≠ ""%string ∧ utf8_valid v = true.
Proof. by intros (_&?&?)%message.field_ok_len. Qed.

Lemma built_required m :
  built m → required [message.ID (message.Message_Input m); message.Destination (message.Message_Input m)] = true.
Proof.
  intros Hw%built_fields. unfold message.well_formed in Hw. boolp. cbn in H. boolp.
  apply required_Forall. repeat constructor; by eapply field_required.
Qed.

Lemma References_guard e :
  0 <= ex_Fence e →
  References e = [] ∨ (required [ex_WriterEpoch e] = true ∧ 0 < ex_Fence e <= MaxFence).
Proof.
  intros Hf. unfold References. destruct (_ || _) eqn:E; [by left|]. boolp. right. split; [done|lia].
Qed.

(** Every reference of an execution is valid. *)
Lemma references_valid e :
  plan_built (ex_Plan e) → 0 <= ex_Fence e →
  Forall (λ r, ref_Valid r = true ∧ hash32 (PlanDigest r) ∧ hash32 (WireHash r) ∧
               hash32 (MessageFingerprint r)) (References e).
Proof.
  intros Hp Hnn. destruct (References_guard e Hnn) as [->|[Hep Hf]]; [constructor|].
  rewrite References_branches by done. pose proof Hp as (Hnew&_&Hb).
  pose proof Hnew as [(Hr&_&_&_&_&_&Hwf&_)%input_ok_spec Heq]%NewPlan_spec.
  apply Forall_map, Forall_forall. intros b Hin. rewrite Forall_forall in Hb, Hwf.
  destruct (Hb b Hin) as [Hbm _]. destruct (Hwf b Hin) as (_&_&_&Hreq&_).
  pose proof (built_required _ Hbm) as Hm.
  unfold hash32. split_and!.
  - unfold ref_Valid. rewrite !andb_true_iff. split_and!; [apply Z.gtb_lt; simpl; lia|apply Z.leb_le; simpl; lia|].
    clear -Hr Hreq Hm Hep. unfold required in *. cbn [forallb] in *. rewrite !andb_true_iff in *.
    simpl. tauto.
  - apply (f_equal plan_digest) in Heq. simpl in Heq. simpl. rewrite Heq. apply sha256_length.
  - apply sha256_length.
  - pose proof (message.fingerprint_length _ _ Hbm). done.
Qed.

Lemma references_distinct e :
  plan_built (ex_Plan e) → execution_Valid e = true → NoDup (map BranchID (References e)).
Proof.
  intros Hp He. unfold execution_Valid in He. boolp.
  rewrite References_branches by (done || lia). rewrite map_map. simpl.
  by destruct Hp as ([(_&_&_&_&_&_&_&Hnd)%input_ok_spec _]%NewPlan_spec&_).
Qed.

(** ** Correctness *)

(** What a plan's digest commits to: the request, and of every branch its id,
    message fingerprint, topic, revision and wire hash. *)
Definition plan_summary (i : PlanInput) : list bytes * list (list bytes) :=
  ([p_Owner i; p_Scope i; p_OperationID i; p_IdempotencyKey i; p_InputHash i],
   map branch_fields (p_Branches i)).

Lemma digest_fields_addressable i p :
  NewPlan i = Ok p → hash32 (p_InputHash i) → Forall (λ b, built (b_Message b)) (p_Branches i) →
  Forall addressable (digest_fields i).
Proof.
  intros [(_&_&?&?&?&?&Hwf&_)%input_ok_spec _]%NewPlan_spec Hh Hb.
  assert (Hs : ∀ m, addressable (sha256 m)) by (intros; unfold addressable, len; rewrite sha256_length; lia).
  unfold digest_fields. apply Forall_app. split.
  - unfold hash32 in Hh. rewrite !Forall_cons. unfold addressable.
    split_and!; try lia; try constructor; unfold len; rewrite ?Hh, ?put_uint64_length; lia.
  - apply Forall_concat, Forall_map, Forall_forall. intros b Hin.
    rewrite Forall_forall in Hwf, Hb. destruct (Hwf b Hin) as (?&?&?&_).
    repeat constructor; try (unfold addressable; lia); [|done].
    unfold addressable, len. rewrite (message.fingerprint_length _ _ (Hb b Hin)). lia.
Qed.

Lemma concat_branch_fields bs bs' :
  concat (map branch_fields bs) = concat (map branch_fields bs') →
  map branch_fields bs = map branch_fields bs'.
Proof.
  revert bs'. induction bs as [|b bs IH]; intros [|b' bs'] H; try done.
  simpl in H. injection H as H1 H2 H3 H4 H5 H6. simpl. rewrite (IH _ H6).
  unfold branch_fields. congruence.
Qed.

(** The digest of a frozen plan commits to everything that was frozen: two
    accepted plans hash the same octets exactly when they agree on owner,
    scope, operation, key, input hash and, branch by branch and in order, on
    id, message fingerprint, topic, revision and wire hash. *)
Theorem plan_digest_commits i j p q :
  NewPlan i = Ok p → NewPlan j = Ok q → hash32 (p_InputHash i) → hash32 (p_InputHash j) →
  Forall (λ b, built (b_Message b)) (p_Branches i) → Forall (λ b, built (b_Message b)) (p_Branches j) →
  (digest_preimage i = digest_preimage j ↔ plan_summary i = plan_summary j) ∧
  (plan_digest p = plan_digest q → plan_summary i ≠ plan_summary j →
   collide (digest_preimage i) (digest_preimage j)).
Proof.
  intros Hp Hq Hi Hj Bi Bj.
  assert (Hiff : digest_preimage i = digest_preimage j ↔ plan_summary i = plan_summary j).
  { unfold digest_preimage, plan_summary. split.
    - intros [_ H]%string_app_inj_len; [|done].
      apply frames_inj in H; [|by eapply digest_fields_addressable..].
      apply app_inj_1 in H as [Hh Hb]; [|done]. apply (f_equal (take 5)) in Hh. cbn in Hh.
      rewrite Hh. by rewrite (concat_branch_fields _ _ Hb).
    - intros [= H1 H2 H3 H4 H5 H6]. unfold digest_fields. rewrite H1, H2, H3, H4, H5, H6.
      assert (llen (p_Branches i) = llen (p_Branches j)) as ->; [|done].
      unfold llen. f_equal. apply (f_equal length) in H6. by rewrite !length_map in H6. }
  split; [done|]. intros He Hne.
  apply NewPlan_spec in Hp as [_ ->], Hq as [_ ->]. simpl in He.
  apply sha256_inj in He as [He|]; [|done]. by apply Hiff in He.
Qed.

(** The evidence proves state [st] of reference [r]. *)
Definition proves (st : State) (r : Reference) (e : option Evidence) : Prop :=
  ref_Valid r = true ∧ e = Some (mkEvidence r st st).

Lemma Resolve_Commit r e : Resolve r e = Commit ↔ proves Committed r e.
Proof.
  unfold proves. split.
  - unfold Resolve. destruct e as [[er es bs]|]; simpl; [|discriminate].
    repeat case_match; try discriminate. intros _. boolp. by subst.
  - intros [Hv ->]. unfold Resolve. rewrite Hv. simpl. by rewrite bool_decide_eq_true_2.
Qed.

Lemma Resolve_Rollback r e : Resolve r e = Rollback ↔ proves Aborted r e.
Proof.
  unfold proves. split.
  - unfold Resolve. destruct e as [[er es bs]|]; simpl; [|discriminate].
    repeat case_match; try discriminate. intros _. boolp. by subst.
  - intros [Hv ->]. unfold Resolve. rewrite Hv. simpl. by rewrite bool_decide_eq_true_2.
Qed.

Lemma Resolve_cases r e : Resolve r e = Commit ∨ Resolve r e = Rollback ∨ Resolve r e = Unknown.
Proof. unfold Resolve. repeat case_match; auto. Qed.


Lemma all_resolve_spec d r0 refs evs :
  length refs = length evs →
  all_resolve d r0 refs evs = true ↔
  Forall2 (λ r e, same_execution r r0 = true ∧ Resolve r e = d) refs evs.
Proof.
  revert evs. induction refs as [|r refs IH]; intros [|e evs] Hl; try done; simpl.
  rewrite !andb_true_iff, bool_decide_eq_true, IH by (simpl in Hl; lia).
  split; [intros [[? ?] ?]; by constructor|]. by inversion 1; naive_solver.
Qed.

(** The local outcome is decided by evidence alone: it is Committed (or
    Aborted) exactly when there is a branch, every branch has evidence, all
    belong to one execution of one plan, and each of them proves, for its exact
    reference, that both the execution and the branch are committed (or
    aborted); anything missing, in progress or contradictory is Unknown. *)
Theorem local_outcome_decided refs evs :
  (DecideLocal refs evs = LocalCommitted ↔
   refs ≠ [] ∧ Forall2 (λ r e, same_execution r (hd zeroRef refs) = true ∧ proves Committed r e) refs evs) ∧
  (DecideLocal refs evs = LocalAborted ↔
   refs ≠ [] ∧ Forall2 (λ r e, same_execution r (hd zeroRef refs) = true ∧ proves Aborted r e) refs evs) ∧
  (DecideLocal refs evs = LocalCommitted ∨ DecideLocal refs evs = LocalAborted ∨
   DecideLocal refs evs = LocalUnknown).
Proof.
  assert (Hrefl : ∀ r, same_execution r r = true).
  { intros r. unfold same_execution. by rewrite !bool_decide_eq_true_2, Z.eqb_refl. }
  destruct refs as [|r0 rest]; cbn [DecideLocal hd];
    [split; [|split]; [split; [discriminate|by intros [? _]]..|auto]|].
  destruct evs as [|e0 evs].
  { split; [|split]; [split; [discriminate|intros [_ H]; inversion H]..|auto]. }
  destruct (Z.eqb_spec (llen (r0 :: rest)) (llen (e0 :: evs))) as [Hl|Hl]; simpl.
  2: { split; [|split]; [split; [discriminate|intros [_ H%Forall2_length]; unfold llen in Hl; congruence]..|auto]. }
  assert (Hlen : length rest = length evs) by (unfold llen in Hl; simpl in Hl; lia).
  assert (Hall : ∀ st d, (∀ r e, Resolve r e = d ↔ proves st r e) → Resolve r0 e0 = d →
    (all_resolve d r0 rest evs = true ↔
     Forall2 (λ r e, same_execution r r0 = true ∧ proves st r e) (r0 :: rest) (e0 :: evs))).
  { intros st d Hd H0. rewrite all_resolve_spec by done. rewrite Forall2_cons. split.
    - intros H. split; [by rewrite <-Hd|]. eapply Forall2_impl; [exact H|]. by intros r e [? ?%Hd].
    - intros [_ H]. eapply Forall2_impl; [exact H|]. by intros r e [? ?%Hd]. }
  destruct (Resolve_cases r0 e0) as [H0|[H0|H0]]; rewrite H0; simpl.
  - pose proof (Hall Committed Commit Resolve_Commit H0) as Hc.
    destruct (all_resolve Commit r0 rest evs); simpl.
    + split; [|split]; [by split; [intros _; split; [done|apply Hc]|]| |by left].
      split; [discriminate|]. intros [_ [[_ Ha] _]%Forall2_cons].
      apply Resolve_Rollback in Ha. rewrite H0 in Ha. discriminate.
    + split; [|split]; [split; [discriminate|intros [_ ?%Hc]; discriminate]| |by right; right].
      split; [discriminate|]. intros [_ [[_ Ha] _]%Forall2_cons].
      apply Resolve_Rollback in Ha. rewrite H0 in Ha. discriminate.
  - pose proof (Hall Aborted Rollback Resolve_Rollback H0) as Hc.
    destruct (all_resolve Rollback r0 rest evs); simpl.
    + split; [|split]; [|by split; [intros _; split; [done|apply Hc]|]|by right; left].
      split; [discriminate|]. intros [_ [[_ Ha] _]%Forall2_cons].
      apply Resolve_Commit in Ha. rewrite H0 in Ha. discriminate.
    + split; [|split]; [|split; [discriminate|intros [_ ?%Hc]; discriminate]|by right; right].
      split; [discriminate|]. intros [_ [[_ Ha] _]%Forall2_cons].
      apply Resolve_Commit in Ha. rewrite H0 in Ha. discriminate.
  - split; [|split]; [| |by right; right]; (split; [discriminate|]); intros [_ [[_ Ha] _]%Forall2_cons].
    + apply Resolve_Commit in Ha. rewrite H0 in Ha. discriminate.
    + apply Resolve_Rollback in Ha. rewrite H0 in Ha. discriminate.
Qed.

End transaction.
