(* ===== verification/TxCodec.v ===== *)
(** * package transaction: stored representation of plans and references

    [transaction/codec.go] and [transaction/reference_codec.go], on the JSON
    model of [Json].  A member repeated within one object is assigned again, as
    [encoding/json] does; of a repeated [branches] member the last one counts. *)

From S2P Require Import Prelude GoStd Message Json Transaction.

Module codec.
Import transaction json.

Definition CodecVersion : Z := 1.
Definition MaxPlanBytes : Z := 8388608.

(** ** Stored structs *)

Record storedMessage : Type := mkSM {
  sm_Producer : string; sm_ID : string; sm_Destination : string; sm_EventType : string;
  sm_SchemaVersion : string; sm_Scope : string; sm_ContentType : string; sm_OccurredAt : string;
  sm_Payload : bytes
}.

Record storedBranch : Type := mkSB {
  sb_ID : string; sb_PhysicalTopic : string; sb_Revision : string; sb_Message : storedMessage;
  sb_Wire : bytes
}.

Record storedPlan : Type := mkSP {
  sp_Version : Z; sp_Owner : string; sp_Scope : string; sp_Operation : string; sp_Key : string;
  sp_InputHash : string; sp_Digest : string; sp_Branches : list storedBranch
}.

Definition zeroSM : storedMessage := mkSM "" "" "" "" "" "" "" "" "".
Definition zeroSB : storedBranch := mkSB "" "" "" zeroSM "".
Definition zeroSP : storedPlan := mkSP 0 "" "" "" "" "" "" [].

Definition message_names : list string :=
  ["producer"; "message_id"; "destination"; "event_type"; "schema_version"; "scope"; "content_type";
   "occurred_at"; "payload"]%string.
Definition branch_names : list string :=
  ["branch_id"; "physical_topic"; "route_revision"; "message"; "wire"]%string.
Definition plan_names : list string :=
  ["version"; "owner"; "scope"; "operation_id"; "idempotency_key"; "input_hash"; "plan_digest"; "branches"]%string.

(** [json.Marshal] of the stored structs: members in field order. *)
Definition message_value (m : storedMessage) : value :=
  JObj (zip message_names
    [JStr (sm_Producer m); JStr (sm_ID m); JStr (sm_Destination m); JStr (sm_EventType m);
     JStr (sm_SchemaVersion m); JStr (sm_Scope m); JStr (sm_ContentType m); JStr (sm_OccurredAt m);
     of_bytes (sm_Payload m)]).

Definition branch_value (b : storedBranch) : value :=
  JObj (zip branch_names
    [JStr (sb_ID b); JStr (sb_PhysicalTopic b); JStr (sb_Revision b); message_value (sb_Message b);
     of_bytes (sb_Wire b)]).

Definition plan_value (p : storedPlan) : value :=
  JObj (zip plan_names
    [JNum (FormatUint (sp_Version p)); JStr (sp_Owner p); JStr (sp_Scope p); JStr (sp_Operation p);
     JStr (sp_Key p); JStr (sp_InputHash p); JStr (sp_Digest p);
     JArr (map branch_value (sp_Branches p))]).

(** [Decode] into the structs, unknown members refused. *)
Definition set_message (acc : storedMessage) (v : value) : result storedMessage :=
  match v with
  | JNull => Ok acc
  | JObj ms =>
    try l <- assign true message_names ms;
    try a <- fold_field "producer" set_string l (sm_Producer acc);
    try b <- fold_field "message_id" set_string l (sm_ID acc);
    try c <- fold_field "destination" set_string l (sm_Destination acc);
    try d <- fold_field "event_type" set_string l (sm_EventType acc);
    try e <- fold_field "schema_version" set_string l (sm_SchemaVersion acc);
    try f <- fold_field "scope" set_string l (sm_Scope acc);
    try g <- fold_field "content_type" set_string l (sm_ContentType acc);
    try h <- fold_field "occurred_at" set_string l (sm_OccurredAt acc);
    try i <- fold_field "payload" set_bytes l (sm_Payload acc);
    Ok (mkSM a b c d e f g h i)
  | _ => Err type_error
  end.

Definition set_branch (acc : storedBranch) (v : value) : result storedBranch :=
  match v with
  | JNull => Ok acc
  | JObj ms =>
    try l <- assign true branch_names ms;
    try a <- fold_field "branch_id" set_string l (sb_ID acc);
    try b <- fold_field "physical_topic" set_string l (sb_PhysicalTopic acc);
    try c <- fold_field "route_revision" set_string l (sb_Revision acc);
    try d <- fold_field "message" set_message l (sb_Message acc);
    try e <- fold_field "wire" set_bytes l (sb_Wire acc);
    Ok (mkSB a b c d e)
  | _ => Err type_error
  end.

Definition set_branches (acc : list storedBranch) (v : value) : result (list storedBranch) :=
  match v with
  | JNull => Ok []
  | JArr l => rmap_list (set_branch zeroSB) l
  | _ => Err type_error
  end.

Definition set_plan (acc : storedPlan) (v : value) : result storedPlan :=
  match v with
  | JNull => Ok acc
  | JObj ms =>
    try l <- assign true plan_names ms;
    try a <- fold_field "version" set_int l (sp_Version acc);
    try b <- fold_field "owner" set_string l (sp_Owner acc);
    try c <- fold_field "scope" set_string l (sp_Scope acc);
    try d <- fold_field "operation_id" set_string l (sp_Operation acc);
    try e <- fold_field "idempotency_key" set_string l (sp_Key acc);
    try f <- fold_field "input_hash" set_string l (sp_InputHash acc);
    try g <- fold_field "plan_digest" set_string l (sp_Digest acc);
    try h <- fold_field "branches" set_branches l (sp_Branches acc);
    Ok (mkSP a b c d e f g h)
  | _ => Err type_error
  end.

(** ** Plans *)

Definition store_message (m : message.Input) : storedMessage :=
  mkSM (message.Producer m) (message.ID m) (message.Destination m) (message.EventType m)
    (message.SchemaVersion m) (message.Scope m) (message.ContentType m) (message.OccurredAt m)
    (message.Payload m).

Definition store_branch (b : BranchInput) : storedBranch :=
  mkSB (b_ID b) (b_PhysicalTopic b) (b_RouteRevision b)
    (store_message (message.Message_Input (b_Message b))) (b_Wire b).

Definition store_plan (p : FrozenPlan) : storedPlan :=
  let i := plan_Input p in
  mkSP CodecVersion (p_Owner i) (p_Scope i) (p_OperationID i) (p_IdempotencyKey i)
    (hex_encode (p_InputHash i)) (hex_encode (plan_Digest p)) (map store_branch (p_Branches i)).

Definition EncodePlan (p : FrozenPlan) : result bytes :=
  if negb (plan_Valid p) then Err ErrInvalidPlan
  else
    let data := marshal (plan_value (store_plan p)) in
    if len data >? MaxPlanBytes then Err ErrInvalidPlan else Ok data.

Definition load_message (m : storedMessage) : result message.Message :=
  message.New (message.mkInput (sm_Producer m) (sm_ID m) (sm_Destination m) (sm_EventType m)
    (sm_SchemaVersion m) (sm_Scope m) (sm_ContentType m) (sm_OccurredAt m) (sm_Payload m)).

Definition load_branch (b : storedBranch) : result BranchInput :=
  try m <- load_message (sb_Message b);
  Ok (mkBranch (sb_ID b) (sb_PhysicalTopic b) (sb_Revision b) m (sb_Wire b)).

(** [hex.DecodeString] of a 32-octet hash. *)
Definition load_hash (s : string) : result bytes :=
  match hex_decode s with
  | Some h => if len h =? 32 then Ok h else Err ErrInvalidPlan
  | None => Err ErrInvalidPlan
  end.

(** The text holds one value and nothing else; a truncated or ill-formed value
    and trailing data are different errors in the source, both refusals. *)
Definition decode_value (data : bytes) : result value :=
  match parse data with Some v => Ok v | None => Err syntax_error end.

Definition DecodePlan (data : bytes) : result FrozenPlan :=
  if (len data =? 0) || (len data >? MaxPlanBytes) then Err ErrInvalidPlan
  else
    try v <- decode_value data;
    try s <- set_plan zeroSP v;
    if negb (sp_Version s =? CodecVersion) then Err ErrInvalidPlan
    else
      try h <- load_hash (sp_InputHash s);
      try bs <- rmap_list load_branch (sp_Branches s);
      try p <- NewPlan (mkPlanInput (sp_Owner s) (sp_Scope s) (sp_Operation s) (sp_Key s) h bs);
      if sp_Digest s != hex_encode (plan_Digest p) then Err ErrInvalidPlan else Ok p.

(** ** References *)

Definition reference_names : list string :=
  ["owner"; "scope"; "operation_id"; "branch_id"; "message_id"; "logical_topic"; "physical_topic";
   "route_revision"; "writer_epoch"; "plan_digest"; "wire_hash"; "message_fingerprint"; "fence"]%string.

Record storedReference : Type := mkSR {
  sr_Owner : string; sr_Scope : string; sr_Operation : string; sr_Branch : string; sr_Message : string;
  sr_Logical : string; sr_Physical : string; sr_Revision : string; sr_Epoch : string;
  sr_Plan : string; sr_Wire : string; sr_Fingerprint : string; sr_Fence : Z
}.
Definition zeroSR : storedReference := mkSR "" "" "" "" "" "" "" "" "" "" "" "" 0.

Definition reference_value (s : storedReference) : value :=
  JObj (zip reference_names
    [JStr (sr_Owner s); JStr (sr_Scope s); JStr (sr_Operation s); JStr (sr_Branch s); JStr (sr_Message s);
     JStr (sr_Logical s); JStr (sr_Physical s); JStr (sr_Revision s); JStr (sr_Epoch s);
     JStr (sr_Plan s); JStr (sr_Wire s); JStr (sr_Fingerprint s); JNum (FormatUint (sr_Fence s))]).

Definition set_reference (acc : storedReference) (v : value) : result storedReference :=
  match v with
  | JNull => Ok acc
  | JObj ms =>
    try l <- assign true reference_names ms;
    try a <- fold_field "owner" set_string l (sr_Owner acc);
    try b <- fold_field "scope" set_string l (sr_Scope acc);
    try c <- fold_field "operation_id" set_string l (sr_Operation acc);
    try d <- fold_field "branch_id" set_string l (sr_Branch acc);
    try e <- fold_field "message_id" set_string l (sr_Message acc);
    try f <- fold_field "logical_topic" set_string l (sr_Logical acc);
    try g <- fold_field "physical_topic" set_string l (sr_Physical acc);
    try h <- fold_field "route_revision" set_string l (sr_Revision acc);
    try i <- fold_field "writer_epoch" set_string l (sr_Epoch acc);
    try j <- fold_field "plan_digest" set_string l (sr_Plan acc);
    try k <- fold_field "wire_hash" set_string l (sr_Wire acc);
    try m <- fold_field "message_fingerprint" set_string l (sr_Fingerprint acc);
    try n <- fold_field "fence" set_uint l (sr_Fence acc);
    Ok (mkSR a b c d e f g h i j k m n)
  | _ => Err type_error
  end.

Definition store_reference (r : Reference) : storedReference :=
  mkSR (Owner r) (Scope r) (OperationID r) (BranchID r) (MessageID r) (LogicalTopic r) (PhysicalTopic r)
    (RouteRevision r) (WriterEpoch r) (hex_encode (PlanDigest r)) (hex_encode (WireHash r))
    (hex_encode (MessageFingerprint r)) (Fence r).

Definition EncodeReference (r : Reference) : result bytes :=
  if negb (ref_Valid r) then Err ErrInvalidPlan
  else
    let data := marshal (reference_value (store_reference r)) in
    if len data >? 8192 then Err ErrInvalidPlan else Ok data.

Definition DecodeReference (data : bytes) : result Reference :=
  if (len data =? 0) || (len data >? 8192) then Err ErrInvalidPlan
  else
    try v <- decode_value data;
    try s <- set_reference zeroSR v;
    try p <- load_hash (sr_Plan s);
    try w <- load_hash (sr_Wire s);
    try f <- load_hash (sr_Fingerprint s);
    let r := mkRef (sr_Owner s) (sr_Scope s) (sr_Operation s) (sr_Branch s) (sr_Message s) (sr_Logical s)
               (sr_Physical s) (sr_Revision s) (sr_Epoch s) p w f (sr_Fence s) in
    if negb (ref_Valid r) then Err ErrInvalidPlan else Ok r.

(** ** Storage keys *)

Definition execution_preimage (owner operation epoch : string) (fence : Z) : bytes :=
  ("rm-tx-execution-v1" +:+ nul) +:+ frames [owner; operation; epoch; put_uint64 fence].
Definition ExecutionKey (owner operation epoch : string) (fence : Z) : bytes :=
  sha256 (execution_preimage owner operation epoch fence).
Definition BranchKey (id : string) : bytes := sha256 id.

(** ** Round trips *)

Lemma marshal_nonempty l : (len (marshal (JObj l)) =? 0) = false.
Proof. unfold marshal. rewrite print_to_obj. unfold len. simpl. lia. Qed.

Lemma message_names_ok : NoDup message_names ∧ Forall (λ k, utf8_valid k = true) message_names.
Proof. split; [apply (bool_decide_unpack _); vm_compute; exact I|repeat constructor]. Qed.
Lemma branch_names_ok : NoDup branch_names ∧ Forall (λ k, utf8_valid k = true) branch_names.
Proof. split; [apply (bool_decide_unpack _); vm_compute; exact I|repeat constructor]. Qed.
Lemma plan_names_ok : NoDup plan_names ∧ Forall (λ k, utf8_valid k = true) plan_names.
Proof. split; [apply (bool_decide_unpack _); vm_compute; exact I|repeat constructor]. Qed.
Lemma reference_names_ok : NoDup reference_names ∧ Forall (λ k, utf8_valid k = true) reference_names.
Proof. split; [apply (bool_decide_unpack _); vm_compute; exact I|repeat constructor]. Qed.

(** Read field number [i] of a struct written in order. *)
Ltac read_field names i :=
  erewrite (fold_field_zip i); [|apply names|reflexivity|reflexivity]; cbn [set_string rbind].

Lemma set_message_value m : set_message zeroSM (message_value m) = Ok m.
Proof.
  unfold message_value, set_message. rewrite assign_zip by done. cbn [rbind].
  read_field message_names_ok 0%nat. read_field message_names_ok 1%nat.
  read_field message_names_ok 2%nat. read_field message_names_ok 3%nat.
  read_field message_names_ok 4%nat. read_field message_names_ok 5%nat.
  read_field message_names_ok 6%nat. read_field message_names_ok 7%nat.
  read_field message_names_ok 8%nat. unfold of_bytes, set_bytes. rewrite b64_decode_encode.
  by destruct m.
Qed.

Lemma set_branch_value b : set_branch zeroSB (branch_value b) = Ok b.
Proof.
  unfold branch_value, set_branch. rewrite assign_zip by done. cbn [rbind].
  read_field branch_names_ok 0%nat. read_field branch_names_ok 1%nat.
  read_field branch_names_ok 2%nat. read_field branch_names_ok 3%nat.
  rewrite set_message_value. cbn [rbind]. read_field branch_names_ok 4%nat.
  unfold of_bytes, set_bytes. rewrite b64_decode_encode. by destruct b.
Qed.

Lemma set_plan_value p : sp_Version p = CodecVersion → set_plan zeroSP (plan_value p) = Ok p.
Proof.
  intros Hv. unfold plan_value, set_plan. rewrite assign_zip by done. cbn [rbind].
  read_field plan_names_ok 0%nat. rewrite Hv. change (set_int _ _) with (Ok CodecVersion). cbn [rbind].
  read_field plan_names_ok 1%nat. read_field plan_names_ok 2%nat. read_field plan_names_ok 3%nat.
  read_field plan_names_ok 4%nat. read_field plan_names_ok 5%nat. read_field plan_names_ok 6%nat.
  read_field plan_names_ok 7%nat. cbn [set_branches].
  assert (Hb : rmap_list (set_branch zeroSB) (map branch_value (sp_Branches p)) = Ok (sp_Branches p)).
  { apply rmap_list_Ok, Forall2_fmap_l, Forall2_same_length_lookup. split; [done|].
    intros i x y Hx Hy. simplify_eq. apply set_branch_value. }
  rewrite Hb. cbn [rbind]. rewrite <-Hv. by destruct p.
Qed.

Lemma load_hash_encode h : hash32 h → load_hash (hex_encode h) = Ok h.
Proof. intros Hh. unfold load_hash. rewrite hex_decode_encode. unfold len. by rewrite Hh. Qed.

Lemma load_branch_store b : built (b_Message b) → load_branch (store_branch b) = Ok b.
Proof.
  intros Hb. unfold load_branch, store_branch, load_message; simpl.
  assert (He : ∀ i, message.mkInput (message.Producer i) (message.ID i) (message.Destination i)
    (message.EventType i) (message.SchemaVersion i) (message.Scope i) (message.ContentType i)
    (message.OccurredAt i) (message.Payload i) = i) by (by intros []).
  rewrite He. unfold built in Hb. rewrite Hb. simpl. by destruct b.
Qed.

(** Every stored text is UTF-8. *)
Lemma clean_message m : message.well_formed m = true → clean (message_value (store_message m)).
Proof.
  unfold message.well_formed. intros Hw. boolp. cbn in H. boolp.
  apply clean_zip; [apply message_names_ok|].
  repeat constructor; try (by apply clean_of_bytes);
    match goal with H : message.field_ok ?v _ = true |- clean (JStr ?v) => exact (proj2 (field_required _ _ H)) end.
Qed.

Lemma clean_branch b scope :
  branch_wf scope b → built (b_Message b) → clean (branch_value (store_branch b)).
Proof.
  intros (_&_&_&Hr&_) Hb. apply required_Forall in Hr. rewrite !Forall_cons in Hr.
  apply clean_zip; [apply branch_names_ok|].
  pose proof (clean_of_bytes (b_Wire b)). pose proof (clean_message _ (built_fields _ Hb)).
  rewrite !Forall_cons. split_and!; try done; naive_solver.
Qed.

Lemma clean_plan p : plan_built p → clean (plan_value (store_plan p)).
Proof.
  intros (Hn&_&Hb). apply NewPlan_spec in Hn as [(Hr&_&_&_&_&_&Hwf&_)%input_ok_spec _].
  apply required_Forall in Hr. rewrite !Forall_cons in Hr.
  apply clean_zip; [apply plan_names_ok|]. destruct Hr as ([_ ?]&[_ ?]&[_ ?]&[_ ?]&_).
  rewrite !Forall_cons. split_and!; try first [assumption|apply utf8_hex|constructor].
  - by apply clean_uint.
  - apply clean_arr, Forall_map, Forall_map, Forall_forall. intros b Hin. rewrite Forall_forall in Hb, Hwf.
    eapply clean_branch; [by apply Hwf|by apply Hb].
Qed.

(** Shared form of the round trip below. *)
Lemma codec_plan_back p data :
  plan_built p → EncodePlan p = Ok data → DecodePlan data = Ok p.
Proof.
  intros Hp. pose proof Hp as (Hnew&Hh&Hb). unfold EncodePlan.
  destruct (plan_Valid p); cbn [negb]; [|done]. cbv zeta.
  destruct (len (marshal (plan_value (store_plan p))) >? MaxPlanBytes) eqn:Hlen; [discriminate|].
  intros H. injection H as <-.
  unfold DecodePlan. rewrite Hlen. unfold plan_value at 1. rewrite marshal_nonempty. cbn [orb].
  unfold decode_value. rewrite parse_marshal by by apply clean_plan. cbn [rbind].
  rewrite set_plan_value by done. unfold store_plan.
  cbn [rbind sp_Version sp_Owner sp_Scope sp_Operation sp_Key sp_InputHash sp_Digest sp_Branches].
  unfold plan_Input, plan_Digest. rewrite Z.eqb_refl. cbn [negb].
  rewrite load_hash_encode by done. cbn [rbind].
  assert (Hbs : rmap_list load_branch (map store_branch (p_Branches (plan_input p))) = Ok (p_Branches (plan_input p))).
  { apply rmap_list_Ok, Forall2_fmap_l, Forall2_same_length_lookup. split; [done|].
    intros i x y Hx Hy. simplify_eq. apply load_branch_store. rewrite Forall_forall in Hb.
    by apply Hb; eapply list_elem_of_lookup_2. }
  rewrite Hbs. cbn [rbind].
  assert (Hi : ∀ i, mkPlanInput (p_Owner i) (p_Scope i) (p_OperationID i) (p_IdempotencyKey i)
    (p_InputHash i) (p_Branches i) = i) by (by intros []).
  rewrite Hi, Hnew. cbn [rbind]. by rewrite bool_decide_eq_true_2.
Qed.

(** C21: A frozen plan survives storage: whatever [EncodePlan] writes for a plan
    that [NewPlan] built, [DecodePlan] reads back as the same plan, digest,
    messages and wire octets included. *)
Theorem plan_roundtrip p data :
  plan_built p → EncodePlan p = Ok data → DecodePlan data = Ok p.
Proof.
  apply codec_plan_back.
Qed.

Lemma set_reference_value r :
  0 <= sr_Fence r <= max_uint64 → set_reference zeroSR (reference_value r) = Ok r.
Proof.
  intros Hf. unfold reference_value, set_reference. rewrite assign_zip by done. cbn [rbind].
  read_field reference_names_ok 0%nat. read_field reference_names_ok 1%nat. read_field reference_names_ok 2%nat.
  read_field reference_names_ok 3%nat. read_field reference_names_ok 4%nat. read_field reference_names_ok 5%nat.
  read_field reference_names_ok 6%nat. read_field reference_names_ok 7%nat. read_field reference_names_ok 8%nat.
  read_field reference_names_ok 9%nat. read_field reference_names_ok 10%nat. read_field reference_names_ok 11%nat.
  read_field reference_names_ok 12%nat. cbn [set_uint]. rewrite ParseUint_FormatUint by done. by destruct r.
Qed.

(** Shared form of the round trip below. *)
Lemma codec_reference_back r data :
  hash32 (PlanDigest r) → hash32 (WireHash r) → hash32 (MessageFingerprint r) →
  EncodeReference r = Ok data → DecodeReference data = Ok r.
Proof.
  intros H1 H2 H3. unfold EncodeReference. destruct (ref_Valid r) eqn:Hv; cbn [negb]; [|done]. cbv zeta.
  destruct (len (marshal (reference_value (store_reference r))) >? 8192) eqn:Hlen; [discriminate|].
  intros H. injection H as <-.
  assert (Hf : 0 <= Fence r <= max_uint64).
  { unfold ref_Valid in Hv. boolp. unfold MaxFence, max_uint64 in *. lia. }
  assert (Hc : clean (reference_value (store_reference r))).
  { unfold ref_Valid in Hv. apply andb_true_iff in Hv as [_ H]. apply required_Forall in H.
    rewrite !Forall_cons in H.
    apply clean_zip; [apply reference_names_ok|]. rewrite !Forall_cons.
    destruct H as ([_ ?]&[_ ?]&[_ ?]&[_ ?]&[_ ?]&[_ ?]&[_ ?]&[_ ?]&[_ ?]&_).
    split_and!; first [assumption|apply utf8_hex|by apply clean_uint|constructor]. }
  unfold DecodeReference. rewrite Hlen. unfold reference_value at 1. rewrite marshal_nonempty. cbn [orb].
  unfold decode_value. rewrite parse_marshal by done. cbn [rbind].
  rewrite set_reference_value by done. unfold store_reference.
  cbn [rbind sr_Owner sr_Scope sr_Operation sr_Branch sr_Message sr_Logical sr_Physical sr_Revision
       sr_Epoch sr_Plan sr_Wire sr_Fingerprint sr_Fence].
  rewrite !load_hash_encode by done. cbn [rbind]. cbv zeta.
  assert (He : mkRef (Owner r) (Scope r) (OperationID r) (BranchID r) (MessageID r) (LogicalTopic r)
    (PhysicalTopic r) (RouteRevision r) (WriterEpoch r) (PlanDigest r) (WireHash r) (MessageFingerprint r)
    (Fence r) = r) by by destruct r.
  by rewrite He, Hv.
Qed.

(** A valid reference survives storage: [DecodeReference] reads back exactly
    what [EncodeReference] wrote. *)
Theorem reference_roundtrip r data :
  hash32 (PlanDigest r) → hash32 (WireHash r) → hash32 (MessageFingerprint r) →
  EncodeReference r = Ok data → DecodeReference data = Ok r.
Proof.
  apply codec_reference_back.
Qed.

(** ** The vectors of contracts/transaction-storage-v1.json *)

Definition vector_message : message.Message :=
  let i := message.mkInput "qs.apiserver" "event-a" "qs.evaluation.failed" "fixture.event" "1" "org:19"
             "application/json" "2026-10-19T00:00:00.123456789+08:00"
             (default "" (b64_decode "eyJmYWN0Ijp0cnVlfQ==")) in
  message.mkMessage i (message.compute_fingerprint i).

Definition vector_input : PlanInput :=
  mkPlanInput "qs.mysql" "org:19" "op-sql" "request-key"
    (default "" (hex_decode "d014808624f8b42f2816a25f7eb869a1b9189024f70d98ffed5f83730a17d6ba"))
    [mkBranch "branch-0" "tx-qs-mysql-0" "2" vector_message
       (default "" (b64_decode "Zmlyc3QtZnJvemVuLXdpcmUA/zA="))].

Definition vector_plan : FrozenPlan := mkPlan vector_input (sha256 (digest_preimage vector_input)).

Example vector_plan_digest :
  hex_encode (plan_digest vector_plan)
  = "5dcbd6fa4be3614fc5760eadf813af23784d9ef8125d640cfee4afad60087437"%string.
Proof. vm_compute. reflexivity. Qed.

Lemma vector_plan_built : plan_built vector_plan.
Proof.
  split; [vm_compute; reflexivity|]. split; [vm_compute; reflexivity|].
  repeat constructor; vm_compute; reflexivity.
Qed.

Definition vector_data : bytes := match EncodePlan vector_plan with Ok d => d | Err _ => "" end.

Lemma plan_roundtrip_witness :
  EncodePlan vector_plan = Ok vector_data ∧ DecodePlan vector_data = Ok vector_plan.
Proof.
  assert (He : EncodePlan vector_plan = Ok vector_data) by (vm_compute; reflexivity).
  split; [exact He|]. exact (plan_roundtrip vector_plan vector_data vector_plan_built He).
Defined.

Definition vector_reference : Reference :=
  match plan_Reference vector_plan "branch-0" 1 "epoch" with Ok r => r | Err _ => zeroRef end.
Definition vector_reference_data : bytes :=
  match EncodeReference vector_reference with Ok d => d | Err _ => "" end.

Lemma reference_roundtrip_witness :
  EncodeReference vector_reference = Ok vector_reference_data ∧
  DecodeReference vector_reference_data = Ok vector_reference.
Proof.
  assert (He : EncodeReference vector_reference = Ok vector_reference_data) by (vm_compute; reflexivity).
  split; [exact He|].
  apply (reference_roundtrip vector_reference vector_reference_data); [vm_compute; reflexivity..|exact He].
Defined.

Example vector_keys :
  hex_encode (ExecutionKey "qs.mysql" "op-sql" "epoch" 1)
    = "8efb6a06cb4545559eb2c9ba33c5494b5e798bc698238b92649c20c3a53c74dc"%string ∧
  hex_encode (KeyDigest (RequestFor vector_plan))
    = "b30b783d9107767679523d1b98a35b2d3c3ec5daa0d15dc1a33b0a127b0867c7"%string ∧
  hex_encode (WireHash vector_reference)
    = "d2b5dc3f97a93af1f9dba3eb903f0d51f5ad4016194cde2b22f0bbf3e2f96d7f"%string.
Proof. split; [|split]; vm_compute; reflexivity. Qed.

(** The same request planned again under another operation id. *)
Definition vector_input2 : PlanInput :=
  mkPlanInput (p_Owner vector_input) (p_Scope vector_input) "op-sql-2" (p_IdempotencyKey vector_input)
    (p_InputHash vector_input) (p_Branches vector_input).
Definition vector_plan2 : FrozenPlan := mkPlan vector_input2 (sha256 (digest_preimage vector_input2)).

Lemma vector_branches_built : Forall (λ b, built (b_Message b)) (p_Branches vector_input).
Proof. destruct vector_plan_built as (_&_&H). eapply Forall_impl; [exact H|]. by intros b [? _]. Qed.

Lemma plan_digest_commits_witness :
  digest_preimage vector_input = digest_preimage vector_input2 ↔
  plan_summary vector_input = plan_summary vector_input2.
Proof.
  apply (plan_digest_commits vector_input vector_input2 vector_plan vector_plan2);
    [vm_compute; reflexivity..|exact vector_branches_built|exact vector_branches_built].
Defined.

End codec.
