(* ===== verification/TxMySQL.v ===== *)
(** * storage/transaction/mysql: transaction evidence on MySQL

    [store.go], [guard.go], [receipt.go], [recovery_receipt.go] and
    [schema.sql].  The four tables are finite maps keyed by their primary keys;
    every statement is a statement of [Database], every protocol transaction is
    [in_tx].  The host's root transaction is the sequence Bind, CommitWitness,
    commit: the conditional write of Bind locks the execution row until the host
    commits or rolls back, so that no other statement on that row falls in
    between.  Times are DATETIME(6) microseconds. *)

From S2P Require Import Prelude GoStd Database Message Transaction TxCodec.

Module txmysql.
Import transaction codec.

Definition SchemaVersion : Z := 1.

(** ** Tables *)

Record RequestRow : Type := mkRequestRow {
  q_owner : string; q_scope : string; q_key : string; q_input_hash : bytes; q_active : bytes
}.

Record ExecRow : Type := mkExecRow {
  x_request_key : bytes; x_owner : string; x_operation_id : string; x_writer_epoch : string;
  x_fence : Z; x_token : bytes; x_plan : bytes; x_state : State; x_lease_until : Z;
  x_guard_version : Z; x_prepare_started : bool
}.

Record WitnessRow : Type := mkWitnessRow {
  w_reference : bytes; w_state : State;
  w_broker_message_id : option string; w_broker_transaction_id : option string;
  w_half_outcome : HalfOutcome; w_final_outcome : FinalOutcome;
  w_half_error : string; w_final_error : string;
  w_half_at : option Z; w_final_at : option Z
}.

Record DB : Type := mkDB {
  bindings : gmap string (string * string * Z);
  requests : gmap bytes RequestRow;
  execs : gmap bytes ExecRow;
  witnesses : gmap (bytes * bytes) WitnessRow
}.

Definition with_requests (s : DB) m : DB := mkDB (bindings s) m (execs s) (witnesses s).
Definition with_execs (s : DB) m : DB := mkDB (bindings s) (requests s) m (witnesses s).
Definition with_witnesses (s : DB) m : DB := mkDB (bindings s) (requests s) (execs s) m.

Definition set_state (st : State) (x : ExecRow) : ExecRow :=
  mkExecRow (x_request_key x) (x_owner x) (x_operation_id x) (x_writer_epoch x) (x_fence x) (x_token x)
    (x_plan x) st (x_lease_until x) (x_guard_version x) (x_prepare_started x).
Definition bump_guard (x : ExecRow) : ExecRow :=
  mkExecRow (x_request_key x) (x_owner x) (x_operation_id x) (x_writer_epoch x) (x_fence x) (x_token x)
    (x_plan x) (x_state x) (x_lease_until x) (x_guard_version x + 1) (x_prepare_started x).
Definition start_prepare (x : ExecRow) : ExecRow :=
  mkExecRow (x_request_key x) (x_owner x) (x_operation_id x) (x_writer_epoch x) (x_fence x) (x_token x)
    (x_plan x) (x_state x) (x_lease_until x) (x_guard_version x) true.
Definition set_witness_state (st : State) (v : WitnessRow) : WitnessRow :=
  mkWitnessRow (w_reference v) st (w_broker_message_id v) (w_broker_transaction_id v) (w_half_outcome v)
    (w_final_outcome v) (w_half_error v) (w_final_error v) (w_half_at v) (w_final_at v).

(** ** Statements *)

(** UPDATE rm_tx_execution SET f WHERE execution_key=? AND p *)
Definition update_exec (k : bytes) (p : tick → ExecRow → bool) (f : ExecRow → ExecRow) : M DB Z :=
  stmt (λ t s, match execs s !! k with
               | Some x => if p t x then Ok (1, with_execs s (<[k := f x]> (execs s))) else Ok (0, s)
               | None => Ok (0, s)
               end).

(** UPDATE rm_tx_witness SET state=? WHERE execution_key=? AND state='prepared' *)
Definition settle_witnesses (k : bytes) (st : State) : M DB Z :=
  stmt (λ _ s,
    let hit := filter (λ p, p.1.1 = k ∧ w_state p.2 = Prepared) (map_to_list (witnesses s)) in
    Ok (llen hit, with_witnesses s
          (map_imap (λ kk v, Some (if bool_decide (kk.1 = k ∧ w_state v = Prepared)
                                   then set_witness_state st v else v)) (witnesses s)))).

Definition select_witness (k bk : bytes) : M DB WitnessRow :=
  query (λ _ s, match witnesses s !! (k, bk) with Some v => Ok v | None => Err ErrNoRows end).

Definition select_exec (k : bytes) : M DB ExecRow :=
  query (λ _ s, match execs s !! k with Some x => Ok x | None => Err ErrNoRows end).

(** ** Binding and lookups *)

Definition New (b : Binding) : result Binding :=
  if negb (binding_Valid b) || (len (bn_Owner b) >? 128) || (len (StoreID b) >? 128) ||
     (len (bn_WriterEpoch b) >? 128) then Err ErrBinding else Ok b.

Definition bindingIn (b : Binding) (writer : bool) : M DB () :=
  row ← query (λ _ s, match bindings s !! bn_Owner b with Some r => Ok r | None => Err ErrNoRows end);
  let '(id, epoch, version) := row in
  if (id != StoreID b) || (writer && (epoch != bn_WriterEpoch b)) then raise ErrBinding
  else if negb (version =? SchemaVersion) then raise ErrSchema
  else mret ().

Definition key (e : Execution) : bytes :=
  let i := plan_Input (ex_Plan e) in
  ExecutionKey (p_Owner i) (p_OperationID i) (ex_WriterEpoch e) (ex_Fence e).

(** A BINARY(32) column read into a [32]byte. *)
Definition scanExecution (x : ExecRow) : result (Execution * State) :=
  try p <- DecodePlan (x_plan x);
  let e := mkExecution p (x_fence x) (x_writer_epoch x) (x_token x) (x_lease_until x) in
  if negb (len (x_token x) =? 32) || negb (execution_Valid e) then Err ErrInvalidPlan
  else Ok (e, x_state x).

Definition no_token (e : Execution) : Execution :=
  mkExecution (ex_Plan e) (ex_Fence e) (ex_WriterEpoch e) message.zeroHash (ex_LeaseUntil e).

Definition lookupIn (r : Request) : M DB Reservation :=
  q ← query (λ _ s, match requests s !! KeyDigest r with Some q => Ok q | None => Err ErrNoRows end);
  if (q_owner q != rq_Owner r) || (q_scope q != rq_Scope r) || (q_key q != rq_Key r) then
    raise ErrRequestIdentity
  else if q_input_hash q != rq_InputHash r then raise ErrInputConflict
  else
    x ← select_exec (q_active q);
    es ← liftR (scanExecution x);
    let '(e, st) := es in
    _ ← liftR (Match r (ex_Plan e));
    mret (mkReservation (no_token e) false st).

Definition Lookup (b : Binding) (r : Request) : M DB Reservation :=
  if negb (request_Valid r) || (rq_Owner r != bn_Owner b) then raise ErrBinding
  else
    res ← catch (in_read_tx (_ ← bindingIn b false; catch (lookupIn r)));
    match res with
    | Err e => raise e
    | Ok (Ok v) => mret v
    | Ok (Err e) => if errors_is e ErrNoRows then raise ErrNotFound else raise e
    end.

(** ** Reserving *)

Definition newExecution (b : Binding) (p : FrozenPlan) (fence lease : Z) : M DB Execution :=
  token ← rand_read;
  now ← query (λ t _, Ok (t_now t));
  mret (mkExecution p fence (bn_WriterEpoch b) token ((now * 1000 + lease) / 1000)).

Definition insert_witness (ek : bytes) (ref : Reference) : M DB () :=
  data ← liftR (EncodeReference ref);
  stmt (λ _ s,
    match witnesses s !! (ek, BranchKey (BranchID ref)) with
    | Some _ => Err ErrDuplicateKey
    | None => Ok ((), with_witnesses s
        (<[(ek, BranchKey (BranchID ref)) :=
             mkWitnessRow data Prepared None None HalfNotAttempted FinalNotAttempted "" "" None None]>
         (witnesses s)))
    end).

Definition insertExecution (r : Request) (e : Execution) : M DB () :=
  data ← liftR (EncodePlan (ex_Plan e));
  let ek := key e in
  let i := plan_Input (ex_Plan e) in
  _ ← stmt (λ _ s,
        match execs s !! ek with
        | Some _ => Err ErrDuplicateKey
        | None => Ok ((), with_execs s
            (<[ek := mkExecRow (KeyDigest r) (p_Owner i) (p_OperationID i) (ex_WriterEpoch e) (ex_Fence e)
                       (ex_Token e) data Prepared (ex_LeaseUntil e) 0 false]> (execs s)))
        end);
  _ ← for_each (insert_witness ek) (References e);
  mret ().

(** INSERT INTO rm_tx_request; [false] is a duplicate key. *)
Definition insert_request (r : Request) (ek : bytes) : M DB bool :=
  ins ← catch (stmt (λ _ s,
          match requests s !! KeyDigest r with
          | Some _ => Err ErrDuplicateKey
          | None => Ok ((), with_requests s
              (<[KeyDigest r := mkRequestRow (rq_Owner r) (rq_Scope r) (rq_Key r) (rq_InputHash r) ek]>
               (requests s)))
          end));
  match ins with
  | Ok _ => mret true
  | Err e => if errors_is e ErrDuplicateKey then mret false else raise e
  end.

Definition Reserve (b : Binding) (r : Request) (p : FrozenPlan) (lease : Z) : M DB Reservation :=
  if negb (options_Valid lease) || negb (plan_Valid p) || (rq_Owner r != bn_Owner b) then raise ErrBinding
  else
    _ ← liftR (Match r p);
    won ← in_tx_opt true (
      _ ← bindingIn b true;
      e ← newExecution b p 1 lease;
      fresh ← insert_request r (key e);
      if fresh : bool then _ ← insertExecution r e; mret (Some e) else mret None);
    match won with
    | Some e => mret (mkReservation e true Prepared)
    | None => Lookup b r
    end.

(** ** Evidence *)

Definition select_evidence (b : Binding) (ref : Reference) (s : DB) : option (bytes * State * State) :=
  let ek := ExecutionKey (Owner ref) (OperationID ref) (WriterEpoch ref) (Fence ref) in
  x ← execs s !! ek;
  v ← witnesses s !! (ek, BranchKey (BranchID ref));
  '(id, _, version) ← bindings s !! x_owner x;
  if (id == StoreID b) && (version =? SchemaVersion) then Some (w_reference v, x_state x, w_state v) else None.

Definition EvidenceOf (b : Binding) (ref : Reference) : M DB (option Evidence) :=
  if negb (ref_Valid ref) || (Owner ref != bn_Owner b) then raise ErrBinding
  else
    found ← query (λ _ s, Ok (select_evidence b ref s));
    match found with
    | None => mret None
    | Some (raw, xs, ws) =>
      actual ← liftR (DecodeReference raw);
      mret (Some (mkEvidence actual xs ws))
    end.

(** ** Preparing, aborting, reconciling *)

Definition BeginPrepare (b : Binding) (e : Execution) : M DB () :=
  if negb (execution_Valid e) || (p_Owner (plan_Input (ex_Plan e)) != bn_Owner b) ||
     (ex_WriterEpoch e != bn_WriterEpoch b) then raise ErrBinding
  else in_tx (
    _ ← bindingIn b true;
    n ← update_exec (key e)
          (λ t x, (x_token x == ex_Token e) && (x_state x == Prepared) && negb (x_prepare_started x) &&
                  (x_lease_until x >? t_now t)) start_prepare;
    if negb (n =? 1) then raise ErrStaleExecution
    else
      x ← select_exec (key e);
      stored ← liftR (DecodePlan (x_plan x));
      ensure (plan_Digest stored == plan_Digest (ex_Plan e)) ErrStaleExecution).

(** The boolean of the source is [false] when nothing was updated. *)
Definition abort (b : Binding) (e : Execution) (expired : bool) : M DB bool :=
  if negb (execution_Valid e) || (p_Owner (plan_Input (ex_Plan e)) != bn_Owner b) then raise ErrBinding
  else
    r ← in_tx_opt false (
      _ ← bindingIn b false;
      n ← update_exec (key e)
            (λ t x, (x_state x == Prepared) && (x_token x == ex_Token e) &&
                    (negb expired || (x_lease_until x <=? t_now t)))
            (λ x, bump_guard (set_state Aborted x));
      if n =? 0 then mret None
      else
        m ← settle_witnesses (key e) Aborted;
        if m =? llen (p_Branches (plan_Input (ex_Plan e))) then mret (Some ())
        else raise ErrStaleExecution);
    mret (match r with Some _ => true | None => false end).

Definition Abort (b : Binding) (e : Execution) : M DB bool := abort b e false.

Definition expired_le (p q : bytes * ExecRow) : Prop := x_lease_until p.2 <= x_lease_until q.2.
#[global] Instance expired_le_dec : RelDecision expired_le.
Proof. intros p q. unfold expired_le. apply _. Defined.

Definition select_expired (owner : string) (limit now : Z) (s : DB) : list ExecRow :=
  map snd (take (Z.to_nat limit) (merge_sort expired_le
    (filter (λ p, x_owner p.2 = owner ∧ x_state p.2 = Prepared ∧ x_lease_until p.2 <= now)
            (map_to_list (execs s))))).

Definition ReconcileOnce (b : Binding) (limit : Z) : M DB Z :=
  if (limit <? 1) || (limit >? 1000) then raise ErrInvalidPlan
  else
    rows ← query (λ t s, Ok (select_expired (bn_Owner b) limit (t_now t) s));
    executions ← liftR (rmap_list scanExecution rows);
    oks ← for_each (λ es, abort b es.1 true) executions;
    mret (llen (filter (λ ok, ok = true) oks)).

(** ** Authorized retry and replan *)

Definition old_evidence (oldKey : bytes) (st : State) (ref : Reference) : M DB (option Evidence) :=
  v ← select_witness oldKey (BranchKey (BranchID ref));
  actual ← liftR (DecodeReference (w_reference v));
  mret (Some (mkEvidence actual st (w_state v))).

Definition advance (b : Binding) (previous : Execution) (p : FrozenPlan) (lease : Z) (replan : bool)
    : M DB Reservation :=
  if negb (plan_Valid (ex_Plan previous)) || negb (plan_Valid p) || negb (options_Valid lease) ||
     (ex_Fence previous =? 0) || (ex_Fence previous >=? MaxFence) then raise ErrInvalidPlan
  else
    let r := RequestFor (ex_Plan previous) in
    if rq_Owner r != bn_Owner b then raise ErrBinding
    else
      _ ← liftR (Match r p);
      if replan && (p_OperationID (plan_Input p) == p_OperationID (plan_Input (ex_Plan previous)))
      then raise ErrInvalidPlan
      else
        e ← in_tx (
          _ ← bindingIn b true;
          current ← lookupIn r;
          if (rs_State current != Aborted) || (key (rs_Execution current) != key previous) ||
             (plan_Digest (ex_Plan (rs_Execution current)) != plan_Digest (ex_Plan previous))
          then raise ErrStaleExecution
          else
            evs ← for_each (old_evidence (key previous) (rs_State current)) (References previous);
            _ ← liftR (ValidateAdvance previous p evs replan);
            e ← newExecution b p (ex_Fence previous + 1) lease;
            _ ← insertExecution r e;
            _ ← stmt (λ _ s, Ok ((), with_requests s (alter (λ q, mkRequestRow (q_owner q) (q_scope q)
                      (q_key q) (q_input_hash q) (key e)) (KeyDigest r) (requests s))));
            mret e);
        mret (mkReservation e true Prepared).

Definition Retry (b : Binding) (previous : Execution) (lease : Z) : M DB Reservation :=
  advance b previous (ex_Plan previous) lease false.
Definition Replan (b : Binding) (previous : Execution) (candidate : FrozenPlan) (lease : Z)
    : M DB Reservation := advance b previous candidate lease true.

(** ** The guard of the host transaction *)

Record Guard : Type := mkGuard { g_execution : Execution; g_committed : bool }.

Definition check_witness (ek : bytes) (ref : Reference) : M DB () :=
  v ← select_witness ek (BranchKey (BranchID ref));
  match DecodeReference (w_reference v) with
  | Ok actual => ensure ((actual == ref) && (w_state v == Prepared)) ErrStaleExecution
  | Err _ => raise ErrStaleExecution
  end.

Definition Bind (b : Binding) (e : Execution) : M DB Guard :=
  if negb (execution_Valid e) || (p_Owner (plan_Input (ex_Plan e)) != bn_Owner b) ||
     (ex_WriterEpoch e != bn_WriterEpoch b) then raise ErrBinding
  else
    _ ← bindingIn b true;
    n ← update_exec (key e)
          (λ t x, (x_token x == ex_Token e) && (x_state x == Prepared) && (x_lease_until x >? t_now t))
          bump_guard;
    if negb (n =? 1) then raise ErrStaleExecution
    else
      x ← select_exec (key e);
      stored ← liftR (DecodePlan (x_plan x));
      _ ← ensure (plan_Digest stored == plan_Digest (ex_Plan e)) ErrStaleExecution;
      _ ← for_each (check_witness (key e)) (References e);
      mret (mkGuard e false).

Definition CommitWitness (g : Guard) : M DB Guard :=
  if g_committed g then raise ErrTransactionRequired
  else
    let e := g_execution g in
    n ← settle_witnesses (key e) Committed;
    if negb (n =? llen (p_Branches (plan_Input (ex_Plan e)))) then raise ErrStaleExecution
    else
      m ← update_exec (key e) (λ _ x, (x_token x == ex_Token e) && (x_state x == Prepared))
            (set_state Committed);
      if negb (m =? 1) then raise ErrStaleExecution else mret (mkGuard e true).

(** The host's root transaction around the two calls; [business] is the host's
    own work on other tables, which may fail. *)
Definition host_transaction (b : Binding) (e : Execution) (business : result ()) : M DB () :=
  in_tx (g ← Bind b e; _ ← liftR business; _ ← CommitWitness g; mret ()).

(** ** Receipts *)

Definition Validate (b : Binding) : M DB () :=
  in_read_tx (_ ← bindingIn b true; query (λ _ _, Ok ())).

Definition receiptTx (b : Binding) (e : Execution) (ref : Reference)
    (fn : bytes → bytes → State → M DB ()) : M DB () :=
  if negb (MatchExecution e ref) || (Owner ref != bn_Owner b) then raise ErrBinding
  else in_tx (
    _ ← bindingIn b false;
    x ← select_exec (key e);
    if x_token x != ex_Token e then raise ErrStaleExecution
    else
      let bk := BranchKey (BranchID ref) in
      v ← select_witness (key e) bk;
      actual ← liftR (DecodeReference (w_reference v));
      if (actual != ref) || (w_state v != x_state x) then raise ErrStaleExecution
      else fn (key e) bk (x_state x)).

Definition update_witness (ek bk : bytes) (f : tick → WitnessRow → WitnessRow) : M DB () :=
  stmt (λ t s, Ok ((), match witnesses s !! (ek, bk) with
                       | Some v => with_witnesses s (<[(ek, bk) := f t v]> (witnesses s))
                       | None => s
                       end)).

Definition set_half (h : HalfReceipt) (t : tick) (v : WitnessRow) : WitnessRow :=
  mkWitnessRow (w_reference v) (w_state v) (Some (h_BrokerMessageID h)) (Some (h_BrokerTransactionID h))
    (h_Outcome h) (w_final_outcome v) (h_ErrorCode h) (w_final_error v) (Some (t_now t)) (w_final_at v).

Definition set_final (f : FinalOutcome) (code : string) (t : tick) (v : WitnessRow) : WitnessRow :=
  mkWitnessRow (w_reference v) (w_state v) (w_broker_message_id v) (w_broker_transaction_id v)
    (w_half_outcome v) f (w_half_error v) code (w_half_at v) (Some (t_now t)).

(** A recorded broker id that is present and differs. *)
Definition id_conflict (old : option string) (new : string) : bool :=
  match old with Some o => (0 <? len o) && (o != new) | None => false end.

Definition RecordHalf (b : Binding) (e : Execution) (ref : Reference) (h : HalfReceipt) : M DB () :=
  if negb (half_Valid h) then raise ErrInvalidPlan
  else receiptTx b e ref (λ ek bk st,
    if st != Prepared then raise ErrStaleExecution
    else
      v ← select_witness ek bk;
      if id_conflict (w_broker_message_id v) (h_BrokerMessageID h) ||
         id_conflict (w_broker_transaction_id v) (h_BrokerTransactionID h) ||
         ((w_half_outcome v != HalfNotAttempted) && (w_half_outcome v != HalfUnknown) &&
          (w_half_outcome v != h_Outcome h))
      then raise ErrStaleExecution
      else update_witness ek bk (set_half h)).

(** A recorded final outcome that is positive and differs. *)
Definition final_conflict (old new : FinalOutcome) : bool :=
  (old != FinalNotAttempted) && (old != FinalUnknown) && (old != new).

Definition RecordFinal (b : Binding) (e : Execution) (ref : Reference) (f : FinalOutcome) (code : string)
    : M DB () :=
  if negb (ValidFinal f code) then raise ErrInvalidPlan
  else receiptTx b e ref (λ ek bk st,
    if (st != Committed) && (st != Aborted) then raise ErrStaleExecution
    else if ((f == FinalCommitConfirmed) && (st != Committed)) ||
            ((f == FinalRollbackConfirmed) && (st != Aborted)) then raise ErrStaleExecution
    else
      v ← select_witness ek bk;
      if final_conflict (w_final_outcome v) f then raise ErrStaleExecution
      else update_witness ek bk (set_final f code)).

Definition RecordRecoveryFinal (b : Binding) (ref : Reference) (outcome : FinalOutcome) : M DB () :=
  st ← liftR (RecoveryFinalState outcome);
  if negb (ref_Valid ref) || (Owner ref != bn_Owner b) then raise ErrBinding
  else in_tx (
    _ ← bindingIn b false;
    let ek := ExecutionKey (Owner ref) (OperationID ref) (WriterEpoch ref) (Fence ref) in
    let bk := BranchKey (BranchID ref) in
    x ← select_exec ek;
    if (x_owner x != Owner ref) || (x_operation_id x != OperationID ref) ||
       (x_writer_epoch x != WriterEpoch ref) || negb (x_fence x =? Fence ref) || (x_state x != st)
    then raise ErrStaleExecution
    else
      v ← select_witness ek bk;
      actual ← liftR (DecodeReference (w_reference v));
      if (actual != ref) || (w_state v != st) || final_conflict (w_final_outcome v) outcome
      then raise ErrStaleExecution
      else if w_final_outcome v == outcome then mret ()
      else update_witness ek bk (set_final outcome "")).

End txmysql.
