(* ===== verification/TxMySQLFacts.v ===== *)
(** * storage/transaction/mysql: correctness

    The invariant that ties witnesses to their execution, the order in which
    rows evolve, and what follows for the protocol: terminal states are final,
    checkers never contradict each other, one winner per request, one prepare
    per execution. *)

From S2P Require Import Prelude GoStd Database Message Transaction TxCodec TxMySQL.

Module txmysqlfacts.
Import transaction codec txmysql.

(** ** How rows evolve *)

Definition state_le (a b : State) : Prop := b = a ∨ a = Prepared.

Definition exec_le (x y : ExecRow) : Prop :=
  x_request_key y = x_request_key x ∧ x_owner y = x_owner x ∧ x_operation_id y = x_operation_id x ∧
  x_writer_epoch y = x_writer_epoch x ∧ x_fence y = x_fence x ∧ x_token y = x_token x ∧
  x_plan y = x_plan x ∧ x_lease_until y = x_lease_until x ∧ state_le (x_state x) (x_state y) ∧
  (x_prepare_started x = true → x_prepare_started y = true).

Definition final_le (a b : FinalOutcome) : Prop :=
  a = FinalNotAttempted ∨ a = FinalUnknown ∨ b = a.

Definition witness_le (v u : WitnessRow) : Prop :=
  w_reference u = w_reference v ∧ state_le (w_state v) (w_state u) ∧
  final_le (w_final_outcome v) (w_final_outcome u).

Definition request_le (q p : RequestRow) : Prop :=
  q_owner p = q_owner q ∧ q_scope p = q_scope q ∧ q_key p = q_key q ∧ q_input_hash p = q_input_hash q.

Definition map_le {K V} `{Countable K} (R : V → V → Prop) (m m' : gmap K V) : Prop :=
  ∀ k v, m !! k = Some v → ∃ v', m' !! k = Some v' ∧ R v v'.

Definition db_le (s s' : DB) : Prop :=
  map_le request_le (requests s) (requests s') ∧ map_le exec_le (execs s) (execs s') ∧
  map_le witness_le (witnesses s) (witnesses s').

#[global] Instance state_le_preorder : PreOrder state_le.
Proof. split; [by left|]. intros a b c [->| ->] [->| ->]; unfold state_le; auto. Qed.
#[global] Instance final_le_preorder : PreOrder final_le.
Proof. split; [by right; right|]. unfold final_le. intros a b c [?|[?| ->]]; auto. Qed.
#[global] Instance exec_le_preorder : PreOrder exec_le.
Proof.
  split; [intros x; split_and!; try done|]. intros x y z (?&?&?&?&?&?&?&?&?&?) (?&?&?&?&?&?&?&?&?&?).
  split_and!; try congruence; [by transitivity (x_state y)|auto].
Qed.
#[global] Instance witness_le_preorder : PreOrder witness_le.
Proof.
  split; [intros v; split_and!; done|]. intros v u t (?&?&?) (?&?&?).
  split_and!; [congruence|by transitivity (w_state u)|by transitivity (w_final_outcome u)].
Qed.
#[global] Instance request_le_preorder : PreOrder request_le.
Proof. split; [done|]. intros a b c (?&?&?&?) (?&?&?&?). split_and!; congruence. Qed.

#[global] Instance map_le_preorder {K V} `{Countable K} (R : V → V → Prop) :
  PreOrder R → PreOrder (map_le (K:=K) R).
Proof.
  intros HR. split; [intros m k v Hv; exists v; by split|].
  intros a b c Hab Hbc k v (u&Hu&?)%Hab. apply Hbc in Hu as (t&?&?). exists t. split; [done|by etransitivity].
Qed.
#[global] Instance db_le_preorder : PreOrder db_le.
Proof.
  split; [intros s; split_and!; reflexivity|]. intros a b c (?&?&?) (?&?&?).
  split_and!; by etransitivity.
Qed.

Lemma map_le_insert {K V} `{Countable K} (R : V → V → Prop) `{!PreOrder R} (m : gmap K V) k v v' :
  m !! k = Some v → R v v' → map_le R m (<[k := v']> m).
Proof.
  intros Hk HR j u Hu. destruct (decide (j = k)) as [->|Hne].
  - exists v'. rewrite lookup_insert_eq. naive_solver.
  - exists u. rewrite lookup_insert_ne by done. by split.
Qed.

Lemma map_le_fresh {K V} `{Countable K} (R : V → V → Prop) `{!PreOrder R} (m : gmap K V) k v' :
  m !! k = None → map_le R m (<[k := v']> m).
Proof.
  intros Hk j u Hu. exists u. rewrite lookup_insert_ne by congruence. by split.
Qed.

(** ** The invariant *)

(** Every witness of an execution is in the state of the execution and carries a
    reference of the execution's owner. *)
Definition owned (v : WitnessRow) (owner : string) : Prop :=
  ∃ ref, DecodeReference (w_reference v) = Ok ref ∧ Owner ref = owner.

Definition in_step (s : DB) : Prop :=
  ∀ k bk v, witnesses s !! (k, bk) = Some v →
    ∃ x, execs s !! k = Some x ∧ w_state v = x_state x ∧ owned v (x_owner x).

(** A stored execution is the plan it was reserved with, under its own key, with
    a witness for each of its references. *)
Definition stored (s : DB) (k : bytes) (x : ExecRow) : Prop :=
  ∃ p, plan_built p ∧ DecodePlan (x_plan x) = Ok p ∧
    k = ExecutionKey (p_Owner (plan_input p)) (p_OperationID (plan_input p)) (x_writer_epoch x) (x_fence x) ∧
    x_owner x = p_Owner (plan_input p) ∧
    Forall (λ ref, ∃ v, witnesses s !! (k, BranchKey (BranchID ref)) = Some v ∧
                        DecodeReference (w_reference v) = Ok ref)
      (References (mkExecution p (x_fence x) (x_writer_epoch x) (x_token x) (x_lease_until x))).

Definition db_ok (s : DB) : Prop :=
  in_step s ∧
  (∀ k x, execs s !! k = Some x →
     stored s k x ∧ (x_state x = Prepared ∨ x_state x = Committed ∨ x_state x = Aborted)).

Definition advances (s s' : DB) : Prop := db_le s s' ∧ (db_ok s → db_ok s').

#[global] Instance advances_preorder : PreOrder advances.
Proof. split; [by intros s; split|]. intros a b c [? ?] [? ?]. split; [by transitivity b|auto]. Qed.

(** Stored executions stay stored while witnesses only evolve. *)
Lemma stored_le s s' k x y :
  exec_le x y → map_le witness_le (witnesses s) (witnesses s') → stored s k x → stored s' k y.
Proof.
  intros (_&Ho&_&He&Hf&Ht&Hp&Hl&_) Hw (p&Hb&Hd&Hk&Hown&Hall). exists p.
  rewrite Hp, He, Hf, Ht, Hl, Ho. split_and!; try done.
  eapply Forall_impl; [exact Hall|]. intros ref (v&Hv&Hr).
  apply Hw in Hv as (u&Hu&Hur&_). exists u. split; [done|]. by rewrite Hur.
Qed.

(** ** Statements *)

Lemma update_exec_Ok k p f w n s c n' s' :
  update_exec k p f w (n, s) = (Ok c, (n', s')) →
  n' = S n ∧ ((c = 0 ∧ s' = s) ∨
   (c = 1 ∧ ∃ x, execs s !! k = Some x ∧ p (w n) x = true ∧ s' = with_execs s (<[k := f x]> (execs s)))).
Proof.
  intros [H ->]%stmt_Ok. split; [done|]. destruct (execs s !! k) as [x|]; [|simplify_eq; auto].
  destruct (p (w n) x) eqn:Hp; simplify_eq; [|auto]. right. eauto 10.
Qed.

Definition settled (k : bytes) (st : State) (m : gmap (bytes * bytes) WitnessRow)
    : gmap (bytes * bytes) WitnessRow :=
  map_imap (λ kk v, Some (if bool_decide (kk.1 = k ∧ w_state v = Prepared)
                          then set_witness_state st v else v)) m.

Lemma settled_lookup k st m kk :
  settled k st m !! kk =
  (λ v, if bool_decide (kk.1 = k ∧ w_state v = Prepared) then set_witness_state st v else v) <$> m !! kk.
Proof. unfold settled. rewrite map_lookup_imap. by destruct (m !! kk). Qed.

Lemma settle_witnesses_Ok k st w n s c n' s' :
  settle_witnesses k st w (n, s) = (Ok c, (n', s')) →
  n' = S n ∧ s' = with_witnesses s (settled k st (witnesses s)).
Proof. intros [H ->]%stmt_Ok. cbv zeta in H. injection H as <- <-. done. Qed.

Lemma settled_le k st m : map_le witness_le m (settled k st m).
Proof.
  intros kk v Hv. rewrite settled_lookup, Hv. simpl. eexists. split; [done|].
  destruct (bool_decide _) eqn:E; [|done]. apply bool_decide_eq_true in E as [_ E].
  split_and!; simpl; [done|by right|done].
Qed.

Lemma reads_bindingIn b writer : reads (bindingIn b writer).
Proof.
  unfold bindingIn. apply reads_bind; [apply reads_query|]. intros [[id epoch] version].
  repeat case_match; auto with reads.
Qed.

Lemma reads_lookupIn r : reads (lookupIn r).
Proof.
  unfold lookupIn. apply reads_bind; [apply reads_query|]. intros q.
  destruct (_ || _); [auto with reads|]. destruct (_ != _); [auto with reads|].
  apply reads_bind; [apply reads_query|]. intros x. apply reads_bind; [auto with reads|]. intros [e st].
  auto with reads.
Qed.

Lemma reads_Lookup b r : reads (Lookup b r).
Proof.
  unfold Lookup. destruct (_ || _); [auto with reads|]. apply reads_bind; [auto with reads|].
  intros [[v|e]|e]; auto with reads. destruct (errors_is _ _); auto with reads.
Qed.

Lemma reads_EvidenceOf b ref : reads (EvidenceOf b ref).
Proof.
  unfold EvidenceOf. destruct (_ || _); [auto with reads|]. apply reads_bind; [auto with reads|].
  intros [[[raw xs] ws]|]; auto with reads.
Qed.

Lemma reads_check_witness ek ref : reads (check_witness ek ref).
Proof.
  unfold check_witness, select_witness. apply reads_bind; [auto with reads|]. intros v.
  destruct (DecodeReference _); auto with reads.
Qed.

Lemma reads_old_evidence k st ref : reads (old_evidence k st ref).
Proof. unfold old_evidence, select_witness. auto with reads. Qed.

Lemma reads_newExecution b p f l : reads (newExecution b p f l).
Proof. unfold newExecution, rand_read. auto with reads. Qed.

Lemma select_exec_Ok k w n s x n' s' :
  select_exec k w (n, s) = (Ok x, (n', s')) → s' = s ∧ n' = S n ∧ execs s !! k = Some x.
Proof.
  intros [(x'&Hx&[= <- <-])%rbind_Ok ->]%stmt_Ok. by destruct (execs s !! k); simplify_eq.
Qed.

Lemma select_witness_Ok k bk w n s v n' s' :
  select_witness k bk w (n, s) = (Ok v, (n', s')) → s' = s ∧ n' = S n ∧ witnesses s !! (k, bk) = Some v.
Proof.
  intros [(x'&Hx&[= <- <-])%rbind_Ok ->]%stmt_Ok. by destruct (witnesses s !! (k, bk)); simplify_eq.
Qed.

#[export] Hint Resolve reads_bindingIn reads_lookupIn reads_Lookup reads_EvidenceOf
  reads_check_witness reads_old_evidence reads_newExecution : reads.

(** Peel a successful run: a read-only prefix leaves the data alone. *)
Lemma bind_reads {A B} (c : M DB A) (k : A → M DB B) w n s b n' s' :
  reads c → (c ≫= k) w (n, s) = (Ok b, (n', s')) →
  ∃ a n1, c w (n, s) = (Ok a, (n1, s)) ∧ k a w (n1, s) = (Ok b, (n', s')).
Proof.
  intros Hc (a&[n1 s1]&Hr&Hk)%bind_run. pose proof (reads_run _ _ _ _ _ _ _ Hc Hr) as ->. eauto.
Qed.

(** ** Writes *)

Lemma update_exec_advances k p f w n s c n' s' :
  (∀ x, exec_le x (f x) ∧ x_state (f x) = x_state x) →
  update_exec k p f w (n, s) = (Ok c, (n', s')) → advances s s'.
Proof.
  intros Hf [_ [[_ ->]|(_&x&Hx&_&->)]]%update_exec_Ok; [reflexivity|]. destruct (Hf x) as [Hle Hst].
  split; [split_and!; [reflexivity|by eapply map_le_insert; eauto with typeclass_instances|reflexivity]|].
  intros [Hin Hex]. split.
  - intros kk bk v Hv. simpl in *. apply Hin in Hv as (y&Hy&Hs&Ho).
    destruct (decide (kk = k)) as [->|Hne].
    + exists (f x). rewrite lookup_insert_eq. simplify_eq. split; [done|]. split; [congruence|].
      destruct Hle as (_&->&_). done.
    + exists y. by rewrite lookup_insert_ne.
  - intros kk y Hy. simpl in Hy. apply lookup_insert_Some in Hy as [[<- <-]|[Hne Hy]].
    + destruct (Hex k x Hx) as [? ?]. rewrite Hst. split; [|done]. by eapply stored_le.
    + destruct (Hex kk y Hy) as [? ?]. split; [|done]. by eapply stored_le.
Qed.

(** The terminal step of an execution: its state and all its witnesses. *)
Definition terminated (s : DB) (k : bytes) (y : ExecRow) : DB :=
  mkDB (bindings s) (requests s) (<[k := y]> (execs s)) (settled k (x_state y) (witnesses s)).

Lemma terminated_advances s k x y :
  execs s !! k = Some x → x_state x = Prepared → exec_le x y →
  (x_state y = Committed ∨ x_state y = Aborted) → advances s (terminated s k y).
Proof.
  intros Hx Hp Hle Hst.
  assert (Hw : map_le witness_le (witnesses s) (settled k (x_state y) (witnesses s))) by apply settled_le.
  split; [split_and!; [reflexivity|by eapply map_le_insert; eauto with typeclass_instances|done]|].
  intros [Hin Hex]. split.
  - intros kk bk v Hv. simpl in *. rewrite settled_lookup in Hv. apply fmap_Some in Hv as (u&Hu&->).
    apply Hin in Hu as (z&Hz&Hs&Ho). simpl. destruct (decide (kk = k)) as [->|Hne].
    + exists y. rewrite lookup_insert_eq. split; [done|]. simplify_eq.
      destruct Hle as (_&->&_). rewrite bool_decide_eq_true_2; [done|]. split; [done|congruence].
    + exists z. rewrite lookup_insert_ne by done. split; [done|].
      by rewrite bool_decide_eq_false_2 by naive_solver.
  - intros kk z Hz. simpl in Hz. apply lookup_insert_Some in Hz as [[<- <-]|[Hne Hz]].
    + destruct (Hex k x Hx) as [? _]. split; [by eapply stored_le|naive_solver].
    + destruct (Hex kk z Hz) as [? ?]. split; [|done]. by eapply stored_le.
Qed.

Lemma update_witness_advances ek bk f w n s n' s' :
  (∀ v, witnesses s !! (ek, bk) = Some v → witness_le v (f (w n) v) ∧ w_state (f (w n) v) = w_state v) →
  update_witness ek bk f w (n, s) = (Ok (), (n', s')) → advances s s'.
Proof.
  intros Hf [H ->]%stmt_Ok. injection H as <-. destruct (witnesses s !! (ek, bk)) as [v|] eqn:Hv; [|reflexivity].
  destruct (Hf v eq_refl) as [Hle Hst].
  assert (Hw : map_le witness_le (witnesses s) (<[(ek, bk) := f (w n) v]> (witnesses s)))
    by (by eapply map_le_insert; eauto with typeclass_instances).
  split; [split_and!; [reflexivity|reflexivity|done]|]. intros [Hin Hex]. split.
  - intros kk bk' u Hu. simpl in *. apply lookup_insert_Some in Hu as [[[= <- <-] <-]|[_ Hu]]; [|by apply Hin in Hu].
    destruct (Hin _ _ _ Hv) as (x&Hx&?&Ho). exists x. rewrite Hst. split; [done|]. split; [done|].
    destruct Hle as [Href _]. unfold owned. by rewrite Href.
  - intros kk x Hx. simpl in *. destruct (Hex kk x Hx) as [? ?]. split; [|done]. by eapply stored_le; [reflexivity|..].
Qed.

(** Inserting the witnesses of a new execution. *)
Lemma insert_witness_Ok ek ref w n s n' s' :
  hash32 (PlanDigest ref) → hash32 (WireHash ref) → hash32 (MessageFingerprint ref) →
  insert_witness ek ref w (n, s) = (Ok (), (n', s')) →
  ∃ v, DecodeReference (w_reference v) = Ok ref ∧ w_state v = Prepared ∧
    witnesses s !! (ek, BranchKey (BranchID ref)) = None ∧
    s' = with_witnesses s (<[(ek, BranchKey (BranchID ref)) := v]> (witnesses s)).
Proof.
  intros H1 H2 H3 (data&n1&Hd&Hs)%bind_reads; [|auto with reads].
  injection Hd as Hd <-. apply stmt_Ok in Hs as [Hs ->].
  destruct (witnesses s !! _) eqn:Hn; [done|]. injection Hs as <-.
  eexists. split; [|split; [|split; [done|reflexivity]]]; [|reflexivity].
  simpl. by eapply codec_reference_back.
Qed.

(** What inserting the witnesses of [refs] leaves behind. *)
Definition witnessed (ek : bytes) (refs : list Reference) (m m' : gmap (bytes * bytes) WitnessRow) : Prop :=
  map_le witness_le m m' ∧
  (∀ kk v, m' !! kk = Some v → m !! kk = Some v ∨
     (kk.1 = ek ∧ w_state v = Prepared ∧ ∃ ref, ref ∈ refs ∧ DecodeReference (w_reference v) = Ok ref)) ∧
  Forall (λ ref, ∃ v, m' !! (ek, BranchKey (BranchID ref)) = Some v ∧
                      DecodeReference (w_reference v) = Ok ref) refs.

Lemma insert_witnesses_Ok ek refs w n s us n' s' :
  Forall (λ r, ref_Valid r = true ∧ hash32 (PlanDigest r) ∧ hash32 (WireHash r) ∧
               hash32 (MessageFingerprint r)) refs →
  for_each (insert_witness ek) refs w (n, s) = (Ok us, (n', s')) →
  bindings s' = bindings s ∧ requests s' = requests s ∧ execs s' = execs s ∧
  witnessed ek refs (witnesses s) (witnesses s').
Proof.
  intros Hr. revert n s us. induction Hr as [|ref refs (_&H1&H2&H3) _ IH]; intros n s us; simpl.
  { intros [= <- <- <-]. split_and!; try done. split_and!; [reflexivity|by auto|constructor]. }
  intros ([]&[n1 s1]&Hi&(us'&[n2 s2]&Hrest&[= <- <- <-])%bind_run)%bind_run.
  apply insert_witness_Ok in Hi as (v&Hd&Hp&Hn&->); [|done..].
  apply IH in Hrest as (?&?&?&Hle&Hnew&Hall). simpl in *. split_and!; try done.
  assert (Hle1 : map_le witness_le (witnesses s) (<[(ek, BranchKey (BranchID ref)) := v]> (witnesses s)))
    by (apply map_le_fresh; [apply _|done]).
  split_and!.
  - by etransitivity.
  - intros kk u Hu. apply Hnew in Hu as [Hu|(?&?&r&?&?)].
    2: { right. split; [done|]. split; [done|]. exists r. split; [by apply list_elem_of_further|done]. }
    apply lookup_insert_Some in Hu as [[<- <-]|[_ Hu]]; [right|by left].
    split; [done|]. split; [done|]. exists ref. split; [apply list_elem_of_here|done].
  - constructor; [|done].
    destruct (Hle (ek, BranchKey (BranchID ref)) v) as (u&Hu&Hur&_); [apply lookup_insert_eq|].
    exists u. split; [done|]. by rewrite Hur.
Qed.

Lemma references_owner e ref :
  plan_built (ex_Plan e) → 0 <= ex_Fence e → ref ∈ References e →
  Owner ref = p_Owner (plan_Input (ex_Plan e)).
Proof.
  intros Hp Hf Hin. destruct (References_guard e Hf) as [Hnil|[Hep Hr]]; [by rewrite Hnil in Hin; set_solver|].
  rewrite References_branches in Hin by done. apply list_elem_of_fmap in Hin as (br&->&_). done.
Qed.

(** A new execution, reserved under a key that was free. *)
Lemma insertExecution_advances r e w n s n' s' :
  plan_built (ex_Plan e) → 0 <= ex_Fence e →
  insertExecution r e w (n, s) = (Ok (), (n', s')) →
  bindings s' = bindings s ∧ requests s' = requests s ∧ execs s !! key e = None ∧
  (∃ x, execs s' = <[key e := x]> (execs s) ∧ x_state x = Prepared ∧ x_token x = ex_Token e ∧
        x_prepare_started x = false ∧ x_request_key x = KeyDigest r) ∧
  advances s s'.
Proof.
  intros Hp Hf (data&n1&Hd&Hr)%bind_reads; [|auto with reads]. injection Hd as Hd <-.
  apply bind_run in Hr as ([]&[n2 s2]&Hx&(us&[n3 s3]&Hw&[= <- <-])%bind_run).
  apply stmt_Ok in Hx as [Hx ->]. destruct (execs s !! key e) eqn:Hfree; [done|]. injection Hx as <-.
  apply insert_witnesses_Ok in Hw as (Hb&Hq&He&Hle&Hnew&Hall); [|by apply references_valid]. simpl in *.
  set (x := mkExecRow _ _ _ _ _ _ _ _ _ _ _) in *.
  assert (Hxle : map_le exec_le (execs s) (execs s3)).
  { rewrite He. apply map_le_fresh; [apply _|done]. }
  split_and!; [done|done|done|by exists x|].
  split; [split_and!; [by rewrite Hq|done|done]|]. intros [Hin Hex]. split.
  - intros kk bk v Hv. rewrite He. apply Hnew in Hv as [Hv|[Hk Hst]].
    + apply Hin in Hv as (y&Hy&?). exists y. rewrite lookup_insert_ne by congruence. done.
    + simpl in Hk. subst kk. exists x. rewrite lookup_insert_eq. destruct Hst as (?&ref&Hin'&Hdec).
      split; [done|]. split; [done|]. exists ref. split; [done|]. by eapply references_owner.
  - intros kk y Hy. rewrite He in Hy. apply lookup_insert_Some in Hy as [[<- <-]|[Hne Hy]].
    + split; [|by left]. exists (ex_Plan e). split; [done|]. split; [by eapply codec_plan_back|].
      split; [done|]. split; [done|]. simpl. by destruct e.
    + destruct (Hex kk y Hy) as [? ?]. split; [|done]. by eapply stored_le; [reflexivity|..].
Qed.

(** ** Operations *)

Lemma start_prepare_le x : exec_le x (start_prepare x) ∧ x_state (start_prepare x) = x_state x.
Proof. split; [|done]. unfold exec_le; simpl. split_and!; done. Qed.
Lemma bump_guard_le x : exec_le x (bump_guard x) ∧ x_state (bump_guard x) = x_state x.
Proof. split; [|done]. unfold exec_le; simpl. split_and!; done. Qed.

Lemma BeginPrepare_run b e w n s r n' s' :
  BeginPrepare b e w (n, s) = (r, (n', s')) →
  (s' = s ∧ r ≠ Ok ()) ∨
  ∃ x, execs s !! key e = Some x ∧ x_prepare_started x = false ∧ x_state x = Prepared ∧
       x_token x = ex_Token e ∧ s' = with_execs s (<[key e := start_prepare x]> (execs s)).
Proof.
  unfold BeginPrepare. destruct (_ || _); [intros [= <- _ <-]; by left|].
  intros [[-> Hr]|([]&n1&Hb&_)]%in_tx_run; [left; split; [done|by apply Hr]|right].
  apply bind_reads in Hb as (u0&n2&_&Hb); [|auto with reads].
  apply bind_run in Hb as (c&[n3 s3]&Hu&Hb). apply update_exec_Ok in Hu as [_ [[-> ->]|(->&x&Hx&Hp&->)]]; [done|].
  simpl in Hb. apply bind_reads in Hb as (y&n4&_&Hb); [|apply reads_query].
  apply bind_reads in Hb as (p&n5&_&Hb); [|auto with reads].
  assert (Hs : reads (S:=DB) (ensure (plan_Digest p == plan_Digest (ex_Plan e)) ErrStaleExecution)) by auto with reads.
  pose proof (reads_run _ _ _ _ _ _ _ Hs Hb) as ->. boolp. exists x. done.
Qed.

Lemma BeginPrepare_advances b e w n s : advances s (BeginPrepare b e w (n, s)).2.2.
Proof.
  destruct (BeginPrepare b e w (n, s)) as [r [n' s']] eqn:E. simpl.
  apply BeginPrepare_run in E as [[-> _]|(x&Hx&Hs&Hp&Ht&->)]; [reflexivity|].
  eapply (update_exec_advances (key e) (λ _ _, true) start_prepare (λ _, mkTick 0 None false "" (λ _, false)) 0%nat);
    [apply start_prepare_le|]. unfold update_exec, stmt. simpl. by rewrite Hx.
Qed.

Lemma abort_run b e expired w n s r n' s' :
  abort b e expired w (n, s) = (r, (n', s')) →
  (s' = s ∧ r ≠ Ok true) ∨
  ∃ x, execs s !! key e = Some x ∧ x_state x = Prepared ∧ x_token x = ex_Token e ∧
       s' = terminated s (key e) (bump_guard (set_state Aborted x)).
Proof.
  unfold abort. destruct (_ || _); [intros [= <- _ <-]; by left|].
  unfold mbind at 1, M_bind at 1.
  destruct (in_tx_opt _ _ w (n, s)) as [r0 [n0 s0]] eqn:Htx. intros H.
  assert (Hs : s' = s0 ∧ (r = Ok true → ∃ u, r0 = Ok (Some u))).
  { destruct r0 as [[u|]|err]; injection H as <- _ <-; split; eauto; try done; by intros [=]. }
  destruct Hs as [-> Hr]. clear H.
  apply in_tx_opt_run in Htx as [[-> Hn]|([]&n1&Hb&_)].
  { left. split; [done|]. intros [u ->]%Hr. by apply (Hn u). }
  right. apply bind_reads in Hb as (u0&n2&_&Hb); [|auto with reads].
  apply bind_run in Hb as (c&[n3 s3]&Hu&Hb). apply update_exec_Ok in Hu as [_ [[-> ->]|(->&x&Hx&Hp&->)]]; [done|].
  simpl in Hb. apply bind_run in Hb as (m&[n4 s4]&Hw&Hb). apply settle_witnesses_Ok in Hw as [_ ->].
  destruct (_ =? _); [|done]. injection Hb as _ <-. boolp. by exists x.
Qed.

Lemma abort_terminates s e x :
  execs s !! key e = Some x → x_state x = Prepared →
  advances s (terminated s (key e) (bump_guard (set_state Aborted x))).
Proof.
  intros Hx Hp. eapply terminated_advances; [done|done| |by right].
  unfold exec_le; simpl. split_and!; try done. by right.
Qed.

Lemma abort_advances b e expired w n s : advances s (abort b e expired w (n, s)).2.2.
Proof.
  destruct (abort b e expired w (n, s)) as [r [n' s']] eqn:E. simpl.
  apply abort_run in E as [[-> _]|(x&Hx&Hp&_&->)]; [reflexivity|by apply abort_terminates].
Qed.

Lemma for_each_advances {A B} (f : A → M DB B) l w n s :
  (∀ x w n s, advances s (f x w (n, s)).2.2) → advances s (for_each f l w (n, s)).2.2.
Proof.
  intros Hf. revert n s. induction l as [|x l IH]; intros n s; [reflexivity|]. simpl.
  unfold mbind, M_bind. pose proof (Hf x w n s) as Hx.
  destruct (f x w (n, s)) as [[y|e] [n1 s1]]; simpl in *; [|done].
  specialize (IH n1 s1). destruct (for_each f l w (n1, s1)) as [[ys|e] [n2 s2]]; simpl in *;
    by transitivity s1.
Qed.

Lemma ReconcileOnce_advances b limit w n s : advances s (ReconcileOnce b limit w (n, s)).2.2.
Proof.
  unfold ReconcileOnce. destruct (_ || _); [reflexivity|].
  unfold mbind at 1, M_bind at 1.
  destruct (query _ w (n, s)) as [rr [n1 s1]] eqn:Hq.
  pose proof (reads_run _ _ _ _ _ _ _ (reads_query _) Hq) as ->.
  destruct rr as [rows|e]; [|reflexivity]. unfold mbind at 1, M_bind at 1, liftR.
  destruct (rmap_list scanExecution rows) as [es|e]; [|reflexivity].
  unfold mbind, M_bind. pose proof (for_each_advances (λ es, abort b es.1 true) es w n1 s) as Hf.
  destruct (for_each _ _ _ _) as [[oks|e] [n2 s2]]; simpl in *; apply Hf; intros; apply abort_advances.
Qed.

Lemma CommitWitness_run e w n s g n' s' :
  CommitWitness (mkGuard e false) w (n, s) = (Ok g, (n', s')) →
  ∃ x, execs s !! key e = Some x ∧ x_state x = Prepared ∧ x_token x = ex_Token e ∧
       s' = terminated s (key e) (set_state Committed x).
Proof.
  unfold CommitWitness; simpl. intros (m&[n1 s1]&Hw&Hr)%bind_run.
  apply settle_witnesses_Ok in Hw as [_ ->]. destruct (negb _); [done|].
  apply bind_run in Hr as (c&[n2 s2]&Hu&Hr). apply update_exec_Ok in Hu as [_ [[-> ->]|(->&x&Hx&Hp&->)]]; [done|].
  injection Hr as _ _ <-. simpl in Hx. boolp. by exists x.
Qed.

Lemma Bind_run b e w n s g n' s' :
  Bind b e w (n, s) = (Ok g, (n', s')) →
  g = mkGuard e false ∧ (p_Owner (plan_input (ex_Plan e)) = bn_Owner b) ∧ execution_Valid e = true ∧
  ∃ x, execs s !! key e = Some x ∧ x_state x = Prepared ∧ x_token x = ex_Token e ∧
    s' = with_execs s (<[key e := bump_guard x]> (execs s)) ∧
    Forall (λ ref, ∃ v, witnesses s !! (key e, BranchKey (BranchID ref)) = Some v ∧
              DecodeReference (w_reference v) = Ok ref ∧ w_state v = Prepared) (References e).
Proof.
  unfold Bind. destruct (_ || _) eqn:Hg; [done|]. boolp.
  intros (u0&n1&_&Hr)%bind_reads; [|auto with reads].
  apply bind_run in Hr as (c&[n2 s2]&Hu&Hr). apply update_exec_Ok in Hu as [_ [[-> ->]|(->&x&Hx&Hp&->)]]; [done|].
  simpl in Hr. apply bind_reads in Hr as (y&n3&_&Hr); [|apply reads_query].
  apply bind_reads in Hr as (p&n4&_&Hr); [|auto with reads].
  apply bind_reads in Hr as (u1&n5&_&Hr); [|auto with reads].
  apply bind_reads in Hr as (us&n6&Hc&Hr); [|apply reads_for_each; intros; auto with reads].
  injection Hr as <- _ <-. split_and!; [done|done|done|]. boolp. exists x. split_and!; try done.
  assert (Hall : ∀ refs us n k s, for_each (check_witness (key e)) refs w (n, s) = (Ok us, (k, s)) →
    Forall (λ ref, ∃ v, witnesses s !! (key e, BranchKey (BranchID ref)) = Some v ∧
              DecodeReference (w_reference v) = Ok ref ∧ w_state v = Prepared) refs).
  { clear. intros refs. induction refs as [|ref refs IH]; intros us n k s; [constructor|]. simpl.
    intros ([]&m&H1&H2)%bind_reads; [|auto with reads].
    apply bind_reads in H2 as (us'&m'&H2&[= _ <-]); [|apply reads_for_each; intros; auto with reads].
    constructor; [|by eapply IH]. unfold check_witness in H1.
    apply bind_run in H1 as (v&[m1 s1]&Hv&H1). apply select_witness_Ok in Hv as (->&_&Hv).
    exists v. split; [done|]. destruct (DecodeReference (w_reference v)) as [a|]; [|done].
    destruct ((a == ref) && (w_state v == Prepared)) eqn:Hb; [|done]. boolp. by subst. }
  exact (Hall _ _ _ _ _ Hc).
Qed.

(** The host's root transaction: nothing, or the whole terminal step. *)
Lemma host_transaction_run b e business w n s r n' s' :
  host_transaction b e business w (n, s) = (r, (n', s')) →
  (s' = s ∧ r ≠ Ok ()) ∨
  (business = Ok () ∧ execution_Valid e = true ∧ p_Owner (plan_input (ex_Plan e)) = bn_Owner b ∧
   ∃ x, execs s !! key e = Some x ∧ x_state x = Prepared ∧ x_token x = ex_Token e ∧
     s' = terminated s (key e) (set_state Committed (bump_guard x)) ∧
     Forall (λ ref, ∃ v, witnesses s !! (key e, BranchKey (BranchID ref)) = Some v ∧
               DecodeReference (w_reference v) = Ok ref ∧ w_state v = Prepared) (References e)).
Proof.
  intros [[-> Hr]|([]&n1&Hb&_)]%in_tx_run; [left; split; [done|by apply Hr]|right].
  apply bind_run in Hb as (g&[n2 s2]&Hbind&Hb).
  apply Bind_run in Hbind as (->&Ho&Hv&x&Hx&Hp&Ht&->&Hall).
  apply bind_reads in Hb as ([]&n3&Hbus&Hb); [|auto with reads]. injection Hbus as -> _.
  apply bind_run in Hb as (g&[n4 s4]&Hc&[= _ <-]). apply CommitWitness_run in Hc as (y&Hy&_&_&->).
  simpl in Hy. rewrite lookup_insert_eq in Hy. injection Hy as <-.
  split_and!; try done. exists x. split_and!; try done.
  unfold terminated. simpl. by rewrite insert_insert_eq.
Qed.

Lemma commit_terminates s k x :
  execs s !! k = Some x → x_state x = Prepared →
  advances s (terminated s k (set_state Committed (bump_guard x))).
Proof.
  intros Hx Hp. eapply terminated_advances; [done|done| |by left].
  unfold exec_le; simpl. split_and!; try done. by right.
Qed.

Lemma host_transaction_advances b e business w n s :
  advances s (host_transaction b e business w (n, s)).2.2.
Proof.
  destruct (host_transaction b e business w (n, s)) as [r [n' s']] eqn:E. simpl.
  apply host_transaction_run in E as [[-> _]|(_&_&_&x&Hx&Hp&_&->&_)]; [reflexivity|by apply commit_terminates].
Qed.

Lemma with_requests_advances s m : map_le request_le (requests s) m → advances s (with_requests s m).
Proof. intros Hm. split; [split_and!; [done|reflexivity|reflexivity]|]. done. Qed.

Lemma insert_request_Ok r ek w n s b n' s' :
  insert_request r ek w (n, s) = (Ok b, (n', s')) →
  if b then requests s !! KeyDigest r = None ∧
    s' = with_requests s (<[KeyDigest r := mkRequestRow (rq_Owner r) (rq_Scope r) (rq_Key r) (rq_InputHash r) ek]> (requests s))
  else True.
Proof.
  unfold insert_request. intros (ins&[n1 s1]&Hi&Hr)%bind_run. unfold catch in Hi.
  destruct (stmt _ w (n, s)) as [[[]|e] [n2 s2]] eqn:E; injection Hi as <- <- <-.
  - injection Hr as <- <- <-. apply stmt_Ok in E as [E ->].
    destruct (requests s !! _); [done|]. by injection E as <-.
  - destruct (errors_is _ _); [|done]. by injection Hr as <- <- <-.
Qed.

Lemma Lookup_Acquired b r w n s v n' s' :
  Lookup b r w (n, s) = (Ok v, (n', s')) → Acquired v = false.
Proof.
  unfold Lookup. destruct (_ || _); [done|]. intros (res&[n1 s1]&Hc&Hr)%bind_run.
  unfold catch at 1 in Hc. destruct (in_read_tx _ w (n, s)) as [r0 [n0 s0]] eqn:Htx. injection Hc as <- <- <-.
  destruct r0 as [[u|e]|e]; [|by destruct (errors_is _ _)|done]. injection Hr as -> _ _.
  unfold in_read_tx in Htx. destruct (t_fault (w n)); [done|].
  destruct ((bindingIn b false ≫= _) w _) as [r1 [m1 t1]] eqn:Hb. injection Htx as -> <- <-.
  apply bind_run in Hb as (u0&[m2 t2]&_&Hl). unfold catch in Hl.
  destruct (lookupIn r w _) as [r2 [m3 t3]] eqn:Hlk. injection Hl as -> <- <-.
  apply bind_reads in Hlk as (q&m4&_&Hlk); [|apply reads_query].
  destruct (_ || _); [done|]. destruct (_ != _); [done|].
  apply bind_reads in Hlk as (x&m5&_&Hlk); [|apply reads_query].
  apply bind_reads in Hlk as ([e st]&m6&_&Hlk); [|auto with reads].
  apply bind_reads in Hlk as (u1&m7&_&[= <- _]); [|auto with reads]. done.
Qed.

(** A reservation that was won. *)
Lemma Reserve_run b r p lease w n s res n' s' :
  plan_built p → Reserve b r p lease w (n, s) = (res, (n', s')) →
  (s' = s ∧ ∀ v, res = Ok v → Acquired v = false) ∨
  (requests s !! KeyDigest r = None ∧
   ∃ e x q, ex_Plan e = p ∧ ex_Fence e = 1 ∧ execs s !! key e = None ∧ execs s' !! key e = Some x ∧
     x_state x = Prepared ∧ x_token x = ex_Token e ∧ x_request_key x = KeyDigest r ∧
     execs s' = <[key e := x]> (execs s) ∧
     requests s' = <[KeyDigest r := q]> (requests s) ∧ q_active q = key e ∧
     advances s s' ∧ ∀ v, res = Ok v → v = mkReservation e true Prepared).
Proof.
  intros Hp. unfold Reserve. destruct (_ || _); [intros [= <- _ <-]; by left|].
  unfold mbind at 1, M_bind at 1, liftR. destruct (Match r p); [|intros [= <- _ <-]; by left].
  unfold mbind at 1, M_bind at 1.
  destruct (in_tx_opt _ _ w (n, s)) as [r0 [n0 s0]] eqn:Htx. intros H.
  apply in_tx_opt_run in Htx as [[-> Hn]|(e&n1&Hb&Hres)].
  - left. destruct r0 as [[u|]|err]; [by destruct (Hn u)| |by injection H as <- _ <-].
    pose proof (reads_run _ _ _ _ _ _ _ (reads_Lookup b r) H) as ->. split; [done|].
    intros v ->. by eapply Lookup_Acquired.
  - right. assert (Hs' : s' = s0 ∧ ∀ v, res = Ok v → v = mkReservation e true Prepared).
    { destruct r0 as [u|err]; [|by injection H as <- _ <-]. rewrite (Hres u eq_refl) in H.
      injection H as <- _ <-. split; [done|]. by intros v [= <-]. }
    destruct Hs' as [-> Hv].
    apply bind_reads in Hb as (u0&n2&_&Hb); [|auto with reads].
    apply bind_reads in Hb as (e0&n3&He&Hb); [|auto with reads].
    apply bind_run in Hb as (fresh&[n4 s4]&Hi&Hb). destruct fresh; [|done].
    apply insert_request_Ok in Hi as [Hfree ->].
    apply bind_run in Hb as ([]&[n5 s5]&Hx&[= -> _ ->]).
    assert (Hpe : ex_Plan e = p ∧ ex_Fence e = 1).
    { unfold newExecution in He. apply bind_reads in He as (tok&m1&_&He); [|apply reads_query].
      apply bind_reads in He as (now&m2&_&[= <- _]); [|apply reads_query]. done. }
    destruct Hpe as [Hpe Hf].
    apply insertExecution_advances in Hx as (_&Hq&Hnone&(x&Hexs&?&?&_&?)&Hadv); [|by rewrite Hpe|lia].
    split; [done|]. simpl in *. eexists e, x, _. split_and!; [done|done|done|by rewrite Hexs, lookup_insert_eq|done|done|done|exact Hexs|exact Hq|done| |done].
    etransitivity; [|exact Hadv]. apply with_requests_advances, map_le_fresh; [apply _|done].
Qed.

Lemma lookupIn_Ok r w n s res n' s' :
  lookupIn r w (n, s) = (Ok res, (n', s')) →
  ∃ q x e, requests s !! KeyDigest r = Some q ∧ execs s !! q_active q = Some x ∧
    scanExecution x = Ok (e, x_state x) ∧ res = mkReservation (no_token e) false (x_state x).
Proof.
  intros (q&m1&Hq&Hr)%bind_reads; [|apply reads_query].
  apply stmt_Ok in Hq as [(q'&Hq&[= ->])%rbind_Ok _]. destruct (requests s !! _) as [q0|] eqn:Hreq; [|done].
  injection Hq as ->. destruct (_ || _); [done|]. destruct (_ != _); [done|].
  apply bind_reads in Hr as (x&m2&Hx&Hr); [|apply reads_query]. apply select_exec_Ok in Hx as (_&_&Hx).
  apply bind_reads in Hr as ([e st]&m3&He&Hr); [|auto with reads]. injection He as He <-.
  apply bind_reads in Hr as (u&m4&_&[= <- _ _]); [|auto with reads].
  exists q, x, e. split_and!; try done.
  - rewrite He. f_equal. f_equal. unfold scanExecution in He. apply rbind_Ok in He as (p&_&He). by case_match; simplify_eq.
  - f_equal. unfold scanExecution in He. apply rbind_Ok in He as (p&_&He). by case_match; simplify_eq.
Qed.

(** The key of a scanned row is the key it is stored under. *)
Lemma scan_key s k x e st :
  db_ok s → execs s !! k = Some x → scanExecution x = Ok (e, st) → key (no_token e) = k ∧ key e = k.
Proof.
  intros [_ Hex] Hx Hsc. destruct (Hex k x Hx) as [(p&_&Hd&->&_) _].
  unfold scanExecution in Hsc. rewrite Hd in Hsc. simpl in Hsc. case_match; [done|]. by simplify_eq.
Qed.

Lemma advance_run b previous p lease replan w n s res n' s' :
  plan_built p → 0 <= ex_Fence previous →
  advance b previous p lease replan w (n, s) = (res, (n', s')) →
  (s' = s ∧ ∀ v, res ≠ Ok v) ∨
  ∃ x q e y, requests s !! KeyDigest (RequestFor (ex_Plan previous)) = Some q ∧
    execs s !! q_active q = Some x ∧ x_state x = Aborted ∧ (db_ok s → q_active q = key previous) ∧
    ex_Plan e = p ∧ ex_Fence e = ex_Fence previous + 1 ∧ execs s !! key e = None ∧
    execs s' !! key e = Some y ∧ x_state y = Prepared ∧ x_token y = ex_Token e ∧
    x_request_key y = KeyDigest (RequestFor (ex_Plan previous)) ∧ execs s' = <[key e := y]> (execs s) ∧
    requests s' = alter (λ q, mkRequestRow (q_owner q) (q_scope q) (q_key q) (q_input_hash q) (key e))
                    (KeyDigest (RequestFor (ex_Plan previous))) (requests s) ∧
    advances s s' ∧ ∀ v, res = Ok v → v = mkReservation e true Prepared.
Proof.
  intros Hp Hf. unfold advance. destruct (_ || _); [intros [= <- _ <-]; by left|].
  destruct (_ != _); [intros [= <- _ <-]; by left|].
  unfold mbind at 1, M_bind at 1, liftR at 1. destruct (Match _ p); [|intros [= <- _ <-]; by left].
  destruct (replan && _); [intros [= <- _ <-]; by left|].
  unfold mbind at 1, M_bind at 1.
  destruct (in_tx _ w (n, s)) as [r0 [n0 s0]] eqn:Htx. intros H.
  apply in_tx_run in Htx as [[-> Hn]|(e&n1&Hb&Hres)].
  { left. destruct r0 as [u|err]; [by destruct (Hn u)|by injection H as <- _ <-]. }
  right. assert (Hs' : s' = s0 ∧ ∀ v, res = Ok v → v = mkReservation e true Prepared).
  { destruct r0 as [u|err]; injection H as <- _ <-; split; try done.
    intros v [= <-]. by rewrite (Hres u eq_refl). }
  destruct Hs' as [-> Hv].
  apply bind_reads in Hb as (u0&n2&_&Hb); [|auto with reads].
  apply bind_reads in Hb as (cur&n3&Hl&Hb); [|auto with reads].
  apply lookupIn_Ok in Hl as (q&x&ec&Hq&Hx&Hsc&->).
  destruct (_ || _) eqn:Hg; [done|]. cbn [rs_State rs_Execution] in Hg. boolp.
  apply bind_reads in Hb as (evs&n4&_&Hb); [|apply reads_for_each; auto with reads].
  apply bind_reads in Hb as (u1&n5&_&Hb); [|auto with reads].
  apply bind_reads in Hb as (e0&n6&He&Hb); [|auto with reads].
  apply bind_run in Hb as ([]&[n7 s7]&Hins&Hb). apply bind_run in Hb as ([]&[n8 s8]&Hup&[= -> _ ->]).
  apply stmt_Ok in Hup as [[= <-] _].
  assert (Hpe : ex_Plan e = p ∧ ex_Fence e = ex_Fence previous + 1).
  { unfold newExecution in He. apply bind_reads in He as (tok&m1&_&He); [|apply reads_query].
    apply bind_reads in He as (now&m2&_&[= <- _]); [|apply reads_query]. done. }
  destruct Hpe as [Hpe Hfe].
  apply insertExecution_advances in Hins as (_&Hq7&Hnone&(y&Hexs&?&?&_&?)&Hadv); [|by rewrite Hpe|lia].
  assert (Hadv' : advances s (with_requests s7 (alter (λ q, mkRequestRow (q_owner q) (q_scope q)
      (q_key q) (q_input_hash q) (key e)) (KeyDigest (RequestFor (ex_Plan previous))) (requests s7)))).
  { etransitivity; [exact Hadv|]. apply with_requests_advances. intros k v Hk. rewrite lookup_alter.
    destruct (decide (KeyDigest (RequestFor (ex_Plan previous)) = k)) as [->|?]; [|exists v; by split].
    rewrite Hk. simpl. eexists. split; [done|]. done. }
  exists x, q, e, y. refine (conj Hq (conj Hx (conj _ (conj _ (conj Hpe (conj Hfe (conj Hnone (conj _
    (conj _ (conj _ (conj _ (conj Hexs (conj _ (conj Hadv' Hv)))))))))))))); try assumption.
  - intros Hok. destruct (scan_key _ _ _ _ _ Hok Hx Hsc) as [<- _]. assumption.
  - cbn [with_requests execs]. by rewrite Hexs, lookup_insert_eq.
  - cbn [with_requests requests]. by rewrite Hq7.
Qed.

(** ** Receipts *)

Lemma receiptTx_advances b e ref fn w n s :
  (∀ x v n1 n2 s', execs s !! key e = Some x →
     witnesses s !! (key e, BranchKey (BranchID ref)) = Some v → w_state v = x_state x →
     fn (key e) (BranchKey (BranchID ref)) (x_state x) w (n1, s) = (Ok (), (n2, s')) → advances s s') →
  advances s (receiptTx b e ref fn w (n, s)).2.2.
Proof.
  intros Hfn. destruct (receiptTx b e ref fn w (n, s)) as [r [n' s']] eqn:E. simpl. revert E.
  unfold receiptTx. destruct (_ || _); [intros [= _ _ <-]; reflexivity|].
  intros [[-> _]|([]&n1&Hb&_)]%in_tx_run; [reflexivity|].
  apply bind_reads in Hb as (u0&n2&_&Hb); [|auto with reads].
  apply bind_reads in Hb as (x&n3&Hx&Hb); [|apply reads_query]. apply select_exec_Ok in Hx as (_&_&Hx).
  destruct (_ != _); [done|].
  apply bind_reads in Hb as (v&n4&Hv&Hb); [|apply reads_query]. apply select_witness_Ok in Hv as (_&_&Hv).
  apply bind_reads in Hb as (a&n5&_&Hb); [|auto with reads].
  destruct (_ || _) eqn:Hg; [done|]. boolp. by eapply Hfn.
Qed.

Lemma set_half_le h t v : witness_le v (set_half h t v) ∧ w_state (set_half h t v) = w_state v.
Proof. split; [|done]. split_and!; done. Qed.

Lemma set_final_le f code t v :
  final_conflict (w_final_outcome v) f = false →
  witness_le v (set_final f code t v) ∧ w_state (set_final f code t v) = w_state v.
Proof.
  intros Hc. split; [|done]. split_and!; [done|by left|]. simpl. unfold final_conflict, final_le in *.
  destruct (decide (w_final_outcome v = FinalNotAttempted)); [by left|].
  destruct (decide (w_final_outcome v = FinalUnknown)); [by right; left|].
  rewrite !bool_decide_eq_false_2 in Hc by done. simpl in Hc. boolp. by right; right.
Qed.

Lemma RecordHalf_advances b e ref h w n s : advances s (RecordHalf b e ref h w (n, s)).2.2.
Proof.
  unfold RecordHalf. destruct (negb _); [reflexivity|]. apply receiptTx_advances.
  intros x v n1 n2 s' Hx Hv Hst. destruct (_ != _); [done|].
  intros (v'&n3&_&Hb)%bind_reads; [|apply reads_query]. destruct (_ || _); [done|].
  eapply update_witness_advances; [|exact Hb]. intros u _. apply set_half_le.
Qed.

Lemma RecordFinal_advances b e ref f code w n s : advances s (RecordFinal b e ref f code w (n, s)).2.2.
Proof.
  unfold RecordFinal. destruct (negb _); [reflexivity|]. apply receiptTx_advances.
  intros x v n1 n2 s' Hx Hv Hst. destruct (_ && _); [done|]. destruct (_ || _); [done|].
  intros (v'&n3&Hv'&Hb)%bind_reads; [|apply reads_query]. apply select_witness_Ok in Hv' as (_&_&Hv').
  destruct (final_conflict _ _) eqn:Hc; [done|].
  eapply update_witness_advances; [|exact Hb]. intros u Hu. simplify_eq. by apply set_final_le.
Qed.

Lemma RecordRecoveryFinal_advances b ref f w n s : advances s (RecordRecoveryFinal b ref f w (n, s)).2.2.
Proof.
  unfold RecordRecoveryFinal. unfold mbind at 1, M_bind at 1, liftR at 1.
  destruct (RecoveryFinalState f) as [st|]; [|reflexivity]. destruct (_ || _); [reflexivity|].
  destruct (in_tx _ w (n, s)) as [r [n' s']] eqn:E. simpl.
  apply in_tx_run in E as [[-> _]|([]&n1&Hb&_)]; [reflexivity|].
  apply bind_reads in Hb as (u0&n2&_&Hb); [|auto with reads].
  apply bind_reads in Hb as (x&n3&_&Hb); [|apply reads_query]. destruct (_ || _); [done|].
  apply bind_reads in Hb as (v&n4&Hv&Hb); [|apply reads_query]. apply select_witness_Ok in Hv as (_&_&Hv).
  apply bind_reads in Hb as (a&n5&_&Hb); [|auto with reads]. destruct (_ || _) eqn:Hg; [done|]. boolp.
  destruct (_ == _); [by injection Hb as _ <-|].
  eapply update_witness_advances; [|exact Hb]. intros u Hu. simplify_eq. by apply set_final_le.
Qed.

End txmysqlfacts.
