(* ===== verification/TxProtocol.v ===== *)
(** * storage/transaction/mysql: the protocol over time

    Any number of processes, each with its own binding, run the store's
    operations against one database in any order and with any driver faults:
    the step relation [tx_step].  The theorems are about what checkers, hosts
    and retries can observe along such runs. *)

From S2P Require Import Prelude GoStd Database Message Transaction TxCodec TxMySQL TxMySQLFacts.

Module txprotocol.
Import transaction codec txmysql txmysqlfacts.

Definition empty_db : DB := mkDB ∅ ∅ ∅ ∅.

(** One operation of one process; [step_binding] is the deployment changing the
    bindings table. *)
Inductive tx_step (s : DB) : DB → Prop :=
| step_reserve b r p lease w n : plan_built p → tx_step s (Reserve b r p lease w (n, s)).2.2
| step_advance b e p lease replan w n :
    plan_built p → 0 <= ex_Fence e → tx_step s (advance b e p lease replan w (n, s)).2.2
| step_prepare b e w n : tx_step s (BeginPrepare b e w (n, s)).2.2
| step_abort b e expired w n : tx_step s (abort b e expired w (n, s)).2.2
| step_reconcile b limit w n : tx_step s (ReconcileOnce b limit w (n, s)).2.2
| step_host b e business w n : tx_step s (host_transaction b e business w (n, s)).2.2
| step_half b e ref h w n : tx_step s (RecordHalf b e ref h w (n, s)).2.2
| step_final b e ref f code w n : tx_step s (RecordFinal b e ref f code w (n, s)).2.2
| step_recovery b ref f w n : tx_step s (RecordRecoveryFinal b ref f w (n, s)).2.2
| step_binding m : tx_step s (mkDB m (requests s) (execs s) (witnesses s)).

Lemma tx_step_advances s s' : tx_step s s' → advances s s'.
Proof.
  destruct 1.
  - destruct (Reserve b r p lease w (n, s)) as [res [n' s']] eqn:E. simpl.
    by apply Reserve_run in E as [[-> _]|(_&e&x&q&_&_&_&_&_&_&_&_&_&_&?&_)].
  - destruct (advance b e p lease replan w (n, s)) as [res [n' s']] eqn:E. simpl.
    by apply advance_run in E as [[-> _]|(x&q&e'&y&_&_&_&_&_&_&_&_&_&_&_&_&_&?&_)].
  - apply BeginPrepare_advances.
  - apply abort_advances.
  - apply ReconcileOnce_advances.
  - apply host_transaction_advances.
  - apply RecordHalf_advances.
  - apply RecordFinal_advances.
  - apply RecordRecoveryFinal_advances.
  - split; [split_and!; reflexivity|]. done.
Qed.

Lemma tx_steps_advance s s' : rtc tx_step s s' → advances s s'.
Proof. induction 1 as [|a b c Hab _ IH]; [done|]. transitivity b; [by apply tx_step_advances|done]. Qed.

Lemma empty_db_ok : db_ok empty_db.
Proof. split; [intros k bk v|intros k x]; simpl; by rewrite lookup_empty. Qed.

Lemma reachable_ok s : rtc tx_step empty_db s → db_ok s.
Proof. intros [_ H]%tx_steps_advance. apply H, empty_db_ok. Qed.

(** ** One active execution per request *)

(** Operations that neither reserve nor advance. *)
Definition quiet (s s' : DB) : Prop :=
  requests s' = requests s ∧
  ∀ k y, execs s' !! k = Some y → ∃ x, execs s !! k = Some x ∧ exec_le x y.

#[global] Instance quiet_preorder : PreOrder quiet.
Proof.
  split; [intros s; split; [done|]; intros k y ?; by exists y|].
  intros a b c [Hab Ha] [Hbc Hb]. split; [congruence|].
  intros k z (y&(x&?&?)%Ha&?)%Hb. exists x. split; [done|by etransitivity].
Qed.

Lemma quiet_insert s s' k x y :
  requests s' = requests s → execs s' = <[k := y]> (execs s) → execs s !! k = Some x → exec_le x y →
  quiet s s'.
Proof.
  intros Hr He Hx Hle. split; [done|]. intros j z. rewrite He.
  intros [[<- <-]|[_ Hz]]%lookup_insert_Some; [by exists x|by exists z].
Qed.

Lemma quiet_same s s' : requests s' = requests s → execs s' = execs s → quiet s s'.
Proof. intros Hr He. split; [done|]. rewrite He. intros k y Hy. by exists y. Qed.

Lemma BeginPrepare_quiet b e w n s : quiet s (BeginPrepare b e w (n, s)).2.2.
Proof.
  destruct (BeginPrepare b e w (n, s)) as [r [n' s']] eqn:E. simpl.
  apply BeginPrepare_run in E as [[-> _]|(x&Hx&_&_&_&->)]; [done|].
  eapply quiet_insert; [done|done|done|apply start_prepare_le].
Qed.

Lemma abort_quiet b e expired w n s : quiet s (abort b e expired w (n, s)).2.2.
Proof.
  destruct (abort b e expired w (n, s)) as [r [n' s']] eqn:E. simpl.
  apply abort_run in E as [[-> _]|(x&Hx&Hp&_&->)]; [done|].
  eapply quiet_insert; [done|done|done|]. unfold exec_le; simpl. split_and!; try done. by right.
Qed.

Lemma for_each_quiet {A B} (f : A → M DB B) l w n s :
  (∀ x w n s, quiet s (f x w (n, s)).2.2) → quiet s (for_each f l w (n, s)).2.2.
Proof.
  intros Hf. revert n s. induction l as [|x l IH]; intros n s; [reflexivity|]. simpl.
  unfold mbind, M_bind. pose proof (Hf x w n s) as Hx.
  destruct (f x w (n, s)) as [[y|e] [n1 s1]]; simpl in *; [|done].
  specialize (IH n1 s1). destruct (for_each f l w (n1, s1)) as [[ys|e] [n2 s2]]; simpl in *;
    by transitivity s1.
Qed.

Lemma ReconcileOnce_quiet b limit w n s : quiet s (ReconcileOnce b limit w (n, s)).2.2.
Proof.
  unfold ReconcileOnce. destruct (_ || _); [reflexivity|]. unfold mbind at 1, M_bind at 1.
  destruct (query _ w (n, s)) as [rr [n1 s1]] eqn:Hq.
  pose proof (reads_run _ _ _ _ _ _ _ (reads_query _) Hq) as ->.
  destruct rr as [rows|e]; [|reflexivity]. unfold mbind at 1, M_bind at 1, liftR.
  destruct (rmap_list scanExecution rows) as [es|e]; [|reflexivity].
  unfold mbind, M_bind. pose proof (for_each_quiet (λ es, abort b es.1 true) es w n1 s) as Hf.
  destruct (for_each _ _ _ _) as [[oks|e] [n2 s2]]; simpl in *; apply Hf; intros; apply abort_quiet.
Qed.

Lemma host_transaction_quiet b e business w n s : quiet s (host_transaction b e business w (n, s)).2.2.
Proof.
  destruct (host_transaction b e business w (n, s)) as [r [n' s']] eqn:E. simpl.
  apply host_transaction_run in E as [[-> _]|(_&_&_&x&Hx&Hp&_&->&_)]; [done|].
  eapply quiet_insert; [done|done|done|]. unfold exec_le; simpl. split_and!; try done. by right.
Qed.

(** Receipts touch witness rows only. *)
Definition rows_kept (s s' : DB) : Prop := requests s' = requests s ∧ execs s' = execs s.
Lemma rows_kept_quiet s s' : rows_kept s s' → quiet s s'.
Proof. intros [? ?]. by apply quiet_same. Qed.

Lemma update_witness_kept ek bk f w n s r n' s' :
  update_witness ek bk f w (n, s) = (Ok r, (n', s')) → rows_kept s s'.
Proof. intros [H ->]%stmt_Ok. injection H as _ <-. by destruct (witnesses s !! _). Qed.

Lemma in_tx_kept {A} (c : M DB A) w n s :
  (∀ n1 a n2 s', c w (n1, s) = (Ok a, (n2, s')) → rows_kept s s') → rows_kept s (in_tx c w (n, s)).2.2.
Proof.
  intros Hc. destruct (in_tx c w (n, s)) as [r [n' s']] eqn:E. simpl.
  by apply in_tx_run in E as [[-> _]|(a&n1&?%Hc&_)].
Qed.

Lemma receiptTx_kept b e ref fn w n s :
  (∀ ek bk st n1 n2 s', fn ek bk st w (n1, s) = (Ok (), (n2, s')) → rows_kept s s') →
  rows_kept s (receiptTx b e ref fn w (n, s)).2.2.
Proof.
  intros Hfn. unfold receiptTx. destruct (_ || _); [done|]. apply in_tx_kept.
  intros n1 [] n2 s' Hb. apply bind_reads in Hb as (u0&n3&_&Hb); [|auto with reads].
  apply bind_reads in Hb as (x&n4&_&Hb); [|apply reads_query]. destruct (_ != _); [done|].
  apply bind_reads in Hb as (v&n5&_&Hb); [|apply reads_query].
  apply bind_reads in Hb as (a&n6&_&Hb); [|auto with reads]. destruct (_ || _); [done|by eapply Hfn].
Qed.

Lemma RecordHalf_kept b e ref h w n s : rows_kept s (RecordHalf b e ref h w (n, s)).2.2.
Proof.
  unfold RecordHalf. destruct (negb _); [done|]. apply receiptTx_kept.
  intros ek bk st n1 n2 s' Hb. destruct (_ != _); [done|].
  apply bind_reads in Hb as (v&n3&_&Hb); [|apply reads_query]. destruct (_ || _); [done|].
  by eapply update_witness_kept.
Qed.

Lemma RecordFinal_kept b e ref f code w n s : rows_kept s (RecordFinal b e ref f code w (n, s)).2.2.
Proof.
  unfold RecordFinal. destruct (negb _); [done|]. apply receiptTx_kept.
  intros ek bk st n1 n2 s' Hb. destruct (_ && _); [done|]. destruct (_ || _); [done|].
  apply bind_reads in Hb as (v&n3&_&Hb); [|apply reads_query]. destruct (final_conflict _ _); [done|].
  by eapply update_witness_kept.
Qed.

Lemma RecordRecoveryFinal_kept b ref f w n s : rows_kept s (RecordRecoveryFinal b ref f w (n, s)).2.2.
Proof.
  unfold RecordRecoveryFinal. unfold mbind at 1, M_bind at 1, liftR at 1.
  destruct (RecoveryFinalState f) as [st|]; [|done]. destruct (_ || _); [done|].
  apply in_tx_kept. intros n1 [] n2 s' Hb.
  apply bind_reads in Hb as (u0&n3&_&Hb); [|auto with reads].
  apply bind_reads in Hb as (x&n4&_&Hb); [|apply reads_query]. destruct (_ || _); [done|].
  apply bind_reads in Hb as (v&n5&_&Hb); [|apply reads_query].
  apply bind_reads in Hb as (a&n6&_&Hb); [|auto with reads]. destruct (_ || _); [done|].
  destruct (_ == _); [by injection Hb as _ <-|by eapply update_witness_kept].
Qed.

(** Every execution but the active one of its request is aborted. *)
Definition one_active (s : DB) : Prop :=
  ∀ k x, execs s !! k = Some x →
    ∃ q, requests s !! x_request_key x = Some q ∧ (k = q_active q ∨ x_state x = Aborted).

Lemma quiet_one_active s s' : quiet s s' → one_active s → one_active s'.
Proof.
  intros [Hr He] Hone k y (x&Hx&(Hk&_&_&_&_&_&_&_&Hst&_))%He. destruct (Hone k x Hx) as (q&Hq&Hor).
  exists q. rewrite Hr, Hk. split; [done|]. destruct Hor as [->|Ha]; [by left|right].
  destruct Hst as [->|Hp]; [done|]. rewrite Ha in Hp. discriminate.
Qed.

Lemma Reserve_one_active b r p lease w n s :
  plan_built p → one_active s → one_active (Reserve b r p lease w (n, s)).2.2.
Proof.
  intros Hp Hone. destruct (Reserve b r p lease w (n, s)) as [res [n' s']] eqn:E. cbn [snd].
  apply Reserve_run in E as [[-> _]|(Hfree&e&x&q&_&_&_&_&_&_&Hk&Hexs&Hreqs&Hact&_)]; [done| |done].
  intros k y Hy. rewrite Hexs in Hy. rewrite Hreqs.
  apply lookup_insert_Some in Hy as [[<- <-]|[_ Hy]].
  - exists q. rewrite Hk, lookup_insert_eq. split; [reflexivity|left; symmetry; exact Hact].
  - destruct (Hone k y Hy) as (q'&Hq'&Hor). exists q'. split; [|done].
    rewrite lookup_insert_ne; [done|]. intros Heq. rewrite Heq in Hfree. congruence.
Qed.

Lemma advance_one_active b e p lease replan w n s :
  plan_built p → 0 <= ex_Fence e → one_active s → one_active (advance b e p lease replan w (n, s)).2.2.
Proof.
  intros Hp Hf Hone. destruct (advance b e p lease replan w (n, s)) as [res [n' s']] eqn:E. cbn [snd].
  apply advance_run in E as [[-> _]|(x&q&e'&y&Hq&Hx&Ha&_&_&_&_&_&_&_&Hk&Hexs&Hreqs&_)]; [done| |done|done].
  set (K := KeyDigest (RequestFor (ex_Plan e))) in *. clearbody K.
  intros k z Hz. rewrite Hexs in Hz. rewrite Hreqs.
  apply lookup_insert_Some in Hz as [[<- <-]|[_ Hz]].
  - rewrite Hk, lookup_alter_eq, Hq. simpl. eexists. split; [reflexivity|by left].
  - destruct (Hone k z Hz) as (q'&Hq'&Hor). destruct (decide (x_request_key z = K)) as [HK|Hne].
    + rewrite HK in Hq' |- *. rewrite lookup_alter_eq, Hq. simpl. eexists. split; [reflexivity|]. right.
      destruct Hor as [->|?]; [|done]. congruence.
    + exists q'. rewrite lookup_alter_ne by done. done.
Qed.

Lemma tx_step_one_active s s' : tx_step s s' → one_active s → one_active s'.
Proof.
  destruct 1; first [by apply Reserve_one_active|by apply advance_one_active|apply quiet_one_active].
  - apply BeginPrepare_quiet.
  - apply abort_quiet.
  - apply ReconcileOnce_quiet.
  - apply host_transaction_quiet.
  - apply rows_kept_quiet, RecordHalf_kept.
  - apply rows_kept_quiet, RecordFinal_kept.
  - apply rows_kept_quiet, RecordRecoveryFinal_kept.
  - by apply quiet_same.
Qed.

(** ** What a checker sees *)

(** The answer a broker gets when it asks about [ref]: [StoreChecker.Check] over
    [Store.Evidence]. *)
Definition answer (b : Binding) (ref : Reference) (w : world) (n : nat) (s : DB) : Decision :=
  Check ref (EvidenceOf b ref w (n, s)).1.

Definition ref_key (ref : Reference) : bytes :=
  ExecutionKey (Owner ref) (OperationID ref) (WriterEpoch ref) (Fence ref).

Definition verdict (d : Decision) : State := if d == Commit then Committed else Aborted.

(** A definite answer comes from a stored witness of an execution in that state. *)
Lemma answer_definite b ref w n s d :
  d = Commit ∨ d = Rollback → answer b ref w n s = d →
  ∃ x v, execs s !! ref_key ref = Some x ∧ x_state x = verdict d ∧
    witnesses s !! (ref_key ref, BranchKey (BranchID ref)) = Some v ∧ DecodeReference (w_reference v) = Ok ref.
Proof.
  intros Hd Ha. unfold answer, Check in Ha. destruct (negb _); [subst; by destruct Hd|].
  destruct (EvidenceOf b ref w (n, s)) as [[ev|] [n' s']] eqn:E; cbn [fst] in Ha; [|subst; by destruct Hd].
  assert (Hp : proves (verdict d) ref ev).
  { destruct Hd as [-> | ->]; [by apply Resolve_Commit|by apply Resolve_Rollback]. }
  clear Ha Hd. unfold EvidenceOf in E. destruct (_ || _); [done|].
  apply bind_reads in E as (found&n1&Hq&E); [|auto with reads].
  apply stmt_Ok in Hq as [(f&[= Hf]&[= ->])%rbind_Ok _]. subst found.
  destruct Hp as [_ ->]. unfold select_evidence in E. fold (ref_key ref) in E.
  destruct (execs s !! ref_key ref) as [x|] eqn:Hx; [|discriminate E]. cbn [mbind option_bind] in E.
  destruct (witnesses s !! _) as [v|] eqn:Hv; [|discriminate E]. cbn [mbind option_bind] in E.
  destruct (bindings s !! x_owner x) as [[[id ep] ver]|]; [|discriminate E]. cbn [mbind option_bind] in E.
  destruct (_ && _); [|discriminate E].
  apply bind_run in E as (act&st1&Hd&Hr). injection Hd as Hd _. injection Hr as Hact Hst _ _.
  exists x, v. subst. done.
Qed.

Lemma DecodeReference_Valid data ref : DecodeReference data = Ok ref → ref_Valid ref = true.
Proof.
  unfold DecodeReference. destruct (_ || _); [done|].
  intros (v&_&(sr&_&(p&_&(w&_&(f&_&H)%rbind_Ok)%rbind_Ok)%rbind_Ok)%rbind_Ok)%rbind_Ok. cbv zeta in H.
  destruct (ref_Valid _) eqn:Hv; [|done]. by injection H as <-.
Qed.

(** A store that is bound and not failing answers for every stored witness. *)
Definition serves (b : Binding) (w : world) (n : nat) (s : DB) : Prop :=
  t_fault (w n) = None ∧ ∃ epoch, bindings s !! bn_Owner b = Some (StoreID b, epoch, SchemaVersion).

Lemma answer_stored b ref w n s x v d :
  d = Commit ∨ d = Rollback → serves b w n s → db_ok s → Owner ref = bn_Owner b →
  execs s !! ref_key ref = Some x → x_state x = verdict d →
  witnesses s !! (ref_key ref, BranchKey (BranchID ref)) = Some v → DecodeReference (w_reference v) = Ok ref →
  answer b ref w n s = d.
Proof.
  intros Hd [Hnf [ep Hb]] [Hin _] Ho Hx Hst Hv Hdec. pose proof (DecodeReference_Valid _ _ Hdec) as Hval.
  destruct (Hin _ _ _ Hv) as (x'&Hx'&Hwst&ref'&Hdec'&Hxo). rewrite Hx in Hx'. injection Hx' as <-.
  rewrite Hdec in Hdec'. injection Hdec' as <-. symmetry in Hxo.
  assert (Hsel : select_evidence b ref s = Some (w_reference v, verdict d, verdict d)).
  { unfold select_evidence. fold (ref_key ref). rewrite Hx. cbn [mbind option_bind]. rewrite Hv.
    cbn [mbind option_bind]. rewrite Hxo, Ho, Hb. cbn [mbind option_bind].
    rewrite bool_decide_eq_true_2 by done. cbn. congruence. }
  assert (Hrun : (EvidenceOf b ref w (n, s)).1 = Ok (Some (mkEvidence ref (verdict d) (verdict d)))).
  { unfold EvidenceOf. rewrite Hval, bool_decide_eq_true_2 by done. cbn [negb orb].
    unfold mbind, M_bind, query, stmt. rewrite Hnf. cbv beta zeta. rewrite Hsel. cbn [rbind]. unfold liftR. by rewrite Hdec. }
  unfold answer, Check. rewrite Hval, Hrun. cbn [negb].
  destruct Hd as [-> | ->]; [by apply Resolve_Commit|by apply Resolve_Rollback].
Qed.

(** The reference is one of those stored with its execution. *)
Definition branch_of (s : DB) (ref : Reference) : Prop :=
  ∃ v, witnesses s !! (ref_key ref, BranchKey (BranchID ref)) = Some v ∧ DecodeReference (w_reference v) = Ok ref.

(** Decisions along a run: once the execution is decided, later answers agree. *)
Lemma decided_answer b ref w n s s' x d :
  d = Commit ∨ d = Rollback → rtc tx_step s s' →
  execs s !! ref_key ref = Some x → x_state x = verdict d →
  (answer b ref w n s' = d ∨ answer b ref w n s' = Unknown) ∧
  (db_ok s → branch_of s ref → serves b w n s' → Owner ref = bn_Owner b → answer b ref w n s' = d).
Proof.
  intros Hd Hrun Hx Hst. apply tx_steps_advance in Hrun as [(_&Hex&Hwit) Hok].
  apply Hex in Hx as (y&Hy&(_&_&_&_&_&_&_&_&Hle&_)).
  assert (Hyst : x_state y = verdict d).
  { destruct Hle as [->|Hp]; [done|]. rewrite Hst in Hp. by destruct Hd as [-> | ->]. }
  split.
  - destruct (decide (answer b ref w n s' = Commit ∨ answer b ref w n s' = Rollback)) as [Hdef|Hu].
    + destruct (answer_definite b ref w n s' _ Hdef eq_refl) as (z&v&Hz&Hzs&_).
      rewrite Hy in Hz. injection Hz as <-. rewrite Hyst in Hzs. left.
      by destruct Hd as [-> | ->], Hdef as [H|H]; rewrite H in Hzs |- *.
    + right. unfold answer, Check in *. destruct (negb _); [done|].
      destruct (EvidenceOf b ref w (n, s')).1 as [ev|]; [|done]. pose proof (Resolve_cases ref ev). tauto.
  - intros Hdb (v&Hv&Hdec) Hs Ho. apply Hwit in Hv as (u&Hu&Hur&_).
    eapply answer_stored; eauto. by rewrite Hur.
Qed.

(** C2: Decisions are final and unanimous.  Once any checker has answered Commit
    (or Rollback) for one branch of an execution, no checker, in whichever
    process and at whatever later time, answers the opposite for any branch of
    that execution; and a bound store that is not failing answers exactly that
    decision for every stored branch. *)
Theorem decision_final s s' d b r w n :
  rtc tx_step empty_db s → rtc tx_step s s' → d = Commit ∨ d = Rollback → answer b r w n s = d →
  ∀ b' r' w' n', ref_key r' = ref_key r →
    (answer b' r' w' n' s' = d ∨ answer b' r' w' n' s' = Unknown) ∧
    (branch_of s r' → serves b' w' n' s' → Owner r' = bn_Owner b' → answer b' r' w' n' s' = d).
Proof.
  intros Hreach Hrun Hd Ha b' r' w' n' Hk. apply reachable_ok in Hreach as Hok.
  apply answer_definite in Ha as (x&v&Hx&Hst&_); [|done]. rewrite <- Hk in Hx.
  destruct (decided_answer b' r' w' n' s s' x d Hd Hrun Hx Hst) as [? Hall]. split; [done|by apply Hall].
Qed.

Lemma references_key e ref :
  ref ∈ References e →
  ref = zeroRef ∨ (ref_key ref = key e ∧ Owner ref = p_Owner (plan_input (ex_Plan e))).
Proof.
  unfold References. destruct (_ || _); [set_solver|]. intros (br&Hr&_)%list_elem_of_fmap.
  unfold plan_Reference in Hr. destruct (_ || _); [by left|]. destruct (find _ _) as [b|]; [right|by left].
  by rewrite Hr.
Qed.

(** C7: The host's commit decides.  When the root transaction that encloses Bind
    and CommitWitness commits, every branch of the execution is answered Commit
    from then on, whatever else runs; when it fails without a commit in doubt,
    the evidence is what it was. *)
Theorem host_commit_decides b e business w n s r n' s' :
  rtc tx_step empty_db s → host_transaction b e business w (n, s) = (r, (n', s')) →
  (s' = s ∧ r ≠ Ok ()) ∨
  ∀ s'' ref b' w' m, rtc tx_step s' s'' → ref ∈ References e → bn_Owner b' = bn_Owner b →
    serves b' w' m s'' → answer b' ref w' m s'' = Commit.
Proof.
  intros Hreach Hrun. apply reachable_ok in Hreach as Hok.
  pose proof (host_transaction_advances b e business w n s) as [(_&_&Hwit) Hok']. rewrite Hrun in Hwit, Hok'.
  apply host_transaction_run in Hrun as [?|(_&_&Ho&x&Hx&_&_&->&Hall)]; [by left|right].
  intros s'' ref b' w' m Hrun Hin Hb Hs. rewrite Forall_forall in Hall.
  destruct (Hall ref Hin) as (v&Hv&Hdec&_). cbn [snd] in Hwit, Hok'.
  destruct (references_key e ref Hin) as [->|[Hk Hown]]; [by apply DecodeReference_Valid in Hdec|].
  apply (decided_answer b' ref w' m _ s'' (set_state Committed (bump_guard x)) Commit (or_introl eq_refl) Hrun);
    [rewrite Hk; apply lookup_insert_eq|done|by apply Hok'| |done|congruence].
  rewrite <- Hk in Hv. apply Hwit in Hv as (u&Hu&Hur&_). exists u. split; [exact Hu|]. by rewrite Hur.
Qed.

(** C8: An abort decides too.  When Abort or the reconciler has aborted an
    execution, no checker ever answers Commit for one of its branches, every
    stored branch is answered Rollback, and no host transaction of the execution
    commits later. *)
Theorem abort_decides b e expired w n s n' s' :
  rtc tx_step empty_db s → abort b e expired w (n, s) = (Ok true, (n', s')) →
  ∀ s'', rtc tx_step s' s'' →
    (∀ ref b' w' m, ref_key ref = key e →
       answer b' ref w' m s'' ≠ Commit ∧
       (branch_of s ref → serves b' w' m s'' → Owner ref = bn_Owner b' → answer b' ref w' m s'' = Rollback)) ∧
    (∀ b' e' business w' m r m' t, key e' = key e →
       host_transaction b' e' business w' (m, s'') = (r, (m', t)) → t = s'' ∧ r ≠ Ok ()).
Proof.
  intros Hreach Hrun s'' Hlater. apply reachable_ok in Hreach as Hok.
  pose proof (abort_advances b e expired w n s) as [(_&_&Hwit) Hok']. rewrite Hrun in Hwit, Hok'.
  cbn [snd] in Hwit, Hok'. apply abort_run in Hrun as [[_ []]|(x&Hx&Hp&_&Hs')]; [done|].
  assert (Hx' : execs s' !! key e = Some (bump_guard (set_state Aborted x)))
    by (rewrite Hs'; apply lookup_insert_eq).
  split.
  - intros ref b' w' m Hk. rewrite <- Hk in Hx'.
    destruct (decided_answer b' ref w' m s' s'' _ Rollback (or_intror eq_refl) Hlater Hx' eq_refl) as [Hor Hall].
    split; [by destruct Hor as [-> | ->]|]. intros (v&Hv&Hdec). apply Hall; [by apply Hok'|].
    apply Hwit in Hv as (u&Hu&Hur&_). exists u. split; [done|]. by rewrite Hur.
  - intros b' e' business w' m r m' t Hk. apply tx_steps_advance in Hlater as [(_&Hex&_) _].
    apply Hex in Hx' as (y&Hy&(_&_&_&_&_&_&_&_&Hle&_)).
    intros [?|(_&_&_&z&Hz&Hzp&_)]%host_transaction_run; [done|]. rewrite Hk, Hy in Hz. injection Hz as ->.
    destruct Hle as [Hle|Hle]; [|done]. rewrite Hzp in Hle. done.
Qed.

(** C3: One execution of a request commits.  Whatever retries and replans the
    processes of a deployment race, two executions reserved for the same request
    key that are ever committed are the same execution. *)
Theorem one_commit_per_request s s' k k' x x' :
  rtc tx_step empty_db s → rtc tx_step s s' →
  execs s !! k = Some x → execs s' !! k' = Some x' → x_request_key x = x_request_key x' →
  x_state x = Committed → x_state x' = Committed → k = k'.
Proof.
  intros Hreach Hrun Hx Hx' Hreq Hc Hc'.
  assert (Hone : one_active s').
  { eapply (rtc_invariant tx_step one_active empty_db); [|by etransitivity|].
    - intros a c Ha Hac. by eapply tx_step_one_active.
    - intros j z. simpl. by rewrite lookup_empty. }
  apply tx_steps_advance in Hrun as [(_&Hex&_) _].
  apply Hex in Hx as (y&Hy&(Hk&_&_&_&_&_&_&_&Hle&_)).
  assert (Hyc : x_state y = Committed) by (destruct Hle as [Hle|Hle]; [congruence|rewrite Hc in Hle; done]).
  destruct (Hone k y Hy) as (q&Hq&[->|Ha]); [|rewrite Hyc in Ha; done].
  destruct (Hone k' x' Hx') as (q'&Hq'&[->|Ha]); [|rewrite Hc' in Ha; done].
  rewrite Hk, Hreq in Hq. congruence.
Qed.

(** One caller wins a request.  After a Reserve that acquired a request, no
    Reserve of the same request key in any process acquires it again. *)
Theorem reserve_won_once b r p lease w n s v n1 s1 s2 b' r' p' lease' w' m v' m' s3 :
  plan_built p → plan_built p' →
  Reserve b r p lease w (n, s) = (Ok v, (n1, s1)) → Acquired v = true →
  rtc tx_step s1 s2 → KeyDigest r' = KeyDigest r →
  Reserve b' r' p' lease' w' (m, s2) = (Ok v', (m', s3)) → Acquired v' = false ∧ s3 = s2.
Proof.
  intros Hp Hp' H1 Hacq Hrun Hk H2.
  apply Reserve_run in H1 as [[_ Hno]|(_&e&x&q&_&_&_&_&_&_&_&_&Hreqs&_)]; [| |done].
  { rewrite (Hno v eq_refl) in Hacq. done. }
  assert (Hq : ∃ q', requests s2 !! KeyDigest r = Some q').
  { apply tx_steps_advance in Hrun as [(Hreq&_) _].
    destruct (Hreq (KeyDigest r) q) as (q'&Hq'&_); [rewrite Hreqs; apply lookup_insert_eq|by exists q']. }
  destruct Hq as [q' Hq']. rewrite <- Hk in Hq'.
  apply Reserve_run in H2 as [[-> Hno]|(Hnone&_)]; [by split; [apply Hno|]|congruence|done].
Qed.

(** An execution is prepared once: after a successful BeginPrepare no other
    BeginPrepare of the same execution succeeds, so half messages are sent by
    one caller only. *)
Theorem prepare_once b e w n s n1 s1 s2 b' e' w' m r m' s3 :
  BeginPrepare b e w (n, s) = (Ok (), (n1, s1)) → rtc tx_step s1 s2 → key e' = key e →
  BeginPrepare b' e' w' (m, s2) = (r, (m', s3)) → r ≠ Ok () ∧ s3 = s2.
Proof.
  intros H1 Hrun Hk H2. apply BeginPrepare_run in H1 as [[_ []]|(x&Hx&_&_&_&->)]; [done|].
  apply tx_steps_advance in Hrun as [(_&Hex&_) _].
  destruct (Hex (key e) (start_prepare x)) as (y&Hy&(_&_&_&_&_&_&_&_&_&Hst)); [apply lookup_insert_eq|].
  apply BeginPrepare_run in H2 as [[-> Hr]|(z&Hz&Hns&_)]; [done|]. rewrite Hk, Hy in Hz. injection Hz as ->.
  rewrite Hst in Hns by done. done.
Qed.

(** C17: A retry or replan follows an abort.  A successful Retry or Replan of
    [previous] happens only when the active execution of its stored request is
    exactly [previous] and is aborted; the new execution carries the next fence,
    its key was never used, it becomes the active execution of the request, and
    from then on no branch of [previous] is answered Commit. *)
Theorem advance_after_abort b previous p lease replan w n s v n1 s1 :
  plan_built p → 0 <= ex_Fence previous → rtc tx_step empty_db s →
  advance b previous p lease replan w (n, s) = (Ok v, (n1, s1)) →
  Acquired v = true ∧ ex_Plan (rs_Execution v) = p ∧
  ex_Fence (rs_Execution v) = ex_Fence previous + 1 ∧
  (∃ q, requests s !! KeyDigest (RequestFor (ex_Plan previous)) = Some q ∧
     q_active q = key previous ∧
     requests s1 = <[KeyDigest (RequestFor (ex_Plan previous)) :=
       mkRequestRow (q_owner q) (q_scope q) (q_key q) (q_input_hash q) (key (rs_Execution v))]>
       (requests s)) ∧
  (∃ x, execs s !! key previous = Some x ∧ x_state x = Aborted) ∧
  execs s !! key (rs_Execution v) = None ∧ is_Some (execs s1 !! key (rs_Execution v)) ∧
  ∀ s2 ref b' w' m, rtc tx_step s1 s2 → ref_key ref = key previous → answer b' ref w' m s2 ≠ Commit.
Proof.
  intros Hp Hf Hreach H. apply reachable_ok in Hreach as Hok.
  apply advance_run in H as [[_ Hno]|(x&q&e&y&Hq&Hx&Ha&Hact&Hpe&Hfe&Hnone&Hsome&_&_&_&_&Hreq&[(_&Hex&_) _]&Hv)];
    [by destruct (Hno v)| |done|done].
  rewrite (Hv v eq_refl). cbn [rs_Execution Acquired]. rewrite Hact in Hx by done.
  do 3 (split; [done|]).
  split; [by exists q; split_and!; [|auto|rewrite Hreq; exact (alter_stored _ _ _ _ Hq)]|].
  repeat (split; [eauto|]). intros s2 ref b' w' m Hrun Hk. apply Hex in Hx as (z&Hz&(_&_&_&_&_&_&_&_&Hle&_)).
  assert (Hzs : x_state z = verdict Rollback) by (destruct Hle as [->|Hle]; [done|rewrite Ha in Hle; done]).
  rewrite <- Hk in Hz.
  destruct (decided_answer b' ref w' m s1 s2 z Rollback (or_intror eq_refl) Hrun Hz Hzs) as [[-> | ->] _]; done.
Qed.

(** ** A concrete run

    The plan of contracts/transaction-storage-v1.json is reserved and prepared;
    one continuation commits it, another aborts and retries it. *)

Definition ex_binding : Binding := mkBinding "qs.mysql" "store-1" "epoch".
Definition ex_token : bytes := Eval vm_compute in sha256 "token".
Definition ex_tick (now : Z) : world := λ _, mkTick now None false ex_token (λ _, false).
Definition ex_db0 : DB := mkDB {["qs.mysql"%string := ("store-1"%string, "epoch"%string, 1)]} ∅ ∅ ∅.
Definition ex_lease : Z := 60000000000.

Abbreviation ex_reserve :=
  (Reserve ex_binding (RequestFor vector_plan) vector_plan ex_lease (ex_tick 1000) (0%nat, ex_db0)) (only parsing).
Definition ex_execution : Execution := mkExecution vector_plan 1 "epoch" ex_token 60001000.
Definition ex_db1 : DB := Eval vm_compute in ex_reserve.2.2.
Abbreviation ex_prepare :=
  (BeginPrepare ex_binding ex_execution (ex_tick 2000) (0%nat, ex_db1)) (only parsing).
Definition ex_db2 : DB := Eval vm_compute in ex_prepare.2.2.
Abbreviation ex_host :=
  (host_transaction ex_binding ex_execution (Ok ()) (ex_tick 3000) (0%nat, ex_db2)) (only parsing).
Definition ex_db3 : DB := Eval vm_compute in ex_host.2.2.
Abbreviation ex_abort :=
  (abort ex_binding ex_execution false (ex_tick 3000) (0%nat, ex_db2)) (only parsing).
Definition ex_db4 : DB := Eval vm_compute in ex_abort.2.2.
Abbreviation ex_retry :=
  (advance ex_binding ex_execution vector_plan ex_lease false (ex_tick 4000) (0%nat, ex_db4)) (only parsing).

Lemma ex_reserve_run :
  ex_reserve = (Ok (mkReservation ex_execution true Prepared), (ex_reserve.2.1, ex_db1)).
Proof. vm_compute. reflexivity. Qed.
Lemma ex_prepare_run : ex_prepare = (Ok (), (ex_prepare.2.1, ex_db2)).
Proof. vm_compute. reflexivity. Qed.
Lemma ex_host_run : ex_host = (Ok (), (ex_host.2.1, ex_db3)).
Proof. vm_compute. reflexivity. Qed.
Lemma ex_abort_run : ex_abort = (Ok true, (ex_abort.2.1, ex_db4)).
Proof. vm_compute. reflexivity. Qed.
Definition ex_retried : Reservation :=
  mkReservation (mkExecution vector_plan 2 "epoch" ex_token 60004000) true Prepared.
Lemma ex_retry_run : ex_retry = (Ok ex_retried, (ex_retry.2.1, ex_retry.2.2)).
Proof. vm_compute. reflexivity. Qed.

Lemma step_to {A} s (x : result A * (nat * DB)) r n s' :
  x = (r, (n, s')) → tx_step s x.2.2 → tx_step s s'.
Proof. by intros ->. Qed.

Lemma ex_steps1 : rtc tx_step empty_db ex_db1.
Proof.
  eapply rtc_l; [apply (step_binding empty_db {["qs.mysql"%string := ("store-1"%string, "epoch"%string, 1)]})|].
  apply rtc_once. exact (step_to _ _ _ _ _ ex_reserve_run
    (step_reserve ex_db0 ex_binding (RequestFor vector_plan) vector_plan ex_lease (ex_tick 1000) 0%nat vector_plan_built)).
Qed.
Lemma ex_steps2 : rtc tx_step empty_db ex_db2.
Proof. eapply rtc_r; [exact ex_steps1|]. exact (step_to _ _ _ _ _ ex_prepare_run
    (step_prepare ex_db1 ex_binding ex_execution (ex_tick 2000) 0%nat)). Qed.
Lemma ex_steps3 : rtc tx_step ex_db2 ex_db3.
Proof. apply rtc_once. exact (step_to _ _ _ _ _ ex_host_run
    (step_host ex_db2 ex_binding ex_execution (Ok ()) (ex_tick 3000) 0%nat)). Qed.
Lemma ex_steps4 : rtc tx_step ex_db2 ex_db4.
Proof. apply rtc_once. exact (step_to _ _ _ _ _ ex_abort_run
    (step_abort ex_db2 ex_binding ex_execution false (ex_tick 3000) 0%nat)). Qed.

Lemma ex_serves3 : serves ex_binding (ex_tick 4000) 0%nat ex_db3.
Proof. split; [reflexivity|]. exists "epoch"%string. vm_compute. reflexivity. Qed.
Lemma ex_serves4 : serves ex_binding (ex_tick 4000) 0%nat ex_db4.
Proof. split; [reflexivity|]. exists "epoch"%string. vm_compute. reflexivity. Qed.
Lemma ex_reference : vector_reference ∈ References ex_execution.
Proof. assert (H : References ex_execution = [vector_reference]) by (vm_compute; reflexivity). rewrite H. apply list_elem_of_here. Qed.
Lemma ex_reference_key : ref_key vector_reference = key ex_execution.
Proof. vm_compute. reflexivity. Qed.
Lemma ex_owner : Owner vector_reference = bn_Owner ex_binding.
Proof. vm_compute. reflexivity. Qed.
Lemma ex_branch_of : branch_of ex_db2 vector_reference.
Proof.
  eexists. split; [vm_compute; reflexivity|]. vm_compute. reflexivity.
Qed.
Lemma ex_answer3 : answer ex_binding vector_reference (ex_tick 3500) 0%nat ex_db3 = Commit.
Proof. vm_compute. reflexivity. Qed.

Lemma decision_final_witness :
  answer ex_binding vector_reference (ex_tick 4000) 0%nat ex_db3 = Commit ∨
  answer ex_binding vector_reference (ex_tick 4000) 0%nat ex_db3 = Unknown.
Proof.
  refine (proj1 (decision_final ex_db3 ex_db3 Commit ex_binding vector_reference (ex_tick 3500) 0%nat
    _ (rtc_refl _ _) (or_introl eq_refl) ex_answer3 ex_binding vector_reference (ex_tick 4000) 0%nat eq_refl)).
  transitivity ex_db2; [exact ex_steps2|exact ex_steps3].
Defined.

Lemma host_commit_decides_witness :
  (ex_db3 = ex_db2 ∧ Ok () ≠ Ok ()) ∨
  ∀ s'' ref b' w' m, rtc tx_step ex_db3 s'' → ref ∈ References ex_execution →
    bn_Owner b' = bn_Owner ex_binding → serves b' w' m s'' → answer b' ref w' m s'' = Commit.
Proof. exact (host_commit_decides _ _ _ _ _ _ _ _ _ ex_steps2 ex_host_run). Defined.

Lemma abort_decides_witness :
  answer ex_binding vector_reference (ex_tick 4000) 0%nat ex_db4 = Rollback.
Proof.
  exact (proj2 (proj1 (abort_decides _ _ _ _ _ _ _ _ ex_steps2 ex_abort_run ex_db4 (rtc_refl _ _))
    vector_reference ex_binding (ex_tick 4000) 0%nat ex_reference_key) ex_branch_of ex_serves4 ex_owner).
Defined.

Lemma ex_row3 : ∃ x, execs ex_db3 !! key ex_execution = Some x ∧ x_state x = Committed.
Proof. eexists. split; vm_compute; reflexivity. Qed.

Lemma one_commit_per_request_witness :
  ∃ x, execs ex_db3 !! key ex_execution = Some x ∧ key ex_execution = key ex_execution.
Proof.
  destruct ex_row3 as (x&Hx&Hc). exists x. split; [exact Hx|].
  apply (one_commit_per_request ex_db3 ex_db3 (key ex_execution) (key ex_execution) x x);
    [transitivity ex_db2; [exact ex_steps2|exact ex_steps3]|apply rtc_refl|exact Hx|exact Hx|reflexivity|exact Hc|exact Hc].
Defined.

Abbreviation ex_again :=
  (Reserve ex_binding (RequestFor vector_plan) vector_plan ex_lease (ex_tick 5000) (0%nat, ex_db1)) (only parsing).
Definition ex_found : Reservation := mkReservation (no_token ex_execution) false Prepared.
Lemma ex_again_run : ex_again = (Ok ex_found, (ex_again.2.1, ex_again.2.2)).
Proof. vm_compute. reflexivity. Qed.

Lemma reserve_won_once_witness : Acquired ex_found = false ∧ ex_again.2.2 = ex_db1.
Proof.
  exact (reserve_won_once _ _ _ _ _ _ _ _ _ ex_db1 ex_db1 _ _ _ _ _ _ _ _ _ vector_plan_built vector_plan_built
    ex_reserve_run eq_refl (rtc_refl _ _) eq_refl ex_again_run).
Defined.

Lemma prepare_once_witness :
  (BeginPrepare ex_binding ex_execution (ex_tick 2500) (0%nat, ex_db2)).1 ≠ Ok ().
Proof.
  destruct (BeginPrepare ex_binding ex_execution (ex_tick 2500) (0%nat, ex_db2)) as [r [m' s3]] eqn:E.
  exact (proj1 (prepare_once _ _ _ _ _ _ _ ex_db2 _ _ _ _ _ _ _ ex_prepare_run (rtc_refl _ _) eq_refl E)).
Defined.

Lemma advance_after_abort_witness :
  (Acquired ex_retried = true ∧ ex_Plan (rs_Execution ex_retried) = vector_plan ∧
   ex_Fence (rs_Execution ex_retried) = 1 + 1) ∧
  ∃ q, requests ex_db4 !! KeyDigest (RequestFor vector_plan) = Some q ∧ q_active q = key ex_execution.
Proof.
  assert (Hf : 0 <= ex_Fence ex_execution) by (cbn; lia).
  assert (Hr : rtc tx_step empty_db ex_db4) by (transitivity ex_db2; [exact ex_steps2|exact ex_steps4]).
  destruct (advance_after_abort _ _ _ _ _ _ _ _ _ _ _ vector_plan_built Hf Hr ex_retry_run) as (H1&H2&H3&(q&Hq&Ha&_)&_).
  exact (conj (conj H1 (conj H2 H3)) (ex_intro _ q (conj Hq Ha))).
Defined.

End txprotocol.
