(* ===== verification/Sender.v ===== *)
(** * transport/rocketmq: the transactional sender

    [transaction_sender.go], the checker and recovery paths of
    [transaction_lifecycle.go] and [transaction_recovery_receipt.go], and the
    receipt mapping of [transaction_backend.go].  The store is an interface
    ([PreparedStore]); the broker, the clocks of contexts and the host's local
    executor are parameters.  Other processes may change the stored data before
    every call on the store.  A Go panic is the error channel of the monad;
    errors returned by calls are values. *)

From S2P Require Import Prelude GoStd Database Message Transaction TxCodec Routing.

(** ** The store interface *)

(** [transaction.PreparedStore], [AuthorizedStore] and [RecoveryReceiptRecorder]. *)
Class PreparedStore (S : Type) : Type := {
  ps_Binding : transaction.Binding;
  ps_Validate : M S ();
  ps_Reserve : transaction.Request → transaction.FrozenPlan → Z → M S transaction.Reservation;
  ps_Retry : transaction.Execution → Z → M S transaction.Reservation;
  ps_Replan : transaction.Execution → transaction.FrozenPlan → Z → M S transaction.Reservation;
  ps_BeginPrepare : transaction.Execution → M S ();
  ps_Evidence : transaction.Reference → M S (option transaction.Evidence);
  ps_Abort : transaction.Execution → M S bool;
  ps_ReconcileOnce : Z → M S Z;
  ps_RecordHalf : transaction.Execution → transaction.Reference → transaction.HalfReceipt → M S ();
  ps_RecordFinal : transaction.Execution → transaction.Reference → string → string → M S ();
  ps_RecordRecoveryFinal : transaction.Reference → string → M S ()
}.

Module sender.
Import transaction codec.

(** What a store promises the sender: data only ever evolve, evidence and aborts
    establish decisions that last and exclude each other, and an execution is
    prepared once. *)
Class StoreLaws (S : Type) `{PreparedStore S} : Type := {
  steps : S → S → Prop;
  #[global] steps_preorder :: PreOrder steps;
  proven : S → Execution → Decision → Prop;
  proven_stable s s' e d : steps s s' → proven s e d → proven s' e d;
  proven_excl s e : proven s e Commit → proven s e Rollback → False;
  validate_steps s : post ps_Validate s (λ _, steps s);
  prepare_steps e s : post (ps_BeginPrepare e) s (λ _, steps s);
  evidence_steps ref s : post (ps_Evidence ref) s (λ _, steps s);
  abort_steps e s : post (ps_Abort e) s (λ _, steps s);
  reconcile_steps k s : post (ps_ReconcileOnce k) s (λ _, steps s);
  half_steps e ref h s : post (ps_RecordHalf e ref h) s (λ _, steps s);
  final_steps e ref f c s : post (ps_RecordFinal e ref f c) s (λ _, steps s);
  recovery_steps ref f s : post (ps_RecordRecoveryFinal ref f) s (λ _, steps s);
  evidence_proves e ref s : ref ∈ References e →
    post (ps_Evidence ref) s (λ r s', ∀ ev d, r = Ok ev → Resolve ref ev = d →
      d = Commit ∨ d = Rollback → proven s' e d);
  abort_proves e s : post (ps_Abort e) s (λ r s', r = Ok true → proven s' e Rollback);
  prepared : S → Execution → Prop;
  prepared_stable s s' e : steps s s' → prepared s e → prepared s' e;
  prepare_marks e s : post (ps_BeginPrepare e) s (λ r s', r = Ok () → prepared s' e);
  prepare_refused e s : prepared s e → post (ps_BeginPrepare e) s (λ r _, r ≠ Ok ())
}.

(** ** State *)

(** The int64 counters of [TransactionStats]. *)
Inductive Counter : Type :=
| RecoveryCommitConfirmed | RecoveryRollbackConfirmed | RecoveryRPCFailed
| RecoveryAuditRecorded | RecoveryAuditErrors | RecoveryAuditUnsupported
| CompletedResults | HalfPreparedResults | HalfRejectedResults | HalfUnknownResults
| LocalCommittedResults | LocalAbortedResults | LocalUnknownResults
| FinalCommitResults | FinalRollbackResults | FinalUnknownResults
| CheckRejected | CheckUnknown | CheckCommit | CheckRollback | InvalidChecks
| DatabaseErrors | Reconciled | CallbackErrors.

#[global] Instance Counter_eq_dec : EqDecision Counter.
Proof. solve_decision. Defined.

Definition Stats : Type := Counter → Z.
Definition bump (c : Counter) (st : Stats) : Stats := λ c', if c' == c then st c' + 1 else st c'.

Record TransactionRoute : Type := mkTxRoute {
  LogicalTopic_ : string; PhysicalTopic_ : string; Revision_ : string; NamingScheme_ : string
}.
#[global] Instance TransactionRoute_eq_dec : EqDecision TransactionRoute.
Proof. solve_decision. Defined.

(** The part of [TransactionConfig] the sender reads after construction. *)
Record Config : Type := mkConfig {
  c_Owner : string; c_Routes : list TransactionRoute; c_HistoricalRoutes : list TransactionRoute;
  c_Limits : Limits
}.

(** What the operation did that the broker or the host can see, oldest first. *)
Inductive Action : Type :=
| AHalf (ref : Reference) (outcome : HalfOutcome)
| ALocal
| AFinal (ref : Reference) (d : Decision).

Record Op (S : Type) : Type := mkOp {
  sto : S; res : Result; localRunning : bool; dbHealthy : bool; stats : Stats; log : list Action
}.
Arguments mkOp {S} _ _ _ _ _ _.
Arguments sto {S} _.
Arguments res {S} _.
Arguments localRunning {S} _.
Arguments dbHealthy {S} _.
Arguments stats {S} _.
Arguments log {S} _.

Definition with_res {S} (f : Result → Result) (o : Op S) : Op S :=
  mkOp (sto o) (f (res o)) (localRunning o) (dbHealthy o) (stats o) (log o).
Definition with_running {S} (b : bool) (o : Op S) : Op S :=
  mkOp (sto o) (res o) b (dbHealthy o) (stats o) (log o).
Definition with_log {S} (a : Action) (o : Op S) : Op S :=
  mkOp (sto o) (res o) (localRunning o) (dbHealthy o) (stats o) (log o ++ [a]).
Definition with_sto {S} (s : S) (o : Op S) : Op S :=
  mkOp s (res o) (localRunning o) (dbHealthy o) (stats o) (log o).
Definition with_stats {S} (f : Stats → Stats) (healthy : bool) (o : Op S) : Op S :=
  mkOp (sto o) (res o) (localRunning o) healthy (f (stats o)) (log o).

Definition set_Local (l : LocalOutcome) (r : Result) : Result := mkResult l (Branches r).
Definition set_branch (i : nat) (f : BranchResult → BranchResult) (r : Result) : Result :=
  mkResult (Local r) (alter f i (Branches r)).
Definition b_set_half (o : HalfOutcome) (b : BranchResult) : BranchResult :=
  mkBranchResult (br_Reference b) o (br_Final b) (br_BrokerMessageID b) (br_BrokerTransactionID b) (br_ErrorCode b).
Definition b_set_receipt (h : HalfReceipt) (b : BranchResult) : BranchResult :=
  mkBranchResult (br_Reference b) (h_Outcome h) (br_Final b) (h_BrokerMessageID h) (h_BrokerTransactionID h)
    (h_ErrorCode h).
Definition b_set_final (f : FinalOutcome) (b : BranchResult) : BranchResult :=
  mkBranchResult (br_Reference b) (br_Half b) f (br_BrokerMessageID b) (br_BrokerTransactionID b) (br_ErrorCode b).
Definition b_set_code (c : string) (b : BranchResult) : BranchResult :=
  mkBranchResult (br_Reference b) (br_Half b) (br_Final b) (br_BrokerMessageID b) (br_BrokerTransactionID b) c.

(** [transactionOperation.snapshot] *)
Definition snapshot {S} (o : Op S) : Result :=
  if localRunning o && (Local (res o) == LocalNotStarted) then set_Local LocalUnknown (res o) else res o.

Definition err_of {A} (r : result A) : option error := match r with Ok _ => None | Err e => Some e end.
Definition join (l : list (option error)) : option error := foldr errors_join None l.

(** ** The sender *)

Section sender.
Context {S : Type} `{PreparedStore S} (cfg : Config).
(** The caller's context, the deadlines of the internal contexts, the broker. *)
Context (ctx deadline : nat → option error)
        (rpc_prepare : nat → Reference → bytes → HalfReceipt * bool * option error)
        (rpc_finalize : nat → Reference → Decision → option error)
        (local : Execution → M S (LocalOutcome * option error))
        (interfere : nat → S → S).

Definition modify (f : Op S → Op S) : M (Op S) () := λ w st, (Ok (), (st.1, f st.2)).
Definition consult {A} (f : nat → A) : M (Op S) A := λ w st, (Ok (f st.1), (Datatypes.S st.1, st.2)).

(** A call on the store; other processes may have acted before it. *)
Definition store_call {A} (c : M S A) : M (Op S) (result A) := λ w '(n, o),
  let '(r, (n', s')) := c w (Datatypes.S n, interfere n (sto o)) in (Ok r, (n', with_sto s' o)).

Definition storeError (err : option error) : M (Op S) () :=
  match err with
  | None => mret ()
  | Some e => if errors_is e ErrStaleExecution then mret ()
              else modify (with_stats (bump DatabaseErrors) false)
  end.

(** The loop of [localProof] that collects evidence. *)
Fixpoint collect (refs : list Reference) : M (Op S) (result (list (option Evidence))) :=
  match refs with
  | [] => mret (Ok [])
  | ref :: refs =>
    r ← store_call (ps_Evidence ref);
    match r with
    | Err e => mret (Err e)
    | Ok ev => rest ← collect refs;
               mret (match rest with Ok evs => Ok (ev :: evs) | Err e => Err e end)
    end
  end.

Definition localProof (e : Execution) : M (Op S) (LocalOutcome * option error) :=
  evs ← collect (References e);
  match evs with
  | Err err => mret (LocalUnknown, Some err)
  | Ok evs =>
    d ← consult deadline;
    match d with
    | Some err => mret (LocalUnknown, Some err)
    | None => mret (DecideLocal (References e) evs, None)
    end
  end.

(** One branch of [finalize]; [i] is its index. *)
Definition finalize_one (e : Execution) (d : Decision) (i : nat) (ref : Reference) : M (Op S) (option error) :=
  _ ← modify (with_res (set_branch i (b_set_final FinalUnknown)));
  _ ← modify (with_log (AFinal ref d));
  err ← consult (λ n, rpc_finalize n ref d);
  let '(outcome, code) :=
    match err with
    | None => (if d == Commit then FinalCommitConfirmed else FinalRollbackConfirmed, ""%string)
    | Some _ => (FinalUnknown, "final_rpc_unknown"%string)
    end in
  _ ← modify (with_res (set_branch i (λ b, let b := b_set_final outcome b in
                                           if code != ""%string then b_set_code code b else b)));
  audit ← store_call (ps_RecordFinal e ref outcome code);
  _ ← storeError (err_of audit);
  _ ← match audit with
      | Ok _ => mret ()
      | Err _ => modify (with_res (set_branch i (b_set_code "final_audit_failed")))
      end;
  mret (match err, err_of audit with
        | None, None => None
        | _, a => option_map (ErrWrap "branch finalization") (errors_join err a)
        end).

(** [handles] has an entry per branch: whether its handle is present. *)
Fixpoint finalize_from (e : Execution) (d : Decision) (i : nat) (handles : list bool) (refs : list Reference)
    : M (Op S) (option error) :=
  match handles, refs with
  | h :: handles, ref :: refs =>
    first ← (if h : bool then finalize_one e d i ref else mret None);
    rest ← finalize_from e d (Datatypes.S i) handles refs;
    mret (errors_join first rest)
  | _, _ => mret None
  end.
Definition finalize (e : Execution) (handles : list bool) (d : Decision) : M (Op S) (option error) :=
  finalize_from e d 0 handles (References e).

Definition abortUnstarted (e : Execution) (handles : list bool) : M (Op S) (option error) :=
  r ← store_call (ps_Abort e);
  _ ← storeError (err_of r);
  match r with
  | Err err => mret (Some err)
  | Ok true => finalize e handles Rollback
  | Ok false =>
    kp ← localProof e;
    let '(known, proofErr) := kp in
    if (match proofErr with Some _ => true | None => false end) || (known != LocalAborted)
    then mret (errors_join proofErr (Some (ErrMsg "unstarted execution has no durable abort proof")))
    else finalize e handles Rollback
  end.

(** One iteration of the preparation loop: whether the branch is prepared, and
    otherwise the errors to return. *)
Definition prepare_one (e : Execution) (i : nat) (b : BranchInput) (ref : Reference)
    : M (Op S) (bool * option (option error)) :=
  _ ← modify (with_res (set_branch i (b_set_half HalfUnknown)));
  ans ← consult (λ n, rpc_prepare n ref (b_Wire b));
  let '(h0, handle, sendErr0) := ans in
  let '(h, sendErr) :=
    if half_Valid h0 then (h0, sendErr0)
    else (mkHalf HalfUnknown "" "" "invalid_half_receipt",
          match sendErr0 with None => Some ErrInvalidPlan | e => e end) in
  _ ← modify (with_log (AHalf ref (h_Outcome h)));
  _ ← modify (with_res (set_branch i (b_set_receipt h)));
  audit ← store_call (ps_RecordHalf e ref h);
  _ ← storeError (err_of audit);
  _ ← match audit with
      | Ok _ => mret ()
      | Err _ => modify (with_res (set_branch i (b_set_code "half_audit_failed")))
      end;
  if match sendErr, audit with None, Ok _ => (h_Outcome h == HalfPrepared) && handle | _, _ => false end
  then mret (handle, None)
  else mret (handle, Some (join [sendErr; err_of audit;
         Some (ErrMsg "all half messages must be confirmed before local execution")])).

(** The loop over the branches; [Err] carries what [execute] returns early. *)
Fixpoint prepare_all (e : Execution) (n i : nat) (handles : list bool) (brs : list BranchInput) (refs : list Reference)
    : M (Op S) (option error + list bool) :=
  match brs, refs with
  | b :: brs, ref :: refs =>
    c ← consult ctx;
    match c with
    | Some err => a ← abortUnstarted e (handles ++ replicate (n - i) false); mret (inl (errors_join (Some err) a))
    | None =>
      r ← prepare_one e i b ref;
      match r with
      | (handle, Some errs) =>
        a ← abortUnstarted e (handles ++ handle :: replicate (n - Datatypes.S i) false);
        mret (inl (errors_join errs a))
      | (handle, None) => prepare_all e n (Datatypes.S i) (handles ++ [handle]) brs refs
      end
    end
  | _, _ => mret (inr handles)
  end.

(** The body of [execute] after all halves are confirmed. *)
Definition run_local (e : Execution) (handles : list bool) : M (Op S) (option error) :=
  _ ← modify (with_running true);
  _ ← modify (with_log ALocal);
  lr ← store_call (local e);
  match lr with
  | Err p => raise p
  | Ok (reported, localErr) =>
    kp ← localProof e;
    let '(known0, proofErr0) := kp in
    _ ← storeError proofErr0;
    kp ← (if (known0 == LocalUnknown) && (reported == LocalAborted) then
            r ← store_call (ps_Abort e);
            _ ← storeError (err_of r);
            mret (match r with Ok true => LocalAborted | _ => known0 end, errors_join proofErr0 (err_of r))
          else mret (known0, proofErr0));
    let '(known, proofErr) := kp in
    _ ← modify (λ o, with_res (set_Local known) (with_running false o));
    if known == LocalUnknown then
      mret (join [localErr; proofErr; Some (ErrMsg "local transaction outcome unknown; do not rerun business")])
    else
      f ← finalize e handles (if known == LocalAborted then Rollback else Commit);
      mret (join [localErr; proofErr; f])
  end.

Definition execute_body (e : Execution) : M (Op S) (option error) :=
  r ← store_call (ps_BeginPrepare e);
  match r with
  | Err err =>
    _ ← storeError (Some err);
    if errors_is err ErrStaleExecution then
      kp ← localProof e;
      let '(known, proofErr) := kp in
      _ ← modify (with_res (set_Local known));
      mret (errors_join (Some err) proofErr)
    else mret (Some err)
  | Ok _ =>
    let brs := p_Branches (plan_Input (ex_Plan e)) in
    p ← prepare_all e (length brs) 0 [] brs (References e);
    match p with
    | inl errs => mret errs
    | inr handles =>
      c ← consult ctx;
      match c with
      | Some err => a ← abortUnstarted e handles; mret (errors_join (Some err) a)
      | None => run_local e handles
      end
    end
  end.

(** [execute] with its deferred recovery of panics. *)
Definition execute (e : Execution) : M (Op S) (option error) :=
  r ← catch (execute_body e);
  match r with
  | Ok err => mret err
  | Err _ =>
    _ ← modify (with_res (λ r, if Local r == LocalNotStarted then set_Local LocalUnknown r else r));
    mret (Some (ErrMsg "transaction operation panicked; authoritative recovery required"))
  end.

(** ** Validation *)

Definition routes_of (l : list TransactionRoute) : gmap string TransactionRoute :=
  foldl (λ m r, <[PhysicalTopic_ r := r]> m) ∅ l.

Definition plan_fits (p : FrozenPlan) : bool :=
  plan_Valid p && (p_Owner (plan_Input p) == c_Owner cfg) &&
  (llen (p_Branches (plan_Input p)) <=? MaxBranchesPerSend (c_Limits cfg)).

Definition validatePlan (p : FrozenPlan) : result () :=
  if negb (plan_fits p) then Err ErrInvalidPlan
  else if forallb (λ b, match routes_of (c_Routes cfg) !! b_PhysicalTopic b with
                        | None => false
                        | Some r => (LogicalTopic_ r == message.Destination (message.Message_Input (b_Message b))) &&
                                    (Revision_ r == b_RouteRevision b) && (len (b_Wire b) <=? 262144)
                        end) (p_Branches (plan_Input p))
  then Ok () else Err ErrBinding.

Definition validatePrevious (previous : Execution) : result () :=
  if (llen (References previous) =? 0) || (ex_Fence previous >=? MaxFence) then Err ErrInvalidPlan
  else validatePlan (ex_Plan previous).

Definition validateRecordedPrevious (previous : Execution) : result () :=
  if (llen (References previous) =? 0) || (ex_Fence previous >=? MaxFence) then Err ErrInvalidPlan
  else if negb (plan_fits (ex_Plan previous)) then Err ErrInvalidPlan
  else if forallb (λ b, existsb (λ r, (PhysicalTopic_ r == b_PhysicalTopic b) &&
                          (LogicalTopic_ r == message.Destination (message.Message_Input (b_Message b))) &&
                          (Revision_ r == b_RouteRevision b) && (len (b_Wire b) <=? 262144))
                        (c_Routes cfg ++ c_HistoricalRoutes cfg)) (p_Branches (plan_Input (ex_Plan previous)))
  then Ok () else Err ErrBinding.

(** [recordResult] *)
Definition local_counter (l : LocalOutcome) : option Counter :=
  if l == LocalCommitted then Some LocalCommittedResults
  else if l == LocalAborted then Some LocalAbortedResults
  else if l == LocalUnknown then Some LocalUnknownResults else None.
Definition half_counter (h : HalfOutcome) : option Counter :=
  if h == HalfPrepared then Some HalfPreparedResults
  else if h == HalfRejected then Some HalfRejectedResults
  else if h == HalfUnknown then Some HalfUnknownResults else None.
Definition final_counter (f : FinalOutcome) : option Counter :=
  if f == FinalCommitConfirmed then Some FinalCommitResults
  else if f == FinalRollbackConfirmed then Some FinalRollbackResults
  else if f == FinalUnknown then Some FinalUnknownResults else None.
Definition bump_opt (c : option Counter) (st : Stats) : Stats :=
  match c with Some c => bump c st | None => st end.
Definition recordResult (r : Result) (st : Stats) : Stats :=
  foldl (λ st b, bump_opt (final_counter (br_Final b)) (bump_opt (half_counter (br_Half b)) st))
    (bump_opt (local_counter (Local r)) (bump CompletedResults st)) (Branches r).

(** [Execute]: [admission] is the answer of [admit]. *)
Definition Execute (admission : nat → option error) (e : Execution) : M (Op S) (Result * option error) :=
  let initial := InitialResult e in
  if negb (execution_Valid e) || (p_Owner (plan_Input (ex_Plan e)) != c_Owner cfg) ||
     (ex_WriterEpoch e != bn_WriterEpoch ps_Binding) ||
     (llen (p_Branches (plan_Input (ex_Plan e))) >? MaxBranchesPerSend (c_Limits cfg))
  then mret (initial, Some ErrInvalidPlan)
  else match validatePlan (ex_Plan e) with
  | Err err => mret (initial, Some err)
  | Ok _ =>
    a ← consult admission;
    match a with
    | Some err => mret (initial, Some err)
    | None =>
      _ ← modify (λ o, with_running false (with_res (λ _, initial) o));
      err ← execute e;
      snap ← (λ w st, (Ok (snapshot st.2), st));
      _ ← modify (λ o, with_stats (recordResult snap) (dbHealthy o) o);
      mret (snap, err)
    end
  end.

(** [Reserve], [Retry] and [Replan] of the sender. *)
Definition sender_call (admission : nat → option error) (c : M S Reservation) : M (Op S) (result Reservation) :=
  a ← consult admission;
  match a with
  | Some err => mret (Err err)
  | None => r ← store_call c; _ ← storeError (err_of r); mret r
  end.

Definition sender_Reserve (admission : nat → option error) (request : Request) (candidate : FrozenPlan)
    : M (Op S) (result Reservation) :=
  match validatePlan candidate, Match request candidate with
  | Err err, _ | _, Err err => mret (Err err)
  | Ok _, Ok _ => sender_call admission (ps_Reserve request candidate (LeaseTime (c_Limits cfg)))
  end.
Definition sender_Retry (admission : nat → option error) (previous : Execution) : M (Op S) (result Reservation) :=
  match validatePrevious previous with
  | Err err => mret (Err err)
  | Ok _ => sender_call admission (ps_Retry previous (LeaseTime (c_Limits cfg)))
  end.
Definition sender_Replan (admission : nat → option error) (previous : Execution) (candidate : FrozenPlan)
    : M (Op S) (result Reservation) :=
  match validateRecordedPrevious previous, validatePlan candidate, Match (RequestFor (ex_Plan previous)) candidate with
  | Err err, _, _ | _, Err err, _ | _, _, Err err => mret (Err err)
  | Ok _, Ok _, Ok _ =>
    if p_OperationID (plan_Input candidate) == p_OperationID (plan_Input (ex_Plan previous))
    then mret (Err ErrInvalidPlan)
    else sender_call admission (ps_Replan previous candidate (LeaseTime (c_Limits cfg)))
  end.

(** ** Check-back and recovery *)

(** [driver.TransactionResolution] *)
Inductive Resolution : Type := UNKNOWN | COMMIT | ROLLBACK.

(** Does the message the broker asks about carry a reference of this sender? *)
Definition known_message (physical : string) (raw body : bytes) : option Reference :=
  match DecodeReference raw, routes_of (c_Routes cfg) !! physical with
  | Ok ref, Some route =>
    if (Owner ref != c_Owner cfg) || (transaction.PhysicalTopic ref != physical) ||
       (LogicalTopic ref != LogicalTopic_ route) || (RouteRevision ref != Revision_ route) ||
       (len body =? 0) || (len body >? 262144) || (sha256 body != WireHash ref)
    then None else Some ref
  | _, _ => None
  end.

Definition checkMessage (physical : string) (raw body : bytes) : M (Op S) Resolution :=
  match known_message physical raw body with
  | None => _ ← modify (λ o, with_stats (λ st, bump CheckUnknown (bump InvalidChecks st)) (dbHealthy o) o);
            mret UNKNOWN
  | Some ref =>
    ev ← store_call (ps_Evidence ref);
    late ← consult deadline;
    let decision := match ev, late with Ok e, None => Resolve ref e | _, _ => Unknown end in
    _ ← match ev, late with
        | Ok _, None => mret ()
        | _, _ => modify (with_stats (bump DatabaseErrors) false)
        end;
    if decision == Commit then
      _ ← modify (λ o, with_stats (bump CheckCommit) (dbHealthy o) o); mret COMMIT
    else if decision == Rollback then
      _ ← modify (λ o, with_stats (bump CheckRollback) (dbHealthy o) o); mret ROLLBACK
    else
      _ ← modify (λ o, with_stats (bump CheckUnknown) (dbHealthy o) o); mret UNKNOWN
  end.

(** [check]: [None] is a nil message. *)
Definition check (msg : option (string * bytes * bytes)) : M (Op S) Resolution :=
  match msg with
  | None => mret UNKNOWN
  | Some (physical, raw, body) => checkMessage physical raw body
  end.

Definition recoveryAuditError : M (Op S) () := modify (with_stats (bump RecoveryAuditErrors) false).

(** The audit of a decision the broker has confirmed; the stores of this
    development record recovery receipts, so [RecoveryAuditUnsupported] stays. *)
Definition recoveryConfirmedMessage (physical : string) (raw body : bytes) (decision : Resolution)
    (rpcErr : option error) : M (Op S) () :=
  match rpcErr, decision with
  | Some _, _ => modify (λ o, with_stats (bump RecoveryRPCFailed) (dbHealthy o) o)
  | None, UNKNOWN => mret ()
  | None, _ =>
    let '(outcome, counter) := match decision with
      | COMMIT => (FinalCommitConfirmed, RecoveryCommitConfirmed)
      | _ => (FinalRollbackConfirmed, RecoveryRollbackConfirmed) end in
    _ ← modify (λ o, with_stats (bump counter) (dbHealthy o) o);
    match known_message physical raw body with
    | None => recoveryAuditError
    | Some ref =>
      r ← store_call (ps_RecordRecoveryFinal ref outcome);
      late ← consult deadline;
      match r, late with
      | Ok _, None => modify (λ o, with_stats (bump RecoveryAuditRecorded) (dbHealthy o) o)
      | _, _ => recoveryAuditError
      end
    end
  end.

Definition afterRecovery (msg : option (string * bytes * bytes)) (decision : Resolution) (rpcErr : option error)
    : M (Op S) () :=
  match msg with
  | None => match rpcErr with
            | Some _ => modify (λ o, with_stats (bump RecoveryRPCFailed) (dbHealthy o) o)
            | None => recoveryAuditError
            end
  | Some (physical, raw, body) => recoveryConfirmedMessage physical raw body decision rpcErr
  end.

(** One tick of [maintain]. *)
Definition maintain_tick : M (Op S) () :=
  v ← store_call ps_Validate;
  match v with
  | Err _ => modify (with_stats (bump DatabaseErrors) false)
  | Ok _ =>
    _ ← modify (with_stats id true);
    r ← store_call (ps_ReconcileOnce (ReconcileBatch (c_Limits cfg)));
    match r with
    | Ok k => modify (λ o, with_stats (λ st c, if c == Reconciled then st c + k else st c) (dbHealthy o) o)
    | Err _ => modify (λ o, with_stats (bump DatabaseErrors) (dbHealthy o) o)
    end
  end.

End sender.

End sender.
