(* ===== verification/SenderFacts.v ===== *)
(** * transport/rocketmq: what the sender guarantees

    The theorems are proved against the store interface ([StoreLaws]); the MySQL
    store discharges it at the end of the file.  Every call on the store may be
    preceded by steps of other processes. *)

From S2P Require Import Prelude GoStd Database Message Transaction TxCodec TxMySQL TxMySQLFacts TxProtocol.
From S2P Require Import Routing Sender.

Module senderfacts.
Import transaction codec sender.

Lemma DecideLocal_first refs evs d :
  DecideLocal refs evs = (if d == Commit then LocalCommitted else LocalAborted) → d = Commit ∨ d = Rollback →
  ∃ ref ev, head refs = Some ref ∧ head evs = Some ev ∧ Resolve ref ev = d.
Proof.
  unfold DecideLocal. destruct refs as [|r0 rest], evs as [|e0 evs]; try by (intros H [-> | ->]).
  destruct (negb _); [by intros H [-> | ->]|]. destruct (Resolve_cases r0 e0) as [H0|[H0|H0]]; rewrite H0; simpl;
    (destruct (negb _) || idtac); intros H [-> | ->]; try done; by exists r0, e0.
Qed.

Lemma DecideLocal_cases refs evs :
  DecideLocal refs evs = LocalCommitted ∨ DecideLocal refs evs = LocalAborted ∨ DecideLocal refs evs = LocalUnknown.
Proof. unfold DecideLocal. repeat case_match; auto. Qed.

Lemma References_length e : (length (References e) <= length (p_Branches (plan_Input (ex_Plan e))))%nat.
Proof. unfold References. destruct (_ || _); simpl; [lia|]. rewrite length_map. done. Qed.

Section facts.
Context {S : Type} `{StoreLaws S} (cfg : Config).
Context (ctx deadline : nat → option error)
        (rpc_prepare : nat → Reference → bytes → HalfReceipt * bool * option error)
        (rpc_finalize : nat → Reference → Decision → option error)
        (local : Execution → M S (LocalOutcome * option error))
        (interfere : nat → S → S).
Context (interfere_steps : ∀ n s, steps s (interfere n s))
        (local_steps : ∀ e s, post (local e) s (λ _, steps s)).

Local Abbreviation Op := (Op S).
Implicit Types o : Op.

(** ** Building blocks *)

(** Nothing the broker or the caller sees has happened. *)
Definition silent o o' : Prop :=
  steps (sto o) (sto o') ∧ res o' = res o ∧ localRunning o' = localRunning o ∧ log o' = log o.

#[local] Instance silent_preorder : PreOrder silent.
Proof.
  split; [intros o; by repeat split|]. intros a b c (Hab&?&?&?) (Hbc&?&?&?).
  split; [by transitivity (sto b)|]. repeat split; congruence.
Qed.

Lemma post_modify (f : Op → Op) o (P : result () → Op → Prop) : P (Ok ()) (f o) → post (modify f) o P.
Proof. intros HP w n. exact HP. Qed.

Lemma post_consult {A} (f : nat → A) o (P : result A → Op → Prop) : (∀ a, P (Ok a) o) → post (consult f) o P.
Proof. intros HP w n. apply HP. Qed.

Lemma post_store_call {A} (c : M S A) o (Q : result A → S → Prop) (P : result (result A) → Op → Prop) :
  (∀ s, steps (sto o) s → post c s (λ r s', steps s s' ∧ Q r s')) →
  (∀ r o', silent o o' → Q r (sto o') → P (Ok r) o') →
  post (store_call interfere c) o P.
Proof.
  intros Hc HP w n. unfold store_call. cbv beta zeta. pose proof (interfere_steps n (sto o)) as Hi.
  destruct (Hc _ Hi w (Datatypes.S n)) as [Hs HQ].
  destruct (c w (Datatypes.S n, interfere n (sto o))) as [r [n' s']]; cbn [fst snd] in *.
  apply HP; [|exact HQ]. split; [by transitivity (interfere n (sto o))|done].
Qed.

Lemma post_store_steps {A} (c : M S A) o (P : result (result A) → Op → Prop) :
  (∀ s, post c s (λ _, steps s)) → (∀ r o', silent o o' → P (Ok r) o') → post (store_call interfere c) o P.
Proof.
  intros Hc HP. apply (post_store_call c o (λ _ _, True)); [|eauto].
  intros s _ w n. split; [apply Hc|done].
Qed.

Lemma post_storeError err o (P : result () → Op → Prop) :
  (∀ o', silent o o' → P (Ok ()) o') → post (storeError err) o P.
Proof.
  intros HP. unfold storeError. destruct err as [e|]; [destruct (errors_is _ _)|];
    [apply post_ret|apply post_modify|apply post_ret]; apply HP; try reflexivity. by repeat split.
Qed.

(** The outcome [known] is backed by the stored decision. *)
Definition backed (s : S) (e : Execution) (known : LocalOutcome) : Prop :=
  (known = LocalCommitted → proven s e Commit) ∧ (known = LocalAborted → proven s e Rollback).

Lemma backed_mono s s' e known : steps s s' → backed s e known → backed s' e known.
Proof. intros Hs [Hc Ha]. split; intros Hk; eapply proven_stable; eauto. Qed.

Lemma backed_other s e known : known ≠ LocalCommitted → known ≠ LocalAborted → backed s e known.
Proof. by split. Qed.

(** Evidence of branches of [e] proves decisions about [e]. *)
Definition evidences (s : S) (e : Execution) (ref : Reference) (ev : option Evidence) : Prop :=
  ∀ d, Resolve ref ev = d → d = Commit ∨ d = Rollback → proven s e d.

Lemma post_collect e refs o (P : result (result (list (option Evidence))) → Op → Prop) :
  refs ⊆ References e →
  (∀ r o', silent o o' → (∀ evs, r = Ok evs → Forall2 (evidences (sto o') e) refs evs) → P (Ok r) o') →
  post (collect interfere refs) o P.
Proof.
  revert o P. induction refs as [|ref refs IH]; intros o P Hin HP; cbn [collect].
  { apply post_ret, HP; [reflexivity|]. by intros evs [= <-]. }
  apply post_bind. eapply (post_store_call _ _ (λ r s', ∀ ev, r = Ok ev → evidences s' e ref ev)).
  { intros s _ w n. split; [apply evidence_steps|]. intros ev Hev d Hd Hdef.
    eapply (evidence_proves e ref s); eauto. apply Hin, list_elem_of_here. }
  intros [ev|err] o1 Ho1 Hev; [|apply post_ret, HP; done].
  apply post_bind. apply IH; [by intros x Hx; apply Hin, list_elem_of_further|].
  intros rest o2 Ho2 Hrest. apply post_ret, HP; [by transitivity o1|].
  intros evs. destruct rest as [evs'|]; [|done]. intros [= <-]. constructor; [|by apply Hrest].
  intros d Hd Hdef. eapply proven_stable; [apply Ho2|]. by eapply Hev.
Qed.

Lemma post_localProof e o (P : result (LocalOutcome * option error) → Op → Prop) :
  (∀ known perr o', silent o o' → backed (sto o') e known →
     known = LocalCommitted ∨ known = LocalAborted ∨ known = LocalUnknown → P (Ok (known, perr)) o') →
  post (localProof deadline interfere e) o P.
Proof.
  intros HP. unfold localProof. apply post_bind. apply (post_collect e); [done|].
  intros [evs|err] o' Ho Hev; [|apply post_ret, HP; [done|by apply backed_other|by auto]].
  apply post_bind, post_consult. intros [err|].
  { apply post_ret, HP; [done|by apply backed_other|by auto]. }
  apply post_ret, HP; [done| |apply DecideLocal_cases].
  specialize (Hev _ eq_refl). split; intros Hk.
  - destruct (DecideLocal_first _ _ Commit Hk (or_introl eq_refl)) as (ref&ev&Hr&He&Hd).
    destruct Hev as [|? ? ? ? Hev]; [done|]. simplify_eq/=. by apply Hev; [|left].
  - destruct (DecideLocal_first _ _ Rollback Hk (or_intror eq_refl)) as (ref&ev&Hr&He&Hd).
    destruct Hev as [|? ? ? ? Hev]; [done|]. simplify_eq/=. by apply Hev; [|right].
Qed.

(** ** Finalization *)

(** The broker and the host saw [acts]; the outcome did not change. *)
Definition does (acts : list Action) o o' : Prop :=
  steps (sto o) (sto o') ∧ Local (res o') = Local (res o) ∧ localRunning o' = localRunning o ∧
  log o' = log o ++ acts.

Lemma silent_does o o' : silent o o' → does [] o o'.
Proof. intros (?&Hr&?&?). split; [done|]. rewrite Hr. repeat split; try done. by rewrite app_nil_r. Qed.

Lemma does_trans l l' o o1 o2 : does l o o1 → does l' o1 o2 → does (l ++ l') o o2.
Proof.
  intros (H1a&H1b&H1c&H1d) (H2a&H2b&H2c&H2d). split; [by transitivity (sto o1)|].
  repeat split; try congruence. by rewrite H2d, H1d, <- app_assoc.
Qed.

Lemma silent_does_trans l o o1 o2 : silent o o1 → does l o1 o2 → does l o o2.
Proof. intros Hs. apply (does_trans []). by apply silent_does. Qed.

Definition finals (d : Decision) (l : list Reference) : list Action := (λ ref, AFinal ref d) <$> l.

(** The branches whose handle is present. *)
Fixpoint told (handles : list bool) (refs : list Reference) : list Reference :=
  match handles, refs with
  | h :: handles, ref :: refs => if h : bool then ref :: told handles refs else told handles refs
  | _, _ => []
  end.

Lemma told_sublist handles refs : told handles refs `sublist_of` refs.
Proof.
  revert refs. induction handles as [|h handles IH]; intros [|ref refs]; simpl;
    [apply sublist_nil_l..|]. destruct h; by constructor.
Qed.
Lemma told_all refs : told (replicate (length refs) true) refs = refs.
Proof. induction refs as [|r refs IH]; simpl; congruence. Qed.

Lemma post_finalize_one e d i ref o (P : result (option error) → Op → Prop) :
  (∀ err o', does [AFinal ref d] o o' → P (Ok err) o') →
  post (finalize_one rpc_finalize interfere e d i ref) o P.
Proof.
  intros HP. unfold finalize_one. apply post_bind, post_modify. apply post_bind, post_modify.
  apply post_bind, post_consult. intros err. destruct (match err with None => _ | Some _ => _ end) as [outcome code].
  apply post_bind, post_modify. apply post_bind. apply post_store_steps; [apply final_steps|].
  intros audit o1 Ho1. apply post_bind, post_storeError. intros o2 Ho2.
  assert (Hc : does [AFinal ref d] o o2).
  { destruct Ho1 as (?&Hr1&Hl1&Hg1), Ho2 as (?&Hr2&Hl2&Hg2). split; [by etransitivity|].
    rewrite Hr2, Hr1, Hl2, Hl1, Hg2, Hg1. done. }
  destruct audit; apply post_bind; [apply post_ret|apply post_modify]; by apply post_ret, HP.
Qed.

Lemma post_finalize_from e d i handles refs o (P : result (option error) → Op → Prop) :
  (∀ err o', does (finals d (told handles refs)) o o' → P (Ok err) o') →
  post (finalize_from rpc_finalize interfere e d i handles refs) o P.
Proof.
  revert i refs o P. induction handles as [|h handles IH]; intros i refs o P HP; cbn [finalize_from].
  { by apply post_ret, HP, silent_does. }
  destruct refs as [|ref refs]; [by apply post_ret, HP, silent_does|].
  apply post_bind. destruct h.
  - apply post_finalize_one. intros err o1 Ho1. apply post_bind, IH. intros err' o2 Hc.
    apply post_ret, HP. by eapply (does_trans [_]).
  - apply post_ret. apply post_bind, IH. intros err' o2 Hc. by apply post_ret, HP.
Qed.

(** What [abortUnstarted] leaves behind. *)
Definition rolled_back (e : Execution) (acts : list Action) (s : S) : Prop :=
  ∃ l, acts = finals Rollback l ∧ l `sublist_of` References e ∧ (l ≠ [] → proven s e Rollback).

Lemma post_abortUnstarted e handles o (P : result (option error) → Op → Prop) :
  (∀ err o' acts, does acts o o' → rolled_back e acts (sto o') → P (Ok err) o') →
  post (abortUnstarted deadline rpc_finalize interfere e handles) o P.
Proof.
  intros HP. unfold abortUnstarted. apply post_bind.
  apply (post_store_call _ _ (λ r s', r = Ok true → proven s' e Rollback)).
  { intros s _ w n. split; [apply abort_steps|apply abort_proves]. }
  intros r o1 Ho1 Hr. apply post_bind, post_storeError. intros o2 Ho2.
  assert (Hfin : ∀ o3, silent o o3 → proven (sto o3) e Rollback →
    post (finalize rpc_finalize interfere e handles Rollback) o3 P).
  { intros o3 Ho3 Hp. apply post_finalize_from. intros err o' Hc.
    eapply HP; [by eapply silent_does_trans|]. eexists. split; [done|]. split; [apply told_sublist|].
    intros _. eapply proven_stable; [apply Hc|done]. }
  assert (Hno : ∀ err o3, silent o o3 → P (Ok err) o3).
  { intros err o3 Ho3. eapply HP; [by apply silent_does|]. exists []. split; [done|]. by split; [apply sublist_nil_l|]. }
  destruct r as [[]|err].
  - apply Hfin; [by transitivity o1|]. eapply proven_stable; [apply Ho2|by apply Hr].
  - apply post_bind, post_localProof. intros known perr o3 Ho3 [_ Hab] _.
    assert (Hs : silent o o3) by (transitivity o1; [done|by transitivity o2]).
    destruct (_ || _) eqn:Hg; [by apply post_ret, Hno|]. boolp. by apply Hfin, Hab.
  - apply post_ret, Hno. by transitivity o1.
Qed.

(** ** Preparation *)

Definition halves (hs : list (Reference * HalfOutcome)) : list Action := (λ h, AHalf h.1 h.2) <$> hs.
Definition all_prepared (hs : list (Reference * HalfOutcome)) : Prop := Forall (λ h, h.2 = HalfPrepared) hs.

Lemma post_prepare_one e i b ref o (P : result (bool * option (option error)) → Op → Prop) :
  (∀ r out o', does [AHalf ref out] o o' → (r.2 = None → r.1 = true ∧ out = HalfPrepared) → P (Ok r) o') →
  post (prepare_one rpc_prepare interfere e i b ref) o P.
Proof.
  intros HP. unfold prepare_one. apply post_bind, post_modify. apply post_bind, post_consult.
  intros [[h0 handle] sendErr0]. destruct (if half_Valid h0 then _ else _) as [h sendErr].
  apply post_bind, post_modify. apply post_bind, post_modify. apply post_bind.
  apply post_store_steps; [apply half_steps|]. intros audit o1 Ho1.
  apply post_bind, post_storeError. intros o2 Ho2.
  assert (Hc : does [AHalf ref (h_Outcome h)] o o2).
  { destruct Ho1 as (?&Hr1&Hl1&Hg1), Ho2 as (?&Hr2&Hl2&Hg2). split; [by etransitivity|].
    rewrite Hr2, Hr1, Hl2, Hl1, Hg2, Hg1. done. }
  destruct audit as [u|err]; apply post_bind; [apply post_ret|apply post_modify].
  - destruct sendErr; [by apply post_ret, (HP _ _ _ Hc)|].
    destruct (_ && _) eqn:Hg; [|by apply post_ret, (HP _ _ _ Hc)]. boolp.
    by apply post_ret, (HP _ _ _ Hc).
  - destruct sendErr; apply post_ret, (HP _ (h_Outcome h)); done.
Qed.

Lemma rolled_back_nil e s : rolled_back e [] s.
Proof. exists []. by split; [|split; [apply sublist_nil_l|]]. Qed.

(** What the preparation of [refs] establishes about its result [r]. *)
Definition preparation (e : Execution) (refs : list Reference) (handles : list bool) o
    (P : result (option error + list bool) → Op → Prop) : Prop :=
  ∀ r hs acts o', does (halves hs ++ acts) o o' → hs.*1 `prefix_of` refs → rolled_back e acts (sto o') →
    (∀ hd, r = inr hd → hd = handles ++ replicate (length refs) true ∧ hs.*1 = refs ∧ all_prepared hs ∧ acts = []) →
    P (Ok r) o'.

Lemma prepare_none e handles o P : preparation e [] handles o P → post (mret (inr handles)) o P.
Proof.
  intros HP. apply post_ret, (HP _ [] []); [by apply silent_does|done|apply rolled_back_nil|].
  intros hd [= <-]. simpl. rewrite app_nil_r. repeat split. apply Forall_nil_2.
Qed.

Lemma post_prepare_all e n brs refs o i handles P :
  (length refs <= length brs)%nat → preparation e refs handles o P →
  post (prepare_all ctx deadline rpc_prepare rpc_finalize interfere e n i handles brs refs) o P.
Proof.
  revert refs o i handles P. induction brs as [|b brs IH]; intros refs o i handles P Hlen HP; cbn [prepare_all].
  - destruct refs; [by apply (prepare_none e)|simpl in Hlen; lia].
  - destruct refs as [|ref refs]; [by apply (prepare_none e)|].
    apply post_bind, post_consult. intros [err|].
    { apply post_bind, post_abortUnstarted. intros err' o1 acts Hd Hrb.
      apply post_ret, (HP _ [] acts); [done|apply prefix_nil|done|done]. }
    apply post_bind, post_prepare_one. intros [handle errs] out o1 Hd Hok. cbn [fst snd] in Hok.
    destruct errs as [errs|].
    + apply post_bind, post_abortUnstarted. intros err' o2 acts Hd2 Hrb.
      apply post_ret, (HP _ [(ref, out)] acts); [by eapply (does_trans [_])|by apply prefix_cons, prefix_nil|done|done].
    + destruct (Hok eq_refl) as [-> ->]. apply IH; [simpl in Hlen; lia|].
      intros r hs acts o2 Hd2 Hpre Hrb Hr. apply (HP _ ((ref, HalfPrepared) :: hs) acts); [| |done|].
      * by eapply (does_trans [_]).
      * by apply prefix_cons.
      * intros hd [-> [Hh [Hp ->]]]%Hr. rewrite <- app_assoc, fmap_cons, Hh. repeat split. by constructor.
Qed.
(** ** Execution *)

Definition outcome_of (d : Decision) : LocalOutcome := if d == Commit then LocalCommitted else LocalAborted.

(** After the business ran: either its outcome is unknown, or it is proven and
    every branch was told. *)
Definition concluded (e : Execution) (acts : list Action) (known : LocalOutcome) (s : S) : Prop :=
  (acts = [ALocal] ∧ known = LocalUnknown) ∨
  ∃ d, (d = Commit ∨ d = Rollback) ∧ acts = ALocal :: finals d (References e) ∧ known = outcome_of d ∧ proven s e d.

(** The end of [run_local]: the outcome is published and the branches are told. *)
Lemma post_conclude e known localErr perr o (P : result (option error) → Op → Prop) :
  backed (sto o) e known → known = LocalCommitted ∨ known = LocalAborted ∨ known = LocalUnknown →
  (∀ err acts o', steps (sto o) (sto o') → log o' = log o ++ acts →
     concluded e (ALocal :: acts) (Local (res o')) (sto o') → P (Ok err) o') →
  post (_ ← modify (λ o, with_res (set_Local known) (with_running false o));
    if known == LocalUnknown then
      mret (join [localErr; perr; Some (ErrMsg "local transaction outcome unknown; do not rerun business")])
    else
      f ← finalize rpc_finalize interfere e (replicate (length (References e)) true)
            (if known == LocalAborted then Rollback else Commit);
      mret (join [localErr; perr; f])) o P.
Proof.
  intros [Hc Ha] Hk HP. apply post_bind, post_modify.
  destruct (bool_decide_reflect (known = LocalUnknown)) as [->|Hne].
  { apply post_ret, (HP _ []); [done|by rewrite app_nil_r|by left]. }
  apply post_bind, post_finalize_from. intros err o5 (Hs5&Hl5&_&Hg5). rewrite told_all in Hg5.
  eapply post_ret, HP; [exact Hs5|exact Hg5|]. right. rewrite Hl5.
  destruct Hk as [->|[->|]]; [exists Commit|exists Rollback|done]; repeat split; auto;
    (eapply proven_stable; [exact Hs5|auto]).
Qed.

Lemma post_run_local e o (P : result (option error) → Op → Prop) :
  (∀ p o', steps (sto o) (sto o') → log o' = log o ++ [ALocal] → Local (res o') = Local (res o) → P (Err p) o') →
  (∀ err acts o', steps (sto o) (sto o') → log o' = log o ++ acts →
     concluded e acts (Local (res o')) (sto o') → P (Ok err) o') →
  post (run_local deadline rpc_finalize local interfere e (replicate (length (References e)) true)) o P.
Proof.
  intros Hpanic HP. unfold run_local. apply post_bind, post_modify. apply post_bind, post_modify.
  apply post_bind. apply post_store_steps; [apply local_steps|]. intros lr o1 (Hs1&Hr1&_&Hg1).
  cbn in Hs1, Hr1, Hg1. destruct lr as [[reported localErr]|p]; [|apply post_raise, Hpanic; by rewrite ?Hr1].
  apply post_bind, post_localProof. intros known0 perr0 o2 Ho2 Hb2 Hcases.
  apply post_bind, post_storeError. intros o3 Ho3. apply post_bind.
  assert (Hfin : ∀ o4 err acts o', silent o2 o4 → steps (sto o4) (sto o') → log o' = log o4 ++ acts →
     concluded e (ALocal :: acts) (Local (res o')) (sto o') → P (Ok err) o').
  { intros o4 err acts o' (Hs4&_&_&Hg4) Hs Hg. apply HP.
    - transitivity (sto o1); [done|]. transitivity (sto o2); [apply Ho2|by transitivity (sto o4)].
    - destruct Ho2 as (_&_&_&Hg2). by rewrite Hg, Hg4, Hg2, Hg1, <- app_assoc. }
  destruct (_ && _) eqn:Hg.
  - boolp. apply post_bind.
    apply (post_store_call _ _ (λ r s', r = Ok true → proven s' e Rollback)).
    { intros s _ w n. split; [apply abort_steps|apply abort_proves]. }
    intros r o4 Ho4 Hr. apply post_bind, post_storeError. intros o5 Ho5. apply post_ret.
    assert (Ho25 : silent o2 o5) by (transitivity o3; [done|by transitivity o4]).
    apply post_conclude; [| |by eauto].
    + destruct r as [[]|]; [|eapply backed_mono; [apply Ho25|done]..].
      split; [done|]. intros _. eapply proven_stable; [apply Ho5|by apply Hr].
    + destruct r as [[]|]; auto.
  - apply post_ret, post_conclude; [eapply backed_mono; [apply Ho3|done]|done|by eauto].
Qed.

(** The visible actions of an operation that ends with outcome [known]: a prefix
    of the branches is prepared in order; then either the prepared ones are
    rolled back on proof, or all are prepared and the business runs once. *)
Definition conducted (e : Execution) (acts : list Action) (known : LocalOutcome) (s : S) : Prop :=
  ∃ hs fs, acts = halves hs ++ fs ∧ hs.*1 `prefix_of` References e ∧
    (rolled_back e fs s ∨ (hs.*1 = References e ∧ all_prepared hs ∧ concluded e fs known s)).

(** What an operation on [e] leaves behind. *)
Definition operated (e : Execution) o (acts : list Action) (known : LocalOutcome) o' : Prop :=
  steps (sto o) (sto o') ∧ log o' = log o ++ acts ∧ conducted e acts known (sto o') ∧ backed (sto o') e known ∧
  (acts ≠ [] → prepared (sto o') e) ∧ (prepared (sto o) e → acts = []).

Lemma conducted_nothing e known s : conducted e [] known s.
Proof. exists [], []. split; [done|]. split; [apply prefix_nil|]. left. apply rolled_back_nil. Qed.

Lemma operated_nothing e o known o' :
  steps (sto o) (sto o') → log o' = log o → backed (sto o') e known → operated e o [] known o'.
Proof. intros ? Hl Hb. repeat split; try done; [by rewrite app_nil_r|apply conducted_nothing|apply Hb..]. Qed.

Lemma concluded_backed e acts known s : concluded e acts known s → backed s e known.
Proof.
  intros [[_ ->]|(d&Hd&_&->&Hp)]; [by apply backed_other|]. split; intros Hk; destruct Hd as [-> | ->]; done.
Qed.

Lemma operated_rolled_back e o hs acts o' :
  ¬ prepared (sto o) e → steps (sto o) (sto o') → prepared (sto o') e → log o' = log o ++ halves hs ++ acts →
  hs.*1 `prefix_of` References e → rolled_back e acts (sto o') →
  operated e o (halves hs ++ acts) LocalNotStarted o'.
Proof.
  intros Hnot Hs Hp Hg Hpre Hrb. split; [done|]. split; [done|]. split; [exists hs, acts; auto|].
  split; [by apply backed_other|]. by split.
Qed.

(** The part of [execute_body] after a successful [BeginPrepare]. *)
Lemma post_prepared_body e o o1 (P : result (option error) → Op → Prop) :
  ¬ prepared (sto o) e → silent o o1 → prepared (sto o1) e → Local (res o) = LocalNotStarted →
  (∀ r known acts o', operated e o acts known o' →
     match r with Ok _ => Local (res o') = known | Err _ => Local (res o') = LocalNotStarted ∧ known = LocalUnknown end →
     P r o') →
  post (let brs := p_Branches (plan_Input (ex_Plan e)) in
    p ← prepare_all ctx deadline rpc_prepare rpc_finalize interfere e (length brs) 0 [] brs (References e);
    match p with
    | inl errs => mret errs
    | inr handles =>
      c ← consult ctx;
      match c with
      | Some err => a ← abortUnstarted deadline rpc_finalize interfere e handles; mret (errors_join (Some err) a)
      | None => run_local deadline rpc_finalize local interfere e handles
      end
    end) o1 P.
Proof.
  intros Hnot Ho1 Hpr HL HP. apply post_bind. apply post_prepare_all; [apply References_length|].
  intros p hs acts o2 Hd Hpre Hrb Hall. pose proof (silent_does_trans _ _ _ _ Ho1 Hd) as (Hs&Hl&_&Hg).
  assert (Hp2 : prepared (sto o2) e) by (eapply prepared_stable; [apply Hd|done]).
  destruct p as [errs|handles].
  { apply post_ret, (HP _ LocalNotStarted (halves hs ++ acts)); [|congruence].
    eapply operated_rolled_back; eauto. }
  destruct (Hall _ eq_refl) as (->&Hh&Hprep&->). rewrite app_nil_r in Hg. cbn [app].
  apply post_bind, post_consult. intros [err|].
  - apply post_bind, post_abortUnstarted. intros err' o3 acts (Hs3&Hl3&_&Hg3) Hrb3.
    apply post_ret, (HP _ LocalNotStarted (halves hs ++ acts)); [|congruence].
    eapply operated_rolled_back; eauto; [by transitivity (sto o2)|by eapply prepared_stable|].
    by rewrite Hg3, Hg, app_assoc.
  - assert (Hop : ∀ acts known o', steps (sto o2) (sto o') → log o' = log o2 ++ acts →
      concluded e acts known (sto o') → operated e o (halves hs ++ acts) known o').
    { intros acts known o' Hs3 Hg3 Hc. split; [by transitivity (sto o2)|].
      split; [by rewrite Hg3, Hg, app_assoc|]. split; [exists hs, acts; split; [done|]; split; [done|by right]|].
      split; [exact (concluded_backed _ _ _ _ Hc)|]. split; [intros _; by eapply prepared_stable|done]. }
    apply post_run_local.
    + intros pn o3 Hs3 Hg3 Hl3. apply (HP _ LocalUnknown (halves hs ++ [ALocal])); [|split; congruence].
      apply Hop; [done|done|by left].
    + intros err acts o3 Hs3 Hg3 Hc. by apply (HP _ (Local (res o3)) (halves hs ++ acts)); [apply Hop|].
Qed.

Lemma post_execute_body e o (P : result (option error) → Op → Prop) :
  Local (res o) = LocalNotStarted →
  (∀ r known acts o', operated e o acts known o' →
     match r with Ok _ => Local (res o') = known | Err _ => Local (res o') = LocalNotStarted ∧ known = LocalUnknown end →
     P r o') →
  post (execute_body ctx deadline rpc_prepare rpc_finalize local interfere e) o P.
Proof.
  intros HL HP. unfold execute_body. apply post_bind.
  apply (post_store_call _ _ (λ r s', r = Ok () → prepared s' e ∧ ¬ prepared (sto o) e)).
  { intros s Hs w n. split; [apply prepare_steps|]. intros Hr. split; [by apply (prepare_marks e s)|].
    intros Hp. by apply (prepare_refused e s (prepared_stable _ _ _ Hs Hp) w n). }
  intros [[]|err] o1 Ho1 Hr; [by apply (post_prepared_body e o); [apply Hr| |apply Hr| |]|].
  apply post_bind, post_storeError. intros o2 Ho2. assert (Ho : silent o o2) by (by transitivity o1).
  destruct Ho as (Hs2&Hr2&_&Hg2). destruct (errors_is _ _).
  - apply post_bind, post_localProof. intros known perr o3 Ho3 Hb _. apply post_bind, post_modify.
    destruct Ho3 as (Hs3&_&_&Hg3).
    apply post_ret, (HP _ known []); [|done]. apply operated_nothing; [by transitivity (sto o2)|cbn; congruence|done].
  - apply post_ret, (HP _ LocalNotStarted []); [|congruence]. by apply operated_nothing; [| |apply backed_other].
Qed.

Lemma post_execute e o (P : result (option error) → Op → Prop) :
  Local (res o) = LocalNotStarted →
  (∀ err acts o', operated e o acts (Local (res o')) o' → P (Ok err) o') →
  post (execute ctx deadline rpc_prepare rpc_finalize local interfere e) o P.
Proof.
  intros HL HP. unfold execute. apply post_bind, post_catch, post_execute_body; [done|].
  intros [err|p] known acts o' Hop Hk; [subst; by apply post_ret, (HP _ acts)|]. destruct Hk as [Hk ->].
  apply post_bind, post_modify, post_ret, (HP _ acts). by cbn; rewrite Hk.
Qed.

Lemma post_Execute admission e o (P : result (Result * option error) → Op → Prop) :
  (∀ result err acts o', operated e o acts (Local result) o' → P (Ok (result, err)) o') →
  post (Execute cfg ctx deadline rpc_prepare rpc_finalize local interfere admission e) o P.
Proof.
  intros HP. assert (Hno : ∀ err, P (Ok (InitialResult e, err)) o).
  { intros err. apply (HP _ _ []), operated_nothing; [reflexivity|done|by apply backed_other]. }
  unfold Execute. destruct (_ || _); [apply post_ret, Hno|]. destruct (validatePlan _ _); [|apply post_ret, Hno].
  apply post_bind, post_consult. intros [err|]; [apply post_ret, Hno|].
  apply post_bind, post_modify. apply post_bind, post_execute; [done|]. intros err acts o1 Hop.
  assert (Hsnap : Local (snapshot o1) = Local (res o1) ∨
                  (Local (snapshot o1) = LocalUnknown ∧ Local (res o1) = LocalNotStarted)).
  { unfold snapshot. destruct (_ && _) eqn:Hg; [|by left]. boolp. by right. }
  apply post_bind. intros w n. cbn [fst snd]. apply post_bind, post_modify, post_ret, (HP _ _ acts).
  destruct Hop as (Hs&Hg&(hs&fs&Hacts&Hpre&Hor)&Hb&Hpa&Hpb).
  destruct Hsnap as [Heq|[Heq Hns]]; rewrite Heq; repeat split; try done; try apply Hb.
  - by exists hs, fs.
  - exists hs, fs. repeat split; try done. destruct Hor as [?|(_&_&Hc)]; [by left|].
    exfalso. rewrite Hns in Hc. destruct Hc as [[_ ?]|(d&[-> | ->]&_&?&_)]; done.
Qed.

Lemma conducted_final e acts known s ref d :
  conducted e acts known s → AFinal ref d ∈ acts →
  ref ∈ References e ∧ (d = Commit ∨ d = Rollback) ∧ proven s e d.
Proof.
  intros (hs&fs&->&_&Hor) [([]&?&_)%list_elem_of_fmap|Hin]%elem_of_app; [done|].
  destruct Hor as [(l&->&Hl&Hp)|(_&_&[[-> _]|(d'&Hd&->&_&Hp)])].
  - apply list_elem_of_fmap in Hin as (x&[= -> ->]&Hx). split; [by eapply elem_of_sublist|].
    split; [by right|]. apply Hp. by intros ->; inversion Hx.
  - apply list_elem_of_singleton in Hin. done.
  - apply elem_of_cons in Hin as [?|(x&[= -> ->]&Hx)%list_elem_of_fmap]; done.
Qed.

Abbreviation Run admission e :=
  (Execute cfg ctx deadline rpc_prepare rpc_finalize local interfere admission e) (only parsing).

(** C10: The order of a transactional send.  An operation always returns a result;
    what the broker and the host saw of it is a prefix of the branches prepared
    in order, followed either by rollbacks of prepared branches, on proof that
    the execution is aborted and without running the business, or, once every
    branch is confirmed prepared, by one run of the business, after which either
    the outcome is reported unknown and no branch is told anything, or the outcome
    is proven and every branch is told that decision once. *)
Theorem sender_order admission e w n o r n' o' :
  Run admission e w (n, o) = (r, (n', o')) →
  ∃ result err acts, r = Ok (result, err) ∧ log o' = log o ++ acts ∧ conducted e acts (Local result) (sto o').
Proof.
  intros E. pattern r, o'. apply (post_run _ _ _ _ _ _ _ _ E). apply post_Execute.
  intros result err acts o'' (_&Hg&Hc&_). by exists result, err, acts.
Qed.

(** C6: The sender tells the broker only what is decided.  Whatever other
    processes do to the stored data meanwhile, a Committed (or Aborted) result
    and every COMMIT (or ROLLBACK) sent for a branch are backed by the stored
    decision of that execution, in every later state, and contradict no other
    decision that is ever proven for it. *)
Theorem sender_decides admission e w n o r n' o' :
  Run admission e w (n, o) = (r, (n', o')) →
  ∃ result err acts, r = Ok (result, err) ∧ log o' = log o ++ acts ∧
    ∀ s, steps (sto o') s →
      backed s e (Local result) ∧
      ∀ ref d, AFinal ref d ∈ acts →
        ref ∈ References e ∧ proven s e d ∧
        ∀ d', d' = Commit ∨ d' = Rollback → proven s e d' → d' = d.
Proof.
  intros E. pattern r, o'. apply (post_run _ _ _ _ _ _ _ _ E). apply post_Execute.
  intros result err acts o'' (_&Hg&Hc&Hb&_). exists result, err, acts. do 2 (split; [done|]). intros s Hs.
  split; [by eapply backed_mono|]. intros ref d Hin.
  destruct (conducted_final _ _ _ _ _ _ Hc Hin) as (Hr&Hd&Hp). apply (proven_stable _ s) in Hp; [|done].
  split; [done|]. split; [done|]. intros d' Hd' Hp'.
  destruct Hd as [-> | ->], Hd' as [-> | ->]; try done; by destruct (proven_excl s e).
Qed.

(** C16: An execution is consumed once.  If one operation on an execution sent a
    half message or ran the business, every later operation on it, in any
    process, sends nothing to the broker and runs nothing. *)
Theorem executes_once admission e w n o1 r1 n1 o1' o2 w2 m r2 n2 o2' :
  Execute cfg ctx deadline rpc_prepare rpc_finalize local interfere admission e w (n, o1) = (r1, (n1, o1')) →
  log o1' ≠ log o1 → steps (sto o1') (sto o2) →
  Execute cfg ctx deadline rpc_prepare rpc_finalize local interfere admission e w2 (m, o2) = (r2, (n2, o2')) →
  log o2' = log o2.
Proof.
  intros E1 Hne Hs E2. assert (Hp : prepared (sto o1') e).
  { eapply (post_run _ _ (λ _ o', log o' ≠ log o1 → prepared (sto o') e)); [exact E1| |exact Hne].
    apply post_Execute. intros result err acts o'' (_&Hg&_&_&Hpa&_) Hn. apply Hpa. intros ->.
    by rewrite app_nil_r in Hg. }
  apply (prepared_stable _ _ _ Hs) in Hp. eapply (post_run _ _ (λ _ o', log o' = log o2)); [exact E2|].
  apply post_Execute. intros result err acts o'' (_&Hg&_&_&_&Hpb). rewrite Hpb in Hg by done.
  by rewrite app_nil_r in Hg.
Qed.

(** A definite [answer] about a message is backed by what is stored. *)
Definition truthful (physical : string) (raw body : bytes) (s : S) (answer : Resolution) : Prop :=
  ∀ d, answer = (if d == Commit then COMMIT else ROLLBACK) → d = Commit ∨ d = Rollback →
    ∃ ref, DecodeReference raw = Ok ref ∧ Owner ref = c_Owner cfg ∧ transaction.PhysicalTopic ref = physical ∧
      is_Some (routes_of (c_Routes cfg) !! physical) ∧ sha256 body = WireHash ref ∧
      ∀ e, ref ∈ References e → proven s e d.

Lemma known_message_Some physical raw body ref :
  known_message cfg physical raw body = Some ref →
  DecodeReference raw = Ok ref ∧ Owner ref = c_Owner cfg ∧ transaction.PhysicalTopic ref = physical ∧
  is_Some (routes_of (c_Routes cfg) !! physical) ∧ sha256 body = WireHash ref.
Proof.
  unfold known_message. destruct (DecodeReference raw) as [ref'|]; [|done].
  destruct (routes_of _ !! physical) as [route|]; [|done]. destruct (_ || _) eqn:Hg; [done|].
  intros [= ->]. boolp. by repeat split.
Qed.

Lemma post_check_answer physical raw body ref decision o (P : result Resolution → Op → Prop) :
  known_message cfg physical raw body = Some ref →
  (∀ e d, d = Commit ∨ d = Rollback → decision = d → ref ∈ References e → proven (sto o) e d) →
  (∀ answer o', sto o' = sto o → log o' = log o → truthful physical raw body (sto o) answer → P (Ok answer) o') →
  post (if decision == Commit then
      _ ← modify (λ o, with_stats (bump CheckCommit) (dbHealthy o) o); mret COMMIT
    else if decision == Rollback then
      _ ← modify (λ o, with_stats (bump CheckRollback) (dbHealthy o) o); mret ROLLBACK
    else
      _ ← modify (λ o, with_stats (bump CheckUnknown) (dbHealthy o) o); mret UNKNOWN) o P.
Proof.
  intros Hk Hdec HP. apply known_message_Some in Hk as (?&?&?&?&?).
  destruct (bool_decide_reflect (decision = Commit)) as [Hc|];
    [|destruct (bool_decide_reflect (decision = Rollback)) as [Hc|]];
    apply post_bind, post_modify, post_ret, HP; try done; intros d Ha [-> | ->]; try done;
    exists ref; repeat (split; [done|]); intros e; by apply Hdec; auto.
Qed.

(** C15: Check-back answers are truthful.  When the sender answers COMMIT (or
    ROLLBACK) to a check of the broker, the message carried a reference of this
    owner on a configured route whose wire digest is that of the body, and the
    execution of that reference is proven committed (or aborted); a check never
    sends or runs anything. *)
Theorem check_truthful physical raw body w n o r n' o' :
  checkMessage cfg deadline interfere physical raw body w (n, o) = (r, (n', o')) →
  ∃ answer, r = Ok answer ∧ steps (sto o) (sto o') ∧ log o' = log o ∧ truthful physical raw body (sto o') answer.
Proof.
  intros E. pattern r, o'. apply (post_run _ _ _ _ _ _ _ _ E). unfold checkMessage.
  destruct (known_message cfg physical raw body) as [ref|] eqn:Hk.
  2: { apply post_bind, post_modify, post_ret. exists UNKNOWN. split; [done|]. split; [reflexivity|].
       split; [done|]. by intros d Ha [-> | ->]. }
  apply post_bind, (post_store_call _ _ (λ ev s', ∀ e x, ev = Ok x → ref ∈ References e → evidences s' e ref x)).
  { intros s _ w1 m. split; [apply evidence_steps|]. intros e x Hx Hin d Hd Hdef. by eapply (evidence_proves e ref s). }
  intros ev o1 (Hs&_&_&Hg) Hev. apply post_bind, post_consult. intros late. apply post_bind.
  assert (Hdec : ∀ e d, d = Commit ∨ d = Rollback →
    match ev, late with Ok e, None => Resolve ref e | _, _ => Unknown end = d → ref ∈ References e → proven (sto o1) e d).
  { intros e d Hd Hdd Hin. destruct ev as [x|], late; try by destruct Hd as [-> | ->]. by eapply (Hev e x). }
  destruct ev as [x|], late; [apply post_modify|apply post_ret|apply post_modify..];
    (eapply post_check_answer; [exact Hk|exact Hdec|]); intros answer o2 Hs2 Hg2 Ht;
    (exists answer; split; [done|]; rewrite Hs2, Hg2; split; [done|]; by split).
Qed.
End facts.
End senderfacts.
