(* ===== verification/SenderMySQL.v ===== *)
(** * The transactional sender over the MySQL store

    The store of [storage/transaction/mysql] discharges the interface of the
    sender; the sender's theorems then hold for the pair, and a concrete send is
    run to its end. *)

From S2P Require Import Prelude GoStd Database Message Transaction TxCodec TxMySQL TxMySQLFacts TxProtocol.
From S2P Require Import Routing Sender SenderFacts.

Module sendermysql.
Import transaction codec txmysql txmysqlfacts txprotocol sender senderfacts.

Section instance.
Context (b : Binding).

#[global] Instance mysql_prepared_store : PreparedStore DB := {|
  ps_Binding := b;
  ps_Validate := Validate b;
  ps_Reserve := Reserve b;
  ps_Retry := Retry b;
  ps_Replan := Replan b;
  ps_BeginPrepare := BeginPrepare b;
  ps_Evidence := EvidenceOf b;
  ps_Abort := Abort b;
  ps_ReconcileOnce := ReconcileOnce b;
  ps_RecordHalf := RecordHalf b;
  ps_RecordFinal := RecordFinal b;
  ps_RecordRecoveryFinal := RecordRecoveryFinal b
|}.

(** The stored execution is decided. *)
Definition decided (s : DB) (e : Execution) (d : Decision) : Prop :=
  ∃ x, execs s !! key e = Some x ∧ x_state x = verdict d ∧ (d = Commit ∨ d = Rollback).

(** Its preparation has begun. *)
Definition begun (s : DB) (e : Execution) : Prop :=
  ∃ x, execs s !! key e = Some x ∧ x_prepare_started x = true.

Lemma decided_stable s s' e d : rtc tx_step s s' → decided s e d → decided s' e d.
Proof.
  intros [(_&Hex&_) _]%tx_steps_advance (x&Hx&Hst&Hd).
  apply Hex in Hx as (y&Hy&(_&_&_&_&_&_&_&_&Hle&_)). exists y. split; [done|]. split; [|done].
  destruct Hle as [->|Hp]; [done|]. rewrite Hst in Hp. by destruct Hd as [-> | ->].
Qed.

Lemma begun_stable s s' e : rtc tx_step s s' → begun s e → begun s' e.
Proof.
  intros [(_&Hex&_) _]%tx_steps_advance (x&Hx&Hst).
  apply Hex in Hx as (y&Hy&(_&_&_&_&_&_&_&_&_&Hp)). exists y. split; [done|by apply Hp].
Qed.

Lemma reads_steps {A} (c : M DB A) s : reads c → post c s (λ _, rtc tx_step s).
Proof. intros Hc w n. rewrite Hc. reflexivity. Qed.

Lemma evidence_decides e ref s : ref ∈ References e →
  post (EvidenceOf b ref) s (λ r s', ∀ ev d, r = Ok ev → Resolve ref ev = d → d = Commit ∨ d = Rollback → decided s' e d).
Proof.
  intros Hin w n ev d Hr Hd Hdef. rewrite txmysqlfacts.reads_EvidenceOf.
  assert (Hv : ref_Valid ref = true).
  { destruct (ref_Valid ref) eqn:Hv; [done|]. unfold Resolve in Hd. rewrite Hv in Hd.
    destruct ev; subst; by destruct Hdef. }
  destruct (answer_definite b ref w n s d Hdef) as (x&v&Hx&Hst&_).
  { unfold answer, Check. by rewrite Hv, Hr. }
  destruct (references_key e ref Hin) as [->|[Hk _]]; [done|]. exists x. by rewrite <- Hk.
Qed.

Lemma abort_decided e s : post (Abort b e) s (λ r s', r = Ok true → decided s' e Rollback).
Proof.
  intros w n Hr. destruct (Abort b e w (n, s)) as [r [n' s']] eqn:E. cbn [fst snd] in *.
  apply abort_run in E as [[_ ?]|(x&_&_&_&->)]; [done|].
  eexists. split; [apply lookup_insert_eq|]. split; [done|by right].
Qed.

Lemma prepare_begins e s : post (BeginPrepare b e) s (λ r s', r = Ok () → begun s' e).
Proof.
  intros w n Hr. destruct (BeginPrepare b e w (n, s)) as [r [n' s']] eqn:E. cbn [fst snd] in *.
  apply BeginPrepare_run in E as [[_ ?]|(x&_&_&_&_&->)]; [done|]. eexists. split; [apply lookup_insert_eq|done].
Qed.

Lemma begun_refuses e s : begun s e → post (BeginPrepare b e) s (λ r _, r ≠ Ok ()).
Proof.
  intros (x&Hx&Hp) w n. destruct (BeginPrepare b e w (n, s)) as [r [n' s']] eqn:E. cbn [fst].
  apply BeginPrepare_run in E as [[_ ?]|(y&Hy&Hn&_)]; [done|]. congruence.
Qed.

#[global] Program Instance mysql_store_laws : StoreLaws DB := {|
  steps := rtc tx_step;
  proven := decided;
  prepared := begun;
  proven_stable := decided_stable;
  prepared_stable := begun_stable;
  evidence_proves := evidence_decides;
  abort_proves := abort_decided;
  prepare_marks := prepare_begins;
  prepare_refused := begun_refuses
|}.
Next Obligation. intros s e (x&Hx&Hst&_) (y&Hy&Hst'&_). rewrite Hx in Hy. injection Hy as <-. by rewrite Hst in Hst'. Qed.
Next Obligation. intros s. apply reads_steps, reads_in_read_tx. Qed.
Next Obligation. intros e s w n. apply rtc_once, step_prepare. Qed.
Next Obligation. intros ref s. apply reads_steps, txmysqlfacts.reads_EvidenceOf. Qed.
Next Obligation. intros e s w n. apply rtc_once, (step_abort s b e false). Qed.
Next Obligation. intros k s w n. apply rtc_once, step_reconcile. Qed.
Next Obligation. intros e ref h s w n. apply rtc_once, step_half. Qed.
Next Obligation. intros e ref f c s w n. apply rtc_once, step_final. Qed.
Next Obligation. intros ref f s w n. apply rtc_once, step_recovery. Qed.

End instance.

(** ** The pair *)

(** C12: Finalizations agree with check-backs.  For a sender over the MySQL store,
    whatever the broker was told about a branch when an execution ended is what
    every checker of every process answers for any branch of that execution at
    any later time, unless it cannot answer. *)
Theorem sent_finals_agree b cfg ctx deadline rpc_prepare rpc_finalize local interfere admission e w n o r n' o' :
  (∀ n s, rtc tx_step s (interfere n s)) → (∀ e s, post (local e) s (λ _, rtc tx_step s)) →
  Execute (H:=mysql_prepared_store b) cfg ctx deadline rpc_prepare rpc_finalize local interfere admission e w (n, o)
    = (r, (n', o')) → log o = [] →
  ∀ ref d s ref' b' w' m, AFinal ref d ∈ log o' → rtc tx_step (sto o') s → ref_key ref' = key e →
    answer b' ref' w' m s = d ∨ answer b' ref' w' m s = Unknown.
Proof.
  intros Hi Hl E Hnil ref d s ref' b' w' m Hin Hs Hk.
  assert (Hp : decided (sto o') e d).
  { revert Hin. pattern r, o'. apply (post_run _ _ _ _ _ _ _ _ E).
    apply (post_Execute (H0:=mysql_store_laws b)); [exact Hi|exact Hl|].
    intros result err acts o'' (_&Hg&Hc&_) Hin. rewrite Hg, Hnil in Hin.
    by destruct (conducted_final _ _ _ _ _ _ Hc Hin) as (_&_&Hp). }
  destruct Hp as (x&Hx&Hst&Hd). rewrite <- Hk in Hx.
  by destruct (decided_answer b' ref' w' m (sto o') s x d Hd Hs Hx Hst).
Qed.

(** ** A concrete send

    The execution reserved in [TxProtocol] is sent through a broker that confirms
    everything; the host commits. *)

Definition host_local (b : Binding) (e : Execution) : M DB (LocalOutcome * option error) :=
  r ← catch (host_transaction b e (Ok ()));
  mret (match r with Ok _ => (LocalCommitted, None) | Err x => (LocalUnknown, Some x) end).

Lemma host_local_steps b e s : post (host_local b e) s (λ _, rtc tx_step s).
Proof.
  apply post_bind, post_catch. intros w n. apply post_ret. apply rtc_once, step_host.
Qed.

Definition ex_route : TransactionRoute := mkTxRoute "qs.evaluation.failed" "tx-qs-mysql-0" "2" "v3".
Definition ex_cfg : Config := mkConfig "qs.mysql" [ex_route] [] DefaultLimits.
Definition ex_never (_ : nat) : option error := None.
Definition ex_broker (_ : nat) (_ : Reference) (_ : bytes) : HalfReceipt * bool * option error :=
  (mkHalf HalfPrepared "message-1" "transaction-1" "", true, None).
Definition ex_final (_ : nat) (_ : Reference) (_ : Decision) : option error := None.
Definition ex_alone (_ : nat) (s : DB) : DB := s.
Definition ex_op (s : DB) : Op DB := mkOp s (mkResult LocalNotStarted []) false true (λ _, 0) [].

Abbreviation ex_send s now :=
  (Execute (H:=mysql_prepared_store ex_binding) ex_cfg ex_never ex_never ex_broker ex_final (host_local ex_binding)
     ex_alone ex_never ex_execution (ex_tick now) (0%nat, ex_op s)) (only parsing).

Lemma ex_alone_steps n s : rtc tx_step s (ex_alone n s).
Proof. reflexivity. Qed.

(** The send commits and tells the branch so. *)
Lemma ex_send_log :
  log (ex_send ex_db1 2000).2.2 =
    [AHalf vector_reference HalfPrepared; ALocal; AFinal vector_reference Commit].
Proof. vm_compute. reflexivity. Qed.
Lemma ex_send_result :
  match (ex_send ex_db1 2000).1 with Ok (r, None) => Local r = LocalCommitted | _ => False end.
Proof. vm_compute. reflexivity. Qed.

Lemma sent_finals_agree_witness :
  let o' := (ex_send ex_db1 2000).2.2 in
  answer ex_binding vector_reference (ex_tick 4000) 0 (sto o') = Commit ∨
  answer ex_binding vector_reference (ex_tick 4000) 0 (sto o') = Unknown.
Proof.
  cbv zeta. destruct (ex_send ex_db1 2000) as [r [n' o']] eqn:E. cbn [fst snd].
  apply (sent_finals_agree _ _ _ _ _ _ _ _ _ _ _ _ _ _ _ _ ex_alone_steps (host_local_steps ex_binding) E eq_refl
    vector_reference Commit (sto o') vector_reference ex_binding (ex_tick 4000) 0%nat);
    [|apply rtc_refl|exact ex_reference_key].
  pose proof ex_send_log as Hl. rewrite E in Hl. cbn [snd] in Hl. rewrite Hl.
  apply list_elem_of_further, list_elem_of_further, list_elem_of_here.
Defined.

Lemma sender_order_witness :
  let run := ex_send ex_db1 2000 in
  ∃ result err acts, run.1 = Ok (result, err) ∧ log run.2.2 = acts ∧
    conducted (H:=mysql_prepared_store ex_binding) (H0:=mysql_store_laws ex_binding) ex_execution acts (Local result) (sto run.2.2).
Proof.
  cbv zeta. destruct (ex_send ex_db1 2000) as [r [n' o']] eqn:E. cbn [fst snd].
  exact (sender_order (H0:=mysql_store_laws ex_binding) _ _ _ _ _ _ _ ex_alone_steps (host_local_steps ex_binding)
    _ _ _ _ _ _ _ _ E).
Defined.

Lemma sender_decides_witness :
  let run := ex_send ex_db1 2000 in
  ∃ result err acts, run.1 = Ok (result, err) ∧ log run.2.2 = acts ∧
    ∀ s, rtc tx_step (sto run.2.2) s →
      backed (H0:=mysql_store_laws ex_binding) s ex_execution (Local result) ∧
      ∀ ref d, AFinal ref d ∈ acts →
        ref ∈ References ex_execution ∧ decided s ex_execution d ∧
        ∀ d', d' = Commit ∨ d' = Rollback → decided s ex_execution d' → d' = d.
Proof.
  cbv zeta. destruct (ex_send ex_db1 2000) as [r [n' o']] eqn:E. cbn [fst snd].
  exact (sender_decides (H0:=mysql_store_laws ex_binding) _ _ _ _ _ _ _ ex_alone_steps (host_local_steps ex_binding)
    _ _ _ _ _ _ _ _ E).
Defined.

Lemma executes_once_witness : log (ex_send (sto (ex_send ex_db1 2000).2.2) 3000).2.2 = [].
Proof.
  destruct (ex_send ex_db1 2000) as [r1 [n1 o1']] eqn:E1. cbn [snd].
  assert (Hne : log o1' ≠ []).
  { pose proof ex_send_log as Hl. rewrite E1 in Hl. cbn [snd] in Hl. by rewrite Hl. }
  destruct (ex_send (sto o1') 3000) as [r2 [n2 o2']] eqn:E2. cbn [snd].
  exact (executes_once (H0:=mysql_store_laws ex_binding) _ _ _ _ _ _ _ ex_alone_steps (host_local_steps ex_binding)
    _ _ _ _ _ _ _ _ (ex_op (sto o1')) _ _ _ _ _ E1 Hne (rtc_refl _ _) E2).
Defined.

Abbreviation ex_check :=
  (checkMessage (H:=mysql_prepared_store ex_binding) ex_cfg ex_never ex_alone "tx-qs-mysql-0" vector_reference_data
     (b_Wire (hd (mkBranch "" "" "" (message.mkMessage (message.mkInput "" "" "" "" "" "" "" "" "") "") "")
              (p_Branches (plan_input vector_plan))))
     (ex_tick 4000) (0%nat, ex_op ex_db3)) (only parsing).

Lemma ex_check_commits : ex_check.1 = Ok COMMIT.
Proof. vm_compute. reflexivity. Qed.

Lemma check_truthful_witness :
  ex_check.1 = Ok COMMIT ∧ decided (sto ex_check.2.2) ex_execution Commit.
Proof.
  split; [exact ex_check_commits|]. pose proof ex_check_commits as Hc.
  destruct ex_check as [r [n' o']] eqn:E. cbn [fst snd] in *.
  destruct (check_truthful (H0:=mysql_store_laws ex_binding) ex_cfg ex_never ex_alone ex_alone_steps
    _ _ _ _ _ _ _ _ _ E) as (answer&Ha&_&_&Ht).
  assert (Heq : answer = COMMIT) by congruence.
  destruct (Ht Commit Heq (or_introl eq_refl)) as (ref&Hd&_&_&_&_&Hp).
  assert (Hv : DecodeReference vector_reference_data = Ok vector_reference) by (vm_compute; reflexivity).
  assert (ref = vector_reference) as -> by congruence. exact (Hp ex_execution ex_reference).
Defined.

End sendermysql.
