(* ===== verification/Lifecycle.v ===== *)
(** * transport/rocketmq: the life of a transactional sender

    [transaction_lifecycle.go]: construction, Start, admission of sends, check
    workers, maintenance and shutdown.  Every goroutine is a sequence of atomic
    actions on one shared state; an action that would block is not enabled
    ([None]).  [step] is the interleaving of all of them.

    What a send or a check does with the store and the broker is in [Sender]. *)

From Stdlib Require Import ZifyBool.
From S2P Require Import Prelude GoStd Database Transaction Sender.

Module lifecycle.
Import transaction.

(** Where the goroutine that called [Start] is. *)
Inductive Starter : Type :=
| SNone                (* not called *)
| SValidate            (* the store is being validated *)
| SFactory             (* the workers run, the backend is being built *)
| SBackend             (* the backend is being started *)
| SFinish (ok : bool)  (* its outcome is about to be published *)
| SClosing             (* it failed or was overtaken by a stop *)
| SReturned.

(** Where the goroutine of [closeAsync] is. *)
Inductive Closer : Type :=
| CNone | CWaitStart | CWaitSends | CWaitMaint | CWaitChecks | CBackend | CStopped | CDone.

#[global] Instance Starter_eq_dec : EqDecision Starter.
Proof. solve_decision. Defined.
#[global] Instance Closer_eq_dec : EqDecision Closer.
Proof. solve_decision. Defined.

(** [TransactionalSender]: its flags, its channels and the goroutines it owns.  A
    channel used as a signal is a flag ([true]: closed).  Sends are counted by
    stage: a slot is taken, admission is refused or granted, the slot is given
    back, the wait group is told. *)
Record State : Type := mkState {
  everStarted : bool; started : bool; stopping : bool; checksClosing : bool; dbHealthy : bool; stopped : bool;
  startDone : bool; closeDone : bool; maintStop : bool; maintDone : bool;
  starter : Starter; closer : Closer;
  waiting : Z; refused : Z; active : Z; releasing : Z;
  queued : Z; idle : Z; holding : Z; running : Z;
  backend : bool; backendStarted : bool; backendClosed : bool;
  CheckRejected : Z; CallbackErrors : Z
}.

(** [len(s.slots)], [s.sendWG] and [s.checkWG]. *)
Definition slots (s : State) : Z := waiting s + refused s + active s.
Definition sendWG (s : State) : Z := active s + releasing s.
Definition checkWG (s : State) : Z := idle s + holding s + running s.

(** [NewTransactionalSender] after its validation. *)
Definition NewTransactionalSender : State := mkState
  false false false false false false true false false true SNone CNone
  0 0 0 0 0 0 0 0 false false false 0 0.

Definition set_starter (x : Starter) (s : State) : State := mkState
  (everStarted s) (started s) (stopping s) (checksClosing s) (dbHealthy s) (stopped s)
  (startDone s) (closeDone s) (maintStop s) (maintDone s) x (closer s)
  (waiting s) (refused s) (active s) (releasing s) (queued s) (idle s) (holding s) (running s)
  (backend s) (backendStarted s) (backendClosed s) (CheckRejected s) (CallbackErrors s).
Definition set_closer (x : Closer) (s : State) : State := mkState
  (everStarted s) (started s) (stopping s) (checksClosing s) (dbHealthy s) (stopped s)
  (startDone s) (closeDone s) (maintStop s) (maintDone s) (starter s) x
  (waiting s) (refused s) (active s) (releasing s) (queued s) (idle s) (holding s) (running s)
  (backend s) (backendStarted s) (backendClosed s) (CheckRejected s) (CallbackErrors s).
Definition set_healthy (x : bool) (s : State) : State := mkState
  (everStarted s) (started s) (stopping s) (checksClosing s) x (stopped s)
  (startDone s) (closeDone s) (maintStop s) (maintDone s) (starter s) (closer s)
  (waiting s) (refused s) (active s) (releasing s) (queued s) (idle s) (holding s) (running s)
  (backend s) (backendStarted s) (backendClosed s) (CheckRejected s) (CallbackErrors s).
Definition set_sends (w r a l : Z) (s : State) : State := mkState
  (everStarted s) (started s) (stopping s) (checksClosing s) (dbHealthy s) (stopped s)
  (startDone s) (closeDone s) (maintStop s) (maintDone s) (starter s) (closer s)
  w r a l (queued s) (idle s) (holding s) (running s)
  (backend s) (backendStarted s) (backendClosed s) (CheckRejected s) (CallbackErrors s).
Definition set_checks (q i h r : Z) (s : State) : State := mkState
  (everStarted s) (started s) (stopping s) (checksClosing s) (dbHealthy s) (stopped s)
  (startDone s) (closeDone s) (maintStop s) (maintDone s) (starter s) (closer s)
  (waiting s) (refused s) (active s) (releasing s) q i h r
  (backend s) (backendStarted s) (backendClosed s) (CheckRejected s) (CallbackErrors s).
Definition set_backend (b st cl : bool) (s : State) : State := mkState
  (everStarted s) (started s) (stopping s) (checksClosing s) (dbHealthy s) (stopped s)
  (startDone s) (closeDone s) (maintStop s) (maintDone s) (starter s) (closer s)
  (waiting s) (refused s) (active s) (releasing s) (queued s) (idle s) (holding s) (running s)
  b st cl (CheckRejected s) (CallbackErrors s).
Definition set_counters (rej err : Z) (s : State) : State := mkState
  (everStarted s) (started s) (stopping s) (checksClosing s) (dbHealthy s) (stopped s)
  (startDone s) (closeDone s) (maintStop s) (maintDone s) (starter s) (closer s)
  (waiting s) (refused s) (active s) (releasing s) (queued s) (idle s) (holding s) (running s)
  (backend s) (backendStarted s) (backendClosed s) rej err.
Definition set_flags (ever st stp cc stpd sd cd ms md : bool) (s : State) : State := mkState
  ever st stp cc (dbHealthy s) stpd sd cd ms md (starter s) (closer s)
  (waiting s) (refused s) (active s) (releasing s) (queued s) (idle s) (holding s) (running s)
  (backend s) (backendStarted s) (backendClosed s) (CheckRejected s) (CallbackErrors s).

Section lifecycle.
Context (limits : Limits).

(** [ready] of [admit], [Ready] of [Stats]. *)
Definition Ready (s : State) : bool :=
  started s && negb (stopping s) && dbHealthy s &&
  (running s + queued s <? CheckWorkers limits + CheckQueue limits).

(** ** Start *)

(** Up to the first unlock; [None]: [ErrStaleExecution]. *)
Definition Start_begin (s : State) : option State :=
  if everStarted s || stopping s then None
  else Some (set_starter SValidate
    (set_flags true (started s) (stopping s) (checksClosing s) (stopped s) false (closeDone s) (maintStop s) (maintDone s) s)).

(** [store.Validate] and the launch of the workers. *)
Definition Start_validate (ok : bool) (s : State) : option State :=
  if starter s == SValidate then
    Some (if ok then set_starter SFactory (set_checks (queued s) (idle s + CheckWorkers limits) (holding s) (running s) s)
          else set_starter (SFinish false) s)
  else None.

(** [s.factory] and the publication of the backend. *)
Definition Start_factory (ok : bool) (s : State) : option State :=
  if starter s == SFactory then
    Some (if ok then set_starter SBackend (set_backend true false false s) else set_starter (SFinish false) s)
  else None.

(** [backend.Start] *)
Definition Start_backend (ok : bool) (s : State) : option State :=
  if starter s == SBackend then Some (set_starter (SFinish ok) (set_backend true ok (backendClosed s) s)) else None.

(** The second critical section. *)
Definition Start_finish (s : State) : option State :=
  match starter s with
  | SFinish ok =>
    let maintain := ok && negb (stopping s) in
    Some (set_starter (if negb ok || stopping s then SClosing else SReturned)
      (set_healthy ok
        (set_flags (everStarted s) ok (stopping s) (checksClosing s) (stopped s) true (closeDone s)
                   (maintStop s) (if maintain then false else maintDone s) s)))
  | _ => None
  end.

(** ** Shutdown *)

Definition StopAdmission (s : State) : State :=
  set_flags (everStarted s) (started s) true (checksClosing s) (stopped s) (startDone s) (closeDone s)
    (maintStop s) (maintDone s) s.

(** The launch of the closing goroutine, once; [Close] and [Start] stop admission
    first. *)
Definition closeAsync (s : State) : State := if closer s == CNone then set_closer CWaitStart s else s.
Definition Close_begin (s : State) : State := closeAsync (StopAdmission s).

(** [Start] gives up. *)
Definition Start_close (s : State) : option State :=
  if starter s == SClosing then Some (set_starter SReturned (Close_begin s)) else None.

(** The goroutine of [closeAsync]: each wait, and what follows it. *)
Definition close_step (s : State) : option State :=
  match closer s with
  | CWaitStart => if startDone s then Some (set_closer CWaitSends s) else None
  | CWaitSends =>
    if sendWG s =? 0 then
      Some (set_closer CWaitMaint (set_flags (everStarted s) (started s) (stopping s) (checksClosing s) (stopped s)
              (startDone s) (closeDone s) true (maintDone s) s))
    else None
  | CWaitMaint =>
    if maintDone s then
      Some (set_closer CWaitChecks (set_flags (everStarted s) (started s) (stopping s) true (stopped s)
              (startDone s) (closeDone s) (maintStop s) (maintDone s) s))
    else None
  | CWaitChecks => if checkWG s =? 0 then Some (set_closer CBackend s) else None
  | CBackend => Some (set_closer CStopped (if backend s then set_backend true false true s else s))
  | CStopped =>
    Some (set_closer CDone (set_flags (everStarted s) false (stopping s) (checksClosing s) true
            (startDone s) true (maintStop s) (maintDone s) s))
  | CNone | CDone => None
  end.

(** ** Sends *)

(** [admit]: the slot; the wait ends otherwise by [sendStop] or the context. *)
Definition admit_slot (s : State) : option State :=
  if slots s <? Sends limits then Some (set_sends (waiting s + 1) (refused s) (active s) (releasing s) s) else None.
Definition admit_decide (s : State) : option State :=
  if waiting s >? 0 then
    Some (if Ready s then set_sends (waiting s - 1) (refused s) (active s + 1) (releasing s) s
          else set_sends (waiting s - 1) (refused s + 1) (active s) (releasing s) s)
  else None.
Definition admit_giveback (s : State) : option State :=
  if refused s >? 0 then Some (set_sends (waiting s) (refused s - 1) (active s) (releasing s) s) else None.

(** The deferred [<-s.slots; s.sendWG.Done()]. *)
Definition send_release (s : State) : option State :=
  if active s >? 0 then Some (set_sends (waiting s) (refused s) (active s - 1) (releasing s + 1) s) else None.
Definition send_done (s : State) : option State :=
  if releasing s >? 0 then Some (set_sends (waiting s) (refused s) (active s) (releasing s - 1) s) else None.

(** [storeError] of a running send or check. *)
Definition store_failed (s : State) : option State :=
  if (active s >? 0) || (running s >? 0) then Some (set_healthy false s) else None.

(** ** Checks *)

(** [dispatch], called by the backend: a full queue or a closing sender refuses;
    an idle worker that is receiving takes the work at once. *)
Definition dispatch (s : State) : option (State * bool) :=
  if negb (backend s) then None
  else if checksClosing s then Some (set_counters (CheckRejected s + 1) (CallbackErrors s) s, false)
  else if queued s <? CheckQueue limits then Some (set_checks (queued s + 1) (idle s) (holding s) (running s) s, true)
  else Some (set_counters (CheckRejected s + 1) (CallbackErrors s) s, false).
Definition dispatch_direct (s : State) : option State :=
  if backend s && negb (checksClosing s) && (queued s =? 0) && (idle s >? 0)
  then Some (set_checks (queued s) (idle s - 1) (holding s + 1) (running s) s) else None.

(** [checkWorker]: the receive, and the end of the range over a closed channel. *)
Definition worker_take (s : State) : option State :=
  if (queued s >? 0) && (idle s >? 0)
  then Some (set_checks (queued s - 1) (idle s - 1) (holding s + 1) (running s) s) else None.
Definition worker_exit (s : State) : option State :=
  if checksClosing s && (queued s =? 0) && (idle s >? 0)
  then Some (set_checks (queued s) (idle s - 1) (holding s) (running s) s) else None.

(** [runCheckWork]: before and after the work, which may panic. *)
Definition check_begin (s : State) : option State :=
  if holding s >? 0 then Some (set_checks (queued s) (idle s) (holding s - 1) (running s + 1) s) else None.
Definition check_end (panicked : bool) (s : State) : option State :=
  if running s >? 0 then
    let s' := set_checks (queued s) (idle s + 1) (holding s) (running s - 1) s in
    Some (if panicked then set_healthy false (set_counters (CheckRejected s) (CallbackErrors s + 1) s') else s')
  else None.

(** ** Maintenance *)

(** [maintain]: a tick publishes the health of the store; the stop ends it. *)
Definition maintain_tick (healthy : bool) (s : State) : option State :=
  if maintDone s then None else Some (set_healthy healthy s).
Definition maintain_exit (s : State) : option State :=
  if maintStop s && negb (maintDone s) then
    Some (set_flags (everStarted s) (started s) (stopping s) (checksClosing s) (stopped s)
            (startDone s) (closeDone s) (maintStop s) true s)
  else None.

(** ** Interleaving *)

Inductive Label : Type :=
| LStart | LValidate (ok : bool) | LFactory (ok : bool) | LBackend (ok : bool) | LFinish | LStartClose
| LStop | LClose | LCloser
| LSlot | LDecide | LGiveback | LRelease | LDone | LStoreFailed
| LDispatch | LDirect | LTake | LBegin | LEnd (panicked : bool) | LExit
| LTick (healthy : bool) | LMaintExit.

Definition run (l : Label) (s : State) : option State :=
  match l with
  | LStart => Start_begin s | LValidate ok => Start_validate ok s | LFactory ok => Start_factory ok s
  | LBackend ok => Start_backend ok s | LFinish => Start_finish s | LStartClose => Start_close s
  | LStop => Some (StopAdmission s) | LClose => Some (Close_begin s) | LCloser => close_step s
  | LSlot => admit_slot s | LDecide => admit_decide s | LGiveback => admit_giveback s
  | LRelease => send_release s | LDone => send_done s | LStoreFailed => store_failed s
  | LDispatch => fst <$> dispatch s | LDirect => dispatch_direct s
  | LTake => worker_take s | LBegin => check_begin s | LEnd p => check_end p s | LExit => worker_exit s
  | LTick h => maintain_tick h s | LMaintExit => maintain_exit s
  end.

Definition step (s s' : State) : Prop := ∃ l, run l s = Some s'.

(** [incomplete]: the error of a [Close] or [Wait] whose context ended. *)
Record ShutdownIncomplete : Type := mkIncomplete {
  ActiveSends : Z; RunningChecks : Z; QueuedChecks : Z; RuntimePending : bool
}.
Definition incomplete (s : State) : option ShutdownIncomplete :=
  if stopped s then None else Some (mkIncomplete (slots s) (running s) (queued s) (negb (stopped s))).


(** ** The invariant *)

Definition srank (x : Starter) : Z :=
  match x with
  | SNone => 0 | SValidate => 1 | SFactory => 2 | SBackend => 3 | SFinish _ => 4 | SClosing => 5 | SReturned => 6
  end.
Definition crank (x : Closer) : Z :=
  match x with
  | CNone => 0 | CWaitStart => 1 | CWaitSends => 2 | CWaitMaint => 3 | CWaitChecks => 4
  | CBackend => 5 | CStopped => 6 | CDone => 7
  end.

(** Counters stay within the limits. *)
Definition bounded (s : State) : Prop :=
  0 <= waiting s ∧ 0 <= refused s ∧ 0 <= active s ∧ 0 <= releasing s ∧ 0 <= queued s ∧
  0 <= idle s ∧ 0 <= holding s ∧ 0 <= running s ∧
  slots s <= Sends limits ∧ queued s <= CheckQueue limits ∧ checkWG s <= CheckWorkers limits ∧
  (srank (starter s) < 2 → checkWG s = 0).

(** The signals are functions of where the two goroutines are. *)
Definition signals (s : State) : Prop :=
  everStarted s = (1 <=? srank (starter s)) ∧
  startDone s = negb ((1 <=? srank (starter s)) && (srank (starter s) <=? 4)) ∧
  maintStop s = (3 <=? crank (closer s)) ∧
  checksClosing s = (4 <=? crank (closer s)) ∧
  stopped s = (7 <=? crank (closer s)) ∧
  closeDone s = (7 <=? crank (closer s)).

(** While checks can arrive there are workers for them. *)
Definition served (s : State) : Prop :=
  (backend s = true → 3 <= srank (starter s)) ∧
  (2 <= srank (starter s) <= 3 → 0 < checkWG s) ∧
  (backend s = true → crank (closer s) < 4 → 0 < checkWG s) ∧
  (0 < queued s → 0 < checkWG s).

(** What is drained at each stage of the closing goroutine. *)
Definition drained (s : State) : Prop :=
  ((0 < crank (closer s) → stopping s = true) ∧
   (2 <= crank (closer s) → srank (starter s) = 0 ∨ 5 <= srank (starter s)) ∧
   (3 <= crank (closer s) → sendWG s = 0)) ∧
  ((4 <= crank (closer s) → maintDone s = true) ∧
   (5 <= crank (closer s) → checkWG s = 0)) ∧
  (7 <= crank (closer s) → started s = false) ∧
  (6 <= crank (closer s) → backendStarted s = false) ∧
  (backendStarted s = true → backend s = true) ∧
  (backendClosed s = true → 6 <= crank (closer s)).

Definition inv (s : State) : Prop := bounded s ∧ signals s ∧ served s ∧ drained s.

Lemma srank_nonneg x : 0 <= srank x.
Proof. by destruct x. Qed.

(** Computes the successor of an enabled action. *)
Ltac enabled H :=
  unfold run, Start_begin, Start_validate, Start_factory, Start_backend, Start_finish, Start_close,
    Close_begin, closeAsync, StopAdmission, close_step, admit_slot, admit_decide, admit_giveback, send_release, send_done, store_failed,
    dispatch, dispatch_direct, worker_take, worker_exit, check_begin, check_end, maintain_tick, maintain_exit, Ready in H;
  cbn in H;
  repeat match type of H with
         | context [match closer ?s with _ => _ end] => destruct (closer s) eqn:?; try discriminate H
         end;
  cases H; simplify_eq/=; repeat case_goal; boolp.

Ltac at_stage s :=
  repeat match goal with E : starter s = _ |- _ => rewrite E in *; clear E
                       | E : closer s = _ |- _ => rewrite E in *; clear E end; cbn in *.

(** One conjunct at a time, the cheap ways first. *)
Ltac conjs := repeat match goal with |- _ ∧ _ => split end.
Ltac keep := first [assumption | reflexivity | intros; first [assumption | discriminate | congruence | lia]].

Lemma closer_monotone l s s' : run l s = Some s' → crank (closer s) <= crank (closer s').
Proof. intros H. destruct l; enabled H; cbn in *; at_stage s; lia. Qed.

Lemma stopping_monotone l s s' : stopping s = true → run l s = Some s' → stopping s' = true ∧ sendWG s' <= sendWG s.
Proof. intros Hst H. destruct l; enabled H; unfold sendWG; cbn in *; split; try done; try congruence; lia. Qed.

Context (limits_ok : limits_Valid limits = true).

Lemma limits_bounds : 0 < Sends limits ∧ 0 < CheckWorkers limits ∧ 0 <= CheckQueue limits.
Proof. unfold limits_Valid in limits_ok. boolp. lia. Qed.

Lemma run_bounded l s s' : inv s → run l s = Some s' → bounded s'.
Proof.
  pose proof limits_bounds as Hlim. intros (Hb&[Hever _]&_) H. destruct_and! Hb.
  destruct l; enabled H; unfold bounded, slots, checkWG in *; cbn in *; at_stage s; conjs; keep.
Qed.

Lemma run_signals l s s' : signals s → run l s = Some s' → signals s'.
Proof.
  intros Hs H. destruct_and! Hs.
  destruct l; enabled H; unfold signals in *; cbn in *; at_stage s; conjs; keep.
Qed.

Lemma run_served l s s' : inv s → run l s = Some s' → served s'.
Proof.
  pose proof limits_bounds as (_&Hw&_). intros (Hb&Hsig&Hs&Hd) H.
  assert (Hcount : 0 <= queued s ∧ 0 <= idle s ∧ 0 <= holding s ∧ 0 <= running s) by (by split_and!; apply Hb).
  assert (Hever : everStarted s = (1 <=? srank (starter s))) by apply Hsig.
  assert (Hcc : checksClosing s = (4 <=? crank (closer s))) by apply Hsig.
  assert (Hret : 2 <= crank (closer s) → srank (starter s) = 0 ∨ 5 <= srank (starter s)) by apply Hd.
  clear Hb Hsig Hd. destruct_and! Hcount. destruct_and! Hs.
  destruct l; enabled H; unfold served, checkWG in *; cbn in *; at_stage s; conjs; keep.
Qed.

Lemma run_drained l s s' : inv s → run l s = Some s' → drained s'.
Proof.
  intros (Hb&Hsig&Hs&((Hstop&Hret&Hsend)&(Hmaint&Hcheck)&Hfinal)) H.
  assert (Hcount : 0 <= active s ∧ 0 <= releasing s) by (by split_and!; apply Hb).
  assert (Hcount' : 0 <= idle s ∧ 0 <= holding s ∧ 0 <= running s) by (by split_and!; apply Hb).
  assert (Hever : everStarted s = (1 <=? srank (starter s))) by apply Hsig.
  assert (Hdone : startDone s = negb ((1 <=? srank (starter s)) && (srank (starter s) <=? 4))) by apply Hsig.
  pose proof (srank_nonneg (starter s)).
  clear Hb Hsig Hs. destruct_and! Hcount. destruct_and! Hcount'. unfold drained. split; [|split].
  - clear Hmaint Hcheck Hfinal. unfold sendWG in *.
    destruct l; enabled H; cbn in *; at_stage s; conjs; keep.
  - clear Hsend Hfinal. unfold checkWG in *. destruct l; enabled H; cbn in *; at_stage s; conjs; keep.
  - clear Hsend Hmaint Hcheck. destruct_and! Hfinal.
    destruct l; enabled H; cbn in *; at_stage s; conjs; keep.
Qed.

Lemma inv_initial : inv NewTransactionalSender.
Proof.
  pose proof limits_bounds. unfold inv, bounded, signals, served, drained, slots, checkWG, sendWG. cbn.
  split_and!; try lia; done.
Qed.

Lemma inv_step s s' : inv s → step s s' → inv s'.
Proof.
  intros Hi [l Hl]. split; [by eapply run_bounded|]. split; [by eapply run_signals; [apply Hi|]|].
  split; [by eapply run_served|by eapply run_drained].
Qed.

Lemma inv_reachable s : rtc step NewTransactionalSender s → inv s.
Proof. intros Hr. eapply rtc_invariant; [apply inv_step|exact Hr|apply inv_initial]. Qed.

(** Every count is zero once the closing goroutine has passed its waits. *)
Lemma inv_drained s : inv s → 5 <= crank (closer s) →
  active s = 0 ∧ releasing s = 0 ∧ queued s = 0 ∧ idle s = 0 ∧ holding s = 0 ∧ running s = 0 ∧
  maintDone s = true ∧ stopping s = true ∧ checksClosing s = true.
Proof.
  intros (Hb&Hsig&Hsv&Hd) Hc.
  assert (Hnn : 0 <= active s ∧ 0 <= releasing s ∧ 0 <= queued s ∧ 0 <= idle s ∧ 0 <= holding s ∧ 0 <= running s)
    by (by split_and!; apply Hb).
  assert (Hq : 0 < queued s → 0 < checkWG s) by apply Hsv.
  assert (Hcc : checksClosing s = (4 <=? crank (closer s))) by apply Hsig.
  destruct Hd as ((Hst&_&Hs)&(Hm&Hk)&_). clear Hb Hsig Hsv.
  assert (H3 : 3 <= crank (closer s)) by lia. assert (H4 : 4 <= crank (closer s)) by lia.
  assert (H0 : 0 < crank (closer s)) by lia.
  specialize (Hst H0). specialize (Hs H3). specialize (Hm H4). specialize (Hk Hc).
  rewrite (proj2 (Z.leb_le _ _) H4) in Hcc. unfold sendWG, checkWG in *.
  assert (active s = 0 ∧ releasing s = 0 ∧ queued s = 0 ∧ idle s = 0 ∧ holding s = 0 ∧ running s = 0)
    by (clear Hst Hm Hcc; lia). tauto.
Qed.

(** ** Shutdown makes progress *)

(** How far a stopping sender is from having stopped. *)
Definition distance (s : State) : Z :=
  (6 - srank (starter s)) + (7 - crank (closer s)) + 2 * active s + releasing s +
  (if maintDone s then 0 else 1) + 3 * queued s + idle s + 3 * holding s + 2 * running s.

Definition closer_step (s s' : State) : Prop :=
  step s s' ∧ distance s' < distance s ∧ 0 < crank (closer s').

Lemma closer_step_intro l s s' :
  run l s = Some s' → distance s' < distance s → 0 < crank (closer s') → closer_step s s'.
Proof. intros ? ? ?. split; [by exists l|done]. Qed.

(** A pending [Start] can fail and return. *)
Lemma start_progress s : 1 <= srank (starter s) <= 4 → stopping s = true → 0 < crank (closer s) →
  ∃ s', closer_step s s'.
Proof.
  intros Hr Hst Hc. destruct (starter s) eqn:E; cbn in Hr; try lia; eexists.
  - apply (closer_step_intro (LValidate false)); [cbn; unfold Start_validate; by rewrite E| |done].
    unfold distance; cbn; rewrite E; cbn; lia.
  - apply (closer_step_intro (LFactory false)); [cbn; unfold Start_factory; by rewrite E| |done].
    unfold distance; cbn; rewrite E; cbn; lia.
  - apply (closer_step_intro (LBackend false)); [cbn; unfold Start_backend; by rewrite E| |done].
    unfold distance; cbn; rewrite E; cbn; lia.
  - apply (closer_step_intro LFinish); [cbn; unfold Start_finish; by rewrite E| |done].
    unfold distance; cbn; rewrite E, Hst, orb_true_r, andb_false_r; cbn; lia.
Qed.

(** The workers of a closing sender can finish. *)
Lemma checks_progress s : closer s = CWaitChecks →
  0 <= queued s ∧ 0 <= idle s ∧ 0 <= holding s ∧ 0 <= running s → (0 < queued s → 0 < checkWG s) →
  checksClosing s = true → ∃ s', closer_step s s'.
Proof.
  intros E (Hq0&Hi0&Hh0&Hr0) Hq Hcc. unfold checkWG in Hq.
  destruct (Z.gtb_spec (running s) 0) as [Hr|Hr].
  { eexists. apply (closer_step_intro (LEnd false)); [cbn; unfold check_end; by rewrite (proj2 (Z.gtb_lt _ _) Hr)| |cbn; by rewrite E].
    unfold distance; cbn; lia. }
  destruct (Z.gtb_spec (holding s) 0) as [Hh|Hh].
  { eexists. apply (closer_step_intro LBegin); [cbn; unfold check_begin; by rewrite (proj2 (Z.gtb_lt _ _) Hh)| |cbn; by rewrite E].
    unfold distance; cbn; lia. }
  destruct (Z.gtb_spec (idle s) 0) as [Hi|Hi].
  - pose proof (proj2 (Z.gtb_lt _ _) Hi) as Hi'. destruct (Z.gtb_spec (queued s) 0) as [Hk|Hk]; eexists.
    + apply (closer_step_intro LTake); [cbn; unfold worker_take; by rewrite (proj2 (Z.gtb_lt _ _) Hk), Hi'| |cbn; by rewrite E].
      unfold distance; cbn; lia.
    + assert (Hz : (queued s =? 0) = true) by lia.
      apply (closer_step_intro LExit); [cbn; unfold worker_exit; by rewrite Hcc, Hz, Hi'| |cbn; by rewrite E].
      unfold distance; cbn; lia.
  - assert (Hz : (checkWG s =? 0) = true) by (unfold checkWG; lia). eexists.
    apply (closer_step_intro LCloser); [cbn; unfold close_step; by rewrite E, Hz| |done].
    unfold distance; cbn; rewrite E; cbn; lia.
Qed.

(** The closing goroutine, or one it waits for, can move. *)
Lemma close_progress s : inv s → srank (starter s) = 0 ∨ 5 <= srank (starter s) → 0 < crank (closer s) < 7 →
  ∃ s', closer_step s s'.
Proof.
  intros (Hb&Hsig&Hsv&Hd) Hr Hc. unfold bounded, slots, checkWG in Hb.
  assert (Hsd : startDone s = true) by (destruct Hsig as (_&->&_); lia).
  assert (Hms : maintStop s = (3 <=? crank (closer s))) by apply Hsig.
  assert (Hcc : checksClosing s = (4 <=? crank (closer s))) by apply Hsig.
  assert (Hq : 0 < queued s → 0 < checkWG s) by apply Hsv. clear Hsig Hsv Hd.
  destruct (closer s) eqn:E; cbn in Hc, Hms, Hcc; try lia.
  - eexists. apply (closer_step_intro LCloser); [cbn; unfold close_step; by rewrite E, Hsd| |done].
    unfold distance; cbn; rewrite E; cbn; lia.
  - destruct (Z.gtb_spec (active s) 0) as [Ha|Ha]; [|destruct (Z.gtb_spec (releasing s) 0) as [Hl|Hl]]; eexists.
    + apply (closer_step_intro LRelease); [cbn; unfold send_release; by rewrite (proj2 (Z.gtb_lt _ _) Ha)| |cbn; by rewrite E].
      unfold distance; cbn; lia.
    + apply (closer_step_intro LDone); [cbn; unfold send_done; by rewrite (proj2 (Z.gtb_lt _ _) Hl)| |cbn; by rewrite E].
      unfold distance; cbn; lia.
    + assert (Hz : (sendWG s =? 0) = true) by (unfold sendWG; lia).
      apply (closer_step_intro LCloser); [cbn; unfold close_step; by rewrite E, Hz| |done].
      unfold distance; cbn; rewrite E; cbn; lia.
  - destruct (maintDone s) eqn:Hm; eexists.
    + apply (closer_step_intro LCloser); [cbn; unfold close_step; by rewrite E, Hm| |done].
      unfold distance; cbn; rewrite E, Hm; cbn; lia.
    + apply (closer_step_intro LMaintExit); [cbn; unfold maintain_exit; by rewrite Hms, Hm| |cbn; by rewrite E].
      unfold distance; cbn; rewrite Hm; lia.
  - apply checks_progress; [done|by split_and!; apply Hb|exact Hq|done].
  - eexists. apply (closer_step_intro LCloser); [cbn; unfold close_step; by rewrite E| |done].
    unfold distance; destruct (backend s); cbn; rewrite E; cbn; lia.
  - eexists. apply (closer_step_intro LCloser); [cbn; unfold close_step; by rewrite E| |done].
    unfold distance; cbn; rewrite E; cbn; lia.
Qed.

Lemma distance_nonneg s : inv s → 0 <= distance s.
Proof.
  intros ((Hw&_&Ha&Hl&Hq&Hi&Hh&Hr&_)&_). unfold distance.
  assert (srank (starter s) <= 6 ∧ crank (closer s) <= 7) by (by destruct (starter s), (closer s)).
  destruct (maintDone s); lia.
Qed.

Lemma shutdown_progress s : inv s → 0 < crank (closer s) → ∃ s', rtc step s s' ∧ stopped s' = true.
Proof.
  remember (Z.to_nat (distance s)) as k eqn:Hk. revert s Hk.
  induction (lt_wf k) as [k _ IH]. intros s -> Hi Hc.
  destruct (decide (crank (closer s) < 7)) as [Hlt|Hge].
  2: { exists s. split; [reflexivity|]. destruct Hi as (_&(_&_&_&_&->&_)&_). lia. }
  assert (Hnext : ∃ s', closer_step s s').
  { destruct (decide (1 <= srank (starter s) <= 4)) as [Hr|Hr].
    - apply start_progress; [done| |done]. apply Hi. done.
    - apply close_progress; [done| |done]. pose proof (srank_nonneg (starter s)). lia. }
  destruct Hnext as (s1&Hstep&Hd&Hc1). pose proof (inv_step _ _ Hi Hstep) as Hi1.
  pose proof (distance_nonneg _ Hi1).
  destruct (IH (Z.to_nat (distance s1)) ltac:(lia) s1 eq_refl Hi1 Hc1) as (s2&Hr&Hst).
  exists s2. split; [by eapply rtc_l|done].
Qed.

(** ** Theorems *)

(** A sender stays within its limits.  In every state it can reach, no more
    than Limits.Sends operations hold a slot, no more than Limits.CheckQueue
    checks are queued and no more than Limits.CheckWorkers run. *)
Theorem sender_within_limits s :
  rtc step NewTransactionalSender s →
  0 <= slots s <= Sends limits ∧ 0 <= active s <= Sends limits ∧
  0 <= queued s <= CheckQueue limits ∧ 0 <= running s <= CheckWorkers limits.
Proof.
  intros ((?&?&?&?&?&?&?&?&?&?&?&?)&_)%inv_reachable. unfold slots, checkWG in *. lia.
Qed.

(** C19: Shutdown is orderly.  When the backend has been closed, or the sender
    reports that it stopped, no admitted send and no check is running, waiting
    or being released, maintenance has ended, and from then on nothing is
    admitted: the sender is never ready again, every dispatched check is refused
    and an interrupted Close reports success. *)
Theorem shutdown_orderly s s' :
  rtc step NewTransactionalSender s → backendClosed s = true ∨ stopped s = true → rtc step s s' →
  sendWG s' = 0 ∧ checkWG s' = 0 ∧ queued s' = 0 ∧ maintDone s' = true ∧ Ready s' = false ∧
  (∀ t accepted, dispatch s' = Some (t, accepted) → accepted = false) ∧
  (stopped s = true → incomplete s' = None ∧ started s' = false).
Proof.
  intros Hr Hor Hs. assert (Hi : inv s) by (by apply inv_reachable).
  assert (Hc : 6 <= crank (closer s)).
  { destruct Hi as (_&(_&_&_&_&Hst&_)&_&(_&_&_&_&_&Hbc)). destruct Hor as [?|Hx]; [by apply Hbc|].
    rewrite Hst in Hx. lia. }
  assert (Hk : inv s' ∧ crank (closer s) <= crank (closer s')).
  { split; [apply inv_reachable; by etransitivity|]. clear -Hs. induction Hs as [|a b c [l Hl] _ IH]; [lia|].
    etransitivity; [|exact IH]. eapply closer_monotone, Hl. }
  destruct Hk as [Hi' Hc']. destruct (inv_drained s' Hi') as (?&?&?&?&?&?&Hm&Hst&Hcc); [lia|].
  unfold sendWG, checkWG. do 3 (split; [lia|]). split; [done|]. split; [|split].
  - unfold Ready. by rewrite Hst, andb_false_r.
  - intros t acc. unfold dispatch. destruct (negb _); [done|]. rewrite Hcc. by intros [= _ <-].
  - intros Hx. destruct Hi as (_&(_&_&_&_&Hst1&_)&_). rewrite Hst1 in Hx.
    assert (H7 : 7 <= crank (closer s')) by lia. destruct Hi' as (_&(_&_&_&_&Hst'&_)&_&(_&_&Hst2&_)).
    unfold incomplete. rewrite Hst', (proj2 (Z.leb_le _ _) H7). split; [done|by apply Hst2].
Qed.

(** Admission is closed for good.  Once admission has been stopped no send is
    admitted any more: the number of admitted sends only falls. *)
Theorem admission_closed s s' :
  stopping s = true → rtc step s s' →
  stopping s' = true ∧ Ready s' = false ∧ sendWG s' <= sendWG s.
Proof.
  clear limits_ok. intros Hst Hs. assert (Hk : stopping s' = true ∧ sendWG s' <= sendWG s).
  { revert Hst. induction Hs as [|a b c [l Hl] _ IH]; [intros ?; split; [done|lia]|]. intros Hst.
    destruct (stopping_monotone l a b Hst Hl) as [Hb Hw]. destruct (IH Hb) as [? ?]. split; [done|lia]. }
  destruct Hk as [Hk ?]. split; [done|]. split; [|done]. unfold Ready. by rewrite Hk, andb_false_r.
Qed.

(** Shutdown always completes.  From every state a sender can reach, including
    a Start in progress, running sends and queued checks, a Close can run to the
    end: no wait of the closing goroutine is for something that cannot happen. *)
Theorem shutdown_completes s :
  rtc step NewTransactionalSender s → ∃ s', rtc step (Close_begin s) s' ∧ stopped s' = true.
Proof.
  intros Hr. apply shutdown_progress.
  - apply inv_reachable. eapply rtc_r; [exact Hr|]. by exists LClose.
  - unfold Close_begin, closeAsync. destruct (bool_decide_reflect (closer (StopAdmission s) = CNone)); [done|].
    by destruct (closer (StopAdmission s)).
Qed.
End lifecycle.

(** ** A concrete life

    A sender is started, admits a send while a check is queued, and is closed. *)

Fixpoint run_all (limits : Limits) (ls : list Label) (s : State) : option State :=
  match ls with
  | [] => Some s
  | l :: ls => match run limits l s with Some s' => run_all limits ls s' | None => None end
  end.

Lemma run_all_steps limits ls s s' : run_all limits ls s = Some s' → rtc (step limits) s s'.
Proof.
  revert s. induction ls as [|l ls IH]; intros s; simpl; [by intros [= ->]|].
  destruct (run limits l s) as [s1|] eqn:E; [|done]. intros H. eapply rtc_l; [by exists l|by apply IH].
Qed.

Definition ex_busy : list Label :=
  [LStart; LValidate true; LFactory true; LBackend true; LFinish; LSlot; LDecide; LSlot; LDispatch; LDispatch; LTake; LBegin].
Definition ex_drain : list Label :=
  [LClose; LDecide; LGiveback; LDispatch; LEnd true; LRelease; LDone; LCloser; LCloser; LTick true; LMaintExit; LCloser;
   LTake; LBegin; LEnd false; LTake; LBegin; LEnd false; LExit; LExit; LExit; LExit; LCloser; LCloser].
Definition ex_state (ls : list Label) : State := default NewTransactionalSender (run_all DefaultLimits ls NewTransactionalSender).
Definition ex_open : State := Eval vm_compute in ex_state ex_busy.
Definition ex_closed : State := Eval vm_compute in ex_state (ex_busy ++ ex_drain).

Lemma ex_open_reached : rtc (step DefaultLimits) NewTransactionalSender ex_open.
Proof. apply (run_all_steps _ ex_busy). vm_compute. reflexivity. Qed.
Lemma ex_closed_reached : rtc (step DefaultLimits) NewTransactionalSender ex_closed.
Proof. apply (run_all_steps _ (ex_busy ++ ex_drain)). vm_compute. reflexivity. Qed.
Lemma ex_limits : limits_Valid DefaultLimits = true.
Proof. vm_compute. reflexivity. Qed.

Lemma sender_within_limits_witness :
  slots ex_open = 2 ∧ running ex_open = 1 ∧ 0 <= slots ex_open <= 8.
Proof.
  split; [reflexivity|]. split; [reflexivity|].
  exact (proj1 (sender_within_limits DefaultLimits ex_limits ex_open ex_open_reached)).
Defined.

Lemma shutdown_orderly_witness :
  backendClosed ex_closed = true ∧ sendWG ex_closed = 0 ∧ checkWG ex_closed = 0.
Proof.
  split; [reflexivity|].
  destruct (shutdown_orderly DefaultLimits ex_limits ex_closed ex_closed ex_closed_reached (or_introl eq_refl)
    (rtc_refl _ _)) as (H1&H2&_). exact (conj H1 H2).
Defined.

Lemma admission_closed_witness : sendWG (Close_begin ex_open) <= 1.
Proof.
  assert (Hs : rtc (step DefaultLimits) (StopAdmission ex_open) (Close_begin ex_open)) by (apply rtc_once; by exists LClose).
  exact (proj2 (proj2 (admission_closed DefaultLimits (StopAdmission ex_open) (Close_begin ex_open) eq_refl Hs))).
Defined.

Lemma shutdown_completes_witness : ∃ s', rtc (step DefaultLimits) (Close_begin ex_open) s' ∧ stopped s' = true.
Proof. exact (shutdown_completes DefaultLimits ex_limits ex_open ex_open_reached). Defined.

End lifecycle.
