(* ===== verification/TxMongo.v ===== *)
(** * storage/transaction/mongo: transaction evidence on MongoDB

    [store.go], [guard.go], [receipt.go], [recovery_receipt.go] and [schema.go].
    The collections are finite maps keyed by [_id].  A statement outside a
    session transaction is atomic on its own: other processes may act between
    two of them ([yield]).  A protocol transaction is [in_tx]; of the attempts
    [WithTransaction] may make only the last one leaves anything.  The host's
    session transaction is Bind, business, CommitWitness, commit: the write of
    Bind makes conflicting writers of the document fail until it ends.  Times
    are BSON milliseconds. *)

From S2P Require Import Prelude GoStd Database Message Transaction TxCodec.

Module txmongo.
Import transaction codec.

Definition SchemaVersion : Z := 1.

(** ** Documents

    An absent string field is empty. *)

Record branchDoc : Type := mkBranchDoc {
  bd_Reference : bytes; bd_State : State; bd_BrokerMessageID : string; bd_BrokerTransactionID : string;
  bd_Half : HalfOutcome; bd_Final : FinalOutcome; bd_HalfError : string; bd_FinalError : string;
  bd_HalfAt : option Z; bd_FinalAt : option Z
}.
Record executionDoc : Type := mkExecDoc {
  d_ID : bytes; d_Request : bytes; d_Owner : string; d_Plan : bytes; d_Digest : bytes; d_Fence : Z;
  d_Epoch : string; d_Token : bytes; d_Lease : Z; d_State : State; d_Version : Z;
  d_Branches : list branchDoc; d_PrepareStarted : bool
}.
Record requestDoc : Type := mkRequestDoc {
  rd_Owner : string; rd_Scope : string; rd_Key : string; rd_Input : bytes; rd_Active : bytes; rd_Version : Z
}.

Record DB : Type := mkDB {
  collections : gmap string string;            (* name ↦ collation locale *)
  bindings : gmap string (string * string * Z);
  requests : gmap bytes requestDoc;
  execs : gmap bytes executionDoc
}.
Definition with_requests (s : DB) m : DB := mkDB (collections s) (bindings s) m (execs s).
Definition with_execs (s : DB) m : DB := mkDB (collections s) (bindings s) (requests s) m.

Definition set_branches (st : State) (bs : list branchDoc) (v : Z) (d : executionDoc) : executionDoc :=
  mkExecDoc (d_ID d) (d_Request d) (d_Owner d) (d_Plan d) (d_Digest d) (d_Fence d) (d_Epoch d) (d_Token d)
    (d_Lease d) st v bs (d_PrepareStarted d).
Definition set_started (d : executionDoc) : executionDoc :=
  mkExecDoc (d_ID d) (d_Request d) (d_Owner d) (d_Plan d) (d_Digest d) (d_Fence d) (d_Epoch d) (d_Token d)
    (d_Lease d) (d_State d) (d_Version d) (d_Branches d) true.
Definition branch_state (st : State) (b : branchDoc) : branchDoc :=
  mkBranchDoc (bd_Reference b) st (bd_BrokerMessageID b) (bd_BrokerTransactionID b) (bd_Half b) (bd_Final b)
    (bd_HalfError b) (bd_FinalError b) (bd_HalfAt b) (bd_FinalAt b).

(** [$set state, witnesses.$[].state] *)
Definition settle (st : State) (v : Z) (d : executionDoc) : executionDoc :=
  set_branches st (map (branch_state st) (d_Branches d)) v d.
Definition bump (d : executionDoc) : executionDoc := set_branches (d_State d) (d_Branches d) (d_Version d + 1) d.

(** UpdateOne on rm_tx_execution by [_id]: the number of documents matched. *)
Definition update_one (k : bytes) (p : tick → executionDoc → bool) (f : tick → executionDoc → executionDoc) : M DB Z :=
  stmt (λ t s, match execs s !! k with
               | Some d => if p t d then Ok (1, with_execs s (<[k := f t d]> (execs s))) else Ok (0, s)
               | None => Ok (0, s)
               end).

Definition find_exec (k : bytes) : M DB executionDoc :=
  query (λ _ s, match execs s !! k with Some d => Ok d | None => Err ErrNoRows end).

Section store.
Context (b : Binding) (env : nat → DB → DB).

(** Other processes act. *)
Definition yield : M DB () := λ w '(n, s), (Ok (), (n, env n s)).

(** ** Binding, schema and lookups *)

Definition New : result Binding := if negb (binding_Valid b) then Err ErrBinding else Ok b.

Definition key (e : Execution) : bytes :=
  let i := plan_Input (ex_Plan e) in
  ExecutionKey (p_Owner i) (p_OperationID i) (ex_WriterEpoch e) (ex_Fence e).

Definition bindingIn (writer : bool) : M DB () :=
  row ← query (λ _ s, match bindings s !! bn_Owner b with Some r => Ok r | None => Err ErrNoRows end);
  let '(id, epoch, version) := row in
  if (id != StoreID b) || (writer && (epoch != bn_WriterEpoch b)) then raise ErrBinding
  else if negb (version =? SchemaVersion) then raise ErrSchema
  else mret ().

Definition needed : list string := ["rm_tx_binding"; "rm_tx_request"; "rm_tx_execution"]%string.
Definition simple_locale (l : string) : bool := (l == ""%string) || (l == "simple"%string).

Definition ValidateSchema : M DB () :=
  cols ← query (λ _ s, Ok (collections s));
  ensure (forallb (λ name, match cols !! name with Some l => simple_locale l | None => false end) needed) ErrSchema.

(** Error 48 is NamespaceExists. *)
Definition create_collection (name : string) : M DB () :=
  stmt (λ _ s, match collections s !! name with
               | Some _ => Err (ErrDriver 48)
               | None => Ok ((), mkDB (<[name := "simple"%string]> (collections s)) (bindings s) (requests s) (execs s))
               end).
Definition install_collection (name : string) : M DB () :=
  r ← catch (create_collection name);
  _ ← match r with
      | Err e => ensure (e == ErrDriver 48) e
      | Ok _ => mret ()
      end;
  found ← query (λ _ s, Ok (collections s !! name));
  match found with
  | None => raise ErrSchema
  | Some l => ensure (simple_locale l) ErrSchema
  end.
Definition InstallSchema : M DB () :=
  _ ← for_each install_collection needed;
  query (λ _ _, Ok ()).

Definition decode (d : executionDoc) (capability : bool) : result Reservation :=
  try p <- DecodePlan (d_Plan d);
  if (d_Fence d <=? 0) || (d_Digest d != plan_Digest p) || (p_Owner (plan_Input p) != bn_Owner b) ||
     negb (len (d_Token d) =? 32) then Err ErrInvalidPlan
  else
    let e := mkExecution p (d_Fence d) (d_Epoch d) (d_Token d) (d_Lease d) in
    if negb (execution_Valid e) then Err ErrInvalidPlan
    else if key e != d_ID d then Err ErrInvalidPlan
    else
      let e := if capability then e
               else mkExecution p (d_Fence d) (d_Epoch d) message.zeroHash (d_Lease d) in
      Ok (mkReservation e false (d_State d)).

Definition lookupIn (r : Request) : M DB Reservation :=
  root ← query (λ _ s, match requests s !! KeyDigest r with Some q => Ok q | None => Err ErrNoRows end);
  if (rd_Owner root != rq_Owner r) || (rd_Scope root != rq_Scope r) || (rd_Key root != rq_Key r) then
    raise ErrRequestIdentity
  else if rd_Input root != rq_InputHash r then raise ErrInputConflict
  else
    d ← find_exec (rd_Active root);
    result ← liftR (decode d false);
    _ ← liftR (Match r (ex_Plan (rs_Execution result)));
    mret result.

Definition Lookup (r : Request) : M DB Reservation :=
  if negb (request_Valid r) || (rq_Owner r != bn_Owner b) then raise ErrBinding
  else
    res ← catch (in_tx (_ ← bindingIn false; lookupIn r));
    match res with
    | Ok v => mret v
    | Err e => if errors_is e ErrNoRows then raise ErrNotFound else raise e
    end.

(** ** Reserving *)

Definition newDoc (p : FrozenPlan) (fence lease : Z) : M DB (executionDoc * Execution) :=
  token ← rand_read;
  now ← query (λ t s, match bindings s !! bn_Owner b with Some _ => Ok (t_now t) | None => Err ErrBinding end);
  let e := mkExecution p fence (bn_WriterEpoch b) token ((now * 1000000 + lease) / 1000000) in
  raw ← liftR (EncodePlan p);
  refs ← liftR (rmap_list EncodeReference (References e));
  mret (mkExecDoc (key e) (KeyDigest (RequestFor p)) (p_Owner (plan_Input p)) raw (plan_Digest p) fence
          (ex_WriterEpoch e) token (ex_LeaseUntil e) Prepared 0
          (map (λ raw, mkBranchDoc raw Prepared "" "" "" "" "" "" None None) refs) false, e).

Definition insert_execution (d : executionDoc) : M DB () :=
  stmt (λ _ s, match execs s !! d_ID d with
               | Some _ => Err ErrDuplicateKey
               | None => Ok ((), with_execs s (<[d_ID d := d]> (execs s)))
               end).
Definition insert_request (r : Request) (active : bytes) : M DB () :=
  stmt (λ _ s, match requests s !! KeyDigest r with
               | Some _ => Err ErrDuplicateKey
               | None => Ok ((), with_requests s (<[KeyDigest r :=
                   mkRequestDoc (rq_Owner r) (rq_Scope r) (rq_Key r) (rq_InputHash r) active 0]> (requests s)))
               end).

Definition Reserve (r : Request) (p : FrozenPlan) (lease : Z) : M DB Reservation :=
  if negb (options_Valid lease) || negb (plan_Valid p) || (rq_Owner r != bn_Owner b) then raise ErrBinding
  else
    _ ← liftR (Match r p);
    _ ← ValidateSchema;
    _ ← yield;
    res ← catch (in_tx (
      _ ← bindingIn true;
      cur ← catch (lookupIn r);
      match cur with
      | Ok current => mret current
      | Err e =>
        if errors_is e ErrNoRows then
          de ← newDoc p 1 lease;
          _ ← insert_request r (d_ID de.1);
          _ ← insert_execution de.1;
          mret (mkReservation de.2 true Prepared)
        else raise e
      end));
    match res with
    | Ok v => mret v
    | Err e => if errors_is e ErrDuplicateKey then _ ← yield; Lookup r else raise e
    end.

(** ** Evidence *)

(** The loop over the stored witnesses. *)
Fixpoint find_evidence (ref : Reference) (st : State) (bs : list branchDoc) : result (option Evidence) :=
  match bs with
  | [] => Ok None
  | br :: bs =>
    try actual <- DecodeReference (bd_Reference br);
    if actual == ref then Ok (Some (mkEvidence actual st (bd_State br))) else find_evidence ref st bs
  end.

Definition ref_key (ref : Reference) : bytes :=
  ExecutionKey (Owner ref) (OperationID ref) (WriterEpoch ref) (Fence ref).

Definition evidence_read (ref : Reference) : M DB (option Evidence) :=
  d ← catch (find_exec (ref_key ref));
  match d with
  | Err e => if errors_is e ErrNoRows then mret None else raise e
  | Ok d => liftR (find_evidence ref (d_State d) (d_Branches d))
  end.

(** [pause] is what happens between its two reads: inside a transaction, nothing. *)
Definition evidence_with (pause : M DB ()) (ref : Reference) : M DB (option Evidence) :=
  if negb (ref_Valid ref) || (Owner ref != bn_Owner b) then raise ErrBinding
  else _ ← bindingIn false; _ ← pause; evidence_read ref.
Definition EvidenceOf (ref : Reference) : M DB (option Evidence) := evidence_with yield ref.

(** ** Preparing, aborting, reconciling *)

Definition BeginPrepare (e : Execution) : M DB () :=
  if negb (execution_Valid e) || (p_Owner (plan_Input (ex_Plan e)) != bn_Owner b) ||
     (ex_WriterEpoch e != bn_WriterEpoch b) then raise ErrBinding
  else
    _ ← bindingIn true;
    _ ← yield;
    n ← update_one (key e)
          (λ t d, (d_State d == Prepared) && (d_Token d == ex_Token e) && (d_Digest d == plan_Digest (ex_Plan e)) &&
                  negb (d_PrepareStarted d) && (d_Lease d >? t_now t)) (λ _, set_started);
    ensure (n =? 1) ErrStaleExecution.

(** Every witness is the encoded reference, prepared. *)
Fixpoint all_prepared (raws : list bytes) (bs : list branchDoc) : bool :=
  match raws, bs with
  | [], [] => true
  | raw :: raws, br :: bs => (bd_Reference br == raw) && (bd_State br == Prepared) && all_prepared raws bs
  | _, _ => false
  end.

Definition abort (e : Execution) (expired : bool) : M DB bool :=
  if negb (execution_Valid e) || (p_Owner (plan_Input (ex_Plan e)) != bn_Owner b) then raise ErrBinding
  else
    _ ← bindingIn false;
    raws ← liftR (rmap_list EncodeReference (References e));
    _ ← yield;
    n ← update_one (key e)
          (λ t d, (d_State d == Prepared) && (d_Token d == ex_Token e) && (d_Digest d == plan_Digest (ex_Plan e)) &&
                  all_prepared raws (d_Branches d) && (negb expired || (d_Lease d <=? t_now t)))
          (λ _ d, settle Aborted (d_Version d + 1) d);
    mret (n =? 1).
Definition Abort (e : Execution) : M DB bool := abort e false.

Definition expired_le (p q : executionDoc) : Prop := d_Lease p <= d_Lease q.
#[global] Instance mongo_expired_le_dec : RelDecision expired_le.
Proof. intros p q. unfold expired_le. apply _. Defined.

Definition find_expired (limit now : Z) (s : DB) : list executionDoc :=
  take (Z.to_nat limit) (merge_sort expired_le
    (filter (λ d, d_Owner d = bn_Owner b ∧ d_State d = Prepared ∧ d_Lease d <= now) (map snd (map_to_list (execs s))))).

Definition reconcile_one (d : executionDoc) : M DB bool :=
  r ← liftR (decode d true);
  _ ← yield;
  abort (rs_Execution r) true.

Definition ReconcileOnce (limit : Z) : M DB Z :=
  if (limit <? 1) || (limit >? 1000) then raise ErrInvalidPlan
  else
    _ ← bindingIn false;
    _ ← yield;
    docs ← query (λ t s, Ok (find_expired limit (t_now t) s));
    oks ← for_each reconcile_one docs;
    mret (llen (filter (λ ok, ok = true) oks)).

(** ** Authorized retry and replan *)

Definition move_request (rk old new : bytes) : M DB Z :=
  stmt (λ _ s, match requests s !! rk with
               | Some q => if rd_Active q == old
                           then Ok (1, with_requests s (<[rk := mkRequestDoc (rd_Owner q) (rd_Scope q) (rd_Key q)
                                          (rd_Input q) new (rd_Version q + 1)]> (requests s)))
                           else Ok (0, s)
               | None => Ok (0, s)
               end).

Definition advance (previous : Execution) (p : FrozenPlan) (lease : Z) (replan : bool) : M DB Reservation :=
  if negb (plan_Valid (ex_Plan previous)) || negb (plan_Valid p) || negb (options_Valid lease)
  then raise ErrInvalidPlan
  else
    let r := RequestFor (ex_Plan previous) in
    if rq_Owner r != bn_Owner b then raise ErrBinding
    else in_tx (
      _ ← bindingIn true;
      current ← lookupIn r;
      if (key (rs_Execution current) != key previous) ||
         (plan_Digest (ex_Plan (rs_Execution current)) != plan_Digest (ex_Plan previous))
      then raise ErrStaleExecution
      else
        evidence ← for_each (evidence_with (mret ())) (References previous);
        _ ← liftR (ValidateAdvance previous p evidence replan);
        de ← newDoc p (ex_Fence previous + 1) lease;
        _ ← insert_execution de.1;
        n ← move_request (KeyDigest r) (key previous) (d_ID de.1);
        if negb (n =? 1) then raise ErrStaleExecution
        else mret (mkReservation de.2 true Prepared)).
Definition Retry (previous : Execution) (lease : Z) : M DB Reservation :=
  advance previous (ex_Plan previous) lease false.
Definition Replan (previous : Execution) (candidate : FrozenPlan) (lease : Z) : M DB Reservation :=
  advance previous candidate lease true.

(** ** The guard of the host transaction *)

Record Guard : Type := mkGuard { g_execution : Execution; g_version : Z; g_finished : bool }.

(** The stored witnesses against the references of the execution. *)
Fixpoint witnesses_match (refs : list Reference) (bs : list branchDoc) : bool :=
  match refs, bs with
  | [], [] => true
  | ref :: refs, br :: bs =>
    match DecodeReference (bd_Reference br) with
    | Ok actual => (actual == ref) && (bd_State br == Prepared) && witnesses_match refs bs
    | Err _ => false
    end
  | _, _ => false
  end.

Definition Bind (e : Execution) : M DB Guard :=
  if negb (execution_Valid e) || (p_Owner (plan_Input (ex_Plan e)) != bn_Owner b) ||
     (ex_WriterEpoch e != bn_WriterEpoch b) then raise ErrBinding
  else
    _ ← bindingIn true;
    n ← update_one (key e)
          (λ t d, (d_State d == Prepared) && (d_Token d == ex_Token e) && (d_Digest d == plan_Digest (ex_Plan e)) &&
                  (d_Lease d >? t_now t)) (λ _, bump);
    if negb (n =? 1) then raise ErrStaleExecution
    else
      d ← find_exec (key e);
      stored ← liftR (DecodePlan (d_Plan d));
      _ ← ensure (plan_Digest stored == plan_Digest (ex_Plan e)) ErrStaleExecution;
      _ ← ensure (witnesses_match (References e) (d_Branches d)) ErrStaleExecution;
      mret (mkGuard e (d_Version d) false).

Definition CommitWitness (g : Guard) : M DB Guard :=
  if g_finished g then raise ErrTransactionRequired
  else
    let e := g_execution g in
    n ← update_one (key e)
          (λ _ d, (d_State d == Prepared) && (d_Token d == ex_Token e) && (d_Version d =? g_version g))
          (λ _ d, settle Committed (d_Version d) d);
    if negb (n =? 1) then raise ErrStaleExecution
    else mret (mkGuard e (g_version g) true).

Definition host_transaction (e : Execution) (business : result ()) : M DB () :=
  in_tx (g ← Bind e; _ ← liftR business; _ ← CommitWitness g; mret ()).

(** ** Receipts *)

Definition Validate : M DB () := _ ← ValidateSchema; _ ← yield; bindingIn true.

(** The position of the reference, and the filter on its document. *)
Fixpoint index_of (ref : Reference) (refs : list Reference) : option nat :=
  match refs with
  | [] => None
  | r :: refs => if r == ref then Some 0%nat else Datatypes.S <$> index_of ref refs
  end.
Definition receiptFilter (e : Execution) (ref : Reference) : result (nat * bytes) :=
  if negb (MatchExecution e ref) || (Owner ref != bn_Owner b) then Err ErrBinding
  else
    try raw <- EncodeReference ref;
    match index_of ref (References e) with
    | Some i => Ok (i, raw)
    | None => Err ErrInvalidPlan
    end.
Definition receipt_matches (e : Execution) (raw : bytes) (i : nat) (p : State → branchDoc → bool) (d : executionDoc) : bool :=
  (d_Token d == ex_Token e) && (d_Digest d == plan_Digest (ex_Plan e)) &&
  match d_Branches d !! i with
  | Some br => (bd_Reference br == raw) && p (d_State d) br
  | None => false
  end.
Definition update_branch (i : nat) (f : branchDoc → branchDoc) (d : executionDoc) : executionDoc :=
  set_branches (d_State d) (alter f i (d_Branches d)) (d_Version d) d.

Definition set_half (h : HalfReceipt) (t : tick) (br : branchDoc) : branchDoc :=
  mkBranchDoc (bd_Reference br) (bd_State br) (h_BrokerMessageID h) (h_BrokerTransactionID h) (h_Outcome h)
    (bd_Final br) (h_ErrorCode h) (bd_FinalError br) (Some (t_now t)) (bd_FinalAt br).
Definition set_final (f : FinalOutcome) (code : string) (t : tick) (br : branchDoc) : branchDoc :=
  mkBranchDoc (bd_Reference br) (bd_State br) (bd_BrokerMessageID br) (bd_BrokerTransactionID br) (bd_Half br)
    f (bd_HalfError br) code (bd_HalfAt br) (Some (t_now t)).

Definition half_open (h : HalfReceipt) (br : branchDoc) : bool :=
  ((bd_Half br == ""%string) || (bd_Half br == HalfNotAttempted) || (bd_Half br == HalfUnknown) ||
   (bd_Half br == h_Outcome h)) &&
  ((bd_BrokerMessageID br == ""%string) || (bd_BrokerMessageID br == h_BrokerMessageID h)) &&
  ((bd_BrokerTransactionID br == ""%string) || (bd_BrokerTransactionID br == h_BrokerTransactionID h)).
Definition final_open (f : FinalOutcome) (br : branchDoc) : bool :=
  (bd_Final br == ""%string) || (bd_Final br == FinalNotAttempted) || (bd_Final br == FinalUnknown) || (bd_Final br == f).

Definition RecordHalf (e : Execution) (ref : Reference) (h : HalfReceipt) : M DB () :=
  if negb (half_Valid h) then raise ErrInvalidPlan
  else
    _ ← bindingIn false;
    ir ← liftR (receiptFilter e ref);
    _ ← yield;
    n ← update_one (key e)
          (λ _, receipt_matches e ir.2 ir.1 (λ st br, (st == Prepared) && (bd_State br == Prepared) && half_open h br))
          (λ t, update_branch ir.1 (set_half h t));
    ensure (n =? 1) ErrStaleExecution.

Definition RecordFinal (e : Execution) (ref : Reference) (f : FinalOutcome) (code : string) : M DB () :=
  if negb (ValidFinal f code) then raise ErrInvalidPlan
  else
    _ ← bindingIn false;
    ir ← liftR (receiptFilter e ref);
    _ ← yield;
    let decided st (br : branchDoc) :=
      if f == FinalCommitConfirmed then (st == Committed) && (bd_State br == Committed)
      else if f == FinalRollbackConfirmed then (st == Aborted) && (bd_State br == Aborted)
      else ((st == Committed) && (bd_State br == Committed)) || ((st == Aborted) && (bd_State br == Aborted)) in
    n ← update_one (key e)
          (λ _, receipt_matches e ir.2 ir.1 (λ st br, decided st br && final_open f br))
          (λ t, update_branch ir.1 (set_final f code t));
    ensure (n =? 1) ErrStaleExecution.

(** The loop over the stored witnesses: [None] when the receipt is already there,
    otherwise the position and the stored reference to update. *)
Fixpoint find_recovery (ref : Reference) (st : State) (outcome : FinalOutcome) (i : nat) (bs : list branchDoc)
    : result (option (nat * bytes)) :=
  match bs with
  | [] => Err ErrStaleExecution
  | br :: bs =>
    try actual <- DecodeReference (bd_Reference br);
    if actual != ref then find_recovery ref st outcome (Datatypes.S i) bs
    else if (bd_State br != st) || negb (final_open outcome br) then Err ErrStaleExecution
    else if bd_Final br == outcome then Ok None else Ok (Some (i, bd_Reference br))
  end.

Definition RecordRecoveryFinal (ref : Reference) (outcome : FinalOutcome) : M DB () :=
  st ← liftR (RecoveryFinalState outcome);
  if negb (ref_Valid ref) || (Owner ref != bn_Owner b) then raise ErrBinding
  else in_tx (
    _ ← bindingIn false;
    d ← find_exec (ref_key ref);
    if (d_Owner d != Owner ref) || (d_Epoch d != WriterEpoch ref) || negb (d_Fence d =? Fence ref) || (d_State d != st)
    then raise ErrStaleExecution
    else
      hit ← liftR (find_recovery ref st outcome 0 (d_Branches d));
      match hit with
      | None => mret ()
      | Some (i, raw) =>
        n ← update_one (ref_key ref)
              (λ _ d, (d_State d == st) && match d_Branches d !! i with
                       | Some br => (bd_Reference br == raw) && (bd_State br == st)
                       | None => false end)
              (λ t, update_branch i (set_final outcome "" t));
        ensure (n =? 1) ErrStaleExecution
      end).

End store.
End txmongo.
