(* ===== verification/TxMongoFacts.v ===== *)
(** * storage/transaction/mongo: what the store guarantees

    A rely-guarantee account: every operation only moves the stored data along
    [advances], provided the other processes do ([env_advances]).  The store then
    discharges the interface of the sender, and a committed host transaction is
    shown to decide what every checker answers. *)

From S2P Require Import Prelude GoStd Database Message Transaction TxCodec TxMySQL TxMySQLFacts TxMongo.
From S2P Require Import Sender SenderFacts.

Module txmongofacts.
Import transaction codec txmongo.

(** ** How stored data evolve *)

Definition branch_le (x y : branchDoc) : Prop :=
  bd_Reference y = bd_Reference x ∧ (bd_Final x = ""%string ∨ txmysqlfacts.final_le (bd_Final x) (bd_Final y)).

Definition doc_le (x y : executionDoc) : Prop :=
  (d_ID y = d_ID x ∧ d_Request y = d_Request x ∧ d_Owner y = d_Owner x ∧ d_Plan y = d_Plan x ∧
   d_Digest y = d_Digest x ∧ d_Fence y = d_Fence x ∧ d_Epoch y = d_Epoch x ∧ d_Token y = d_Token x ∧
   d_Lease y = d_Lease x) ∧
  txmysqlfacts.state_le (d_State x) (d_State y) ∧
  (d_PrepareStarted x = true → d_PrepareStarted y = true) ∧
  Forall2 branch_le (d_Branches x) (d_Branches y).

Definition request_le (x y : requestDoc) : Prop :=
  rd_Owner y = rd_Owner x ∧ rd_Scope y = rd_Scope x ∧ rd_Key y = rd_Key x ∧ rd_Input y = rd_Input x.

(** The witnesses of a document are in the state of their execution. *)
Definition doc_ok (d : executionDoc) : Prop := Forall (λ br, bd_State br = d_State d) (d_Branches d).
Definition db_ok (s : DB) : Prop := map_Forall (λ _, doc_ok) (execs s).

Definition advances (s s' : DB) : Prop :=
  (txmysqlfacts.map_le request_le (requests s) (requests s') ∧ txmysqlfacts.map_le doc_le (execs s) (execs s')) ∧
  (db_ok s → db_ok s').

#[global] Instance branch_le_preorder : PreOrder branch_le.
Proof.
  split; [intros x; split; [done|right; reflexivity]|]. intros x y z [Hr Hf] [Hr' Hf'].
  split; [congruence|]. destruct Hf as [?|Hf]; [by left|]. destruct Hf' as [Hy|Hf'].
  - destruct Hf as [?|[?|Hf]]; [right; by left|right; right; by left|]. left. congruence.
  - right. by transitivity (bd_Final y).
Qed.
#[global] Instance doc_le_preorder : PreOrder doc_le.
Proof.
  split; [intros x; split_and!; try done; by left|]. intros x y z (H1&Hs&Hp&Hb) (H2&Hs'&Hp'&Hb').
  split; [|split; [by transitivity (d_State y)|split; [auto|by transitivity (d_Branches y)]]].
  destruct H1 as (?&?&?&?&?&?&?&?&?), H2 as (?&?&?&?&?&?&?&?&?). split_and!; congruence.
Qed.
#[global] Instance mongo_request_le_preorder : PreOrder request_le.
Proof. split; [done|]. intros a b c (?&?&?&?) (?&?&?&?). split_and!; congruence. Qed.
#[global] Instance mongo_advances_preorder : PreOrder advances.
Proof.
  split; [intros s; split; [split; reflexivity|done]|]. intros a b c [[? ?] ?] [[? ?] ?].
  split; [split; by etransitivity|auto].
Qed.

(** A document update that respects the order. *)
Lemma with_exec_advances s k d d' :
  execs s !! k = Some d → doc_le d d' → (doc_ok d → doc_ok d') →
  advances s (with_execs s (<[k := d']> (execs s))).
Proof.
  intros Hk Hle Hok. split.
  - split; [reflexivity|]. by eapply txmysqlfacts.map_le_insert; [apply _| |].
  - intros Hs. apply map_Forall_insert_2; [|done]. apply Hok. by eapply Hs.
Qed.

Lemma guar_update_one k p f :
  (∀ t d, p t d = true → doc_le d (f t d) ∧ (doc_ok d → doc_ok (f t d))) → guarantees advances (update_one k p f).
Proof.
  intros Hf. apply guar_stmt; [apply _|]. intros t s a s' E. destruct (execs s !! k) as [d|] eqn:Hd; [|by simplify_eq].
  destruct (p t d) eqn:Hp; simplify_eq; [|reflexivity]. destruct (Hf _ _ Hp). by eapply with_exec_advances.
Qed.

(** ** The updates of the store *)

Lemma doc_le_intro x st v bs st' :
  txmysqlfacts.state_le (d_State x) st → Forall2 branch_le (d_Branches x) bs →
  st' = set_branches st bs v x → doc_le x st'.
Proof. intros Hs Hb ->. by split. Qed.

Lemma settle_advances st v d : d_State d = Prepared → doc_le d (settle st v d) ∧ (doc_ok d → doc_ok (settle st v d)).
Proof.
  intros Hp. split.
  - eapply doc_le_intro; [by right| |reflexivity]. apply Forall2_fmap_r, Forall_Forall2_diag, Forall_true.
    intros br. split; [done|right; reflexivity].
  - intros _. unfold doc_ok, settle. cbn. apply Forall_fmap, Forall_true. done.
Qed.

Lemma bump_le d : doc_le d (bump d) ∧ (doc_ok d → doc_ok (bump d)).
Proof. split; [eapply doc_le_intro; [reflexivity|reflexivity|reflexivity]|done]. Qed.

Lemma started_le d : doc_le d (set_started d) ∧ (doc_ok d → doc_ok (set_started d)).
Proof. split; [split_and!; try done; by left|done]. Qed.

Lemma update_branch_le i f d :
  (∀ br, d_Branches d !! i = Some br → branch_le br (f br) ∧ bd_State (f br) = bd_State br) →
  doc_le d (update_branch i f d) ∧ (doc_ok d → doc_ok (update_branch i f d)).
Proof.
  intros Hf. assert (Hb : Forall2 branch_le (d_Branches d) (alter f i (d_Branches d))).
  { apply Forall2_same_length_lookup_2; [by rewrite length_alter|]. intros j x y Hx Hy.
    destruct (decide (j = i)) as [->|Hne].
    - rewrite list_lookup_alter_eq, Hx in Hy. injection Hy as <-. by apply Hf.
    - rewrite list_lookup_alter_ne, Hx in Hy by done. injection Hy as <-. reflexivity. }
  split; [eapply doc_le_intro; [reflexivity|exact Hb|reflexivity]|].
  intros Hok. unfold doc_ok, update_branch in *. cbn. rewrite Forall_lookup in *. intros j y Hy.
  destruct (decide (j = i)) as [->|Hne].
  - rewrite list_lookup_alter_eq in Hy. destruct (d_Branches d !! i) as [br|] eqn:Hbr; [|done].
    injection Hy as <-. destruct (Hf _ eq_refl) as [_ ->]. by eapply Hok.
  - rewrite list_lookup_alter_ne in Hy by done. by eapply Hok.
Qed.

Lemma mongo_set_half_le h t br : branch_le br (set_half h t br) ∧ bd_State (set_half h t br) = bd_State br.
Proof. split; [split; [done|right; reflexivity]|done]. Qed.

Lemma mongo_set_final_le f code t br :
  final_open f br = true → branch_le br (set_final f code t br) ∧ bd_State (set_final f code t br) = bd_State br.
Proof.
  unfold final_open. intros H. split; [|done]. split; [done|]. cbn. rewrite !orb_true_iff in H.
  destruct H as [[[H|H]|H]|H]; apply bool_decide_eq_true in H; [by left|right; by left|right; right; by left|].
  right. right. by right.
Qed.

Lemma valid_reference e ref :
  ref ∈ References e → ref_Valid ref = true → ref_key ref = key e ∧ Owner ref = p_Owner (plan_Input (ex_Plan e)).
Proof.
  unfold References. destruct (_ || _); [by intros Hin; inversion Hin|]. intros (br&Hr&_)%list_elem_of_fmap Hv.
  unfold plan_Reference in Hr. destruct (_ || _); [by subst|]. destruct (find _ _) as [x|]; [|by subst]. by rewrite Hr.
Qed.

(** ** Operations *)

Section store.
Context (b : Binding) (env : nat → DB → DB) (env_advances : ∀ n s, advances s (env n s)).

Lemma post_yield s (P : result () → DB → Prop) :
  (∀ s', advances s s' → P (Ok ()) s') → post (yield env) s P.
Proof. intros HP w n. apply HP, env_advances. Qed.

Lemma guar_yield : guarantees advances (yield env).
Proof. intros s w n. apply env_advances. Qed.

Lemma mongo_reads_bindingIn writer : reads (bindingIn b writer).
Proof.
  unfold bindingIn. apply reads_bind; [auto with reads|]. intros [[id ep] ver].
  destruct (_ || _); [auto with reads|]. destruct (negb _); auto with reads.
Qed.
Lemma reads_find_exec k : reads (find_exec k).
Proof. apply reads_query. Qed.
Lemma mongo_reads_lookupIn r : reads (lookupIn b r).
Proof.
  unfold lookupIn. apply reads_bind; [auto with reads|]. intros root. destruct (_ || _); [auto with reads|].
  destruct (_ != _); [auto with reads|]. apply reads_bind; [apply reads_find_exec|]. intros d.
  apply reads_bind; [auto with reads|]. intros res. auto with reads.
Qed.
Lemma reads_newDoc p fence lease : reads (newDoc b p fence lease).
Proof. unfold newDoc, rand_read. auto 10 with reads. Qed.
Lemma reads_evidence_read ref : reads (evidence_read ref).
Proof.
  unfold evidence_read. apply reads_bind; [apply reads_catch, reads_find_exec|]. intros [d|e]; [auto with reads|].
  destruct (errors_is _ _); auto with reads.
Qed.
Lemma reads_ValidateSchema : reads ValidateSchema.
Proof. unfold ValidateSchema. auto with reads. Qed.

Hint Resolve guar_yield : guar.
Hint Resolve mongo_reads_bindingIn reads_find_exec mongo_reads_lookupIn reads_newDoc reads_evidence_read
  reads_ValidateSchema : reads.

Lemma guar_ensure cnd e : guarantees advances (ensure cnd e).
Proof. apply guar_reads; [apply _|auto with reads]. Qed.

Lemma guar_BeginPrepare e : guarantees advances (BeginPrepare b env e).
Proof.
  unfold BeginPrepare. destruct (_ || _); [auto with guar|]. apply guar_bind; [apply _|auto with guar|]. intros _.
  apply guar_bind; [apply _|auto with guar|]. intros _. apply guar_bind; [apply _| |intros; apply guar_ensure].
  apply guar_update_one. intros t d _. apply started_le.
Qed.

Lemma guar_abort e expired : guarantees advances (abort b env e expired).
Proof.
  unfold abort. destruct (_ || _); [auto with guar|]. apply guar_bind; [apply _|auto with guar|]. intros _.
  apply guar_bind; [apply _|auto with guar|]. intros raws. apply guar_bind; [apply _|auto with guar|]. intros _.
  apply guar_bind; [apply _| |auto with guar]. apply guar_update_one. intros t d H. boolp. by apply settle_advances.
Qed.

Lemma guar_ReconcileOnce limit : guarantees advances (ReconcileOnce b env limit).
Proof.
  unfold ReconcileOnce, reconcile_one. destruct (_ || _); auto 12 using guar_abort with guar.
Qed.

Lemma guar_EvidenceOf ref : guarantees advances (EvidenceOf b env ref).
Proof. unfold EvidenceOf, evidence_with. destruct (_ || _); auto with guar. Qed.

Lemma guar_insert_execution d : doc_ok d → guarantees advances (insert_execution d).
Proof.
  intros Hd. apply guar_stmt; [apply _|]. intros t s a s' E. destruct (execs s !! d_ID d) eqn:Hk; simplify_eq.
  split; [split; [reflexivity|by eapply txmysqlfacts.map_le_fresh; [apply _|]]|].
  intros Hs. by apply map_Forall_insert_2.
Qed.

Lemma with_requests_le s m : txmysqlfacts.map_le request_le (requests s) m → advances s (with_requests s m).
Proof. intros Hm. split; [by split|done]. Qed.

Lemma guar_insert_request r active : guarantees advances (insert_request r active).
Proof.
  apply guar_stmt; [apply _|]. intros t s a s' E. destruct (requests s !! KeyDigest r) eqn:Hk; simplify_eq.
  by eapply with_requests_le, txmysqlfacts.map_le_fresh; [apply _|].
Qed.

Lemma guar_move_request rk old new : guarantees advances (move_request rk old new).
Proof.
  apply guar_stmt; [apply _|]. intros t s a s' E. destruct (requests s !! rk) as [q|] eqn:Hk; [|by simplify_eq].
  destruct (_ == _); simplify_eq; [|reflexivity].
  by eapply with_requests_le, txmysqlfacts.map_le_insert; [apply _|exact Hk|].
Qed.

(** A new document starts with its witnesses prepared. *)
Lemma newDoc_ok p fence lease s : post (newDoc b p fence lease) s (λ r s', s' = s ∧ ∀ de, r = Ok de → doc_ok de.1).
Proof.
  intros w n. split; [apply reads_newDoc|]. intros de Hde.
  destruct (newDoc b p fence lease w (n, s)) as [r [n' s']] eqn:E. cbn in Hde. subst r.
  apply bind_run in E as (token&st1&_&E). apply bind_run in E as (now&st2&_&E).
  apply bind_run in E as (raw&st3&_&E). apply bind_run in E as (refs&st4&_&E). injection E as <- _.
  unfold doc_ok. cbn. apply Forall_fmap, Forall_true. done.
Qed.

Lemma guar_newDoc {A} p fence lease (k : executionDoc * Execution → M DB A) :
  (∀ de, doc_ok de.1 → guarantees advances (k de)) → guarantees advances (newDoc b p fence lease ≫= k).
Proof.
  intros Hk s. apply post_bind. eapply post_mono; [apply newDoc_ok|].
  intros [de|e] s' [-> Hde]; [by apply Hk, Hde|reflexivity].
Qed.

Lemma guar_Lookup r : guarantees advances (Lookup b r).
Proof.
  unfold Lookup. destruct (_ || _); [auto with guar|]. apply guar_bind; [apply _|auto 8 with guar|].
  intros [v|e]; [auto with guar|]. destruct (errors_is _ _); auto with guar.
Qed.

Lemma guar_Reserve r p lease : guarantees advances (Reserve b env r p lease).
Proof.
  unfold Reserve. destruct (_ || _); [auto with guar|]. do 3 (apply guar_bind; [apply _|auto with guar|]; intros _).
  apply guar_bind; [apply _| |].
  - apply guar_catch, guar_in_tx; [apply _|]. apply guar_bind; [apply _|auto with guar|]. intros _.
    apply guar_bind; [apply _|auto with guar|]. intros [cur|e]; [auto with guar|].
    destruct (errors_is _ _); [|auto with guar]. apply guar_newDoc. intros de Hde.
    auto using guar_insert_request, guar_insert_execution with guar.
  - intros [v|e]; [auto with guar|]. destruct (errors_is _ _); [|auto with guar].
    auto using guar_Lookup with guar.
Qed.

Lemma guar_advance previous p lease replan : guarantees advances (advance b previous p lease replan).
Proof.
  unfold advance. destruct (_ || _); [auto with guar|]. destruct (_ != _); [auto with guar|].
  apply guar_in_tx; [apply _|]. apply guar_bind; [apply _|auto with guar|]. intros _.
  apply guar_bind; [apply _|auto with guar|]. intros current. destruct (_ || _); [auto with guar|].
  apply guar_bind; [apply _| |].
  { apply guar_for_each; [apply _|]. intros ref. unfold evidence_with. destruct (_ || _); auto with guar. }
  intros evs. apply guar_bind; [apply _|auto with guar|]. intros _. apply guar_newDoc. intros de Hde.
  apply guar_bind; [apply _|by apply guar_insert_execution|]. intros _.
  apply guar_bind; [apply _|apply guar_move_request|]. intros n. destruct (negb _); auto with guar.
Qed.

(** ** The host transaction *)

Lemma guar_host_transaction e business : guarantees advances (host_transaction b e business).
Proof.
  unfold host_transaction. apply guar_in_tx; [apply _|]. apply guar_bind; [apply _| |].
  - unfold Bind. destruct (_ || _); [auto with guar|]. apply guar_bind; [apply _|auto with guar|]. intros _.
    apply guar_bind; [apply _|apply guar_update_one; intros; apply bump_le|]. intros n.
    destruct (negb _); auto 8 with guar.
  - intros g. apply guar_bind; [apply _|auto with guar|]. intros _. apply guar_bind; [apply _| |auto with guar].
    unfold CommitWitness. destruct (g_finished g); [auto with guar|]. apply guar_bind; [apply _| |].
    + apply guar_update_one. intros t d H. boolp. by apply settle_advances.
    + intros n. destruct (negb _); auto with guar.
Qed.

(** ** Receipts *)

Lemma receipt_matches_le e raw i p f d :
  receipt_matches e raw i p d = true →
  (∀ st br, p st br = true → branch_le br (f br) ∧ bd_State (f br) = bd_State br) →
  doc_le d (update_branch i f d) ∧ (doc_ok d → doc_ok (update_branch i f d)).
Proof.
  unfold receipt_matches. intros H Hp. boolp. apply update_branch_le. intros br Hbr.
  match goal with H : match _ with Some _ => _ | None => _ end = true |- _ => rewrite Hbr in H end. boolp. eauto.
Qed.

Lemma guar_RecordHalf e ref h : guarantees advances (RecordHalf b env e ref h).
Proof.
  unfold RecordHalf. destruct (negb _); [auto with guar|]. do 3 (apply guar_bind; [apply _|auto with guar|]; intros ?).
  apply guar_bind; [apply _| |intros; apply guar_ensure]. apply guar_update_one. intros t d H.
  eapply receipt_matches_le; [exact H|]. intros st br _. apply mongo_set_half_le.
Qed.

Lemma guar_RecordFinal e ref f code : guarantees advances (RecordFinal b env e ref f code).
Proof.
  unfold RecordFinal. destruct (negb _); [auto with guar|]. do 3 (apply guar_bind; [apply _|auto with guar|]; intros ?).
  apply guar_bind; [apply _| |intros; apply guar_ensure]. apply guar_update_one. intros t d H.
  eapply receipt_matches_le; [exact H|]. intros st br Hp. apply andb_true_iff in Hp as [_ Hp]. by apply mongo_set_final_le.
Qed.

Lemma post_find_exec k s (P : result executionDoc → DB → Prop) :
  (∀ d, execs s !! k = Some d → P (Ok d) s) → (∀ e, P (Err e) s) → post (find_exec k) s P.
Proof.
  intros Hok Herr. apply post_query; [|done]. intros t d. destruct (execs s !! k) eqn:E; [|done].
  intros [= <-]. by apply Hok.
Qed.

Lemma find_recovery_spec ref st outcome i bs j raw :
  find_recovery ref st outcome i bs = Ok (Some (j, raw)) →
  ∃ br k, j = (i + k)%nat ∧ bs !! k = Some br ∧ final_open outcome br = true.
Proof.
  revert i. induction bs as [|br bs IH]; intros i; cbn [find_recovery]; [done|].
  intros (actual&_&H)%rbind_Ok. destruct (actual != ref).
  { apply IH in H as (br'&k&->&Hk&Hf). exists br', (Datatypes.S k). split; [lia|done]. }
  destruct (_ || _) eqn:Hg; [done|]. boolp. destruct (_ == _); [done|]. injection H as -> _.
  exists br, 0%nat. split; [lia|done].
Qed.

Lemma guar_RecordRecoveryFinal ref outcome : guarantees advances (RecordRecoveryFinal b ref outcome).
Proof.
  unfold RecordRecoveryFinal. apply guar_bind; [apply _|auto with guar|]. intros st.
  destruct (_ || _); [auto with guar|]. apply guar_in_tx; [apply _|]. apply guar_bind; [apply _|auto with guar|]. intros _ s.
  apply post_bind, post_find_exec; [|intros; reflexivity]. intros d Hd. destruct (_ || _); [apply post_raise; reflexivity|].
  apply post_bind, post_liftR. destruct (find_recovery _ _ _ _ _) as [[[i raw]|]|e] eqn:Hf;
    [|apply post_ret; reflexivity|reflexivity].
  apply find_recovery_spec in Hf as (br&k&->&Hk&Hopen). cbn [Nat.add].
  apply post_bind, post_stmt; [|intros; reflexivity]. intros t a s'. rewrite Hd.
  assert (Hadv : advances s (with_execs s (<[ref_key ref := update_branch k (set_final outcome "" t) d]> (execs s)))).
  { destruct (update_branch_le k (set_final outcome "" t) d) as [? ?];
      [intros br' Hb; rewrite Hk in Hb; injection Hb as <-; by apply mongo_set_final_le|by eapply with_exec_advances]. }
  destruct (_ && _); intros [= <- <-]; (split; [|intros e; first [done|reflexivity]]);
    (apply post_ensure; intros; first [done|reflexivity]).
Qed.

Lemma guar_Validate : guarantees advances (Validate b env).
Proof. unfold Validate. auto with guar. Qed.

(** ** The interface of the sender *)

Definition verdict (d : Decision) : State := if d == Commit then Committed else Aborted.

Definition mongo_decided (s : DB) (e : Execution) (d : Decision) : Prop :=
  ∃ x, execs s !! key e = Some x ∧ d_State x = verdict d ∧ (d = Commit ∨ d = Rollback).
Definition mongo_begun (s : DB) (e : Execution) : Prop :=
  ∃ x, execs s !! key e = Some x ∧ d_PrepareStarted x = true.

Lemma mongo_decided_stable s s' e d : advances s s' → mongo_decided s e d → mongo_decided s' e d.
Proof.
  intros [[_ Hex] _] (x&Hx&Hst&Hd). apply Hex in Hx as (y&Hy&(_&Hle&_)). exists y. split; [done|]. split; [|done].
  destruct Hle as [->|Hp]; [done|]. rewrite Hst in Hp. by destruct Hd as [-> | ->].
Qed.
Lemma mongo_begun_stable s s' e : advances s s' → mongo_begun s e → mongo_begun s' e.
Proof. intros [[_ Hex] _] (x&Hx&Hst). apply Hex in Hx as (y&Hy&(_&_&Hp&_)). exists y. split; [done|by apply Hp]. Qed.

(** A definite resolution comes from a document in that state. *)
Lemma find_evidence_state ref st bs ev :
  find_evidence ref st bs = Ok (Some ev) →
  ev_Reference ev = ref ∧ ExecutionState ev = st ∧ ∃ br, br ∈ bs ∧ DecodeReference (bd_Reference br) = Ok ref ∧ BranchState ev = bd_State br.
Proof.
  induction bs as [|br bs IH]; cbn [find_evidence]; [done|]. intros (actual&Ha&H)%rbind_Ok.
  destruct (bool_decide_reflect (actual = ref)) as [->|Hne].
  - injection H as <-. repeat split. exists br. split; [apply list_elem_of_here|done].
  - destruct (IH H) as (?&?&br'&?&?). repeat split; try done. exists br'. split; [by apply list_elem_of_further|done].
Qed.

Lemma post_evidence_read ref s :
  post (evidence_read ref) s (λ r s', s' = s ∧
    ∀ d, ∀ ev, r = Ok ev → Resolve ref ev = d → d = Commit ∨ d = Rollback →
      ∃ x, execs s !! ref_key ref = Some x ∧ d_State x = verdict d).
Proof.
  unfold evidence_read. apply post_bind, post_catch, post_find_exec.
  - intros x Hx. apply post_liftR. split; [done|]. intros d ev Hev Hr Hd. exists x. split; [done|].
    destruct ev as [ev|]; [|subst; by destruct Hd]. apply find_evidence_state in Hev as (_&Hst&_).
    destruct Hd as [-> | ->]; [apply Resolve_Commit in Hr|apply Resolve_Rollback in Hr]; destruct Hr as [_ [= ->]]; by rewrite <- Hst.
  - intros e. destruct (errors_is _ _); [apply post_ret|apply post_raise]; (split; [done|]); [|done].
    intros d ev [= <-] <- [?|?]; done.
Qed.

Lemma mongo_evidence_decides e ref s : ref ∈ References e →
  post (EvidenceOf b env ref) s
    (λ r s', ∀ ev d, r = Ok ev → Resolve ref ev = d → d = Commit ∨ d = Rollback → mongo_decided s' e d).
Proof.
  intros Hin. unfold EvidenceOf, evidence_with. destruct (_ || _) eqn:Hg; [by apply post_raise|]. boolp.
  apply post_bind. eapply post_mono; [apply (guar_reads advances), mongo_reads_bindingIn|]. intros [[]|e0] s1 _; [|done].
  apply post_bind, post_yield. intros s' _. eapply post_mono; [apply post_evidence_read|].
  intros r s2 [-> Hev] ev d Hr Hd Hdef. destruct (Hev d ev Hr Hd Hdef) as (x&Hx&Hst). exists x.
  by rewrite <- (proj1 (valid_reference e ref Hin ltac:(done))).
Qed.

(** An update that reports a document changed exactly that one. *)
Lemma post_update_one k p f s (P : result Z → DB → Prop) :
  (∀ t x, execs s !! k = Some x → p t x = true →
     P (Ok 1) (with_execs s (<[k := f t x]> (execs s))) ∧ ∀ e, P (Err e) (with_execs s (<[k := f t x]> (execs s)))) →
  P (Ok 0) s → (∀ e, P (Err e) s) → post (update_one k p f) s P.
Proof.
  intros H1 H0 He. apply post_stmt; [|done]. intros t a s' E. destruct (execs s !! k) as [x|] eqn:Hx; [|by simplify_eq].
  destruct (p t x) eqn:Hp; simplify_eq; [by eapply H1|done].
Qed.

Lemma mongo_abort_decided e s : post (Abort b env e) s (λ r s', r = Ok true → mongo_decided s' e Rollback).
Proof.
  unfold Abort, abort. destruct (_ || _); [by apply post_raise|]. apply post_bind.
  eapply post_mono; [apply (guar_reads advances), mongo_reads_bindingIn|]. intros [[]|e0] s1 _; [|done].
  apply post_bind, post_liftR. destruct (rmap_list _ _) as [raws|]; [|done].
  apply post_bind, post_yield. intros s2 _. apply post_bind, post_update_one; [|by apply post_ret|done].
  intros t x Hx Hp. split; [|done]. apply post_ret. intros _. eexists. split; [apply lookup_insert_eq|]. split; [done|by right].
Qed.

Lemma post_BeginPrepare e s :
  post (BeginPrepare b env e) s (λ r s', r = Ok () → mongo_begun s' e ∧ ¬ mongo_begun s e).
Proof.
  unfold BeginPrepare. destruct (_ || _); [by apply post_raise|]. apply post_bind.
  eapply post_mono; [apply (guar_reads advances), mongo_reads_bindingIn|]. intros [[]|e0] s1 Hs1; [|done].
  apply post_bind, post_yield. intros s2 Hs2.
  apply post_bind, post_update_one; [|by apply post_ensure|done].
  intros t x Hx Hp. split; [|done]. apply post_ensure; [|done]. intros _ _. split.
  - eexists. split; [apply lookup_insert_eq|done].
  - intros Hb. apply (mongo_begun_stable _ _ _ Hs1), (mongo_begun_stable _ _ _ Hs2) in Hb as (y&Hy&Hyp).
    rewrite Hx in Hy. injection Hy as ->. boolp. congruence.
Qed.

#[global] Instance mongo_prepared_store : PreparedStore DB := {|
  ps_Binding := b;
  ps_Validate := Validate b env;
  ps_Reserve := Reserve b env;
  ps_Retry := Retry b;
  ps_Replan := Replan b;
  ps_BeginPrepare := BeginPrepare b env;
  ps_Evidence := EvidenceOf b env;
  ps_Abort := Abort b env;
  ps_ReconcileOnce := ReconcileOnce b env;
  ps_RecordHalf := RecordHalf b env;
  ps_RecordFinal := RecordFinal b env;
  ps_RecordRecoveryFinal := RecordRecoveryFinal b
|}.

#[global] Program Instance mongo_store_laws : sender.StoreLaws DB := {|
  sender.steps := advances;
  sender.proven := mongo_decided;
  sender.prepared := mongo_begun;
  sender.proven_stable := mongo_decided_stable;
  sender.prepared_stable := mongo_begun_stable;
  sender.evidence_proves := mongo_evidence_decides;
  sender.abort_proves := mongo_abort_decided
|}.
Next Obligation. intros s e (x&Hx&Hst&_) (y&Hy&Hst'&_). rewrite Hx in Hy. injection Hy as <-. by rewrite Hst in Hst'. Qed.
Next Obligation. apply guar_Validate. Qed.
Next Obligation. apply guar_BeginPrepare. Qed.
Next Obligation. apply guar_EvidenceOf. Qed.
Next Obligation. intros e. apply guar_abort. Qed.
Next Obligation. apply guar_ReconcileOnce. Qed.
Next Obligation. apply guar_RecordHalf. Qed.
Next Obligation. apply guar_RecordFinal. Qed.
Next Obligation. apply guar_RecordRecoveryFinal. Qed.
Next Obligation. intros e s. eapply post_mono; [apply post_BeginPrepare|]. intros r s' Hr H. by apply Hr. Qed.
Next Obligation. intros e s Hb. eapply post_mono; [apply post_BeginPrepare|]. intros r s' Hr ->. by destruct (Hr eq_refl). Qed.

End store.
End txmongofacts.
