(* ===== verification/TxMongoProtocol.v ===== *)
(** * storage/transaction/mongo: what checkers and hosts observe

    The decisions of the Mongo store over time, under any environment that keeps
    to [advances], and a concrete run. *)

From S2P Require Import Prelude GoStd Database Message Transaction TxCodec TxMySQL TxMySQLFacts TxMongo.
From S2P Require Import Sender SenderFacts TxMongoFacts.

Module txmongoprotocol.
Import transaction codec txmongo txmongofacts.

(** [StoreChecker.Check] over [Store.Evidence]. *)
Definition mongo_answer (b : Binding) (env : nat → DB → DB) (ref : Reference) (w : world) (n : nat) (s : DB) : Decision :=
  Check ref (EvidenceOf b env ref w (n, s)).1.

(** The store is bound and its driver does not fail. *)
Definition mongo_serves (b : Binding) (w : world) (n : nat) (s : DB) : Prop :=
  t_fault (w n) = None ∧ t_fault (w (Datatypes.S n)) = None ∧
  ∃ epoch, bindings s !! bn_Owner b = Some (StoreID b, epoch, SchemaVersion).

(** ** Definite answers *)

(** The data as they are when the answer has been read. *)
Definition mongo_read (b : Binding) (env : nat → DB → DB) (ref : Reference) (w : world) (n : nat) (s : DB) : DB :=
  (EvidenceOf b env ref w (n, s)).2.2.

Lemma mongo_answer_definite b env ref w n s d :
  (∀ n s, advances s (env n s)) → d = Commit ∨ d = Rollback → mongo_answer b env ref w n s = d →
  ∃ x, execs (mongo_read b env ref w n s) !! ref_key ref = Some x ∧ d_State x = verdict d.
Proof.
  intros Henv Hd Ha. unfold mongo_answer, Check in Ha. destruct (negb _); [subst; by destruct Hd|].
  destruct (EvidenceOf b env ref w (n, s)).1 as [ev|] eqn:E; [|subst; by destruct Hd].
  assert (Hp : post (EvidenceOf b env ref) s (λ r s', ∀ ev, r = Ok ev → Resolve ref ev = d →
    ∃ x, execs s' !! ref_key ref = Some x ∧ d_State x = verdict d)); [|exact (Hp w n ev E Ha)].
  unfold EvidenceOf, evidence_with. destruct (_ || _); [by apply post_raise|].
  apply post_bind. eapply post_mono; [apply (guar_reads advances), mongo_reads_bindingIn|].
  intros [[]|e0] s1 Hs1; [|done]. apply post_bind, (post_yield env Henv). intros s2 Hs2.
  eapply post_mono; [apply post_evidence_read|]. intros r s3 [-> Hev] ev' Hr Hres. by apply (Hev d ev').
Qed.

(** A settled document stays settled. *)
Lemma settled_later s s' k x d :
  d = Commit ∨ d = Rollback → advances s s' → execs s !! k = Some x → d_State x = verdict d →
  ∃ y, execs s' !! k = Some y ∧ d_State y = verdict d ∧ doc_le x y.
Proof.
  intros Hd [[_ Hex] _] Hx Hst. apply Hex in Hx as (y&Hy&Hle). exists y. split; [done|]. split; [|done].
  destruct Hle as (_&[->|Hp]&_); [done|]. rewrite Hst in Hp. by destruct Hd as [-> | ->].
Qed.

Lemma verdict_inj d d' : d = Commit ∨ d = Rollback → d' = Commit ∨ d' = Rollback → verdict d = verdict d' → d = d'.
Proof. by intros [-> | ->] [-> | ->]. Qed.

Lemma mongo_answer_cases b env ref w n s :
  mongo_answer b env ref w n s = Commit ∨ mongo_answer b env ref w n s = Rollback ∨ mongo_answer b env ref w n s = Unknown.
Proof.
  unfold mongo_answer, Check. destruct (negb _); [auto|]. destruct (EvidenceOf _ _ _ _ _).1; [apply Resolve_cases|auto].
Qed.

(** What is stored bounds every later answer. *)
Lemma mongo_decided_answer b env ref w n s s' x d :
  (∀ n s, advances s (env n s)) → d = Commit ∨ d = Rollback → advances s s' →
  execs s !! ref_key ref = Some x → d_State x = verdict d →
  mongo_answer b env ref w n s' = d ∨ mongo_answer b env ref w n s' = Unknown.
Proof.
  intros Henv Hd Hs Hx Hst. destruct (settled_later _ _ _ _ _ Hd Hs Hx Hst) as (y&Hy&Hyst&_).
  assert (Hdef : ∀ d', d' = Commit ∨ d' = Rollback → mongo_answer b env ref w n s' = d' → d' = d).
  { intros d' Hd' Ha. destruct (mongo_answer_definite b env ref w n s' d' Henv Hd' Ha) as (z&Hz&Hzst).
    assert (Hs1 : advances s' (mongo_read b env ref w n s')) by apply (guar_EvidenceOf b env Henv).
    destruct (settled_later _ _ _ _ _ Hd Hs1 Hy Hyst) as (y'&Hy'&Hyst'&_). rewrite Hz in Hy'. injection Hy' as <-.
    apply verdict_inj; [done|done|congruence]. }
  destruct (mongo_answer_cases b env ref w n s') as [H|[H|H]]; [left|left|by right];
    (rewrite H; apply Hdef; [auto|done]).
Qed.


(** The decisions of the Mongo store are final.  Once any checker has answered
    Commit (or Rollback) for a branch, no checker of any process, however others
    write in between, answers the opposite for any branch of that execution. *)
Theorem mongo_decision_final b env ref w n s d s' b' env' ref' w' n' :
  (∀ n s, advances s (env n s)) → (∀ n s, advances s (env' n s)) →
  d = Commit ∨ d = Rollback → mongo_answer b env ref w n s = d →
  advances (mongo_read b env ref w n s) s' → ref_key ref' = ref_key ref →
  mongo_answer b' env' ref' w' n' s' = d ∨ mongo_answer b' env' ref' w' n' s' = Unknown.
Proof.
  intros Henv Henv' Hd Ha Hs Hk. destruct (mongo_answer_definite b env ref w n s d Henv Hd Ha) as (x&Hx&Hst).
  rewrite <- Hk in Hx. by eapply mongo_decided_answer.
Qed.

(** ** The host's commit *)

Lemma update_one_Ok k p f w n s c n' s' :
  update_one k p f w (n, s) = (Ok c, (n', s')) → c = 1 →
  ∃ x t, execs s !! k = Some x ∧ p t x = true ∧ s' = with_execs s (<[k := f t x]> (execs s)).
Proof.
  intros [H _]%stmt_Ok ->. destruct (execs s !! k) as [x|]; [|done]. destruct (p (w n) x) eqn:Hp; [|done].
  injection H as <-. by exists x, (w n).
Qed.

Lemma find_exec_Ok k w n s d n' s' : find_exec k w (n, s) = (Ok d, (n', s')) → execs s !! k = Some d ∧ s' = s.
Proof.
  intros [(x&Hx&[= <- <-])%rbind_Ok _]%stmt_Ok. by destruct (execs s !! k); simplify_eq.
Qed.

Lemma mongo_bind_reads {A B} (c : M DB A) (k : A → M DB B) w n s r n' s' :
  reads c → (c ≫= k) w (n, s) = (Ok r, (n', s')) → ∃ a n1, c w (n, s) = (Ok a, (n1, s)) ∧ k a w (n1, s) = (Ok r, (n', s')).
Proof.
  intros Hc H. apply bind_run in H as (a&[n1 s1]&Hr&Hk). pose proof (reads_run _ _ _ _ _ _ _ Hc Hr) as ->. eauto.
Qed.

Lemma mongo_Bind_run b e w n s g n' s' :
  Bind b e w (n, s) = (Ok g, (n', s')) →
  ∃ d, execs s !! key e = Some d ∧ d_State d = Prepared ∧ g = mkGuard e (d_Version d + 1) false ∧
    s' = with_execs s (<[key e := bump d]> (execs s)) ∧ witnesses_match (References e) (d_Branches d) = true ∧
    p_Owner (plan_Input (ex_Plan e)) = bn_Owner b.
Proof.
  unfold Bind. destruct (_ || _) eqn:Hg; [done|]. intros H. boolp.
  apply mongo_bind_reads in H as (u0&n1&_&H); [|apply mongo_reads_bindingIn].
  apply bind_run in H as (c&[n2 s2]&Hu&H). destruct (Z.eqb_spec c 1) as [->|]; [|done]. cbn [negb] in H.
  destruct (update_one_Ok _ _ _ _ _ _ _ _ _ Hu eq_refl) as (d&t&Hd&Hp&->). boolp.
  apply bind_run in H as (d'&[n3 s3]&(Hd'&->)%find_exec_Ok&H). cbn in Hd'. rewrite lookup_insert_eq in Hd'.
  injection Hd' as <-. apply mongo_bind_reads in H as (p&n4&_&H); [|auto with reads].
  apply mongo_bind_reads in H as (u1&n5&_&H); [|auto with reads].
  apply mongo_bind_reads in H as (u2&n6&Hm&H); [|auto with reads]. injection H as <- _ <-.
  exists d. repeat (split; [done|]). split; [|done]. unfold ensure in Hm. by destruct (witnesses_match _ _).
Qed.

Lemma mongo_host_run b e business w n s r n' s' :
  host_transaction b e business w (n, s) = (r, (n', s')) →
  (s' = s ∧ r ≠ Ok ()) ∨
  ∃ d, execs s !! key e = Some d ∧ witnesses_match (References e) (d_Branches d) = true ∧
    p_Owner (plan_Input (ex_Plan e)) = bn_Owner b ∧
    execs s' !! key e = Some (settle Committed (d_Version d + 1) d).
Proof.
  intros [[-> Hr]|([]&n1&H&_)]%in_tx_run; [left; by split|right].
  apply bind_run in H as (g&[n2 s2]&(d&Hd&_&->&->&Hm&Ho)%mongo_Bind_run&H).
  apply mongo_bind_reads in H as (u&n3&_&H); [|auto with reads].
  apply bind_run in H as (g'&[n4 s4]&Hc&H). injection H as _ <-. unfold CommitWitness in Hc. cbn [g_finished] in Hc.
  apply bind_run in Hc as (c&[n5 s5]&Hu&Hc). destruct (Z.eqb_spec c 1) as [->|]; [|done]. injection Hc as _ _ <-.
  destruct (update_one_Ok _ _ _ _ _ _ _ _ _ Hu eq_refl) as (x&t&Hx&_&->). cbn in Hx. rewrite lookup_insert_eq in Hx.
  injection Hx as <-. exists d. repeat (split; [done|]). cbn. apply lookup_insert_eq.
Qed.

(** The evidence of every reference of a document whose witnesses match. *)
Lemma evidence_of_match refs bs bs' st ref :
  witnesses_match refs bs = true → Forall2 (λ x y, bd_Reference y = bd_Reference x) bs bs' →
  Forall (λ br, bd_State br = st) bs' → ref ∈ refs →
  find_evidence ref st bs' = Ok (Some (mkEvidence ref st st)).
Proof.
  intros Hm Hb. revert refs Hm. induction Hb as [|x y bs bs' Href Hb IH]; intros [|r refs] Hm Hst Hin; try done;
    [by inversion Hin|]. apply Forall_cons in Hst as [Hy Hst]. cbn [witnesses_match find_evidence] in *.
  rewrite Href. destruct (DecodeReference (bd_Reference x)) as [actual|]; [|done]. boolp. subst actual. cbn [rbind].
  destruct (bool_decide_reflect (r = ref)) as [->|Hne]; [by rewrite Hy|].
  apply elem_of_cons in Hin as [?|Hin]; [done|]. by eapply IH.
Qed.

Lemma serves_evidence b env ref w n s x :
  mongo_serves b w n s → ref_Valid ref = true → Owner ref = bn_Owner b →
  execs (env (Datatypes.S n) s) !! ref_key ref = Some x →
  (EvidenceOf b env ref w (n, s)).1 = find_evidence ref (d_State x) (d_Branches x).
Proof.
  intros (Hf&Hf'&ep&Hb) Hv Ho Hx. unfold EvidenceOf, evidence_with, bindingIn. rewrite Hv, Ho, bool_decide_eq_true_2 by done.
  cbn [negb orb]. unfold mbind, M_bind, query at 1, stmt at 1. rewrite Hf. cbv beta zeta. rewrite Hb. cbn [rbind].
  rewrite bool_decide_eq_true_2 by done. cbn [negb orb andb]. unfold SchemaVersion. rewrite Z.eqb_refl.
  unfold mret, M_ret, yield. cbn [negb]. unfold evidence_read, mbind, M_bind, catch, find_exec, query, stmt.
  rewrite Hf'. cbv beta zeta. rewrite Hx. reflexivity.
Qed.

(** The host's session transaction decides on Mongo too.  When it commits,
    every branch of the execution is answered Commit from then on: no checker
    answers Rollback, and a bound one that does not fail answers Commit, however
    other processes write concurrently.  When it fails without a commit in doubt
    nothing was stored. *)
Theorem mongo_host_commit_decides b e business w n s r n' s' :
  db_ok s → host_transaction b e business w (n, s) = (r, (n', s')) →
  (s' = s ∧ r ≠ Ok ()) ∨
  ∀ s'' ref b' env' w' m, advances s' s'' → (∀ n s, advances s (env' n s)) → ref ∈ References e → ref_Valid ref = true →
    (mongo_answer b' env' ref w' m s'' = Commit ∨ mongo_answer b' env' ref w' m s'' = Unknown) ∧
    (bn_Owner b' = bn_Owner b → mongo_serves b' w' m s'' → mongo_answer b' env' ref w' m s'' = Commit).
Proof.
  intros Hok H. assert (Hok' : db_ok s').
  { pose proof (guar_host_transaction b e business s w n) as [_ Hi]. rewrite H in Hi. by apply Hi. }
  apply mongo_host_run in H as [?|(d&Hd&Hm&Ho&Hx)]; [by left|right].
  intros s'' ref b' env' w' m Hs Henv' Hin Hv. destruct (valid_reference e ref Hin Hv) as [Hk Hown].
  rewrite <- Hk in Hx. split; [by apply (mongo_decided_answer b' env' ref w' m s' s'' _ Commit Henv' (or_introl eq_refl) Hs Hx)|].
  intros Hb Hsv. assert (Hs2 : advances s' (env' (Datatypes.S m) s'')) by (by transitivity s'').
  destruct (settled_later _ _ _ _ Commit (or_introl eq_refl) Hs2 Hx eq_refl) as (y&Hy&Hyst&Hle).
  rewrite Ho, <- Hb in Hown.
  unfold mongo_answer. rewrite (serves_evidence b' env' ref w' m s'' y Hsv Hv Hown Hy).
  assert (Hyok : doc_ok y) by (eapply (proj2 Hs2 Hok'); exact Hy).
  unfold Check. rewrite Hv, Hyst. cbn [negb verdict].
  rewrite (evidence_of_match (References e) (d_Branches d) (d_Branches y)); [by apply Resolve_Commit|done| | |done].
  - destruct Hle as (_&_&_&Hb2). change (Forall2 branch_le (branch_state Committed <$> d_Branches d) (d_Branches y)) in Hb2.
    rewrite Forall2_fmap_l in Hb2. eapply Forall2_impl; [exact Hb2|]. by intros ? ? [? _].
  - unfold doc_ok in Hyok. by rewrite Hyst in Hyok.
Qed.

(** ** A concrete run *)

Definition mx_binding : Binding := mkBinding "qs.mysql" "store-1" "epoch".
Definition mx_token : bytes := Eval vm_compute in sha256 "token".
Definition mx_tick (now : Z) : world := λ _, mkTick now None false mx_token (λ _, false).
Definition mx_alone (_ : nat) (s : DB) : DB := s.
Definition mx_db0 : DB :=
  mkDB ∅ {["qs.mysql"%string := ("store-1"%string, "epoch"%string, 1)]} ∅ ∅.
Abbreviation mx_install := (InstallSchema (mx_tick 500) (0%nat, mx_db0)) (only parsing).
Definition mx_db1 : DB := Eval vm_compute in mx_install.2.2.
Abbreviation mx_reserve := (Reserve mx_binding mx_alone (RequestFor vector_plan) vector_plan 60000000000
  (mx_tick 1000) (0%nat, mx_db1)) (only parsing).
Definition mx_db2 : DB := Eval vm_compute in mx_reserve.2.2.
Definition mx_execution : Execution := mkExecution vector_plan 1 "epoch" mx_token 61000.
Lemma mx_reserved : mx_reserve.1 = Ok (mkReservation mx_execution true Prepared).
Proof. vm_compute. reflexivity. Qed.
Abbreviation mx_host := (host_transaction mx_binding mx_execution (Ok ()) (mx_tick 2000) (0%nat, mx_db2)) (only parsing).
Definition mx_db3 : DB := Eval vm_compute in mx_host.2.2.
Lemma mx_host_run : mx_host = (Ok (), (mx_host.2.1, mx_db3)).
Proof. vm_compute. reflexivity. Qed.

Lemma mx_alone_advances n s : advances s (mx_alone n s).
Proof. reflexivity. Qed.
Lemma mx_db2_ok : db_ok mx_db2.
Proof.
  assert (Hs : mx_db2 = mx_reserve.2.2) by (vm_compute; reflexivity). rewrite Hs.
  apply (proj2 (guar_Reserve mx_binding mx_alone mx_alone_advances (RequestFor vector_plan) vector_plan 60000000000
    mx_db1 (mx_tick 1000) 0%nat)).
  assert (He : execs mx_db1 = ∅) by reflexivity. unfold db_ok. rewrite He. apply map_Forall_empty.
Qed.
Lemma mx_reference : vector_reference ∈ References mx_execution ∧ ref_Valid vector_reference = true.
Proof.
  assert (H : References mx_execution = [vector_reference]) by (vm_compute; reflexivity). rewrite H.
  split; [apply list_elem_of_here|vm_compute; reflexivity].
Qed.
Lemma mx_serves : mongo_serves mx_binding (mx_tick 3000) 0 mx_db3.
Proof. split; [done|]. split; [done|]. exists "epoch"%string. vm_compute. reflexivity. Qed.
Lemma mx_committed : mongo_answer mx_binding mx_alone vector_reference (mx_tick 3000) 0 mx_db3 = Commit.
Proof. vm_compute. reflexivity. Qed.

Lemma mongo_host_commit_decides_witness :
  (mx_db3 = mx_db2 ∧ @Ok () () ≠ Ok ()) ∨
  mongo_answer mx_binding mx_alone vector_reference (mx_tick 3000) 0 mx_db3 = Commit.
Proof.
  destruct (mongo_host_commit_decides _ _ _ _ _ _ _ _ _ mx_db2_ok mx_host_run) as [H|H]; [left; exact H|right].
  exact (proj2 (H mx_db3 vector_reference mx_binding mx_alone (mx_tick 3000) 0%nat (reflexivity _) mx_alone_advances
    (proj1 mx_reference) (proj2 mx_reference)) eq_refl mx_serves).
Defined.

Lemma mongo_decision_final_witness :
  mongo_answer mx_binding mx_alone vector_reference (mx_tick 4000) 0 mx_db3 = Commit ∨
  mongo_answer mx_binding mx_alone vector_reference (mx_tick 4000) 0 mx_db3 = Unknown.
Proof.
  apply (mongo_decision_final mx_binding mx_alone vector_reference (mx_tick 3000) 0%nat mx_db3 Commit mx_db3
    mx_binding mx_alone vector_reference (mx_tick 4000) 0%nat mx_alone_advances mx_alone_advances
    (or_introl eq_refl) mx_committed); [|reflexivity].
  assert (H : mongo_read mx_binding mx_alone vector_reference (mx_tick 3000) 0 mx_db3 = mx_db3) by (vm_compute; reflexivity).
  rewrite H. reflexivity.
Defined.

End txmongoprotocol.
