(* ===== verification/TxSpec.v ===== *)
(** * The transaction protocol as an abstract machine

    What the evidence stores promise, without tables, documents, tokens, plans or
    witnesses: a request has one current execution; an execution is undecided
    until it is committed or aborted, once; and a request moves to a new execution
    only from an aborted one.  [SpecLaws] is the relation of a store to this
    machine; the MySQL store is shown to refine it. *)

From S2P Require Import Prelude GoStd Database Message Transaction TxCodec TxMySQL TxMySQLFacts TxProtocol.

Module txspec.
Import transaction codec.

(** ** The machine *)

(** [current] maps request keys to execution keys, [status] execution keys to
    their request and state. *)
Record Spec : Type := mkSpec { current : gmap bytes bytes; status : gmap bytes (bytes * State) }.
Definition spec_init : Spec := mkSpec ∅ ∅.

Inductive spec_step (a : Spec) : Spec → Prop :=
| spec_reserve rk k :
    current a !! rk = None → status a !! k = None →
    spec_step a (mkSpec (<[rk := k]> (current a)) (<[k := (rk, Prepared)]> (status a)))
| spec_decide rk k st :
    current a !! rk = Some k → status a !! k = Some (rk, Prepared) → st = Committed ∨ st = Aborted →
    spec_step a (mkSpec (current a) (<[k := (rk, st)]> (status a)))
| spec_advance rk old new :
    current a !! rk = Some old → status a !! old = Some (rk, Aborted) → status a !! new = None →
    spec_step a (mkSpec (<[rk := new]> (current a)) (<[new := (rk, Prepared)]> (status a))).

(** The current execution of a request is one of its own, and all others of it
    are aborted. *)
Definition spec_inv (a : Spec) : Prop :=
  (∀ rk k, current a !! rk = Some k → ∃ st, status a !! k = Some (rk, st)) ∧
  (∀ k rk st, status a !! k = Some (rk, st) → st = Aborted ∨ current a !! rk = Some k).

Lemma spec_init_inv : spec_inv spec_init.
Proof. split; intros *; cbn; by rewrite lookup_empty. Qed.

Lemma spec_step_inv a a' : spec_step a a' → spec_inv a → spec_inv a'.
Proof.
  intros Hs [Hcur Hst]. destruct Hs as [rk k Hn Hf|rk k st Hc Hp _|rk old new Hc Ha Hf]; split; cbn; intros *.
  - intros [[<- <-]|[_ H]]%lookup_insert_Some; [rewrite lookup_insert_eq; eauto|].
    destruct (Hcur _ _ H) as [st Hk]. rewrite lookup_insert_ne by congruence. eauto.
  - intros [[<- [= <- <-]]|[_ H]]%lookup_insert_Some; [right; by rewrite lookup_insert_eq|].
    destruct (Hst _ _ _ H) as [?|?]; [by left|right]. rewrite lookup_insert_ne by congruence. done.
  - intros H. destruct (Hcur _ _ H) as [st' Hk]. destruct (decide (k0 = k)) as [->|Hne].
    + rewrite Hp in Hk. injection Hk as <- _. rewrite lookup_insert_eq. eauto.
    + rewrite lookup_insert_ne by done. eauto.
  - intros [[<- [= <- <-]]|[_ H]]%lookup_insert_Some; [by right|by apply Hst].
  - intros [[<- <-]|[_ H]]%lookup_insert_Some; [rewrite lookup_insert_eq; eauto|].
    destruct (Hcur _ _ H) as [st Hk]. rewrite lookup_insert_ne by congruence. eauto.
  - intros [[<- [= <- <-]]|[_ H]]%lookup_insert_Some; [right; by rewrite lookup_insert_eq|].
    destruct (Hst _ _ _ H) as [?|Hk]; [by left|]. destruct (decide (rk0 = rk)) as [->|Hne].
    + left. rewrite Hc in Hk. injection Hk as <-. rewrite Ha in H. by injection H.
    + right. by rewrite lookup_insert_ne.
Qed.

Lemma spec_steps_inv a a' : rtc spec_step a a' → spec_inv a → spec_inv a'.
Proof. induction 1; eauto using spec_step_inv. Qed.

(** Decisions last. *)
Lemma spec_steps_final a a' k rk st :
  rtc spec_step a a' → st ≠ Prepared → status a !! k = Some (rk, st) → status a' !! k = Some (rk, st).
Proof.
  intros Hr Hne. induction Hr as [|a b c Hs _ IH]; [done|]. intros H. apply IH. clear IH.
  destruct Hs; cbn; rewrite lookup_insert_ne; congruence.
Qed.

(** At most one execution of a request is ever committed. *)
Lemma spec_one_commit a k k' rk :
  spec_inv a → status a !! k = Some (rk, Committed) → status a !! k' = Some (rk, Committed) → k = k'.
Proof. intros [_ Hst] [?|H]%Hst [?|H']%Hst; try done. congruence. Qed.

(** ** Refinement *)

(** Every step of an implementation is some steps of the machine, under the
    abstraction [abs]. *)
Definition refines {S} (step : S → S → Prop) (abs : S → Spec) : Prop :=
  ∀ s s', spec_inv (abs s) → step s s' → rtc spec_step (abs s) (abs s').

Lemma refines_steps {S} (step : S → S → Prop) abs s s' :
  refines step abs → spec_inv (abs s) → rtc step s s' → rtc spec_step (abs s) (abs s').
Proof.
  intros Href Hi Hr. induction Hr as [|a b c Hs _ IH]; [done|]. pose proof (Href _ _ Hi Hs) as H1.
  etransitivity; [exact H1|]. apply IH. by eapply spec_steps_inv.
Qed.

(** ** The MySQL store *)

Import txmysql txmysqlfacts txprotocol.

Definition mysql_abs (s : DB) : Spec :=
  mkSpec (q_active <$> requests s) ((λ x, (x_request_key x, x_state x)) <$> execs s).

Lemma mysql_abs_status s k x :
  execs s !! k = Some x → status (mysql_abs s) !! k = Some (x_request_key x, x_state x).
Proof. intros Hx. cbn. by rewrite lookup_fmap, Hx. Qed.

(** Settling an undecided execution is a decision of the machine. *)
Lemma mysql_decides s s' k x y st :
  spec_inv (mysql_abs s) → execs s !! k = Some x → x_state x = Prepared → st = Committed ∨ st = Aborted →
  requests s' = requests s → execs s' = <[k := y]> (execs s) → x_state y = st → x_request_key y = x_request_key x →
  rtc spec_step (mysql_abs s) (mysql_abs s').
Proof.
  intros [_ Hcur] Hx Hp Hst Hr He Hy Hk. apply rtc_once. unfold mysql_abs at 2.
  rewrite Hr, He, fmap_insert, Hy, Hk. pose proof (mysql_abs_status _ _ _ Hx) as Hs.
  destruct (Hcur _ _ _ Hs) as [Ha|Hc]; [by rewrite Hp in Ha|]. rewrite Hp in Hs.
  exact (spec_decide (mysql_abs s) _ _ st Hc Hs Hst).
Qed.

Lemma mysql_quiet s s' : rows_kept s s' → rtc spec_step (mysql_abs s) (mysql_abs s').
Proof. intros [Hr He]. unfold mysql_abs. by rewrite Hr, He. Qed.

Lemma mysql_same_step s k x y :
  execs s !! k = Some x → x_request_key y = x_request_key x → x_state y = x_state x →
  mysql_abs (with_execs s (<[k := y]> (execs s))) = mysql_abs s.
Proof.
  intros Hx Hk Hst. unfold mysql_abs. cbn. f_equal. rewrite fmap_insert, Hk, Hst. apply insert_id.
  by rewrite lookup_fmap, Hx.
Qed.

Lemma mysql_abort_sim b e expired w n s :
  spec_inv (mysql_abs s) → rtc spec_step (mysql_abs s) (mysql_abs (abort b e expired w (n, s)).2.2).
Proof.
  intros Hi. destruct (abort b e expired w (n, s)) as [r [n' s']] eqn:E. cbn [snd].
  apply abort_run in E as [[-> _]|(x&Hx&Hp&_&->)]; [done|].
  by eapply mysql_decides; [done|exact Hx|done|right|..].
Qed.

Lemma mysql_for_each_sim {A B} (f : A → M DB B) l w n s :
  (∀ x n s, spec_inv (mysql_abs s) → rtc spec_step (mysql_abs s) (mysql_abs (f x w (n, s)).2.2)) →
  spec_inv (mysql_abs s) → rtc spec_step (mysql_abs s) (mysql_abs (for_each f l w (n, s)).2.2).
Proof.
  intros Hf. revert n s. induction l as [|x l IH]; intros n s Hi; [done|]. simpl. unfold mbind, M_bind.
  pose proof (Hf x n s Hi) as Hx. destruct (f x w (n, s)) as [[y|e] [n1 s1]]; simpl in *; [|done].
  specialize (IH n1 s1 (spec_steps_inv _ _ Hx Hi)).
  destruct (for_each f l w (n1, s1)) as [[ys|e] [n2 s2]]; simpl in *; by etransitivity.
Qed.

Lemma mysql_reconcile_sim b limit w n s :
  spec_inv (mysql_abs s) → rtc spec_step (mysql_abs s) (mysql_abs (ReconcileOnce b limit w (n, s)).2.2).
Proof.
  intros Hi. unfold ReconcileOnce. destruct (_ || _); [done|]. unfold mbind at 1, M_bind at 1.
  destruct (query _ w (n, s)) as [rr [n1 s1]] eqn:Hq.
  pose proof (reads_run _ _ _ _ _ _ _ (reads_query _) Hq) as ->.
  destruct rr as [rows|e]; [|done]. unfold mbind at 1, M_bind at 1, liftR.
  destruct (rmap_list scanExecution rows) as [es|e]; [|done].
  unfold mbind, M_bind. pose proof (mysql_for_each_sim (λ es, abort b es.1 true) es w n1 s) as Hf.
  destruct (for_each _ _ _ _) as [[oks|e] [n2 s2]]; simpl in *; apply Hf; auto using mysql_abort_sim.
Qed.

Lemma mysql_reserve_sim b r p lease w n s :
  plan_built p → spec_inv (mysql_abs s) →
  rtc spec_step (mysql_abs s) (mysql_abs (Reserve b r p lease w (n, s)).2.2).
Proof.
  intros Hp Hi. destruct (Reserve b r p lease w (n, s)) as [res [n' s']] eqn:E. cbn [snd].
  apply Reserve_run in E as [[-> _]|(Hfree&e&x&q&_&_&Hnew&_&Hst&_&Hk&Hexs&Hreqs&Hact&_)]; [done| |done].
  apply rtc_once. unfold mysql_abs at 2. rewrite Hexs, Hreqs, !fmap_insert, Hact, Hk, Hst.
  apply spec_reserve; cbn; by rewrite lookup_fmap, ?Hfree, ?Hnew.
Qed.

Lemma mysql_advance_sim b e p lease replan w n s :
  plan_built p → 0 <= ex_Fence e → spec_inv (mysql_abs s) →
  rtc spec_step (mysql_abs s) (mysql_abs (advance b e p lease replan w (n, s)).2.2).
Proof.
  intros Hp Hf [Hcur _]. destruct (advance b e p lease replan w (n, s)) as [res [n' s']] eqn:E. cbn [snd].
  apply advance_run in E as [[-> _]|(x&q&e'&y&Hq&Hx&Ha&_&_&_&Hnew&_&Hst&_&Hk&Hexs&Hreqs&_)]; [done| |done|done].
  set (K := KeyDigest (RequestFor (ex_Plan e))) in *. clearbody K.
  assert (Hc : current (mysql_abs s) !! K = Some (q_active q)) by (cbn; by rewrite lookup_fmap, Hq).
  destruct (Hcur _ _ Hc) as [st Hold]. pose proof (mysql_abs_status _ _ _ Hx) as Hs. rewrite Hs in Hold.
  injection Hold as HK _. rewrite HK, Ha in Hs.
  assert (Hreq : q_active <$> requests s' = <[K := key e']> (q_active <$> requests s)).
  { rewrite Hreqs. apply map_eq. intros j. rewrite !lookup_fmap. destruct (decide (j = K)) as [->|Hne].
    - by rewrite lookup_alter_eq, lookup_insert_eq, Hq.
    - rewrite lookup_alter_ne, lookup_insert_ne by done. by rewrite lookup_fmap. }
  apply rtc_once. unfold mysql_abs at 2. rewrite Hreq, Hexs, fmap_insert, Hk, Hst.
  eapply spec_advance; [exact Hc|exact Hs|]. cbn. by rewrite lookup_fmap, Hnew.
Qed.

Lemma mysql_refines_machine : refines tx_step mysql_abs.
Proof.
  intros s s' Hi Hs. destruct Hs.
  - by apply mysql_reserve_sim.
  - by apply mysql_advance_sim.
  - destruct (BeginPrepare b e w (n, s)) as [r [n' s']] eqn:E. cbn [snd].
    apply BeginPrepare_run in E as [[-> _]|(x&Hx&_&_&_&->)]; [done|].
    by erewrite mysql_same_step.
  - by apply mysql_abort_sim.
  - by apply mysql_reconcile_sim.
  - destruct (host_transaction b e business w (n, s)) as [r [n' s']] eqn:E. cbn [snd].
    apply host_transaction_run in E as [[-> _]|(_&_&_&x&Hx&Hp&_&->&_)]; [done|].
    by eapply mysql_decides; [done|exact Hx|done|left|..].
  - apply mysql_quiet, RecordHalf_kept.
  - apply mysql_quiet, RecordFinal_kept.
  - apply mysql_quiet, RecordRecoveryFinal_kept.
  - by apply mysql_quiet.
Qed.

(** C9: The MySQL store implements the protocol.  Every history of operations of
    any processes, with any driver faults, is a history of the abstract machine,
    in which requests have one current execution, decisions are made once and a
    request leaves only an aborted execution; and a checker that answers Commit
    or Rollback reports the machine's status of the execution. *)
Theorem mysql_refines s s' :
  rtc tx_step empty_db s → rtc tx_step s s' →
  rtc spec_step spec_init (mysql_abs s) ∧ rtc spec_step (mysql_abs s) (mysql_abs s') ∧ spec_inv (mysql_abs s') ∧
  ∀ b ref w n d, d = Commit ∨ d = Rollback → answer b ref w n s' = d →
    ∃ rk, status (mysql_abs s') !! ref_key ref = Some (rk, verdict d) ∧
          (d = Commit → current (mysql_abs s') !! rk = Some (ref_key ref)).
Proof.
  intros Hr Hr'. pose proof (refines_steps _ _ empty_db _ mysql_refines_machine spec_init_inv Hr) as H1. change (rtc spec_step spec_init (mysql_abs s)) in H1.
  pose proof (spec_steps_inv _ _ H1 spec_init_inv) as Hi.
  pose proof (refines_steps _ _ _ _ mysql_refines_machine Hi Hr') as H2.
  pose proof (spec_steps_inv _ _ H2 Hi) as Hi'. split; [exact H1|]. split; [exact H2|]. split; [exact Hi'|].
  intros b ref w n d Hd Ha. destruct (answer_definite b ref w n s' d Hd Ha) as (x&v&Hx&Hst&_).
  pose proof (mysql_abs_status _ _ _ Hx) as Hs. rewrite Hst in Hs. exists (x_request_key x). split; [done|].
  intros ->. destruct Hi' as [_ Hc]. by destruct (Hc _ _ _ Hs).
Qed.

Lemma mysql_refines_witness :
  ∃ rk, status (mysql_abs ex_db3) !! ref_key vector_reference = Some (rk, Committed) ∧
        current (mysql_abs ex_db3) !! rk = Some (ref_key vector_reference).
Proof.
  destruct (mysql_refines ex_db2 ex_db3 ex_steps2 ex_steps3) as (_&_&_&H).
  destruct (H ex_binding vector_reference (ex_tick 3500) 0%nat Commit (or_introl eq_refl) ex_answer3) as (rk&Hst&Hc).
  exists rk. split; [exact Hst|exact (Hc eq_refl)].
Defined.
End txspec.
