(* ===== verification/TxMongoSpec.v ===== *)
(** * The Mongo evidence store refines the abstract protocol

    The machine of [TxSpec], implemented by the documents of
    storage/transaction/mongo.  Operations are not atomic: between their
    statements the other processes write, and are relied upon to keep to the
    machine as well. *)

From S2P Require Import Prelude GoStd Database Message Transaction TxCodec TxMySQL TxMySQLFacts TxMongo.
From S2P Require Import Sender SenderFacts TxMongoFacts TxMongoProtocol TxProtocol TxSpec.

Module txmongospec.
Import transaction codec txmongo txmongofacts txmongoprotocol.
Import txspec.

Definition mongo_abs (s : DB) : Spec :=
  mkSpec (rd_Active <$> requests s) ((λ d, (d_Request d, d_State d)) <$> execs s).

(** The data moved along steps of the machine. *)
Definition sim (s s' : DB) : Prop := spec_inv (mongo_abs s) → rtc spec_step (mongo_abs s) (mongo_abs s').

#[global] Instance sim_preorder : PreOrder sim.
Proof.
  split; [intros s _; reflexivity|]. intros a b c Hab Hbc Hi. etransitivity; [by apply Hab|]. apply Hbc.
  eapply spec_steps_inv; [by apply Hab|done].
Qed.

Lemma mongo_abs_status s k d : execs s !! k = Some d → status (mongo_abs s) !! k = Some (d_Request d, d_State d).
Proof. intros Hd. cbn. by rewrite lookup_fmap, Hd. Qed.

(** ** Updates of one document *)

Lemma sim_same s k d d' :
  execs s !! k = Some d → d_Request d' = d_Request d → d_State d' = d_State d →
  sim s (with_execs s (<[k := d']> (execs s))).
Proof.
  intros Hd Hr Hst _. assert (H : mongo_abs (with_execs s (<[k := d']> (execs s))) = mongo_abs s); [|by rewrite H].
  unfold mongo_abs. cbn. f_equal. rewrite fmap_insert, Hr, Hst. apply insert_id. by rewrite lookup_fmap, Hd.
Qed.

Lemma sim_decide s k d d' st :
  execs s !! k = Some d → d_State d = Prepared → st = Committed ∨ st = Aborted →
  d_Request d' = d_Request d → d_State d' = st → sim s (with_execs s (<[k := d']> (execs s))).
Proof.
  intros Hd Hp Hdef Hr Hst [_ Hcur]. apply rtc_once. unfold mongo_abs at 2. cbn. rewrite fmap_insert, Hr, Hst.
  pose proof (mongo_abs_status _ _ _ Hd) as Hs. destruct (Hcur _ _ _ Hs) as [Ha|Hc]; [by rewrite Hp in Ha|].
  rewrite Hp in Hs. exact (spec_decide (mongo_abs s) _ _ st Hc Hs Hdef).
Qed.

Lemma sim_update_one k p f :
  (∀ t d s, execs s !! k = Some d → p t d = true → sim s (with_execs s (<[k := f t d]> (execs s)))) →
  guarantees sim (update_one k p f).
Proof.
  intros Hf. apply guar_stmt; [apply _|]. intros t s a s' E. destruct (execs s !! k) as [d|] eqn:Hd; [|by simplify_eq].
  destruct (p t d) eqn:Hp; simplify_eq; [by eapply Hf|reflexivity].
Qed.

(** ** Operations *)

Section store.
Context (b : Binding) (env : nat → DB → DB) (env_sim : ∀ n s, sim s (env n s)).

Lemma sim_yield : guarantees sim (yield env).
Proof. intros s w n. apply env_sim. Qed.
Hint Resolve sim_yield : guar.
Hint Resolve mongo_reads_bindingIn reads_find_exec mongo_reads_lookupIn reads_newDoc reads_evidence_read
  reads_ValidateSchema : reads.

Lemma sim_BeginPrepare e : guarantees sim (BeginPrepare b env e).
Proof.
  unfold BeginPrepare. destruct (_ || _); [auto with guar|]. do 2 (apply guar_bind; [apply _|auto with guar|]; intros _).
  apply guar_bind; [apply _| |intros n; apply guar_reads; [apply _|auto with reads]].
  apply sim_update_one. intros t d s Hd _. by eapply sim_same.
Qed.

Lemma sim_abort e expired : guarantees sim (abort b env e expired).
Proof.
  unfold abort. destruct (_ || _); [auto with guar|]. do 3 (apply guar_bind; [apply _|auto with guar|]; intros ?).
  apply guar_bind; [apply _| |auto with guar]. apply sim_update_one. intros t d s Hd H. boolp.
  by eapply sim_decide; [exact Hd| |right| |].
Qed.

Lemma sim_ReconcileOnce limit : guarantees sim (ReconcileOnce b env limit).
Proof. unfold ReconcileOnce, reconcile_one. destruct (_ || _); auto 12 using sim_abort with guar. Qed.

Lemma sim_EvidenceOf ref : guarantees sim (EvidenceOf b env ref).
Proof. unfold EvidenceOf, evidence_with. destruct (_ || _); auto with guar. Qed.

Lemma sim_receipt e raw i p f :
  guarantees sim (update_one (key e) (λ _, receipt_matches e raw i p) (λ t, update_branch i (f t))).
Proof. apply sim_update_one. intros t d s Hd _. by eapply sim_same. Qed.

Lemma sim_RecordHalf e ref h : guarantees sim (RecordHalf b env e ref h).
Proof.
  unfold RecordHalf. destruct (negb _); [auto with guar|]. do 3 (apply guar_bind; [apply _|auto with guar|]; intros ?).
  apply guar_bind; [apply _| |intros n; apply guar_reads; [apply _|auto with reads]]. apply sim_receipt.
Qed.

Lemma sim_RecordFinal e ref f code : guarantees sim (RecordFinal b env e ref f code).
Proof.
  unfold RecordFinal. destruct (negb _); [auto with guar|]. do 3 (apply guar_bind; [apply _|auto with guar|]; intros ?).
  apply guar_bind; [apply _| |intros n; apply guar_reads; [apply _|auto with reads]]. apply sim_receipt.
Qed.

Lemma sim_RecordRecoveryFinal ref outcome : guarantees sim (RecordRecoveryFinal b ref outcome).
Proof.
  unfold RecordRecoveryFinal. apply guar_bind; [apply _|auto with guar|]. intros st.
  destruct (_ || _); [auto with guar|]. apply guar_in_tx; [apply _|]. do 2 (apply guar_bind; [apply _|auto with guar|]; intros ?).
  destruct (_ || _); [auto with guar|]. apply guar_bind; [apply _|auto with guar|]. intros [[i raw]|]; [|auto with guar].
  apply guar_bind; [apply _| |intros n; apply guar_reads; [apply _|auto with reads]].
  apply sim_update_one. intros t d s Hd _. by eapply sim_same.
Qed.

(** ** Reserving and advancing *)

Lemma Match_key r p : Match r p = Ok () → KeyDigest (RequestFor p) = KeyDigest r.
Proof.
  unfold Match, MatchRequest. case_match eqn:H1; [done|]. intros _. boolp.
  unfold KeyDigest, key_preimage, RequestFor. cbn. congruence.
Qed.

Lemma newDoc_fresh p fence lease s :
  post (newDoc b p fence lease) s (λ r s', s' = s ∧ ∀ de, r = Ok de →
    d_Request de.1 = KeyDigest (RequestFor p) ∧ d_State de.1 = Prepared).
Proof.
  intros w n. split; [apply reads_newDoc|]. intros de Hde.
  destruct (newDoc b p fence lease w (n, s)) as [r [n' s']] eqn:E. cbn in Hde. subst r.
  apply bind_run in E as (token&st1&_&E). apply bind_run in E as (now&st2&_&E).
  apply bind_run in E as (raw&st3&_&E). apply bind_run in E as (refs&st4&_&E). by injection E as <- _.
Qed.

(** What a transaction did that ended without an error. *)
Definition committed {A} (s : DB) (r : result A) (s' : DB) : Prop := ∀ a, r = Ok a → sim s s'.

Lemma sim_in_tx {A} (c : M DB A) s : post c s (committed s) → post (in_tx c) s (λ _, sim s).
Proof.
  intros Hc. apply post_in_tx; [|intros e; reflexivity]. eapply post_mono; [exact Hc|].
  intros [a|e] s' Hs; [split; intros; by eapply Hs|done].
Qed.

Lemma post_reads {A B} (c : M DB A) (k : A → M DB B) s :
  reads c → (∀ a, post (k a) s (committed s)) → post (c ≫= k) s (committed s).
Proof. intros Hc Hk. apply post_bind. intros w n. rewrite Hc. destruct (c w (n, s)).1; [apply Hk|done]. Qed.

Lemma sim_reserved {A} r d (v : A) s :
  d_Request d = KeyDigest r → d_State d = Prepared →
  post (_ ← insert_request r (d_ID d); _ ← insert_execution d; mret v) s (committed s).
Proof.
  intros Hr Hst. apply post_bind, post_stmt; [|by intros e a]. intros t u s1 E.
  destruct (requests s !! KeyDigest r) eqn:Hq; [done|]. injection E as <- <-. split; [|by intros e a].
  apply post_bind, post_stmt; [|by intros e a]. cbn. intros t' u' s2 E. destruct (execs s !! d_ID d) eqn:Hd; [done|].
  injection E as <- <-. split; [|by intros e a]. apply post_ret. intros _ _ _.
  apply rtc_once. unfold mongo_abs at 2. cbn. rewrite !fmap_insert, Hr, Hst. cbn.
  apply spec_reserve; cbn; by rewrite lookup_fmap, ?Hq, ?Hd.
Qed.

Lemma sim_Reserve r p lease : guarantees sim (Reserve b env r p lease).
Proof.
  unfold Reserve. destruct (_ || _); [auto with guar|]. intros s. apply post_bind, post_liftR.
  destruct (Match r p) as [[]|e] eqn:Hm; [|reflexivity]. apply Match_key in Hm. revert s.
  change (guarantees sim (_ ← ValidateSchema; _ ← yield env; (res ← catch (in_tx (
    _ ← bindingIn b true; cur ← catch (lookupIn b r);
    match cur with
    | Ok current => mret current
    | Err e => if errors_is e ErrNoRows then
        de ← newDoc b p 1 lease; _ ← insert_request r (d_ID de.1); _ ← insert_execution de.1;
        mret (mkReservation de.2 true Prepared)
      else raise e
    end));
    match res with
    | Ok v => mret v
    | Err e => if errors_is e ErrDuplicateKey then _ ← yield env; Lookup b r else raise e
    end))).
  do 2 (apply guar_bind; [apply _|auto with guar|]; intros _). apply guar_bind; [apply _| |].
  - apply guar_catch. intros s. apply sim_in_tx, post_reads; [auto with reads|]. intros _.
    apply post_reads; [auto with reads|]. intros [cur|e]; [apply post_ret; intros a _; reflexivity|].
    destruct (errors_is _ _); [|by apply post_raise]. apply post_bind. eapply post_mono; [apply newDoc_fresh|].
    intros [de|e'] s' [-> Hde]; [|done]. destruct (Hde de eq_refl) as [Hreq Hst].
    apply sim_reserved; [congruence|done].
  - intros [v|e]; [auto with guar|]. destruct (errors_is _ _); [|auto with guar].
    apply guar_bind; [apply _|auto with guar|]. intros _. unfold Lookup. destruct (_ || _); [auto with guar|].
    apply guar_bind; [apply _|auto 8 with guar|]. intros [v|e']; [auto with guar|]. destruct (errors_is _ _); auto with guar.
Qed.

(** Evidence read in a transaction is that of the documents it sees. *)
Lemma evidence_aborted ref s :
  post (evidence_with b (mret ()) ref) s (λ r s', s' = s ∧ ∀ ev, r = Ok ev → Resolve ref ev = Rollback →
    ref_Valid ref = true ∧ ∃ x, execs s !! ref_key ref = Some x ∧ d_State x = Aborted).
Proof.
  unfold evidence_with. destruct (_ || _) eqn:Hg; [by apply post_raise|]. boolp. apply post_bind.
  intros w n. rewrite mongo_reads_bindingIn. destruct (bindingIn b false w (n, s)).1; [|done].
  apply post_bind, post_ret. eapply post_mono; [apply post_evidence_read|]. intros r s' [-> Hev]. split; [done|].
  intros ev Hr Hres. split; [done|]. destruct (Hev Rollback ev Hr Hres (or_intror eq_refl)) as (x&Hx&Hst). by exists x.
Qed.

Lemma evidence_list refs s :
  post (for_each (evidence_with b (mret ())) refs) s (λ r s', s' = s ∧ ∀ evs ref ev, r = Ok evs →
    head refs = Some ref → head evs = Some ev → Resolve ref ev = Rollback →
    ref_Valid ref = true ∧ ∃ x, execs s !! ref_key ref = Some x ∧ d_State x = Aborted).
Proof.
  assert (Hreads : ∀ l, reads (for_each (evidence_with b (mret ())) l)).
  { intros l. apply reads_for_each. intros ref. unfold evidence_with. destruct (_ || _); auto with reads. }
  intros w n. split; [apply Hreads|]. intros evs ref ev Hr Href Hev Hres.
  destruct refs as [|ref0 refs]; [done|]. injection Href as ->. cbn [for_each] in Hr.
  destruct ((ev ← evidence_with b (mret ()) ref; evs ← for_each (evidence_with b (mret ())) refs; mret (ev :: evs)) w (n, s))
    as [rr [n' s']] eqn:E. cbn in Hr. subst rr.
  apply bind_run in E as (ev1&[n1 s1]&H1&E). apply bind_run in E as (evs1&st2&_&E). injection E as <- _.
  injection Hev as ->. destruct (post_run _ _ _ _ _ _ _ _ H1 (evidence_aborted ref s)) as [_ H]. by apply (H ev).
Qed.

Lemma sim_advanced {A} rk old d (v : A) s :
  d_Request d = rk → d_State d = Prepared → (∃ x, execs s !! old = Some x ∧ d_State x = Aborted) →
  post (_ ← insert_execution d; n ← move_request rk old (d_ID d); if negb (n =? 1) then raise ErrStaleExecution else mret v) s
    (committed s).
Proof.
  intros Hr Hst (x&Hx&Ha). apply post_bind, post_stmt; [|by intros e a]. intros t u s1 E.
  destruct (execs s !! d_ID d) eqn:Hd; [done|]. injection E as <- <-. split; [|by intros e a].
  apply post_bind, post_stmt; [|by intros e a]. cbn. intros t' u' s2 E.
  destruct (requests s !! rk) as [q|] eqn:Hq; [|injection E as <- <-; split; [by apply post_raise|by intros e a]].
  destruct (bool_decide_reflect (rd_Active q = old)) as [Hact|]; injection E as <- <-;
    (split; [|by intros e a]); [|by apply post_raise].
  apply post_ret. intros _ _ [Hcur _].
  assert (Hc : current (mongo_abs s) !! rk = Some old) by (cbn; by rewrite lookup_fmap, Hq, <- Hact).
  pose proof (mongo_abs_status _ _ _ Hx) as Hs. destruct (Hcur _ _ Hc) as [st Hold]. rewrite Hs in Hold.
  injection Hold as HK _. rewrite HK, Ha in Hs.
  apply rtc_once. unfold mongo_abs at 2. cbn. rewrite !fmap_insert, Hr, Hst. cbn.
  eapply spec_advance; [exact Hc|exact Hs|]. cbn. by rewrite lookup_fmap, Hd.
Qed.

Lemma ValidateAdvance_aborted previous p evs replan :
  ValidateAdvance previous p evs replan = Ok () →
  Match (RequestFor (ex_Plan previous)) p = Ok () ∧
  ∃ ref ev, head (References previous) = Some ref ∧ head evs = Some ev ∧ Resolve ref ev = Rollback.
Proof.
  unfold ValidateAdvance. destruct (_ || _); [done|]. intros ([]&Hm&H)%rbind_Ok. split; [exact Hm|].
  destruct (bool_decide_reflect (DecideLocal (References previous) evs = LocalAborted)) as [Hd|]; [|done].
  exact (senderfacts.DecideLocal_first _ _ Rollback Hd (or_intror eq_refl)).
Qed.

Lemma sim_advance previous p lease replan : guarantees sim (advance b previous p lease replan).
Proof.
  unfold advance. destruct (_ || _); [auto with guar|]. destruct (_ != _); [auto with guar|]. intros s.
  apply sim_in_tx, post_reads; [auto with reads|]. intros _. apply post_reads; [auto with reads|]. intros current.
  destruct (_ || _); [by apply post_raise|]. apply post_bind. eapply post_mono; [apply evidence_list|].
  intros [evs|e] s1 [-> Hevs]; [|done]. apply post_bind, post_liftR.
  destruct (ValidateAdvance _ _ _ _) as [[]|e] eqn:Hv; [|done].
  apply ValidateAdvance_aborted in Hv as [Hm%Match_key (ref&ev&Href&Hev&Hres)].
  destruct (Hevs _ ref ev eq_refl Href Hev Hres) as [Hval (x&Hx&Ha)].
  assert (Hin : ref ∈ References previous).
  { destruct (References previous); [done|]. injection Href as ->. apply list_elem_of_here. }
  rewrite (proj1 (valid_reference previous ref Hin Hval)) in Hx.
  apply post_bind. eapply post_mono; [apply newDoc_fresh|]. intros [de|e] s' [-> Hde]; [|done].
  destruct (Hde de eq_refl) as [Hreq Hst]. apply sim_advanced; [congruence|done|by exists x].
Qed.

Lemma sim_host_transaction e business : guarantees sim (host_transaction b e business).
Proof.
  unfold host_transaction. apply guar_in_tx; [apply _|]. apply guar_bind; [apply _| |].
  - unfold Bind. destruct (_ || _); [auto with guar|]. apply guar_bind; [apply _|auto with guar|]. intros _.
    apply guar_bind; [apply _|apply sim_update_one; intros; by eapply sim_same|]. intros n.
    destruct (negb _); auto 8 with guar.
  - intros g. apply guar_bind; [apply _|auto with guar|]. intros _. apply guar_bind; [apply _| |auto with guar].
    unfold CommitWitness. destruct (g_finished g); [auto with guar|]. apply guar_bind; [apply _| |].
    + apply sim_update_one. intros t d s Hd H. boolp. by eapply sim_decide; [exact Hd| |left| |].
    + intros n. destruct (negb _); auto with guar.
Qed.
End store.

(** ** Histories *)

(** What a process relies on between its statements: the others keep to the
    machine and to the order of stored data. *)
Definition peers (env : nat → DB → DB) : Prop := ∀ n s, sim s (env n s) ∧ advances s (env n s).

(** One operation of one process among its peers. *)
Inductive mongo_step (s : DB) : DB → Prop :=
| mstep_reserve b env r p lease w n : peers env → mongo_step s (Reserve b env r p lease w (n, s)).2.2
| mstep_advance b e p lease replan w n : mongo_step s (advance b e p lease replan w (n, s)).2.2
| mstep_prepare b env e w n : peers env → mongo_step s (BeginPrepare b env e w (n, s)).2.2
| mstep_abort b env e expired w n : peers env → mongo_step s (abort b env e expired w (n, s)).2.2
| mstep_reconcile b env limit w n : peers env → mongo_step s (ReconcileOnce b env limit w (n, s)).2.2
| mstep_host b e business w n : mongo_step s (host_transaction b e business w (n, s)).2.2
| mstep_half b env e ref h w n : peers env → mongo_step s (RecordHalf b env e ref h w (n, s)).2.2
| mstep_final b env e ref f code w n : peers env → mongo_step s (RecordFinal b env e ref f code w (n, s)).2.2
| mstep_recovery b ref f w n : mongo_step s (RecordRecoveryFinal b ref f w (n, s)).2.2
| mstep_deploy cs bs : mongo_step s (mkDB cs bs (requests s) (execs s)).

Lemma mongo_step_sim s s' : mongo_step s s' → sim s s' ∧ advances s s'.
Proof.
  destruct 1 as [b env r p lease w n Hp|b e p lease replan w n|b env e w n Hp|b env e x w n Hp|b env l w n Hp
    |b e business w n|b env e ref h w n Hp|b env e ref f c w n Hp|b ref f w n|cs bs];
    try (assert (Hsim : ∀ n s, sim s (env n s)) by (intros; apply Hp));
    try (assert (Hadv : ∀ n s, advances s (env n s)) by (intros; apply Hp)).
  - split; [by apply sim_Reserve|by apply guar_Reserve].
  - split; [by apply sim_advance|by apply guar_advance].
  - split; [by apply sim_BeginPrepare|by apply guar_BeginPrepare].
  - split; [by apply sim_abort|by apply guar_abort].
  - split; [by apply sim_ReconcileOnce|by apply guar_ReconcileOnce].
  - split; [by apply sim_host_transaction|by apply guar_host_transaction].
  - split; [by apply sim_RecordHalf|by apply guar_RecordHalf].
  - split; [by apply sim_RecordFinal|by apply guar_RecordFinal].
  - split; [by apply sim_RecordRecoveryFinal|by apply guar_RecordRecoveryFinal].
  - split; [intros _; reflexivity|]. split; [split; reflexivity|done].
Qed.

Lemma mongo_refines_machine : refines mongo_step mongo_abs.
Proof. intros s s' Hi Hs. by apply mongo_step_sim. Qed.

Definition mongo_empty : DB := mkDB ∅ ∅ ∅ ∅.

(** C11: The Mongo store implements the same protocol.  Every history of operations
    of any processes, interleaved between their statements and with any driver
    faults, is a history of the abstract machine; and a checker that answers
    Commit or Rollback reports the machine's status of the execution. *)
Theorem mongo_refines s s' :
  rtc mongo_step mongo_empty s → rtc mongo_step s s' →
  rtc spec_step spec_init (mongo_abs s) ∧ rtc spec_step (mongo_abs s) (mongo_abs s') ∧ spec_inv (mongo_abs s') ∧
  ∀ b env ref w n d, peers env → d = Commit ∨ d = Rollback → mongo_answer b env ref w n s' = d →
    ∃ rk, status (mongo_abs (mongo_read b env ref w n s')) !! ref_key ref = Some (rk, verdict d) ∧
          (d = Commit → current (mongo_abs (mongo_read b env ref w n s')) !! rk = Some (ref_key ref)).
Proof.
  intros Hr Hr'. pose proof (refines_steps _ _ mongo_empty _ mongo_refines_machine spec_init_inv Hr) as H1.
  change (rtc spec_step spec_init (mongo_abs s)) in H1. pose proof (spec_steps_inv _ _ H1 spec_init_inv) as Hi.
  pose proof (refines_steps _ _ _ _ mongo_refines_machine Hi Hr') as H2.
  pose proof (spec_steps_inv _ _ H2 Hi) as Hi'. split; [exact H1|]. split; [exact H2|]. split; [exact Hi'|].
  intros b env ref w n d Hp Hd Ha.
  destruct (mongo_answer_definite b env ref w n s' d (λ n s, proj2 (Hp n s)) Hd Ha) as (x&Hx&Hst).
  pose proof (mongo_abs_status _ _ _ Hx) as Hs. rewrite Hst in Hs. exists (d_Request x). split; [done|]. intros ->.
  assert (Hsim : sim s' (mongo_read b env ref w n s')) by (apply sim_EvidenceOf; intros; apply Hp).
  destruct (spec_steps_inv _ _ (Hsim Hi') Hi') as [_ Hc]. by destruct (Hc _ _ _ Hs).
Qed.

Lemma mx_steps2 : rtc mongo_step mongo_empty mx_db2.
Proof.
  eapply rtc_l; [apply (mstep_deploy mongo_empty (collections mx_db1) (bindings mx_db1))|]. apply rtc_once.
  assert (Hs : mx_db2 = mx_reserve.2.2) by (vm_compute; reflexivity). rewrite Hs.
  exact (mstep_reserve mx_db1 mx_binding mx_alone (RequestFor vector_plan) vector_plan 60000000000 (mx_tick 1000) 0%nat
    (λ n s, conj (reflexivity s) (reflexivity s))).
Qed.
Lemma mx_steps3 : rtc mongo_step mx_db2 mx_db3.
Proof.
  apply rtc_once. assert (Hs : mx_db3 = mx_host.2.2) by (vm_compute; reflexivity). rewrite Hs. apply mstep_host.
Qed.

Lemma mongo_refines_witness :
  ∃ rk, status (mongo_abs mx_db3) !! ref_key vector_reference = Some (rk, Committed) ∧
        current (mongo_abs mx_db3) !! rk = Some (ref_key vector_reference).
Proof.
  destruct (mongo_refines mx_db2 mx_db3 mx_steps2 mx_steps3) as (_&_&_&H).
  assert (Hread : mongo_read mx_binding mx_alone vector_reference (mx_tick 3000) 0 mx_db3 = mx_db3) by (vm_compute; reflexivity).
  destruct (H mx_binding mx_alone vector_reference (mx_tick 3000) 0%nat Commit (λ n s, conj (reflexivity s) (reflexivity s))
    (or_introl eq_refl) mx_committed) as (rk&Hst&Hc). rewrite Hread in Hst, Hc.
  exists rk. split; [exact Hst|exact (Hc eq_refl)].
Defined.
End txmongospec.
