(* ===== verification/Nsq.v ===== *)
(** * transport/nsq: deliveries and publishing

    [subscription.go]: one business or failure delivery of a host-owned consumer,
    and [publisher.go]: admission of publishes and draining.

    The handler of the host, the handoff and the driver's name checks are
    parameters; so is the float64 product of the jitter.  A handler is the
    sequence of Ack and Nack calls it makes on its delivery and the error it
    returns.  What the broker and the host see of a delivery is a log. *)

From Stdlib Require Import Ascii ZifyBool.
From S2P Require Import Prelude GoStd Database Message Json Routing Wire Relay.

Module nsq.
Import legacy.

(** ** Configuration *)

(** Durations are nanoseconds; [noJitter] is [JitterFraction == 0]. *)
Record Backoff : Type := mkBackoff { BaseDelay : Z; MaxDelay : Z; noJitter : bool; jitterInRange : bool }.

Record SubscriptionConfig : Type := mkSubConfig {
  c_Topic : string; c_Channel : string; c_FailedHandoffGroup : string; c_MaxAttempts : Z; c_Retry : Backoff
}.

(** A go-nsq message. *)
Record Raw : Type := mkRaw {
  r_ID : string; r_Body : bytes; r_Attempts : Z; r_Timestamp : Z; r_NSQDAddress : string
}.

(** [transport.Received] as this transport fills it. *)
Record Received : Type := mkReceived {
  rc_ID : string; rc_TransportID : string; rc_Topic : string; rc_Channel : string;
  rc_Metadata : gmap string string; rc_Payload : bytes; rc_Attempts : Z; rc_Timestamp : Z
}.

Inductive Call : Type := CAck | CNack (cause : option error).

Inductive Event : Type :=
| EHandler (m : Received)
| EReady (address topic : string)
| EPublish (address topic : string) (body : bytes) (confirmed : bool)
| EFailedHandler (h : FailedHandoff)
| EFinish
| ERequeue (delay : Z).

Record Sub : Type := mkSub { causes : gmap string error; active : Z; idle : bool; log : list Event }.

Definition emit (e : Event) (s : Sub) : Sub := mkSub (causes s) (active s) (idle s) (log s ++ [e]).
Definition remember (k : string) (e : error) (s : Sub) : Sub := mkSub (<[k := e]> (causes s)) (active s) (idle s) (log s).
Definition forget (k : string) (s : Sub) : Sub := mkSub (delete k (causes s)) (active s) (idle s) (log s).
Definition enter (s : Sub) : Sub := mkSub (causes s) (active s + 1) (if active s =? 0 then false else idle s) (log s).
Definition leave (s : Sub) : Sub :=
  mkSub (causes s) (active s - 1) (if active s - 1 =? 0 then true else idle s) (log s).

(** ** Backoff *)

(** The doubling loop; [n] is the number of steps left. *)
Fixpoint doubling (n : nat) (delay limit : Z) : Z :=
  match n with
  | O => delay
  | Datatypes.S n => if delay <? limit then if delay >? limit / 2 then limit else doubling n (delay * 2) limit
                     else delay
  end.

(** FNV-1a, 32 bits. *)
Fixpoint fnv32a (h : Z) (s : string) : Z :=
  match s with
  | EmptyString => h
  | String a s => fnv32a (Z.land (Z.lxor h (byte_val a) * 16777619) 4294967295) s
  end.

Definition capped_delay (backoff : Backoff) (attempt : Z) : Z :=
  let attempt := Z.max attempt 1 in
  let limit := Z.max (MaxDelay backoff) (BaseDelay backoff) in
  Z.min (doubling (Z.to_nat (attempt - 1)) (BaseDelay backoff) limit) limit.

Section subscription.
Context (config : SubscriptionConfig).
Context (IsValidTopicName IsValidChannelName : string → bool).
Context (error_text : error → string) (jitter : Z → Z → Z).
Context (handler : Received → list Call * option error)
        (failedHandler : FailedHandoff → option error)
        (ready : string → string → option error)
        (publish : string → string → bytes → Z).

(** The float64 product is [jitter delay (hash mod 20001)]. *)
Definition retryDelay (attempt : Z) (id : string) : Z :=
  let backoff := c_Retry config in
  if BaseDelay backoff <=? 0 then 0
  else
    let delay := capped_delay backoff attempt in
    if noJitter backoff then delay
    else delay + jitter delay (fnv32a 2166136261 (id +:+ ":" +:+ FormatUint (Z.max attempt 1)) mod 20001).

Definition failureTopic : string :=
  if c_FailedHandoffGroup config != ""%string then FailedHandoffTopicForGroup (c_Topic config) (c_FailedHandoffGroup config)
  else FailedHandoffTopic (c_Topic config) (c_Channel config).

Definition NewSubscription : result Sub :=
  if negb (IsValidTopicName (c_Topic config)) || negb (IsValidChannelName (c_Channel config))
  then Err (ErrMsg "valid NSQ topic and channel required")
  else if (c_FailedHandoffGroup config != ""%string) && negb (IsValidChannelName (c_FailedHandoffGroup config))
  then Err (ErrMsg "invalid failed handoff group")
  else if c_MaxAttempts config =? 0 then Err (ErrMsg "bounded delivery required")
  else if (BaseDelay (c_Retry config) <? 0) || (MaxDelay (c_Retry config) <? 0) || negb (jitterInRange (c_Retry config))
  then Err (ErrMsg "invalid retry backoff")
  else Ok (mkSub ∅ 0 true []).

Definition key (id : string) : string := c_Topic config +:+ nul +:+ c_Channel config +:+ nul +:+ id.

(** ** Failing a delivery *)

Definition handoff_of (received : Received) (cause : error) : FailedHandoff :=
  mkHandoff (c_Topic config) (c_Channel config) (rc_ID received) (rc_TransportID received) (rc_Metadata received)
    (rc_Payload received) (c_MaxAttempts config) (rc_Timestamp received) (error_text cause).

(** The terminal publish: [None] when it is confirmed. *)
Definition hand_off (raw : Raw) (body : bytes) (s : Sub) : option error * Sub :=
  if r_NSQDAddress raw == ""%string then (Some (ErrMsg "source NSQD address required for failed handoff"), s)
  else
    let s := emit (EReady (r_NSQDAddress raw) failureTopic) s in
    match ready (r_NSQDAddress raw) failureTopic with
    | Some e => (Some e, s)
    | None =>
      let confirmed := publish (r_NSQDAddress raw) failureTopic body =? transport.Confirmed in
      let s := emit (EPublish (r_NSQDAddress raw) failureTopic body confirmed) s in
      (if confirmed then None else Some (ErrMsg "NSQ failed handoff not confirmed"), s)
    end.

Definition fail (raw : Raw) (received : Received) (cause : option error) (s : Sub) : option error * Sub :=
  let cause := match cause with Some c => c | None => ErrMsg "message nacked by handler" end in
  let k := key (rc_TransportID received) in
  let s := remember k cause s in
  if r_Attempts raw <? c_MaxAttempts config then
    (None, emit (ERequeue (retryDelay (r_Attempts raw) (rc_ID received))) s)
  else
    let '(err, s) := match EncodeFailedHandoff (handoff_of received cause) with
                     | Err e => (Some e, s)
                     | Ok body => hand_off raw body s
                     end in
    match err with
    | Some e => (Some e, emit (ERequeue (retryDelay (r_Attempts raw) (rc_ID received))) s)
    | None => (None, emit EFinish (forget k s))
    end.

(** ** The delivery a handler sees *)

(** [nsqDelivery.settle]: the outer option is [done]. *)
Definition settle (raw : Raw) (received : Received) (c : Call) (d : option (option error)) (s : Sub)
    : option (option error) * Sub :=
  match d with
  | Some _ => (d, s)
  | None =>
    match c with
    | CAck => (Some None, emit EFinish (forget (key (rc_TransportID received)) s))
    | CNack cause => let '(r, s) := fail raw received cause s in (Some r, s)
    end
  end.

Fixpoint settle_all (raw : Raw) (received : Received) (cs : list Call) (d : option (option error)) (s : Sub)
    : option (option error) * Sub :=
  match cs with
  | [] => (d, s)
  | c :: cs => let '(d, s) := settle raw received c d s in settle_all raw received cs d s
  end.

Definition received_of (raw : Raw) (decoded : Envelope) : Received :=
  mkReceived (if UUID decoded == ""%string then r_ID raw else UUID decoded) (r_ID raw) (c_Topic config) (c_Channel config)
    (Metadata decoded) (Payload decoded) (r_Attempts raw) (r_Timestamp raw).

(** The handler runs and the delivery is settled after it if it was not before. *)
Definition run_handler (raw : Raw) (received : Received) (s : Sub) : option error * Sub :=
  let s := emit (EHandler received) s in
  let '(calls, err) := handler received in
  let '(d, s) := settle_all raw received calls None s in
  let last := match err with Some _ => CNack err | None => CAck end in
  let '(d, s) := settle raw received last d s in
  (match d with Some r => r | None => None end, s).

Definition HandleBusiness (raw : Raw) (s : Sub) : option error * Sub :=
  let s := enter s in
  let '(decoded, recognized, decodeErr) := Decode (r_Body raw) in
  let decoded := if recognized : bool then decoded else mkEnvelope (r_ID raw) ∅ (r_Body raw) in
  let received := received_of raw decoded in
  let '(r, s) :=
    match decodeErr with
    | Some e => fail raw received (Some (ErrWrap "decode message envelope" e)) s
    | None =>
      if r_Attempts raw >? c_MaxAttempts config then
        fail raw received
          (Some (default (ErrMsg "transport delivery exhausted after prior handler failure")
                   (causes s !! key (r_ID raw)))) s
      else run_handler raw received s
    end in
  (r, leave s).

Definition HandleFailure (raw : Raw) (s : Sub) : option error * Sub :=
  let s := enter s in
  let failed := match DecodeFailedHandoff (r_Body raw) with
                | Ok h => h
                | Err e => mkHandoff failureTopic FailedHandoffChannel (r_ID raw) (r_ID raw) ∅ (r_Body raw)
                             (r_Attempts raw) (r_Timestamp raw) (error_text e)
                end in
  let s := emit (EFailedHandler failed) s in
  let '(r, s) :=
    match failedHandler failed with
    | Some e => (Some e, emit (ERequeue (retryDelay (r_Attempts raw) (h_UUID failed))) s)
    | None => (None, emit EFinish s)
    end in
  (r, leave s).


(** ** What a delivery leaves behind *)

(** A handoff that was not confirmed. *)
Definition tried (e : Event) : Prop :=
  match e with EReady _ _ => True | EPublish _ _ _ confirmed => confirmed = false | _ => False end.

(** The events of a failed delivery: it is requeued, or its failure record was
    confirmed by the failure topic and only then it is finished. *)
Inductive failing (raw : Raw) (received : Received) : list Event → Prop :=
| failing_retry delay : r_Attempts raw < c_MaxAttempts config → failing raw received [ERequeue delay]
| failing_again pre delay :
    c_MaxAttempts config <= r_Attempts raw → Forall tried pre →
    failing raw received (pre ++ [ERequeue delay])
| failing_handoff address body cause :
    c_MaxAttempts config <= r_Attempts raw →
    EncodeFailedHandoff (handoff_of received cause) = Ok body →
    ready address failureTopic = None → publish address failureTopic body = transport.Confirmed →
    failing raw received [EReady address failureTopic; EPublish address failureTopic body true; EFinish].

(** The rest of the state is as it was. *)
Definition extends (s s' : Sub) (evs : list Event) : Prop :=
  log s' = log s ++ evs ∧ active s' = active s ∧ idle s' = idle s.

Lemma extends_trans s s1 s2 l l' : extends s s1 l → extends s1 s2 l' → extends s s2 (l ++ l').
Proof. intros (H1&?&?) (H2&?&?). split; [by rewrite H2, H1, app_assoc|]. split; congruence. Qed.

Lemma hand_off_log raw body s err s' :
  hand_off raw body s = (err, s') →
  (∃ pre e, err = Some e ∧ extends s s' pre ∧ Forall tried pre) ∨
  (∃ address, err = None ∧ extends s s' [EReady address failureTopic; EPublish address failureTopic body true] ∧
     ready address failureTopic = None ∧ publish address failureTopic body = transport.Confirmed).
Proof.
  unfold hand_off. destruct (_ == _).
  { intros [= <- <-]. left. exists [], (ErrMsg "source NSQD address required for failed handoff").
    split; [done|]. split; [by repeat split; rewrite ?app_nil_r|]. repeat constructor. }
  destruct (ready _ _) as [e|] eqn:Hr.
  { intros [= <- <-]. left. eexists [_], e. split; [done|]. split; [by repeat split|]. repeat constructor. }
  destruct (Z.eqb_spec (publish (r_NSQDAddress raw) failureTopic body) transport.Confirmed) as [Hp|Hp]; intros [= <- <-].
  - right. exists (r_NSQDAddress raw). split; [done|]. split; [|done]. split; [cbn; by rewrite <- app_assoc|done].
  - left. eexists [_; _], _. split; [done|]. split; [split; [cbn; by rewrite <- app_assoc|done]|]. repeat constructor.
Qed.

Lemma fail_log raw received cause s r s' :
  fail raw received cause s = (r, s') → ∃ evs, extends s s' evs ∧ failing raw received evs.
Proof.
  unfold fail. set (c := match cause with Some c => c | None => _ end).
  destruct (Z.ltb_spec (r_Attempts raw) (c_MaxAttempts config)) as [Hlt|Hge].
  { intros [= <- <-]. eexists [_]. split; [by repeat split|by constructor]. }
  destruct (match EncodeFailedHandoff (handoff_of received c) with Err e => _ | Ok body => _ end) as [err s1] eqn:E.
  assert (Hs0 : extends s (remember (key (rc_TransportID received)) c s) []) by (by repeat split; rewrite ?app_nil_r).
  assert (Hcase : (∃ pre e, err = Some e ∧ extends s s1 pre ∧ Forall tried pre) ∨
    (∃ address body, err = None ∧ EncodeFailedHandoff (handoff_of received c) = Ok body ∧
       extends s s1 [EReady address failureTopic; EPublish address failureTopic body true] ∧
       ready address failureTopic = None ∧ publish address failureTopic body = transport.Confirmed)).
  { destruct (EncodeFailedHandoff (handoff_of received c)) as [body|e] eqn:Henc.
    - apply hand_off_log in E as [(pre&e&?&Hx&?)|(address&?&Hx&?&?)].
      + left. exists pre, e. split; [done|]. split; [by eapply (extends_trans _ _ _ [])|done].
      + right. exists address, body. split; [done|]. split; [done|]. split; [by eapply (extends_trans _ _ _ [])|done].
    - injection E as <- <-. left. exists [], e. split; [done|]. split; [done|]. repeat constructor. }
  destruct Hcase as [(pre&e&->&Hx&?)|(address&body&->&Henc&Hx&Hr&Hp)]; intros [= <- <-].
  - eexists. split; [eapply extends_trans; [exact Hx|by repeat split]|by constructor].
  - eexists. split; [eapply extends_trans; [exact Hx|by repeat split]|by econstructor].
Qed.

(** The delivery was accepted: its first settlement, explicit or implied by the
    handler's return, is an Ack. *)
Definition accepted (received : Received) : Prop :=
  match handler received with
  | (CAck :: _, _) => True
  | ([], None) => True
  | _ => False
  end.

Lemma settle_all_done raw received cs r s : settle_all raw received cs (Some r) s = (Some r, s).
Proof. induction cs as [|c cs IH]; [done|apply IH]. Qed.

Lemma settle_log raw received c s d s' :
  settle raw received c None s = (d, s') →
  ∃ evs, is_Some d ∧ extends s s' evs ∧ ((c = CAck ∧ evs = [EFinish]) ∨ (c ≠ CAck ∧ failing raw received evs)).
Proof.
  unfold settle. destruct c as [|cause]; [intros [= <- <-]|].
  - exists [EFinish]. split; [by eexists|]. split; [by repeat split|by left].
  - destruct (fail raw received cause s) as [r s1] eqn:E. intros [= <- <-].
    apply fail_log in E as (evs&?&?). exists evs. split; [by eexists|]. split; [done|by right].
Qed.

Lemma run_handler_log raw received s r s' :
  run_handler raw received s = (r, s') →
  ∃ evs, extends s s' (EHandler received :: evs) ∧ ((accepted received ∧ evs = [EFinish]) ∨ failing raw received evs).
Proof.
  unfold run_handler, accepted. destruct (handler received) as [calls err].
  set (s0 := emit (EHandler received) s). assert (H0 : extends s s0 [EHandler received]) by (by repeat split).
  destruct calls as [|c calls]; cbn [settle_all].
  - destruct (settle raw received _ None s0) as [d s1] eqn:E. intros [= _ <-].
    apply settle_log in E as (evs&_&Hx&Hor). exists evs. split; [by eapply (extends_trans _ _ _ [_])|].
    destruct err; destruct Hor as [[? ->]|[? ?]]; by auto.
  - destruct (settle raw received c None s0) as [d s1] eqn:E. apply settle_log in E as (evs&[r0 ->]&Hx&Hor).
    rewrite settle_all_done. cbn [settle]. intros [= _ <-]. exists evs. split; [by eapply (extends_trans _ _ _ [_])|].
    destruct Hor as [[-> ->]|[? ?]]; by auto.
Qed.

(** C14: No delivery is lost.  Every business delivery gets exactly one answer, and
    the handler runs at most once, only for a decodable message within its
    attempts.  The message is finished only when the handler accepted it, or
    when, with its attempts exhausted, the failure topic was ready and confirmed
    a record of this delivery with its identity, payload and cause; in every
    other case it is requeued. *)
Theorem delivery_not_lost raw s r s' :
  HandleBusiness raw s = (r, s') →
  ∃ received evs, log s' = log s ++ evs ∧ active s' = active s ∧
    rc_TransportID received = r_ID raw ∧
    (failing raw received evs ∨
     ∃ tail, evs = EHandler received :: tail ∧ r_Attempts raw <= c_MaxAttempts config ∧ (Decode (r_Body raw)).2 = None ∧
       ((accepted received ∧ tail = [EFinish]) ∨ failing raw received tail)).
Proof.
  unfold HandleBusiness. destruct (Decode (r_Body raw)) as [[decoded0 recognized] decodeErr]. cbn [snd].
  set (decoded := if recognized then decoded0 else _). set (received := received_of raw decoded).
  assert (Hwrap : ∀ s1 evs, extends (enter s) s1 evs → log (leave s1) = log s ++ evs ∧ active (leave s1) = active s).
  { intros s1 evs (Hl&Ha&_). cbn. rewrite Hl, Ha. cbn. split; [done|lia]. }
  destruct decodeErr as [e|]; [|destruct (Z.gtb_spec (r_Attempts raw) (c_MaxAttempts config)) as [Hgt|Hle]].
  - destruct (fail raw received _ _) as [r1 s1] eqn:E. intros [= _ <-]. apply fail_log in E as (evs&Hx&Hf).
    exists received, evs. destruct (Hwrap _ _ Hx). by auto.
  - destruct (fail raw received _ _) as [r1 s1] eqn:E. intros [= _ <-]. apply fail_log in E as (evs&Hx&Hf).
    exists received, evs. destruct (Hwrap _ _ Hx). by auto.
  - destruct (run_handler raw received _) as [r1 s1] eqn:E. intros [= _ <-].
    apply run_handler_log in E as (evs&Hx&Hf). exists received, (EHandler received :: evs).
    destruct (Hwrap _ _ Hx). repeat (split; [done|]). right. exists evs. by repeat split.
Qed.

(** An error without a text is never handed off.  When the attempts of a
    delivery are exhausted and its cause has an empty text, the failure record
    cannot be encoded: nothing is published, the delivery is requeued, and so it
    is on every later attempt. *)
Theorem empty_cause_requeued raw received cause s r s' :
  c_MaxAttempts config <= r_Attempts raw → error_text cause = ""%string →
  fail raw received (Some cause) s = (r, s') →
  r ≠ None ∧ log s' = log s ++ [ERequeue (retryDelay (r_Attempts raw) (rc_ID received))].
Proof.
  intros Hatt Htext. unfold fail. rewrite (proj2 (Z.ltb_ge _ _) Hatt).
  assert (He : EncodeFailedHandoff (handoff_of received cause) = Err (ErrMsg "invalid legacy NSQ failed handoff")).
  { unfold EncodeFailedHandoff. assert (Hi : handoff_incomplete (handoff_of received cause) = true); [|by rewrite Hi].
    unfold handoff_incomplete. cbn [h_Cause handoff_of]. rewrite Htext.
    rewrite (bool_decide_eq_true_2 (""%string = ""%string)) by reflexivity. apply orb_true_r. }
  rewrite He. intros [= <- <-]. split; [discriminate|reflexivity].
Qed.
End subscription.

(** ** Backoff *)

Lemma doubling_spec n delay limit :
  0 < delay <= limit → doubling n delay limit = Z.min limit (delay * 2 ^ Z.of_nat n).
Proof.
  revert delay. induction n as [|n IH]; intros delay Hd; cbn [doubling].
  { rewrite Z.mul_1_r. lia. }
  assert (Hp : 2 ^ Z.of_nat (Datatypes.S n) = 2 * 2 ^ Z.of_nat n) by (rewrite Nat2Z.inj_succ, Z.pow_succ_r; lia).
  assert (Hpos : 0 < 2 ^ Z.of_nat n) by (apply Z.pow_pos_nonneg; lia).
  destruct (Z.ltb_spec delay limit) as [Hlt|Hge]; [|nia].
  destruct (Z.gtb_spec delay (limit / 2)) as [Hgt|Hle].
  - pose proof (Z.mul_div_le limit 2 ltac:(lia)). pose proof (Z.mod_pos_bound limit 2 ltac:(lia)).
    pose proof (Z.div_mod limit 2 ltac:(lia)). assert (limit <= delay * 2) by lia. nia.
  - pose proof (Z.mul_div_le limit 2 ltac:(lia)). rewrite IH by lia. f_equal. rewrite Hp. ring.
Qed.

(** The retry delay without jitter is exponential and capped: attempt [n] waits
    the smaller of BaseDelay times two to the n-1 and the larger of MaxDelay and
    BaseDelay; no doubling of the loop exceeds that cap, so that none overflows. *)
Theorem backoff_exponential backoff attempt :
  0 < BaseDelay backoff →
  capped_delay backoff attempt =
    Z.min (Z.max (MaxDelay backoff) (BaseDelay backoff)) (BaseDelay backoff * 2 ^ (Z.max attempt 1 - 1)) ∧
  ∀ n, doubling n (BaseDelay backoff) (Z.max (MaxDelay backoff) (BaseDelay backoff)) <=
       Z.max (MaxDelay backoff) (BaseDelay backoff).
Proof.
  intros Hb. split; [|intros n; rewrite doubling_spec by lia; lia].
  unfold capped_delay. rewrite doubling_spec by lia. rewrite Z2Nat.id by lia. lia.
Qed.

(** ** A concrete subscription *)

Definition ex_config : SubscriptionConfig := mkSubConfig "orders" "billing" "" 3 (mkBackoff 1000 60000 true true).
Definition ex_raw (attempts : Z) : Raw := mkRaw "0123456789abcdef" "plain" attempts 1700000000 "nsqd:4150".
Definition ex_text (e : error) : string := match e with ErrMsg t => t | _ => "error" end.
Definition ex_handler (m : Received) : list Call * option error := ([], Some (ErrMsg "declined")).
Definition ex_empty : Sub := mkSub ∅ 0 true [].
Abbreviation ex_handle attempts :=
  (HandleBusiness ex_config ex_text (λ _ _, 0) ex_handler (λ _ _, None) (λ _ _ _, transport.Confirmed) (ex_raw attempts) ex_empty)
  (only parsing).

(** The third failure is handed off, an earlier one is retried with backoff. *)
Example ex_retry : log (ex_handle 2).2 = [EHandler (received_of ex_config (ex_raw 2) (mkEnvelope "0123456789abcdef" ∅ "plain")); ERequeue 2000].
Proof. vm_compute. reflexivity. Qed.
Example ex_handoff : last (log (ex_handle 3).2) = Some EFinish.
Proof. vm_compute. reflexivity. Qed.

Lemma delivery_not_lost_witness :
  ∃ received evs, log (ex_handle 3).2 = evs ∧ rc_TransportID received = "0123456789abcdef"%string ∧
    (failing ex_config ex_text (λ _ _, None) (λ _ _ _, transport.Confirmed) (ex_raw 3) received evs ∨
     ∃ tail, evs = EHandler received :: tail ∧
       ((accepted ex_handler received ∧ tail = [EFinish]) ∨
        failing ex_config ex_text (λ _ _, None) (λ _ _ _, transport.Confirmed) (ex_raw 3) received tail)).
Proof.
  destruct (ex_handle 3) as [r s'] eqn:E. cbn [snd].
  destruct (delivery_not_lost ex_config ex_text (λ _ _, 0) ex_handler (λ _ _, None) (λ _ _ _, transport.Confirmed)
    (ex_raw 3) ex_empty r s' E) as (received&evs&Hl&_&Hid&Hor).
  exists received, evs. split; [exact Hl|]. split; [exact Hid|]. destruct Hor as [H|(tail&H1&_&_&H2)]; [left; exact H|right].
  exists tail. split; [exact H1|exact H2].
Defined.

Definition ex_received : Received := mkReceived "id" "0123456789abcdef" "orders" "billing" ∅ "plain" 3 1700000000.
Abbreviation ex_fail :=
  (fail ex_config ex_text (λ _ _, 0) (λ _ _, None) (λ _ _ _, transport.Confirmed) (ex_raw 3) ex_received
    (Some (ErrMsg "")) ex_empty) (only parsing).
Lemma empty_cause_requeued_witness : ex_fail.1 ≠ None ∧ log ex_fail.2 = [ERequeue 4000].
Proof.
  destruct ex_fail as [r s'] eqn:E. cbn [fst snd].
  exact (empty_cause_requeued ex_config ex_text (λ _ _, 0) (λ _ _, None) (λ _ _ _, transport.Confirmed) (ex_raw 3) ex_received
    (ErrMsg "") ex_empty r s' (Z.le_refl 3) eq_refl E).
Defined.

Lemma backoff_exponential_witness : capped_delay (mkBackoff 1000 60000 true true) 4 = 8000.
Proof. exact (proj1 (backoff_exponential (mkBackoff 1000 60000 true true) 4 ltac:(cbn; lia))). Defined.

End nsq.

(** ** Publishing

    [publisher.go] and [managed_publisher.go]: every admitted publish holds a slot
    until its driver call returned, even when its caller gave up. *)

Module nsqpublisher.

(** How the wait for a publish ends for its caller. *)
Inductive Wait : Type := Refused | Answered (err : option error) | CtxDone.

Definition publish_outcome (w : Wait) : transport.Outcome :=
  match w with Answered None => transport.Confirmed | _ => transport.Unknown end.

Definition Publish (routes : gmap string string) (m : message.Message) (w : string → bytes → Wait) : transport.Outcome :=
  match routes !! message.Destination (message.Message_Input m) with
  | Some topic => if message.Message_Valid m then publish_outcome (w topic (message.Payload (message.Message_Input m)))
                  else transport.Rejected
  | None => transport.Rejected
  end.
Definition PublishRaw (IsValidTopicName : string → bool) (topic : string) (body : bytes) (w : string → bytes → Wait)
    : transport.Outcome :=
  if negb (IsValidTopicName topic) || (len body =? 0) then transport.Rejected else publish_outcome (w topic body).

Definition newPublisher (IsValidTopicName : string → bool) (routes : list (string * string)) (maxInFlight : Z)
    : result (gmap string string) :=
  if (maxInFlight <? 1) || (maxInFlight >? 1000) then Err (ErrMsg "in-flight limit 1..1000 required")
  else rfold (λ m r, if (r.1 == ""%string) || negb (IsValidTopicName r.2)
                     then Err (ErrMsg "invalid logical destination or NSQ topic")
                     else Ok (<[r.1 := r.2]> m)) routes ∅.

(** Publishes by stage; [closes] counts [close(p.drained)]. *)
Record State : Type := mkState {
  waiting : Z; refused : Z; calling : Z; returned : Z; releasing : Z;
  stopping : bool; closes : Z; stops : Z
}.
Definition slots (s : State) : Z := waiting s + refused s + calling s + returned s.
Definition active (s : State) : Z := calling s + returned s + releasing s.
Definition initial : State := mkState 0 0 0 0 0 false 0 0.

Definition set_stages (w r c d l : Z) (s : State) : State := mkState w r c d l (stopping s) (closes s) (stops s).
Definition close_drained (s : State) : State :=
  mkState (waiting s) (refused s) (calling s) (returned s) (releasing s) (stopping s) (closes s + 1) (stops s).

Section publisher.
Context (maxInFlight : Z).

(** [publishBytes] up to the launch of the driver call. *)
Definition take_slot (s : State) : option State :=
  if slots s <? maxInFlight
  then Some (set_stages (waiting s + 1) (refused s) (calling s) (returned s) (releasing s) s) else None.
Definition admission (ctxErr : bool) (s : State) : option State :=
  if waiting s >? 0 then
    Some (if stopping s || ctxErr
          then set_stages (waiting s - 1) (refused s + 1) (calling s) (returned s) (releasing s) s
          else set_stages (waiting s - 1) (refused s) (calling s + 1) (returned s) (releasing s) s)
  else None.
Definition give_back (s : State) : option State :=
  if refused s >? 0
  then Some (set_stages (waiting s) (refused s - 1) (calling s) (returned s) (releasing s) s) else None.

(** The goroutine of the driver call. *)
Definition call_returns (s : State) : option State :=
  if calling s >? 0
  then Some (set_stages (waiting s) (refused s) (calling s - 1) (returned s + 1) (releasing s) s) else None.
Definition call_release (s : State) : option State :=
  if returned s >? 0
  then Some (set_stages (waiting s) (refused s) (calling s) (returned s - 1) (releasing s + 1) s) else None.
Definition call_done (s : State) : option State :=
  if releasing s >? 0 then
    let s' := set_stages (waiting s) (refused s) (calling s) (returned s) (releasing s - 1) s in
    Some (if stopping s' && (active s' =? 0) then close_drained s' else s')
  else None.

Definition beginDrain (s : State) : State :=
  if stopping s then s
  else
    let s' := mkState (waiting s) (refused s) (calling s) (returned s) (releasing s) true (closes s) (stops s) in
    if active s' =? 0 then close_drained s' else s'.

(** [stopProducer], once; [Close] calls it when drained, [Interrupt] at once. *)
Definition stopProducer (s : State) : State :=
  if stops s =? 0
  then mkState (waiting s) (refused s) (calling s) (returned s) (releasing s) (stopping s) (closes s) 1 else s.
Definition Close_stop (s : State) : option State := if closes s >? 0 then Some (stopProducer s) else None.
Definition Interrupt (s : State) : State := stopProducer (beginDrain s).

Inductive Label : Type :=
| LSlot | LAdmit (ctxErr : bool) | LGiveback | LReturn | LRelease | LDone | LDrain | LClose | LInterrupt.
Definition run (l : Label) (s : State) : option State :=
  match l with
  | LSlot => take_slot s | LAdmit c => admission c s | LGiveback => give_back s
  | LReturn => call_returns s | LRelease => call_release s | LDone => call_done s
  | LDrain => Some (beginDrain s) | LClose => Close_stop s | LInterrupt => Some (Interrupt s)
  end.
Definition step (s s' : State) : Prop := ∃ l, run l s = Some s'.

Definition inv (s : State) : Prop :=
  0 <= waiting s ∧ 0 <= refused s ∧ 0 <= calling s ∧ 0 <= returned s ∧ 0 <= releasing s ∧
  slots s <= maxInFlight ∧ 0 <= stops s <= 1 ∧
  (stopping s = true → active s = 0 → closes s = 1) ∧ (stopping s = false → closes s = 0) ∧ (0 < active s → closes s = 0).

(** What is left of the driver calls of a draining publisher. *)
Definition work (c : State) : Z :=
  3 * calling c + 2 * returned c + releasing c.

(** A draining publisher with calls has a step of the goroutine of a call. *)
Lemma core_progress c :
  inv c → stopping c = true →
  active c = 0 ∨
  ∃ k c', k ∈ [LReturn; LRelease; LDone] ∧
    run k c = Some c' ∧ stopping c' = true ∧ 0 <= work c' < work c.
Proof.
  intros (?&?&?&?&?&_) Hs. unfold work, active.
  destruct (decide (0 < calling c)) as [Hx|].
  { right. eexists LReturn, _. split; [set_solver|]. cbn. unfold call_returns.
    rewrite (proj2 (Z.gtb_lt _ _)) by lia. split; [done|]. cbn. split; [done|lia]. }
  destruct (decide (0 < returned c)) as [Hx|].
  { right. eexists LRelease, _. split; [set_solver|]. cbn. unfold call_release.
    rewrite (proj2 (Z.gtb_lt _ _)) by lia. split; [done|]. cbn. split; [done|lia]. }
  destruct (decide (0 < releasing c)) as [Hx|]; [|left; lia].
  right. eexists LDone, _. split; [set_solver|]. cbn. unfold call_done.
  rewrite (proj2 (Z.gtb_lt _ _)) by lia. split; [done|]. case_goal; cbn; (split; [done|lia]).
Qed.

Context (limit_ok : 1 <= maxInFlight <= 1000).

Lemma inv_beginDrain s : inv s → inv (beginDrain s).
Proof.
  unfold inv, slots, active, beginDrain. intros Hi. destruct (stopping s) eqn:Hs; [by rewrite Hs|].
  unfold active. cbn. destruct (Z.eqb_spec (calling s + returned s + releasing s) 0); cbn; lia.
Qed.

Lemma inv_stopProducer s : inv s → inv (stopProducer s).
Proof. unfold inv, slots, active, stopProducer. intros Hi. destruct (stops s =? 0); cbn; lia. Qed.

Lemma inv_run l s s' : inv s → run l s = Some s' → inv s'.
Proof.
  intros Hi H. destruct l; cbn [run] in H;
    try (injection H as <-; unfold Interrupt; by auto using inv_beginDrain, inv_stopProducer);
    unfold take_slot, admission, give_back, call_returns, call_release, call_done, Close_stop in H; cbn in H; cases H;
    simplify_eq/=; try by apply inv_stopProducer.
  all: repeat case_goal; boolp; unfold inv, slots, active in *; cbn in *; lia.
Qed.

(** A stopped and idle publisher stays so. *)
Lemma stopped_run l s s' :
  inv s → stopping s = true → active s = 0 → run l s = Some s' → stopping s' = true ∧ active s' = 0.
Proof.
  intros Hi Hst Ha H. unfold inv, slots, active in *.
  destruct l; cbn [run] in H; unfold take_slot, admission, give_back, call_returns, call_release, call_done, Close_stop,
    Interrupt, beginDrain, stopProducer in H; cbn in H; rewrite ?Hst in H; cbn in H; cases H; simplify_eq/=;
    boolp; try lia; try done.
  all: repeat case_goal; cbn; done.
Qed.

Lemma inv_reach s : rtc step initial s → inv s.
Proof.
  intros Hr. eapply rtc_invariant; [|exact Hr|unfold inv, slots, active; cbn; lia].
  intros a b Ha [l Hl]. by eapply inv_run.
Qed.

(** A publisher drains.  No more publishes than the in-flight limit hold a
    slot; the drained channel is closed at most once, exactly when admission has
    stopped and no driver call is left, and then no driver call ever starts
    again, so that a successful Close stops an idle producer. *)
Theorem publisher_drains s :
  rtc step initial s →
  0 <= slots s <= maxInFlight ∧ 0 <= closes s <= 1 ∧ (closes s = 1 ↔ stopping s = true ∧ active s = 0) ∧
  ∀ s', closes s = 1 → rtc step s s' → calling s' = 0 ∧ active s' = 0 ∧ closes s' = 1.
Proof.
  intros Hr. pose proof (inv_reach s Hr) as (?&?&?&?&?&?&?&Hc1&Hc2&Hc3). unfold slots, active in *.
  assert (Hiff : closes s = 1 ↔ stopping s = true ∧ calling s + returned s + releasing s = 0).
  { split; [|by intros [? ?]; apply Hc1]. intros Hone. destruct (stopping s); [|lia]. split; [done|lia]. }
  split; [lia|]. split; [|split; [exact Hiff|]].
  - destruct (stopping s); [|lia]. destruct (decide (0 < calling s + returned s + releasing s)); [lia|].
    rewrite Hc1; [lia|done|lia].
  - intros s' Hone Hs. apply Hiff in Hone as [Hst Ha].
    assert (Hk : stopping s' = true ∧ active s' = 0).
    { assert (Hi : inv s) by (by apply inv_reach).
      assert (Hgen : ∀ t, rtc step s t → inv t ∧ stopping t = true ∧ active t = 0).
      { intros t Ht. eapply (rtc_invariant step (λ t, inv t ∧ stopping t = true ∧ active t = 0)); [|exact Ht|by split].
        intros a b (Hia&Hsa&Haa) [l Hl]. split; [by eapply inv_run|]. by eapply stopped_run. }
      by apply Hgen. }
    destruct Hk as [Hst' Ha']. pose proof (inv_reach s' ltac:(by etransitivity)) as (?&?&?&?&?&?&?&Hd&_).
    unfold active in *. split; [lia|]. split; [done|]. by apply Hd.
Qed.
End publisher.

Fixpoint run_all (n : Z) (ls : list Label) (s : State) : option State :=
  match ls with
  | [] => Some s
  | l :: ls => match run n l s with Some s' => run_all n ls s' | None => None end
  end.
Lemma run_all_reach n ls s s' : run_all n ls s = Some s' → rtc (step n) s s'.
Proof.
  revert s. induction ls as [|l ls IH]; intros s; simpl; [by intros [= ->]|].
  destruct (run n l s) as [s1|] eqn:E; [|done]. intros H. eapply rtc_l; [by exists l|by apply IH].
Qed.

(** Two publishes, one refused by the drain that waits for the other. *)
Definition ex_run : list Label :=
  [LSlot; LSlot; LAdmit false; LDrain; LAdmit false; LGiveback; LReturn; LRelease; LDone; LClose].
Definition ex_drained : State := Eval vm_compute in default initial (run_all 2 ex_run initial).
Lemma ex_drained_reached : rtc (step 2) initial ex_drained.
Proof. apply (run_all_reach 2 ex_run). vm_compute. reflexivity. Qed.

Lemma publisher_drains_witness : closes ex_drained = 1 ∧ stops ex_drained = 1 ∧ 0 <= slots ex_drained <= 2.
Proof.
  split; [reflexivity|]. split; [reflexivity|].
  exact (proj1 (publisher_drains 2 ltac:(lia) ex_drained ex_drained_reached)).
Defined.
End nsqpublisher.
