(* ===== verification/Backend.v ===== *)
(** * transport/rocketmq: configuration and receipts of the transaction client

    [transaction_backend.go] and [config.go].  The broker driver is a parameter:
    what [SendWithTransaction] returned, the RPC status and the gRPC code found
    in its error. *)

From Stdlib Require Import Ascii.
From S2P Require Import Prelude GoStd Database Message Transaction TxCodec Routing Sender.

Module backend.
Import transaction codec sender.

(** ** net.SplitHostPort and strconv.Atoi *)

Fixpoint index_byte (c : ascii) (s : string) : option nat :=
  match s with
  | EmptyString => None
  | String a s => if Ascii.eqb a c then Some O else Datatypes.S <$> index_byte c s
  end.
Fixpoint last_index (c : ascii) (s : string) : option nat :=
  match s with
  | EmptyString => None
  | String a s => match last_index c s with
                  | Some i => Some (Datatypes.S i)
                  | None => if Ascii.eqb a c then Some O else None
                  end
  end.
Definition from (n : nat) (s : string) : string := String.substring n (String.length s - n) s.
Definition upto (n : nat) (s : string) : string := String.substring 0 n s.
Definition has (c : ascii) (s : string) : bool := match index_byte c s with Some _ => true | None => false end.

Definition SplitHostPort (hostport : string) : option (string * string) :=
  i ← last_index ":" hostport;
  let finish j k host :=
    if has "[" (from j hostport) || has "]" (from k hostport) then None
    else Some (host, from (Datatypes.S i) hostport) in
  match hostport with
  | String "[" _ =>
    e ← index_byte "]" hostport;
    if (Datatypes.S e =? i)%nat then finish 1%nat (Datatypes.S e) (String.substring 1 (e - 1) hostport) else None
  | _ => let host := upto i hostport in if has ":" host then None else finish 0%nat 0%nat host
  end.

Definition max_int64 : Z := 9223372036854775807.
Definition Atoi (s : string) : option Z :=
  let '(sign, digits) := match s with
                         | String "+" d => (1, d)
                         | String "-" d => (-1, d)
                         | _ => (1, s)
                         end in
  if digits == ""%string then None
  else n ← dec_value 0 digits;
       let v := sign * n in
       if (v <=? max_int64) && (- max_int64 - 1 <=? v) then Some v else None.

Example split_examples :
  map SplitHostPort ["broker:8081"; "[::1]:80"; "::1:80"; "host"; "[::1]"; "a:b:1"; ":9"; "h[:1"]%string =
  [Some ("broker", "8081"); Some ("::1", "80"); None; None; None; None; Some ("", "9"); None]%string.
Proof. vm_compute. reflexivity. Qed.

(** ** Configuration *)

(** [TLS]: [None] is nil; the flag is InsecureSkipVerify. *)
Record TransactionConfig : Type := mkTxConfig {
  tc_TLS : option bool; tc_Endpoint : string; tc_AccessKey : string; tc_SecretKey : string; tc_Owner : string;
  tc_Routes : list TransactionRoute; tc_HistoricalRoutes : list TransactionRoute; tc_Limits : Limits
}.
Definition zeroLimits : Limits := mkLimits 0 0 0 0 0 0 0 0 0.
#[global] Instance Limits_eq_dec : EqDecision Limits.
Proof. solve_decision. Defined.

Definition endpoint_ok (endpoint : string) : bool :=
  match SplitHostPort endpoint with
  | Some (host, port) =>
    (host != ""%string) && match Atoi port with Some n => (1 <=? n) && (n <=? 65535) | None => false end
  | None => false
  end.

(** One route against those before it. *)
Definition check_route (owner : string) (seen : gset string * gset (string * string)) (r : TransactionRoute)
    : result (gset string * gset (string * string)) :=
  match routing.ExpectedPhysicalTopic (LogicalTopic_ r) routing.TransactionMessageType owner (Revision_ r) (NamingScheme_ r) with
  | Err _ => Err ErrBinding
  | Ok expected =>
    if PhysicalTopic_ r != expected then Err ErrBinding
    else if (LogicalTopic_ r == ""%string) || (PhysicalTopic_ r == ""%string) || (Revision_ r == ""%string) ||
            bool_decide (PhysicalTopic_ r ∈ seen.1) || bool_decide ((LogicalTopic_ r, Revision_ r) ∈ seen.2)
    then Err ErrBinding
    else Ok ({[PhysicalTopic_ r]} ∪ seen.1, {[(LogicalTopic_ r, Revision_ r)]} ∪ seen.2)
  end.

Definition binding_row (owner : string) (r : TransactionRoute) : routing.RouteBinding :=
  routing.mkRoute (LogicalTopic_ r) "" (PhysicalTopic_ r) "" routing.TransactionMessageType owner (Revision_ r) (NamingScheme_ r).

(** [store] is the owner the store is bound to. *)
Definition validateTransactionConfig (c : TransactionConfig) (store : string) : result TransactionConfig :=
  if negb (endpoint_ok (tc_Endpoint c)) then Err ErrBinding
  else
    let limits := if tc_Limits c == zeroLimits then DefaultLimits else tc_Limits c in
    if negb (limits_Valid limits) || (tc_Owner c == ""%string) || (store != tc_Owner c) || (tc_AccessKey c == ""%string) ||
       (tc_SecretKey c == ""%string) || (llen (tc_Routes c) =? 0) || (llen (tc_Routes c) >? 256)
    then Err ErrBinding
    else if match tc_TLS c with Some insecure => insecure | None => false end
    then Err (ErrMsg "transaction client requires verified TLS")
    else
      try _ <- rfold (check_route (tc_Owner c)) (tc_Routes c) (∅, ∅);
      if llen (tc_HistoricalRoutes c) >? 256 then Err ErrBinding
      else match routing.NewRouteResolver (map (binding_row (tc_Owner c)) (tc_Routes c))
                   (map (binding_row (tc_Owner c)) (tc_HistoricalRoutes c)) with
           | Err _ => Err ErrBinding
           | Ok _ => Ok (mkTxConfig (Some false) (tc_Endpoint c) (tc_AccessKey c) (tc_SecretKey c) (tc_Owner c)
                          (tc_Routes c) (tc_HistoricalRoutes c) limits)
           end.

(** [config.go] of the ordinary client. *)
Record Config : Type := mkCfg {
  cf_TLS : option bool; cf_Endpoint : string; cf_AccessKey : string; cf_SecretKey : string;
  cf_Routes : list routing.RouteBinding; cf_HistoricalRoutes : list routing.RouteBinding;
  cf_RequestTimeout : Z; cf_MaxInFlight : Z
}.
Definition validate (c : Config) : result Config :=
  match SplitHostPort (cf_Endpoint c) with
  | None => Err (ErrMsg "RocketMQ host:port endpoint required")
  | Some _ =>
    if (cf_AccessKey c == ""%string) || (cf_SecretKey c == ""%string) || (cf_RequestTimeout c <=? 0) ||
       (cf_MaxInFlight c <? 1) || (cf_MaxInFlight c >? 1000)
    then Err (ErrMsg "credentials, bounded timeout and in-flight limit required")
    else
      try _ <- routing.NewRouteResolver (cf_Routes c) (cf_HistoricalRoutes c);
      Ok (mkCfg (Some (default false (cf_TLS c))) (cf_Endpoint c) (cf_AccessKey c) (cf_SecretKey c) (cf_Routes c)
            (cf_HistoricalRoutes c) (cf_RequestTimeout c) (cf_MaxInFlight c))
  end.

(** ** Half messages *)

Section driver.
Context (rpc_status grpc_code : error → option Z).

Definition codes_PermissionDenied : Z := 7.
Definition codes_Unauthenticated : Z := 16.

Definition rejectedHalfCode (err : option error) : string :=
  match err with
  | None => ""
  | Some e =>
    let status := rpc_status e in
    if match status with
       | Some c => ((40000 <=? c) && (c <? 40600)) || ((41300 <=? c) && (c <? 41400))
       | None => false end
    then "half_rejected_" +:+ FormatUint (default 0 status)
    else if grpc_code e == Some codes_PermissionDenied then "half_rejected_grpc_permission_denied"
    else if grpc_code e == Some codes_Unauthenticated then "half_rejected_grpc_unauthenticated"
    else ""
  end.

(** What the broker is sent: topic, key, property and body. *)
Record HalfMessage : Type := mkHalfMessage { hm_Topic : string; hm_Keys : string; hm_Reference : bytes; hm_Body : bytes }.

(** [send] is SendWithTransaction: the receipts (a missing one is nil) and the
    error; the boolean of the answer says whether there is a handle. *)
Definition Prepare (send : HalfMessage → list (option (string * string)) * option error) (ref : Reference) (wire : bytes)
    : HalfReceipt * bool * option error :=
  match EncodeReference ref with
  | Err e => (mkHalf "" "" "" "", false, Some e)
  | Ok raw =>
    let '(receipts, err) := send (mkHalfMessage (transaction.PhysicalTopic ref) (MessageID ref) raw wire) in
    let code := rejectedHalfCode err in
    let h := if code != ""%string then mkHalf HalfRejected "" "" code else mkHalf HalfUnknown "" "" "half_unknown" in
    match err, receipts with
    | None, [Some (id, tx)] =>
      if (id != ""%string) && (tx != ""%string) then (mkHalf HalfPrepared id tx "", true, None)
      else (h, false, Some (ErrMsg "transaction half receipt missing identity"))
    | None, _ => (h, false, Some (ErrMsg "transaction half receipt missing identity"))
    | Some e, _ => (h, false, Some e)
    end
  end.

(** [driverTransactionHandle.Finalize] over the driver's commit and rollback. *)
Definition Finalize (commit rollback : option error) (d : Decision) : option error :=
  if d == Commit then commit else if d == Rollback then rollback else Some ErrInvalidPlan.

(** ** Theorems *)

(** Preparing classifies conservatively.  A half message is reported prepared,
    with a handle to finalize it, exactly when the driver returned no error and a
    single receipt with both broker identities; it is reported rejected only when
    the error carries a code of the reviewed rejection ranges; everything else is
    unknown.  The message carries the encoded reference of its own branch. *)
Theorem prepare_classifies send ref wire h handle err :
  Prepare send ref wire = (h, handle, err) →
  (handle = true ↔ err = None) ∧
  (handle = true → ∃ raw id tx, EncodeReference ref = Ok raw ∧
     send (mkHalfMessage (transaction.PhysicalTopic ref) (MessageID ref) raw wire) = ([Some (id, tx)], None) ∧
     id ≠ ""%string ∧ tx ≠ ""%string ∧ h = mkHalf HalfPrepared id tx "") ∧
  (h_Outcome h = HalfPrepared → handle = true) ∧
  (h_Outcome h = HalfRejected → ∃ e, err = Some e ∧ rejectedHalfCode err = h_ErrorCode h ∧ h_ErrorCode h ≠ ""%string).
Proof.
  unfold Prepare. destruct (EncodeReference ref) as [raw|e]; [|by intros [= <- <- <-]; split_and!].
  destruct (send _) as [receipts serr] eqn:Hs.
  set (h0 := if rejectedHalfCode serr != ""%string then _ else _).
  assert (H0 : h_Outcome h0 ≠ HalfPrepared) by (subst h0; by destruct (negb _)).
  assert (Hrej : h_Outcome h0 = HalfRejected → rejectedHalfCode serr = h_ErrorCode h0 ∧ h_ErrorCode h0 ≠ ""%string).
  { subst h0. destruct (negb _) eqn:Hc; [|done]. boolp. done. }
  assert (Hbad : ∀ x, (serr = None → h_Outcome h0 = HalfUnknown) → (serr = None ∨ serr = Some x) →
    (h0, false, Some x) = (h, handle, err) →
    (handle = true ↔ err = None) ∧ (handle = true → False) ∧ (h_Outcome h = HalfPrepared → handle = true) ∧
    (h_Outcome h = HalfRejected → ∃ e, err = Some e ∧ rejectedHalfCode err = h_ErrorCode h ∧ h_ErrorCode h ≠ ""%string)).
  { intros x Hn Hx [= <- <- <-]. split; [done|]. split; [done|]. split; [done|]. intros Hr.
    destruct Hx as [->| ->]; [|by exists x; split; [|apply Hrej]]. rewrite Hn in Hr by done. done. }
  assert (Hnone : serr = None → h_Outcome h0 = HalfUnknown) by (subst h0; by intros ->).
  assert (Hweak : ∀ P : Prop, (handle = true → False) → handle = true → P) by (intros P H1 H2; by destruct H1).
  destruct serr as [x|].
  { intros H. destruct (Hbad x Hnone (or_intror eq_refl) H) as (?&?&?&?). split_and!; try done; by apply Hweak. }
  destruct receipts as [|[[id tx]|] [|]].
  all: try (intros H; destruct (Hbad _ Hnone (or_introl eq_refl) H) as (?&?&?&?); split_and!; try done; by apply Hweak).
  destruct (_ && _) eqn:Hid.
  - intros [= <- <- <-]. boolp. split; [done|]. split; [|split; [done|done]]. intros _. by exists raw, id, tx.
  - intros H. destruct (Hbad _ Hnone (or_introl eq_refl) H) as (?&?&?&?). split_and!; try done; by apply Hweak.
Qed.
End driver.

(** ** Accepted configurations *)

Lemma routes_of_app l r : routes_of (l ++ [r]) = <[PhysicalTopic_ r := r]> (routes_of l).
Proof. unfold routes_of. by rewrite foldl_app. Qed.

Lemma routes_of_lookup l r : NoDup (PhysicalTopic_ <$> l) → r ∈ l → routes_of l !! PhysicalTopic_ r = Some r.
Proof.
  induction l as [|x l IH] using rev_ind; [by intros _ H; inversion H|]. rewrite fmap_app, routes_of_app.
  intros [Hnd [Hni _]]%NoDup_app [Hin| ->%list_elem_of_singleton]%elem_of_app; [|apply lookup_insert_eq].
  rewrite lookup_insert_ne; [by apply IH|]. intros He. eapply Hni; [by apply list_elem_of_fmap_2|].
  rewrite <- He. apply list_elem_of_here.
Qed.

(** The routes checked so far. *)
Definition checked (owner : string) (done : list TransactionRoute) (seen : gset string * gset (string * string)) : Prop :=
  NoDup (PhysicalTopic_ <$> done) ∧ (∀ r, r ∈ done → PhysicalTopic_ r ∈ seen.1) ∧
  Forall (λ r, routing.ExpectedPhysicalTopic (LogicalTopic_ r) routing.TransactionMessageType owner (Revision_ r)
                 (NamingScheme_ r) = Ok (PhysicalTopic_ r)) done.

Lemma check_route_checked owner done r seen seen' :
  checked owner done seen → check_route owner seen r = Ok seen' → checked owner (done ++ [r]) seen'.
Proof.
  intros (Hnd&Hin&Hex). unfold check_route. destruct (routing.ExpectedPhysicalTopic _ _ _ _ _) as [expected|] eqn:He; [|done].
  destruct (_ != _) eqn:Hp; [done|]. destruct (_ || _) eqn:Hg; [done|]. boolp. subst expected. intros [= <-].
  split; [|split].
  - rewrite fmap_app. apply NoDup_app. split; [done|]. split; [|apply NoDup_singleton].
    intros t (x&->&Hx)%list_elem_of_fmap Ht%list_elem_of_singleton. apply Hin in Hx. congruence.
  - intros x [Hx| ->%list_elem_of_singleton]%elem_of_app; cbn; [apply elem_of_union_r; auto|apply elem_of_union_l; by apply elem_of_singleton].
  - apply Forall_app. split; [done|]. by apply Forall_singleton.
Qed.

(** An accepted transaction configuration is usable and safe.  Its limits are
    valid, TLS verification is on, the store is bound to the same owner, every
    route names the physical topic its identity prescribes, and the sender's
    table of routes by physical topic loses none of them. *)
Theorem transaction_config_accepted c store c' :
  validateTransactionConfig c store = Ok c' →
  limits_Valid (tc_Limits c') = true ∧ tc_TLS c' = Some false ∧ store = tc_Owner c' ∧ tc_Owner c' ≠ ""%string ∧
  endpoint_ok (tc_Endpoint c') = true ∧ tc_Routes c' = tc_Routes c ∧ 0 < llen (tc_Routes c') <= 256 ∧
  Forall (λ r, routing.ExpectedPhysicalTopic (LogicalTopic_ r) routing.TransactionMessageType (tc_Owner c') (Revision_ r)
                 (NamingScheme_ r) = Ok (PhysicalTopic_ r) ∧
               routes_of (tc_Routes c') !! PhysicalTopic_ r = Some r) (tc_Routes c').
Proof.
  unfold validateTransactionConfig. destruct (endpoint_ok (tc_Endpoint c)) eqn:Hep; [|done]. cbn [negb].
  destruct (_ || _) eqn:Hg; [done|]. destruct (match tc_TLS c with Some i => i | None => false end); [done|].
  intros (seen&Hs&H)%rbind_Ok. revert H. destruct (llen (tc_HistoricalRoutes c) >? 256); [done|].
  destruct (routing.NewRouteResolver _ _); [|done]. intros [= <-]. cbn [tc_Limits tc_TLS tc_Owner tc_Endpoint tc_Routes].
  assert (Hch : checked (tc_Owner c) (tc_Routes c) seen).
  { apply (rfold_invariant (check_route (tc_Owner c)) (checked (tc_Owner c)) _ _ _ (check_route_checked (tc_Owner c)) Hs []).
    split; [constructor|]. split; [by intros r Hr; inversion Hr|constructor]. }
  boolp. split; [assumption|]. split; [reflexivity|]. split; [assumption|]. split; [assumption|]. split; [assumption|].
  split; [reflexivity|]. split; [unfold llen in *; lia|]. destruct Hch as (Hnd&_&Hex).
  rewrite Forall_forall in *. intros r Hr. split; [by apply Hex|by apply routes_of_lookup].
Qed.

Definition ex_route : TransactionRoute :=
  match routing.ExpectedPhysicalTopic "qs.evaluation.failed" routing.TransactionMessageType "qs.mysql" "r1" routing.ReadableNamingV1 with
  | Ok t => mkTxRoute "qs.evaluation.failed" t "r1" routing.ReadableNamingV1
  | Err _ => mkTxRoute "" "" "" ""
  end.
Definition ex_config : TransactionConfig := mkTxConfig None "broker:8081" "key" "secret" "qs.mysql" [ex_route] [] zeroLimits.
Lemma ex_config_ok : ∃ c, validateTransactionConfig ex_config "qs.mysql" = Ok c ∧ tc_Limits c = DefaultLimits.
Proof. eexists. split; vm_compute; reflexivity. Qed.

Lemma transaction_config_accepted_witness :
  ∃ c, validateTransactionConfig ex_config "qs.mysql" = Ok c ∧ limits_Valid (tc_Limits c) = true ∧ tc_TLS c = Some false.
Proof.
  destruct ex_config_ok as (c&Hc&_). exists c. split; [exact Hc|].
  destruct (transaction_config_accepted ex_config "qs.mysql" c Hc) as (H1&H2&_). exact (conj H1 H2).
Defined.

Definition ex_send (_ : HalfMessage) : list (option (string * string)) * option error := ([Some ("m", "t")]%string, None).
Lemma ex_prepared :
  Prepare (λ _, None) (λ _, None) ex_send vector_reference "wire" = (mkHalf HalfPrepared "m" "t" "", true, None).
Proof. vm_compute. reflexivity. Qed.
Lemma prepare_classifies_witness : h_Outcome (mkHalf HalfPrepared "m" "t" "") = HalfPrepared → true = true.
Proof. exact (proj1 (proj2 (proj2 (prepare_classifies (λ _, None) (λ _, None) ex_send vector_reference "wire" _ _ _ ex_prepared)))). Defined.

End backend.
