(* ===== verification/RocketMQ.v ===== *)
(** * transport/rocketmq: ordinary deliveries and publishing

    [subscriber.go]: one delivery ([rocketdelivery]), the receive loops and the
    shutdown of a subscriber ([rocketsubscriber]); [publisher.go]: classification,
    admission and shutdown ([rocketpublisher]).  The driver and the host's handler
    and failure callback are environment choices; goroutines and contexts are
    steps of a transition system. *)

From Stdlib Require Import ZifyBool.
From S2P Require Import Prelude GoStd Database Message Json Routing Wire Relay Nsq Transaction TxCodec Sender Backend.

(** ** One delivery *)

Module rocketdelivery.
Import legacy.

Definition second : Z := 1000000000.
Definition hour : Z := 3600 * second.

Record SubscriberConfig : Type := mkSubscriberConfig {
  sc_Config : backend.Config; sc_MaxAttempts : Z; sc_InvisibleDuration : Z; sc_HandlerTimeout : Z; sc_RetryDelay : Z
}.

Definition NewSubscriber (config : SubscriberConfig) : result SubscriberConfig :=
  try c <- backend.validate (sc_Config config);
  if (sc_MaxAttempts config =? 0) || (sc_InvisibleDuration config <? 10 * second) ||
     (sc_InvisibleDuration config >? 12 * hour) || (sc_HandlerTimeout config <=? 0) ||
     (sc_RetryDelay config <=? 0) || (sc_RetryDelay config >? 12 * hour)
  then Err (ErrMsg "bounded attempts, visibility, handler timeout and retry delay required")
  else Ok (mkSubscriberConfig c (sc_MaxAttempts config) (sc_InvisibleDuration config) (sc_HandlerTimeout config)
             (sc_RetryDelay config)).

(** [subscriptionRoutes]: the rows by physical topic, and the first one. *)
Fixpoint collect_routes (topic subscription : string) (rows : list routing.RouteBinding)
    (routes : gmap string routing.RouteBinding) (first : option routing.RouteBinding)
    : result (gmap string routing.RouteBinding * option routing.RouteBinding) :=
  match rows with
  | [] => Ok (routes, first)
  | r :: rows =>
    if (routing.Topic r != topic) || (routing.Subscription r != subscription) || (routing.Group r == ""%string)
    then collect_routes topic subscription rows routes first
    else match first with
         | Some f => if routing.Group r != routing.Group f
                     then Err (ErrMsg "logical subscription mixes incompatible consumer group versions")
                     else collect_routes topic subscription rows (<[routing.PhysTopic r := r]> routes) first
         | None => collect_routes topic subscription rows (<[routing.PhysTopic r := r]> routes) (Some r)
         end
  end.
Definition subscriptionRoutes (rows : list routing.RouteBinding) (topic subscription : string)
    : result (gmap string routing.RouteBinding * routing.RouteBinding) :=
  try found <- collect_routes topic subscription rows ∅ None;
  match found.2 with
  | None => Err (ErrMsg "subscription not in trusted route manifest")
  | Some first => Ok (found.1, first)
  end.

(** A message view of the driver and what the handler is given. *)
Record View : Type := mkView {
  v_Topic : string; v_Body : bytes; v_MessageId : string; v_Attempt : Z; v_Born : option Z
}.
Record Received : Type := mkReceived {
  Provider : string; PhysicalTopic : string; rcv_Wire : bytes; rcv_ID : string; TransportID : string;
  rcv_Topic : string; rcv_Channel : string; rcv_Metadata : gmap string string; rcv_Payload : bytes;
  Attempts : Z; rcv_Timestamp : Z
}.

Definition clamp_attempt (attempt : Z) : Z := Z.min 65535 (Z.max 1 attempt).

(** The first part of [handle]: the delivery and its decode error. *)
Definition receive (route : routing.RouteBinding) (m : View) : Received * option error :=
  let received id metadata payload :=
    mkReceived "rocketmq" (v_Topic m) (v_Body m) id (v_MessageId m) (routing.Topic route) (routing.Subscription route)
      metadata payload (clamp_attempt (v_Attempt m)) (default 0 (v_Born m)) in
  if v_Topic m != routing.PhysTopic route
  then (received ""%string ∅ (v_Body m), Some (ErrMsg "received physical topic differs from trusted subscription"))
  else
    let '(envelope, recognized, err) := Decode (v_Body m) in
    match recognized, err with
    | true, None => (received (UUID envelope) (Metadata envelope) (Payload envelope), None)
    | _, _ => (received ""%string ∅ (v_Body m), err)
    end.

(** What the host and the broker see of the delivery. *)
Inductive Event : Type :=
| EHandler
| EReturned (err : option error)
| EAudit (cause : string)
| EAudited (err : option error)
| EPanic
| EHostAck
| EHostNack
| BAck (ok : bool)
| BRetry (ok : bool)
| BRenew (ok : bool).

(** [dispatch]: in the handler, in the failure callback, or with its result sent. *)
Inductive Task : Type := Working | Auditing | Finished (err : option error).
(** [handle]: in its loop, waiting for the host after its deadline, or gone. *)
Inductive Loop : Type := Looping | Draining | Gone.

Record Delivery : Type := mkDelivery {
  task : Task; loop : Loop; ctxDone : bool; settled : bool; given : bool; log : list Event
}.

Definition with_task (t : Task) (d : Delivery) : Delivery := mkDelivery t (loop d) (ctxDone d) (settled d) (given d) (log d).
Definition with_loop (l : Loop) (d : Delivery) : Delivery := mkDelivery (task d) l (ctxDone d) (settled d) (given d) (log d).
Definition with_done (d : Delivery) : Delivery := mkDelivery (task d) (loop d) true (settled d) (given d) (log d).
Definition with_settled (b : bool) (d : Delivery) : Delivery := mkDelivery (task d) (loop d) (ctxDone d) b (given d) (log d).
Definition emit (e : Event) (d : Delivery) : Delivery :=
  mkDelivery (task d) (loop d) (ctxDone d) (settled d) (given d) (log d ++ [e]).

(** [delivery.Ack] and [delivery.Nack]; [ok] is the answer of the broker. *)
Definition Ack (ok : bool) (d : Delivery) : Delivery :=
  if settled d then d else with_settled ok (emit (BAck ok) d).
Definition Nack (ok : bool) (d : Delivery) : Delivery :=
  if settled d then d else with_settled ok (emit (BRetry ok) d).

Section handle.
Context (MaxAttempts : Z) (attempts : Z) (decodeErr : option error).

Definition audit (cause : string) (d : Delivery) : Delivery := with_task Auditing (emit (EAudit cause) d).

(** [dispatch] after the handler or instead of it. *)
Definition conclude (err : option error) (d : Delivery) : Delivery :=
  match err with
  | Some _ =>
    if (attempts >=? MaxAttempts) && negb (settled d)
    then audit (match decodeErr with Some _ => "invalid envelope or physical source" | None => "handler failed at delivery limit" end) d
    else with_task (Finished err) d
  | None => with_task (Finished None) d
  end.

(** [dispatch] up to the first call of the host's code. *)
Definition start : Delivery :=
  let d := mkDelivery Working Looping false false false [] in
  if attempts >? MaxAttempts then audit "delivery attempts exhausted" d
  else match decodeErr with
       | Some _ => conclude decodeErr d
       | None => mkDelivery Working Looping false false true [EHandler]
       end.

Inductive Label : Type :=
| LHostAck (ok : bool) | LHostNack (ok : bool)
| LReturn (err : option error) | LAudited (err : option error) | LPanic
| LTick (ok : bool) | LExpire | LSettle (ok : bool) | LDone | LDrained.

Definition run (l : Label) (d : Delivery) : option Delivery :=
  match l with
  | LHostAck ok => if given d then Some (Ack ok (emit EHostAck d)) else None
  | LHostNack ok => if given d then Some (Nack ok (emit EHostNack d)) else None
  | LReturn err => match task d with Working => Some (conclude err (emit (EReturned err) d)) | _ => None end
  | LAudited err => match task d with Auditing => Some (with_task (Finished err) (emit (EAudited err) d)) | _ => None end
  | LPanic => match task d with
              | Finished _ => None
              | _ => Some (with_task (Finished (Some (ErrMsg "handler or failure audit panic"))) (emit EPanic d))
              end
  | LTick ok => match loop d with
                | Looping => if settled d || ctxDone d then Some d
                             else let d := emit (BRenew ok) d in Some (if ok then d else with_done d)
                | _ => None
                end
  | LExpire => Some (with_done d)
  | LSettle ok => match loop d, task d with
                  | Looping, Finished err =>
                    Some (with_loop Gone (match err with None => Ack ok d | Some _ => Nack ok d end))
                  | _, _ => None
                  end
  | LDone => match loop d with Looping => if ctxDone d then Some (with_loop Draining d) else None | _ => None end
  | LDrained => match loop d, task d with Draining, Finished _ => Some (with_loop Gone d) | _, _ => None end
  end.
Definition step (d d' : Delivery) : Prop := ∃ l, run l d = Some d'.

(** ** What a delivery may do *)

(** The broker was answered for good. *)
Definition success (e : Event) : Prop := e = BAck true ∨ e = BRetry true.
Definition broker (e : Event) : Prop := match e with BAck _ | BRetry _ | BRenew _ => True | _ => False end.
(** The host took responsibility for the message. *)
Definition warranted (l : list Event) : Prop := EHostAck ∈ l ∨ EReturned None ∈ l ∨ EAudited None ∈ l.

(** Acknowledged only when warranted; nothing is sent after a settlement. *)
Definition lawful (l : list Event) : Prop :=
  ∀ pre e post, l = pre ++ e :: post →
    (e = BAck true → warranted pre) ∧ (success e → Forall (λ x, ¬ broker x) post).

Lemma lawful_nil : lawful [].
Proof. intros pre e post H. by destruct pre. Qed.

Lemma lawful_snoc l e :
  lawful l → (e = BAck true → warranted l) → (broker e → Forall (λ x, ¬ success x) l) → lawful (l ++ [e]).
Proof.
  intros Hl Hw Hb pre x post Heq. destruct post as [|y post _] using rev_ind.
  { apply app_inj_tail in Heq as [-> ->]. split; [done|]. intros _. constructor. }
  rewrite app_comm_cons, app_assoc in Heq. apply app_inj_tail in Heq as [-> ->].
  destruct (Hl _ _ _ eq_refl) as [Hw' Hp]. split; [done|]. intros Hs. apply Forall_app. split; [by apply Hp|].
  constructor; [|constructor]. intros Hbr. apply Hb in Hbr. rewrite Forall_app, Forall_cons in Hbr. by destruct Hbr as (_&?&_).
Qed.

Lemma lawful_host l e : lawful l → ¬ broker e → lawful (l ++ [e]).
Proof. intros Hl He. apply lawful_snoc; [done|by intros ->|done]. Qed.

Definition inv (d : Delivery) : Prop :=
  lawful (log d) ∧ (settled d = false → Forall (λ x, ¬ success x) (log d)) ∧
  (task d = Finished None → EReturned None ∈ log d ∨ EAudited None ∈ log d) ∧
  (loop d = Gone → ∃ err, task d = Finished err) ∧
  (given d = false → task d ≠ Working ∧ EHostAck ∉ log d ∧ EReturned None ∉ log d) ∧
  (∀ c, EAudit c ∈ log d → MaxAttempts <= attempts).

(** Adding an event that is none of those the invariant speaks of. *)
Lemma inv_emit e d :
  inv d → ¬ broker e → (given d = false → e ≠ EHostAck ∧ e ≠ EReturned None) →
  (∀ c, e = EAudit c → MaxAttempts <= attempts) → inv (emit e d).
Proof.
  intros (Hl&Hs&Ht&Hg&Hn&Ha) Hb Hfresh Hlim. unfold inv, emit; cbn. split; [by apply lawful_host|].
  split; [intros ?; apply Forall_app; split; [by apply Hs|]; constructor; [|constructor]; intros [-> | ->]; by apply Hb|].
  split; [intros ?; rewrite !elem_of_app; destruct (Ht ltac:(done)); auto|]. split; [done|]. split.
  - intros Hgf. destruct (Hn Hgf) as (?&?&?), (Hfresh Hgf). split; [done|].
    rewrite !elem_of_app, !list_elem_of_singleton. naive_solver.
  - intros c [?|Hc%list_elem_of_singleton]%elem_of_app; [by eapply Ha|]. by eapply Hlim.
Qed.

(** A request to the broker, of a delivery not settled before. *)
Lemma inv_answer e b d :
  inv d → broker e → settled d = false → (success e → b = true) → (e = BAck true → warranted (log d)) →
  inv (with_settled b (emit e d)).
Proof.
  intros (Hl&Hs&Ht&Hg&Hn&Ha) Hb Hns Hok Hw. specialize (Hs Hns). unfold inv, with_settled, emit; cbn.
  split; [by apply lawful_snoc|]. split.
  { intros ->. apply Forall_app. split; [done|]. constructor; [|constructor]. intros ?. by discriminate (Hok ltac:(done)). }
  split; [intros ?; rewrite !elem_of_app; destruct (Ht ltac:(done)); auto|]. split; [done|]. split.
  - intros Hgf. destruct (Hn Hgf) as (?&?&?). split; [done|]. rewrite !elem_of_app, !list_elem_of_singleton.
    destruct e; naive_solver.
  - intros c [?|Hc%list_elem_of_singleton]%elem_of_app; [by eapply Ha|]. by subst e.
Qed.

Lemma inv_Ack ok d : inv d → (ok = true → warranted (log d)) → inv (Ack ok d).
Proof.
  intros Hi Hw. unfold Ack. destruct (settled d) eqn:Hs; [done|]. apply inv_answer; try done.
  - by intros [[= ->]|?].
  - by intros [= ->]; apply Hw.
Qed.
Lemma inv_Nack ok d : inv d → inv (Nack ok d).
Proof.
  intros Hi. unfold Nack. destruct (settled d) eqn:Hs; [done|]. apply inv_answer; try done. by intros [?|[= ->]].
Qed.

Lemma inv_with_task t d :
  inv d → (t = Finished None → EReturned None ∈ log d ∨ EAudited None ∈ log d) →
  (loop d = Gone → ∃ err, t = Finished err) → t ≠ Working → inv (with_task t d).
Proof.
  intros (Hl&Hs&Ht&Hg&Hn&Ha) Ht' Hg' Hw. unfold inv; cbn. repeat (split; [done|]). split; [|done].
  intros Hgf. by destruct (Hn Hgf).
Qed.
Lemma inv_with_loop l d : inv d → (l = Gone → ∃ err, task d = Finished err) → inv (with_loop l d).
Proof. intros (Hl&Hs&Ht&Hg&Hn&Ha) Hg'. by repeat (split; [done|]). Qed.
Lemma inv_with_done d : inv d → inv (with_done d).
Proof. done. Qed.

Lemma inv_audit c d : inv d → MaxAttempts <= attempts → loop d ≠ Gone → inv (audit c d).
Proof. intros Hi Hlim Hg. unfold audit. apply inv_with_task; [apply inv_emit; [done|by intros []|naive_solver|done]|done|done|done]. Qed.

Lemma inv_conclude err d :
  inv d → loop d ≠ Gone → (err = None → EReturned None ∈ log d) → inv (conclude err d).
Proof.
  intros Hi Hg Hr. unfold conclude. destruct err as [e|].
  - destruct (_ && _) eqn:Hlim; [apply inv_audit; [done|lia|done]|]. by apply inv_with_task.
  - apply inv_with_task; [done|by left; apply Hr|by intros ?; eexists|done].
Qed.

Lemma inv_start : inv start.
Proof.
  assert (H0 : ∀ l, (∀ e, e ∈ l → e = EHandler) → ∀ t g, (t = Finished None → False) → (g = false → t ≠ Working) →
    inv (mkDelivery t Looping false false g l)).
  { intros l Hl t g Ht Hg. unfold inv; cbn. split.
    { intros pre e post ->. assert (He : e = EHandler) by (apply Hl, elem_of_app; right; apply list_elem_of_here).
      subst. split; [done|]. by intros [?|?]. }
    split; [intros _; apply Forall_forall; intros e He%Hl [?|?]; congruence|]. split; [done|]. split; [done|].
    split; [|by intros c Hc%Hl]. intros Hgf. split; [by apply Hg|]. split; by intros ?%Hl. }
  unfold start. destruct (Z.gtb_spec attempts MaxAttempts).
  { unfold audit, with_task, emit. cbn. unfold inv; cbn. split.
    { intros pre e post Heq. apply (f_equal length) in Heq as Hlen. rewrite length_app in Hlen. cbn in Hlen.
      destruct pre, post; cbn in Hlen; try lia. injection Heq as <-. split; [done|]. by intros [?|?]. }
    split; [intros _; repeat constructor; by intros [?|?]|]. split; [done|]. split; [done|].
    split; [|lia]. intros _. rewrite !list_elem_of_singleton. done. }
  destruct decodeErr as [e|] eqn:Hd.
  - assert (Hi : ∀ t, t ≠ Working → t ≠ Finished None → inv (mkDelivery t Looping false false false [])).
    { intros t ? ?. apply H0; [by intros e' He'; inversion He'|done|done]. }
    unfold conclude. cbn. destruct (_ && _) eqn:Hlim; [|by apply Hi].
    apply (inv_audit _ (mkDelivery Auditing Looping false false false [])); [by apply Hi|lia|done].
  - apply H0; [|done|done]. intros e' He'%list_elem_of_singleton. done.
Qed.

Lemma inv_delivery_run l d d' : inv d → run l d = Some d' → inv d'.
Proof.
  intros Hi H. destruct l; cbn [run] in H.
  - destruct (given d) eqn:Hg; [|done]. injection H as <-. apply inv_Ack; [apply inv_emit; [done|by intros []|congruence|by intros c [=]]|].
    intros _. left. cbn. apply elem_of_app. right. by apply list_elem_of_singleton.
  - destruct (given d) eqn:Hg; [|done]. injection H as <-. apply inv_Nack, inv_emit; [done|by intros []|congruence|by intros c [=]].
  - destruct (task d) eqn:Ht; try done. injection H as <-.
    assert (Hgv : given d = true) by (destruct (given d) eqn:Hg; [done|]; destruct Hi as (_&_&_&_&Hn&_); by destruct (Hn Hg)).
    apply inv_conclude; [apply inv_emit; [done|by intros []|congruence|by intros c [=]]| |].
    + cbn. intros Hg. destruct Hi as (_&_&_&Hgone&_). destruct (Hgone Hg). congruence.
    + intros ->. cbn. apply elem_of_app. right. by apply list_elem_of_singleton.
  - destruct (task d) eqn:Ht; try done. injection H as <-. apply inv_with_task; [apply inv_emit; [done|by intros []|by intros _; split; intros [=]|by intros c [=]]| |by intros ?; eexists|done].
    intros [= ->]. right. cbn. apply elem_of_app. right. by apply list_elem_of_singleton.
  - destruct (task d) eqn:Ht; try done; injection H as <-; (apply inv_with_task; [apply inv_emit; [done|by intros []|by intros _; split; intros [=]|by intros c [=]]|done|by intros ?; eexists|done]).
  - destruct (loop d) eqn:Hl; try done. destruct (settled d) eqn:Hs; [by injection H as <-|].
    destruct (ctxDone d) eqn:Hc; [by injection H as <-|]. cbn in H. injection H as <-.
    assert (Hr : inv (emit (BRenew ok) d)).
    { pose proof (inv_answer (BRenew ok) false d Hi I Hs) as Ha. unfold with_settled, emit in *. cbn in Ha. rewrite Hs. apply Ha; [|done].
      by intros [?|?]. }
    destruct ok; [done|by apply inv_with_done].
  - by injection H as <-.
  - destruct (loop d) eqn:Hl; try done. destruct (task d) as [| |err] eqn:Ht; try done. injection H as <-.
    apply inv_with_loop; [|intros _; exists err; destruct err; cbn; unfold Ack, Nack; destruct (settled d); done].
    destruct err as [e|]; [by apply inv_Nack|]. apply inv_Ack; [done|]. intros _. right.
    destruct Hi as (_&_&Hf&_). by apply Hf.
  - destruct (loop d) eqn:Hl; try done. destruct (ctxDone d); [|done]. injection H as <-. by apply inv_with_loop.
  - destruct (loop d) eqn:Hl; try done. destruct (task d) as [| |err] eqn:Ht; try done. injection H as <-.
    apply inv_with_loop; [done|]. intros _. by exists err.
Qed.

Lemma inv_delivery_reach d : rtc step start d → inv d.
Proof.
  intros Hr. eapply rtc_invariant; [|exact Hr|apply inv_start]. intros a b Ha [l Hl]. by eapply inv_delivery_run.
Qed.

Lemma given_run l d d' : run l d = Some d' → given d' = given d.
Proof.
  intros H. destruct l; cbn [run] in H; unfold conclude, audit, Ack, Nack in H; cbn in H; cases H; simplify_eq/=;
    repeat case_goal; done.
Qed.
Lemma given_start : given start = true → attempts <= MaxAttempts ∧ decodeErr = None.
Proof.
  unfold start. destruct (Z.gtb_spec attempts MaxAttempts); [done|]. destruct decodeErr; [|done].
  unfold conclude, audit. cbn. by destruct (_ && _).
Qed.
Lemma given_reach d : rtc step start d → given d = given start.
Proof.
  intros Hr. eapply (rtc_invariant step (λ d, given d = given start)); [|exact Hr|done].
  intros a b Ha [l Hl]. by rewrite (given_run _ _ _ Hl).
Qed.

(** C13: A RocketMQ delivery is acknowledged only on the host's word, in whatever
    order the handler, the failure callback, renewals, deadlines and the broker
    act.  The broker is asked to acknowledge only after the handler acknowledged
    or returned without error, or the failure callback recorded the message; a
    message that exceeds the delivery limit or cannot be decoded, only after the
    latter.  After a successful settlement nothing is sent to the broker.  The
    failure callback is called only at the delivery limit.  The slot is given
    back only when the host's code has returned, and then it can be. *)
Theorem delivery_settlement d :
  rtc step start d →
  lawful (log d) ∧
  (attempts > MaxAttempts ∨ decodeErr ≠ None → BAck true ∈ log d → EAudited None ∈ log d) ∧
  (∀ c, EAudit c ∈ log d → MaxAttempts <= attempts) ∧
  (loop d = Gone → ∃ err, task d = Finished err) ∧
  (∀ err, task d = Finished err → loop d ≠ Gone → ∃ d', step d d' ∧ loop d' = Gone).
Proof.
  intros Hr. destruct (inv_delivery_reach d Hr) as (Hl&Hs&Ht&Hg&Hn&Ha). split; [done|]. split; [|split; [done|split; [done|]]].
  - intros Hbad (pre&post&Heq)%list_elem_of_split. destruct (Hl _ _ _ Heq) as [Hw _]. specialize (Hw eq_refl).
    assert (Hgf : given d = false).
    { rewrite (given_reach d Hr). destruct (given start) eqn:E; [|done]. apply given_start in E as [? ?]. destruct Hbad; [lia|done]. }
    destruct (Hn Hgf) as (_&Hna&Hnr). rewrite Heq in Hna, Hnr |- *. rewrite elem_of_app in Hna, Hnr |- *.
    destruct Hw as [?|[?|?]]; tauto.
  - intros err Hf Hng. destruct (loop d) eqn:El; [| |done].
    + eexists. split; [exists (LSettle true); cbn; rewrite El, Hf; reflexivity|done].
    + eexists. split; [exists LDrained; cbn; rewrite El, Hf; reflexivity|done].
Qed.
End handle.

(** A handler that fails at the last delivery: the failure is recorded, then the
    message is acknowledged. *)
Definition ex_labels : list Label := [LTick true; LReturn (Some (ErrMsg "declined")); LAudited None; LSettle true].
Fixpoint run_all (max attempts : Z) (decodeErr : option error) (ls : list Label) (d : Delivery) : option Delivery :=
  match ls with
  | [] => Some d
  | l :: ls => match run max attempts decodeErr l d with Some d' => run_all max attempts decodeErr ls d' | None => None end
  end.
Lemma rocket_run_reach max attempts de ls d d' :
  run_all max attempts de ls d = Some d' → rtc (step max attempts de) d d'.
Proof.
  revert d. induction ls as [|l ls IH]; intros d; simpl; [by intros [= ->]|].
  destruct (run max attempts de l d) as [d1|] eqn:E; [|done]. intros H. eapply rtc_l; [by exists l|by apply IH].
Qed.
Definition ex_delivery : Delivery := Eval vm_compute in default (start 3 3 None) (run_all 3 3 None ex_labels (start 3 3 None)).
Lemma ex_delivery_reached : rtc (step 3 3 None) (start 3 3 None) ex_delivery.
Proof. apply (rocket_run_reach 3 3 None ex_labels). vm_compute. reflexivity. Qed.
Example ex_delivery_log :
  log ex_delivery = [EHandler; BRenew true; EReturned (Some (ErrMsg "declined")); EAudit "handler failed at delivery limit";
                     EAudited None; BAck true].
Proof. reflexivity. Qed.

Lemma delivery_settlement_witness : lawful (log ex_delivery) ∧ ∃ err, task ex_delivery = Finished err.
Proof.
  destruct (delivery_settlement 3 3 None ex_delivery ex_delivery_reached) as (Hl&_&_&Hg&_).
  split; [exact Hl|exact (Hg eq_refl)].
Defined.

(** ** The inputs of a subscription *)

Definition wanted (topic subscription : string) (r : routing.RouteBinding) : Prop :=
  routing.Topic r = topic ∧ routing.Subscription r = subscription ∧ routing.Group r ≠ ""%string.

Lemma collect_routes_spec topic subscription rows routes first routes' first' :
  collect_routes topic subscription rows routes first = Ok (routes', first') →
  (∀ f, first = Some f → first' = Some f) ∧
  (∀ p r, routes' !! p = Some r → routes !! p = Some r ∨
     (r ∈ rows ∧ p = routing.PhysTopic r ∧ wanted topic subscription r ∧
      ∃ f, first' = Some f ∧ routing.Group r = routing.Group f)) ∧
  (∀ p, is_Some (routes !! p) → is_Some (routes' !! p)) ∧
  (∀ r, r ∈ rows → wanted topic subscription r → is_Some (routes' !! routing.PhysTopic r)).
Proof.
  revert routes first. induction rows as [|r rows IH]; intros routes first; cbn [collect_routes].
  { intros [= <- <-]. split; [done|]. split; [auto|]. split; [done|]. by intros r Hr; inversion Hr. }
  destruct (_ || _) eqn:Hskip.
  { intros (H1&H2&H3&H4)%IH. split; [done|]. split.
    - intros p q Hq. destruct (H2 p q Hq) as [?|(?&?&?&?)]; [by left|right]. split; [by apply list_elem_of_further|done].
    - split; [done|]. intros q [->|Hq]%elem_of_cons Hw; [|by apply H4]. destruct Hw as (?&?&?).
      rewrite !orb_true_iff in Hskip. destruct Hskip as [[Hk|Hk]|Hk]; boolp; done. }
  assert (Hw : wanted topic subscription r) by (boolp; repeat split; done). clear Hskip.
  assert (Hstep : ∀ f, routing.Group r = routing.Group f → (first = Some f ∨ (first = None ∧ f = r)) →
    collect_routes topic subscription rows (<[routing.PhysTopic r := r]> routes) (Some f) = Ok (routes', first') →
    (∀ f, first = Some f → first' = Some f) ∧
    (∀ p q, routes' !! p = Some q → routes !! p = Some q ∨
       (q ∈ r :: rows ∧ p = routing.PhysTopic q ∧ wanted topic subscription q ∧
        ∃ f, first' = Some f ∧ routing.Group q = routing.Group f)) ∧
    (∀ p, is_Some (routes !! p) → is_Some (routes' !! p)) ∧
    (∀ q, q ∈ r :: rows → wanted topic subscription q → is_Some (routes' !! routing.PhysTopic q))).
  { intros f Hgrp Hf (H1&H2&H3&H4)%IH. specialize (H1 f eq_refl). split; [by intros g Hg; destruct Hf as [?|[? _]]; congruence|].
    split; [|split].
    - intros p q Hq. destruct (H2 p q Hq) as [Hin|(?&?&?&?)].
      + apply lookup_insert_Some in Hin as [[<- <-]|[_ ?]]; [|by left]. right. split; [apply list_elem_of_here|]. eauto.
      + right. split; [by apply list_elem_of_further|done].
    - intros p Hp. apply H3. destruct (decide (p = routing.PhysTopic r)) as [->|Hne];
        [rewrite lookup_insert_eq; by eexists|by rewrite lookup_insert_ne].
    - intros q [->|Hq]%elem_of_cons Hwq; [|by apply H4]. apply H3. rewrite lookup_insert_eq. by eexists. }
  destruct first as [f|]; [|by apply Hstep; [|right]].
  destruct (bool_decide_reflect (routing.Group r = routing.Group f)) as [He|]; [|done]. by apply Hstep; [|left].
Qed.

(** A subscription reads exactly the physical topics bound to it, all under the
    one consumer group it joins. *)
Lemma subscription_inputs rows topic subscription routes first :
  subscriptionRoutes rows topic subscription = Ok (routes, first) →
  (∀ p r, routes !! p = Some r →
     r ∈ rows ∧ routing.PhysTopic r = p ∧ wanted topic subscription r ∧ routing.Group r = routing.Group first) ∧
  (∀ r, r ∈ rows → wanted topic subscription r → is_Some (routes !! routing.PhysTopic r)).
Proof.
  unfold subscriptionRoutes. intros ([rs f]&Hc&H)%rbind_Ok. cbn in H. destruct f as [f|]; [|done]. injection H as -> ->.
  apply collect_routes_spec in Hc as (_&H2&_&H4). split; [|done]. intros p r Hr.
  destruct (H2 p r Hr) as [He|(?&->&?&g&[= <-]&?)]; [by rewrite lookup_empty in He|done].
Qed.
End rocketdelivery.

(** ** Receive loops and shutdown

    Pollers reserve slots before they receive, and every message is handled in
    the slot it was received for.  Messages and consumers are counted, not
    named. *)

Module rocketsubscriber.

(** The goroutine started by [drainOnce], and the one of [shutdownOnce]. *)
Inductive Drainer : Type := NotClosing | WaitPollers | WaitHandlers | Drained.
#[global] Instance Drainer_eq_dec : EqDecision Drainer.
Proof. solve_decision. Defined.

(** [waiting] pollers are at the top of their loop, [receiving] ones hold the
    listed numbers of slots, [pausing] ones wait a second.  [working] handlers
    hold a slot, [leaving] ones have given it back. *)
Record State : Type := mkState {
  consumers : Z; waiting : Z; receiving : list Z; pausing : Z; working : Z; leaving : Z;
  stopping : bool; drainer : Drainer; stopped : bool
}.
Definition initial : State := mkState 0 0 [] 0 0 0 false NotClosing false.

Fixpoint total (l : list Z) : Z := match l with [] => 0 | k :: l => k + total l end.
Definition slots (s : State) : Z := total (receiving s) + working s.
Definition pollers (s : State) : Z := waiting s + llen (receiving s) + pausing s.
Definition handlers (s : State) : Z := working s + leaving s.

Definition set_pollers (w : Z) (r : list Z) (p : Z) (s : State) : State :=
  mkState (consumers s) w r p (working s) (leaving s) (stopping s) (drainer s) (stopped s).
Definition set_handlers (w l : Z) (s : State) : State :=
  mkState (consumers s) (waiting s) (receiving s) (pausing s) w l (stopping s) (drainer s) (stopped s).

Section subscriber.
Context (MaxInFlight : Z).

(** [Subscribe] with a started consumer; refused when stopping. *)
Definition Subscribe (s : State) : option State :=
  if stopping s then None
  else Some (mkState (consumers s + 1) (waiting s + 1) (receiving s) (pausing s) (working s) (leaving s)
               (stopping s) (drainer s) (stopped s)).

(** [poll]: the first slot, then up to sixteen without waiting. *)
Definition reserve_first (s : State) : option State :=
  if (waiting s >? 0) && (slots s <? MaxInFlight)
  then Some (set_pollers (waiting s - 1) (1 :: receiving s) (pausing s) s) else None.
Definition reserve_more (i : nat) (s : State) : option State :=
  batch ← receiving s !! i;
  if (batch <? 16) && (slots s <? MaxInFlight)
  then Some (set_pollers (waiting s) (<[i := batch + 1]> (receiving s)) (pausing s) s) else None.

(** A failed or empty receive gives the whole batch back. *)
Definition receive_none (i : nat) (s : State) : option State :=
  _ ← receiving s !! i;
  Some (set_pollers (waiting s) (delete i (receiving s)) (if stopping s then pausing s else pausing s + 1) s).
(** [n] messages arrived: the excess is dropped, the unused slots are given back. *)
Definition receive_some (i : nat) (n : Z) (s : State) : option State :=
  batch ← receiving s !! i;
  if n <? 1 then None
  else Some (set_handlers (working s + Z.min n batch) (leaving s)
               (set_pollers (waiting s + 1) (delete i (receiving s)) (pausing s) s)).
Definition resume (s : State) : option State :=
  if pausing s >? 0 then Some (set_pollers (waiting s + 1) (receiving s) (pausing s - 1) s) else None.
(** The cancelled context ends a loop that is waiting or pausing. *)
Definition quit_waiting (s : State) : option State :=
  if stopping s && (waiting s >? 0) then Some (set_pollers (waiting s - 1) (receiving s) (pausing s) s) else None.
Definition quit_pausing (s : State) : option State :=
  if stopping s && (pausing s >? 0) then Some (set_pollers (waiting s) (receiving s) (pausing s - 1) s) else None.

(** The goroutine of a message: the slot is released before the wait group. *)
Definition release (s : State) : option State :=
  if working s >? 0 then Some (set_handlers (working s - 1) (leaving s + 1) s) else None.
Definition handled (s : State) : option State :=
  if leaving s >? 0 then Some (set_handlers (working s) (leaving s - 1) s) else None.

Definition with_drainer (d : Drainer) (s : State) : State :=
  mkState (consumers s) (waiting s) (receiving s) (pausing s) (working s) (leaving s) true d (stopped s).

(** [Close]. *)
Definition Close_begin (s : State) : State :=
  with_drainer (if drainer s == NotClosing then WaitPollers else drainer s) s.
Definition drain_step (s : State) : option State :=
  match drainer s with
  | WaitPollers => if pollers s =? 0 then Some (with_drainer WaitHandlers s) else None
  | WaitHandlers => if handlers s =? 0 then Some (with_drainer Drained s) else None
  | _ => None
  end.
Definition stop_consumers (s : State) : option State :=
  if drainer s == Drained
  then Some (mkState (consumers s) (waiting s) (receiving s) (pausing s) (working s) (leaving s) (stopping s) (drainer s) true)
  else None.

Inductive Label : Type :=
| LSubscribe | LReserve | LMore (i : nat) | LNone (i : nat) | LSome (i : nat) (n : Z) | LResume | LQuitWaiting
| LQuitPausing | LRelease | LHandled | LClose | LDrain | LStop.
Definition run (l : Label) (s : State) : option State :=
  match l with
  | LSubscribe => Subscribe s | LReserve => reserve_first s | LMore i => reserve_more i s
  | LNone i => receive_none i s | LSome i n => receive_some i n s | LResume => resume s
  | LQuitWaiting => quit_waiting s | LQuitPausing => quit_pausing s | LRelease => release s | LHandled => handled s
  | LClose => Some (Close_begin s) | LDrain => drain_step s | LStop => stop_consumers s
  end.
Definition step (s s' : State) : Prop := ∃ l, run l s = Some s'.

Definition batches_ok (l : list Z) : Prop := Forall (λ k, 1 <= k <= 16) l.

Definition inv (s : State) : Prop :=
  (batches_ok (receiving s) ∧ 0 <= waiting s ∧ 0 <= pausing s ∧ 0 <= working s ∧ 0 <= leaving s) ∧
  slots s <= MaxInFlight ∧
  (drainer s ≠ NotClosing → stopping s = true) ∧
  (drainer s = WaitHandlers ∨ drainer s = Drained → pollers s = 0) ∧
  (drainer s = Drained → handlers s = 0) ∧
  (stopped s = true → drainer s = Drained).

Lemma batches_nonneg l : batches_ok l → 0 <= total l.
Proof. induction 1; cbn; lia. Qed.
Lemma total_delete i l k : l !! i = Some k → total (delete i l) = total l - k.
Proof.
  revert i. induction l as [|x l IH]; intros [|i] H; [done|done|injection H as ->; cbn; lia|].
  change (x + total (delete i l) = x + total l - k). rewrite (IH i H). lia.
Qed.
Lemma total_insert i l k k' : l !! i = Some k → total (<[i := k']> l) = total l - k + k'.
Proof.
  revert i. induction l as [|x l IH]; intros [|i] H; [done|done|injection H as ->; cbn; lia|].
  change (x + total (<[i := k']> l) = x + total l - k + k'). rewrite (IH i H). lia.
Qed.
Lemma batches_delete i l : batches_ok l → batches_ok (delete i l).
Proof. intros H. by apply Forall_delete. Qed.
Lemma llen_delete {A} i (l : list A) k : l !! i = Some k → llen (delete i l) = llen l - 1.
Proof. intros H. unfold llen. rewrite (length_delete l i) by (by eexists). apply lookup_lt_Some in H. lia. Qed.

(** The facts about a poller that is receiving. *)
Lemma receiving_facts s i k :
  inv s → receiving s !! i = Some k → 1 <= k <= 16 ∧ 0 < pollers s ∧
  total (delete i (receiving s)) = total (receiving s) - k ∧ llen (delete i (receiving s)) = llen (receiving s) - 1 ∧
  batches_ok (delete i (receiving s)).
Proof.
  intros ((Hb&Hw&Hp&_)&_) Hi. split; [exact (Forall_lookup_1 _ _ _ _ Hb Hi)|].
  split; [apply lookup_lt_Some in Hi; unfold pollers, llen; lia|].
  split; [by apply total_delete|]. split; [by eapply llen_delete|by apply batches_delete].
Qed.

Lemma inv_receiving l s s' :
  match l with LReserve | LMore _ | LNone _ | LSome _ _ => True | _ => False end →
  inv s → run l s = Some s' → inv s'.
Proof.
  intros Hlab Hi H. pose proof Hi as ((Hb&Hw&Hp&Hk&Hl)&Hslots&Hst&Hph&Hhd&Hstop).
  destruct l; try done; cbn [run] in H.
  - unfold reserve_first in H. destruct (_ && _) eqn:E; [|done]. injection H as <-.
    unfold inv, slots, pollers, handlers in *. cbn. boolp.
    split; [split; [by constructor; [lia|]|lia]|]. split; [lia|]. split; [done|]. split; [|done].
    intros Hd. specialize (Hph Hd). unfold llen in *. cbn. lia.
  - unfold reserve_more in H. apply bind_Some in H as (k&Hk'&H). destruct (_ && _) eqn:E; [|done]. injection H as <-.
    destruct (receiving_facts _ _ _ Hi Hk') as (?&_). unfold inv, slots, pollers, handlers in *. cbn. boolp.
    split; [split; [apply Forall_insert; [done|lia]|done]|].
    split; [rewrite (total_insert _ _ _ _ Hk'); lia|]. split; [done|]. split; [|done].
    unfold llen. rewrite length_insert. done.
  - unfold receive_none in H. apply bind_Some in H as (k&Hk'&H). injection H as <-.
    destruct (receiving_facts _ _ _ Hi Hk') as (?&?&Ht&Hn&?). unfold inv, slots, pollers, handlers in *. cbn.
    rewrite Ht, Hn. split; [split; [done|destruct (stopping s); lia]|]. split; [lia|]. split; [done|].
    split; [|done]. intros Hd. specialize (Hph Hd). lia.
  - unfold receive_some in H. apply bind_Some in H as (k&Hk'&H). destruct (Z.ltb_spec n 1); [done|]. injection H as <-.
    destruct (receiving_facts _ _ _ Hi Hk') as (?&?&Ht&Hn&?). unfold inv, slots, pollers, handlers in *. cbn.
    rewrite Ht, Hn. split; [split; [done|lia]|]. split; [lia|]. split; [done|].
    split; [intros Hd; specialize (Hph Hd); lia|]. split; [|done]. intros Hd. specialize (Hph (or_intror Hd)). lia.
Qed.

Lemma inv_finishing l s s' :
  match l with LResume | LQuitWaiting | LQuitPausing | LRelease | LHandled => True | _ => False end →
  inv s → run l s = Some s' → inv s'.
Proof.
  intros Hlab ((Hb&Hw&Hp&Hk&Hl)&Hslots&Hst&Hph&Hhd&Hstop) H.
  destruct l; try done; cbn [run] in H;
    unfold resume, quit_waiting, quit_pausing, release, handled in H; cases H; simplify_eq; boolp;
    unfold inv, slots, pollers, handlers in *; cbn;
    (split; [repeat split; try done; lia|]); (split; [lia|]); (split; [done|]);
    (split; [intros Hd; specialize (Hph Hd); unfold llen in *; lia|]); (split; [|done]);
    intros Hd; specialize (Hhd Hd); lia.
Qed.

Lemma inv_closing l s s' :
  match l with LSubscribe | LClose | LDrain | LStop => True | _ => False end →
  inv s → run l s = Some s' → inv s'.
Proof.
  intros Hlab ((Hb&Hw&Hp&Hk&Hl)&Hslots&Hst&Hph&Hhd&Hstop) H. unfold inv, slots, pollers, handlers in *.
  destruct l; try done; cbn [run] in H.
  - unfold Subscribe in H. destruct (stopping s) eqn:Es; [done|]. injection H as <-. cbn.
    assert (drainer s = NotClosing) as Hd by (destruct (decide (drainer s = NotClosing)) as [|Hn]; [done|by apply Hst in Hn]).
    rewrite Hd in *. split; [repeat split; try done; lia|]. split; [done|]. split; [done|].
    split; [by intros [?|?]|]. split; [done|]. done.
  - injection H as <-. unfold Close_begin. cbn. split; [done|]. split; [done|]. split; [done|].
    destruct (bool_decide_reflect (drainer s = NotClosing)) as [Hd|Hd]; [|done].
    split; [by intros [?|?]|]. split; [done|]. intros Hs. apply Hstop in Hs. congruence.
  - unfold drain_step in H. destruct (drainer s) eqn:Ed; try done.
    + destruct (Z.eqb_spec (pollers s) 0) as [Hz|]; [|done]. injection H as <-. cbn. split; [done|]. split; [done|].
      split; [done|]. split; [done|]. split; [done|]. intros Hs. by apply Hstop in Hs.
    + destruct (Z.eqb_spec (handlers s) 0) as [Hz|]; [|done]. injection H as <-. cbn. split; [done|]. split; [done|].
      split; [done|]. split; [intros _; apply Hph; by left|]. split; [done|done].
  - unfold stop_consumers in H. destruct (bool_decide_reflect (drainer s = Drained)); [|done]. injection H as <-. cbn.
    by repeat (split; [done|]).
Qed.

Lemma inv_subscriber_run l s s' : inv s → run l s = Some s' → inv s'.
Proof.
  intros Hi H. destruct l;
    first [solve [eapply inv_receiving; [|exact Hi|exact H]; exact I]
          |solve [eapply inv_finishing; [|exact Hi|exact H]; exact I]
          |solve [eapply inv_closing; [|exact Hi|exact H]; exact I]].
Qed.

Lemma inv_subscriber_reach s s' : inv s → rtc step s s' → inv s'.
Proof. intros Hi Hr. eapply rtc_invariant; [|exact Hr|done]. intros a b Ha [l Hl]. by eapply inv_subscriber_run. Qed.

(** Nothing starts once drained. *)
Lemma drained_run l s s' :
  inv s → drainer s = Drained → run l s = Some s' → drainer s' = Drained ∧ consumers s' = consumers s.
Proof.
  intros Hi Hd H. assert (Hst : stopping s = true) by (destruct Hi as (_&_&Hst&_); apply Hst; by rewrite Hd).
  destruct l; cbn [run] in H; unfold Subscribe, reserve_first, reserve_more, receive_none, receive_some, resume,
    quit_waiting, quit_pausing, release, handled, Close_begin, drain_step, stop_consumers in H; rewrite ?Hst, ?Hd in H;
    try (apply bind_Some in H as (k&_&H)); cases H; simplify_eq/=; done.
Qed.

(** What is left to do in a shutdown. *)
Definition remaining (s : State) : nat :=
  Z.to_nat (waiting s + llen (receiving s) + pausing s + 2 * working s + leaving s).

Lemma closing_progress s :
  inv s → stopping s = true → (0 < remaining s)%nat →
  ∃ s', step s s' ∧ stopping s' = true ∧ (remaining s' < remaining s)%nat.
Proof.
  intros Hi Hst Hr. pose proof Hi as ((Hb&Hw&Hp&Hk&Hl)&_). unfold remaining in *.
  assert (0 <= llen (receiving s)) by (unfold llen; lia).
  destruct (receiving s) as [|k l] eqn:Er.
  - change (llen []) with 0 in *. destruct (Z.gtb_spec (waiting s) 0).
    { eexists. split; [exists LQuitWaiting; cbn; unfold quit_waiting; rewrite Hst; case_goal; [reflexivity|lia]|]. cbn.
      rewrite Er. split; [done|]. change (llen []) with 0. lia. }
    destruct (Z.gtb_spec (pausing s) 0).
    { eexists. split; [exists LQuitPausing; cbn; unfold quit_pausing; rewrite Hst; case_goal; [reflexivity|lia]|]. cbn.
      rewrite Er. split; [done|]. change (llen []) with 0. lia. }
    destruct (Z.gtb_spec (working s) 0).
    { eexists. split; [exists LRelease; cbn; unfold release; case_goal; [reflexivity|lia]|]. cbn.
      rewrite Er. split; [done|]. change (llen []) with 0. lia. }
    eexists. split; [exists LHandled; cbn; unfold handled; case_goal; [reflexivity|lia]|]. cbn.
    rewrite Er. split; [done|]. change (llen []) with 0. lia.
  - eexists. split; [exists (LNone 0); cbn; unfold receive_none; rewrite Er; reflexivity|]. cbn. rewrite Hst. cbn.
    split; [done|]. unfold llen in *. cbn in *. lia.
Qed.

Lemma shutdown_reaches_idle n s :
  (remaining s <= n)%nat → inv s → stopping s = true →
  ∃ s', rtc step s s' ∧ inv s' ∧ stopping s' = true ∧ remaining s' = 0%nat.
Proof.
  revert s. induction n as [|n IH]; intros s Hn Hi Hst; [exists s; split; [done|]; split; [done|]; split; [done|lia]|].
  destruct (decide (remaining s = 0%nat)) as [|Hr]; [by exists s|].
  destruct (closing_progress s Hi Hst ltac:(lia)) as (s1&Hs1&Hst1&Hlt).
  assert (Hi1 : inv s1) by (destruct Hs1 as [l Hl]; by eapply inv_subscriber_run).
  destruct (IH s1 ltac:(lia) Hi1 Hst1) as (s'&?&?&?&?). exists s'. split; [by eapply rtc_l|done].
Qed.

Lemma idle_stops s :
  inv s → stopping s = true → remaining s = 0%nat → ∃ s', rtc step s s' ∧ stopped s' = true.
Proof.
  intros Hi Hst Hr. pose proof Hi as ((Hb&Hw&Hp&Hk&Hl)&_). unfold remaining in Hr.
  assert (Hn : 0 <= llen (receiving s)) by (unfold llen; lia).
  assert (Hpoll : pollers s = 0) by (unfold pollers; lia). assert (Hhand : handlers s = 0) by (unfold handlers; lia).
  assert (Hfin : ∀ t, drainer t = Drained → ∃ s', rtc step t s' ∧ stopped s' = true).
  { intros t Ht. eexists. split; [apply rtc_once; exists LStop; cbn; unfold stop_consumers; rewrite Ht; reflexivity|done]. }
  assert (Hwh : ∀ t, handlers t = 0 → drainer t = WaitHandlers → ∃ s', rtc step t s' ∧ stopped s' = true).
  { intros t Hh Ht. destruct (Hfin (with_drainer Drained t) eq_refl) as (s'&Hs&?). exists s'. split; [|done].
    eapply rtc_l; [|exact Hs]. exists LDrain. cbn. unfold drain_step. by rewrite Ht, Hh. }
  assert (Hwp : ∀ t, pollers t = 0 → handlers t = 0 → drainer t = WaitPollers → ∃ s', rtc step t s' ∧ stopped s' = true).
  { intros t Hp0 Hh Ht. destruct (Hwh (with_drainer WaitHandlers t) Hh eq_refl) as (s'&Hs&?). exists s'. split; [|done].
    eapply rtc_l; [|exact Hs]. exists LDrain. cbn. unfold drain_step. by rewrite Ht, Hp0. }
  destruct (drainer s) eqn:Ed; auto. destruct (Hwp (Close_begin s)) as (s'&Hs&?); [done|done|cbn; by rewrite Ed|].
  exists s'. split; [|done]. eapply rtc_l; [by exists LClose|done].
Qed.

(** C20: A RocketMQ subscriber respects its bound and shuts down in order.  The
    slots of receives and handlers never exceed MaxInFlight, a receive asks for
    one to sixteen messages; the consumers are stopped only when every receive
    loop has ended and every handler returned, and none starts afterwards; and
    once closing, a shutdown is never stuck: from every state it can complete,
    whatever was in flight. *)
Theorem subscriber_drains s :
  1 <= MaxInFlight → rtc step initial s →
  0 <= slots s <= MaxInFlight ∧ Forall (λ k, 1 <= k <= 16) (receiving s) ∧
  (stopped s = true → pollers s = 0 ∧ handlers s = 0) ∧
  (∀ s', drainer s = Drained → rtc step s s' → pollers s' = 0 ∧ handlers s' = 0 ∧ consumers s' = consumers s) ∧
  (stopping s = true → ∃ s', rtc step s s' ∧ stopped s' = true).
Proof.
  intros Hmax Hr.
  assert (Hi : inv s).
  { eapply inv_subscriber_reach; [|exact Hr]. unfold inv, slots, pollers, handlers. cbn. split; [split; [constructor|lia]|].
    split; [lia|]. split; [done|]. split; [by intros [?|?]|done]. }
  pose proof Hi as ((Hb&Hw&Hp&Hk&Hl)&Hslots&_&Hph&Hhd&Hstop). pose proof (batches_nonneg _ Hb).
  split; [unfold slots in *; lia|]. split; [done|]. split; [|split].
  - intros Hs%Hstop. split; [apply Hph; by right|by apply Hhd].
  - intros s' Hd Hs. assert (Hall : inv s' ∧ drainer s' = Drained ∧ consumers s' = consumers s).
    { eapply (rtc_invariant step (λ t, inv t ∧ drainer t = Drained ∧ consumers t = consumers s)); [|exact Hs|done].
      intros a b (Ha&Hda&Hca) [l Hrun]. split; [by eapply inv_subscriber_run|].
      destruct (drained_run _ _ _ Ha Hda Hrun). split; [done|congruence]. }
    destruct Hall as ((_&_&_&Hph'&Hhd'&_)&Hd'&Hc). split; [apply Hph'; by right|]. split; [by apply Hhd'|done].
  - intros Hst. destruct (shutdown_reaches_idle (remaining s) s ltac:(lia) Hi Hst) as (s1&H1&Hi1&Hst1&Hr1).
    destruct (idle_stops s1 Hi1 Hst1 Hr1) as (s2&H2&?). exists s2. split; [by etransitivity|done].
Qed.
End subscriber.

(** One consumer, a batch of two of which one is handled while closing. *)
Fixpoint run_all (n : Z) (ls : list Label) (s : State) : option State :=
  match ls with
  | [] => Some s
  | l :: ls => match run n l s with Some s' => run_all n ls s' | None => None end
  end.
Lemma subscriber_run_reach n ls s s' : run_all n ls s = Some s' → rtc (step n) s s'.
Proof.
  revert s. induction ls as [|l ls IH]; intros s; simpl; [by intros [= ->]|].
  destruct (run n l s) as [s1|] eqn:E; [|done]. intros H. eapply rtc_l; [by exists l|by apply IH].
Qed.
Definition ex_labels : list Label := [LSubscribe; LReserve; LMore 0; LSome 0 1; LReserve; LClose; LNone 0; LRelease].
Definition ex_state : State := Eval vm_compute in default initial (run_all 2 ex_labels initial).
Lemma ex_state_reached : rtc (step 2) initial ex_state.
Proof. apply (subscriber_run_reach 2 ex_labels). vm_compute. reflexivity. Qed.

Lemma subscriber_drains_witness :
  0 <= slots ex_state <= 2 ∧ handlers ex_state = 1 ∧ ∃ s', rtc (step 2) ex_state s' ∧ stopped s' = true.
Proof.
  destruct (subscriber_drains 2 ex_state ltac:(lia) ex_state_reached) as (Hs&_&_&_&Hc).
  split; [exact Hs|]. split; [reflexivity|exact (Hc eq_refl)].
Defined.
End rocketsubscriber.

(** ** Publishing *)

Module rocketpublisher.
Import transport.

(** The routes of [NewPublisher]: NORMAL bindings, one physical topic each. *)
Fixpoint normal_routes (rows : list routing.RouteBinding) (routes : gmap string string) : result (gmap string string) :=
  match rows with
  | [] => Ok routes
  | r :: rows =>
    if (routing.MessageType r != ""%string) && (routing.MessageType r != routing.NormalMessageType)
    then normal_routes rows routes
    else match routes !! routing.Topic r with
         | Some prior => if prior != routing.PhysTopic r
                         then Err (ErrMsg "ambiguous normal publisher route revision or owner")
                         else normal_routes rows (<[routing.Topic r := routing.PhysTopic r]> routes)
         | None => normal_routes rows (<[routing.Topic r := routing.PhysTopic r]> routes)
         end
  end.
Definition NewPublisher (config : backend.Config) : result (gmap string string) :=
  try c <- backend.validate config;
  try routes <- normal_routes (backend.cf_Routes c) ∅;
  if bool_decide (routes = ∅) then Err (ErrMsg "explicit NORMAL publisher route required") else Ok routes.

(** The classification of a finished Send. *)
Definition rejected_code (c : Z) : bool := ((40000 <=? c) && (c <? 40600)) || ((41300 <=? c) && (c <? 41400)).
Definition send_outcome (rpc_status : error → option Z) (receipts : list (option string)) (err : option error) : Outcome :=
  match err with
  | Some e => match rpc_status e with
              | Some c => if rejected_code c then Rejected else Unknown
              | None => Unknown
              end
  | None => match receipts with
            | [Some id] => if id != ""%string then Confirmed else Unknown
            | _ => Unknown
            end
  end.

(** How the wait of [publish] ends: not admitted, with the result of the send,
    or with the context. *)
Inductive Wait : Type := NotAdmitted | Sent (receipts : list (option string)) (err : option error) | CtxDone.
Definition publish (rpc_status : error → option Z) (routes : gmap string string) (logical id : string) (body : bytes)
    (w : string → string → bytes → Wait) : Outcome :=
  match routes !! logical with
  | Some topic =>
    if (len body =? 0) || (len body >? 262144) then Rejected
    else match w topic id body with
         | Sent receipts err => send_outcome rpc_status receipts err
         | NotAdmitted | CtxDone => Unknown
         end
  | None => Rejected
  end.
Definition Publish (rpc_status : error → option Z) (routes : gmap string string) (m : message.Message)
    (w : string → string → bytes → Wait) : Outcome :=
  if negb (message.Message_Valid m) then Rejected
  else let i := message.Message_Input m in
       publish rpc_status routes (message.Destination i) (message.ID i) (message.Payload i) w.
Definition PublishRaw (rpc_status : error → option Z) (routes : gmap string string) (topic : string) (body : bytes)
    (w : string → string → bytes → Wait) : Outcome :=
  publish rpc_status routes topic "" body w.

(** Confirmed only for a single identified receipt of the bound topic, rejected
    only for a local refusal or a code of the reviewed ranges. *)
Lemma publish_classifies rpc_status routes logical id body w :
  (publish rpc_status routes logical id body w = Confirmed →
     ∃ topic broker_id, routes !! logical = Some topic ∧ w topic id body = Sent [Some broker_id] None ∧ broker_id ≠ ""%string) ∧
  (publish rpc_status routes logical id body w = Rejected →
     routes !! logical = None ∨ body = ""%string ∨ 262144 < len body ∨
     ∃ topic receipts e c, w topic id body = Sent receipts (Some e) ∧ rpc_status e = Some c ∧ rejected_code c = true).
Proof.
  unfold publish. destruct (routes !! logical) as [topic|]; [|by split; [|left]].
  destruct (_ || _) eqn:Hlen.
  { split; [done|]. intros _. right. apply orb_true_iff in Hlen as [H|H]; [left|right; left; lia].
    destruct body; [done|]. unfold len in H. cbn in H. lia. }
  destruct (w topic id body) as [|receipts err|] eqn:Hw; [done| |done]. unfold send_outcome. split.
  - destruct err as [e|]; [repeat case_match; done|]. destruct receipts as [|[r|] [|]]; try done.
    case_match eqn:Hr; [|done]. intros _. exists topic, r. split; [done|]. split; [done|]. by boolp.
  - destruct err as [e|]; [|repeat case_match; done]. destruct (rpc_status e) as [c|] eqn:Hc; [|done].
    destruct (rejected_code c) eqn:Hrc; [|done]. intros _. right; right; right. by exists topic, receipts, e, c.
Qed.

(** Admission and draining are those of [nsqpublisher], with the additional
    condition that the publisher was started; [inner] is the started producer,
    [gracefulStops] counts its stops. *)
Record State : Type := mkState {
  core : nsqpublisher.State; started : bool; closing : bool; closeDone : bool; gracefulStops : Z
}.
Definition initial : State := mkState nsqpublisher.initial false false false 0.
Definition with_core (c : nsqpublisher.State) (s : State) : State :=
  mkState c (started s) (closing s) (closeDone s) (gracefulStops s).

Section publisher.
Context (MaxInFlight : Z).

(** [Start] with a driver that started. *)
Definition Start (s : State) : option State :=
  if nsqpublisher.stopping (core s) then None
  else Some (mkState (core s) true (closing s) (closeDone s) (gracefulStops s)).

(** The steps of publishes and of [Drain]. *)
Definition publish_step (l : nsqpublisher.Label) (s : State) : option State :=
  match l with
  | nsqpublisher.LAdmit ctxErr =>
      (λ c, with_core c s) <$> nsqpublisher.admission (negb (started s) || ctxErr) (core s)
  | nsqpublisher.LClose | nsqpublisher.LInterrupt => None
  | _ => (λ c, with_core c s) <$> nsqpublisher.run MaxInFlight l (core s)
  end.

(** [startClose] after a drain ([Close]) or at once ([Interrupt]). *)
Definition startClose (s : State) : State := mkState (core s) (started s) true (closeDone s) (gracefulStops s).
Definition Close (s : State) : option State :=
  if nsqpublisher.closes (core s) >? 0 then Some (startClose s) else None.
Definition Interrupt (s : State) : State := startClose (with_core (nsqpublisher.beginDrain (core s)) s).
Definition close_goroutine (s : State) : option State :=
  if closing s && negb (closeDone s)
  then Some (mkState (core s) (started s) (closing s) true (if started s then gracefulStops s + 1 else gracefulStops s))
  else None.

Inductive Label : Type := LStart | LPublish (l : nsqpublisher.Label) | LClose | LInterrupt | LGoroutine.
Definition run (l : Label) (s : State) : option State :=
  match l with
  | LStart => Start s | LPublish l => publish_step l s | LClose => Close s | LInterrupt => Some (Interrupt s)
  | LGoroutine => close_goroutine s
  end.
Definition step (s s' : State) : Prop := ∃ l, run l s = Some s'.

Definition inv (s : State) : Prop :=
  nsqpublisher.inv MaxInFlight (core s) ∧
  (started s = false → nsqpublisher.active (core s) = 0) ∧
  (closing s = true → nsqpublisher.stopping (core s) = true) ∧ (closeDone s = true → closing s = true) ∧
  gracefulStops s = (if closeDone s && started s then 1 else 0).

(** A step of the shared admission machine is one of its own. *)
Lemma publish_step_core l s s' :
  publish_step l s = Some s' →
  ∃ l' c, nsqpublisher.run MaxInFlight l' (core s) = Some c ∧ s' = with_core c s ∧
    l' ≠ nsqpublisher.LClose ∧ l' ≠ nsqpublisher.LInterrupt ∧
    (started s = false → l' ≠ nsqpublisher.LAdmit false).
Proof.
  intros H. assert (Hl : ∃ l', (λ c, with_core c s) <$> nsqpublisher.run MaxInFlight l' (core s) = Some s' ∧
    l' ≠ nsqpublisher.LClose ∧ l' ≠ nsqpublisher.LInterrupt ∧ (started s = false → l' ≠ nsqpublisher.LAdmit false)).
  { destruct l; try done; try (eexists; split; [exact H|done]).
    exists (nsqpublisher.LAdmit (negb (started s) || ctxErr)). split; [exact H|]. split; [done|]. split; [done|].
    by intros ->. }
  destruct Hl as (l'&(c&Hc&->)%fmap_Some&?&?&?). by exists l', c.
Qed.

(** Driver calls start only in admissions; stopping never ends. *)
Lemma core_frame l c c' :
  nsqpublisher.inv MaxInFlight c → nsqpublisher.run MaxInFlight l c = Some c' →
  (nsqpublisher.stopping c = true → nsqpublisher.stopping c' = true) ∧
  (l ≠ nsqpublisher.LAdmit false → nsqpublisher.active c = 0 → nsqpublisher.active c' = 0).
Proof.
  intros Hi H. unfold nsqpublisher.inv, nsqpublisher.slots, nsqpublisher.active in *.
  destruct l; cbn [nsqpublisher.run] in H; unfold nsqpublisher.take_slot, nsqpublisher.admission, nsqpublisher.give_back,
    nsqpublisher.call_returns, nsqpublisher.call_release, nsqpublisher.call_done, nsqpublisher.Close_stop,
    nsqpublisher.Interrupt, nsqpublisher.beginDrain, nsqpublisher.stopProducer in H; cbn in H; cases H; simplify_eq/=; boolp;
    repeat case_goal; cbn; (split; [done || congruence|]); intros Hl Ha; try lia; destruct ctxErr; try done;
    cbn in *; try congruence; try lia.
Qed.

Lemma inv_publisher_run l s s' : inv s → run l s = Some s' → inv s'.
Proof.
  intros (Hc&Ha&Hst&Hcl&Hg) H. destruct l; cbn [run] in H.
  - unfold Start in H. destruct (nsqpublisher.stopping (core s)) eqn:Es; [done|]. injection H as <-. unfold inv; cbn.
    assert (Hnc : closing s = false) by (destruct (closing s); [by discriminate (Hst eq_refl)|done]).
    assert (Hnd : closeDone s = false) by (destruct (closeDone s); [by rewrite Hnc in Hcl; discriminate (Hcl eq_refl)|done]).
    rewrite Hnc, Hnd in *. split; [done|]. split; [done|]. split; [done|]. split; [done|exact Hg].
  - apply publish_step_core in H as (l'&c&Hr&->&_&_&Hna). destruct (core_frame _ _ _ Hc Hr) as [Hs' Ha'].
    unfold inv; cbn. split; [by eapply nsqpublisher.inv_run|]. split; [auto|]. split; [auto|done].
  - unfold Close in H. destruct (Z.gtb_spec (nsqpublisher.closes (core s)) 0); [|done]. injection H as <-.
    unfold inv; cbn. split; [done|]. split; [done|]. split; [|done]. intros _.
    destruct Hc as (_&_&_&_&_&_&_&_&Hno&_). destruct (nsqpublisher.stopping (core s)); [done|]. specialize (Hno eq_refl). lia.
  - injection H as <-. pose proof (core_frame nsqpublisher.LDrain _ _ Hc eq_refl) as [_ Ha'].
    unfold inv, Interrupt; cbn. split; [by apply nsqpublisher.inv_beginDrain|].
    split; [intros Hs; apply Ha'; [done|by apply Ha]|]. split; [|done]. intros _. unfold nsqpublisher.beginDrain.
    destruct (nsqpublisher.stopping (core s)) eqn:Es; [done|]. by destruct (nsqpublisher.active _ =? 0).
  - unfold close_goroutine in H. destruct (closing s) eqn:Ec; [|done]. destruct (closeDone s) eqn:Ed; [done|].
    cbn in H. injection H as <-. unfold inv; cbn. split; [done|]. split; [done|]. split; [done|]. split; [done|].
    cbn in Hg. rewrite Hg. by destruct (started s).
Qed.

Context (limit_ok : 1 <= MaxInFlight).
Lemma inv_publisher_reach s : rtc step initial s → inv s.
Proof.
  intros Hr. eapply rtc_invariant; [|exact Hr|].
  - intros a b Ha [l Hl]. by eapply inv_publisher_run.
  - unfold inv, nsqpublisher.inv, nsqpublisher.slots, nsqpublisher.active; cbn. repeat split; try done; lia.
Qed.

(** A RocketMQ publisher calls the driver only while started, within its
    in-flight limit, and stops the producer it started exactly once: closed means
    stopped, and after a drain no send ever starts again. *)
Theorem rocket_publisher_stops s :
  rtc step initial s →
  nsqpublisher.slots (core s) <= MaxInFlight ∧ (started s = false → nsqpublisher.active (core s) = 0) ∧
  gracefulStops s = (if closeDone s && started s then 1 else 0) ∧
  (closeDone s = true → ∀ l s', run l s = Some s' → started s' = started s ∧ gracefulStops s' = gracefulStops s) ∧
  (nsqpublisher.closes (core s) > 0 → ∀ l s', run l s = Some s' → nsqpublisher.active (core s') = 0).
Proof.
  intros Hr. pose proof (inv_publisher_reach s Hr) as Hi. pose proof Hi as (Hc&Ha&Hst&Hcl&Hg).
  pose proof Hc as (?&?&?&?&?&Hslots&?&_&Hno&Hbusy). split; [done|]. split; [done|]. split; [done|]. split.
  - intros Hd l s' H'. pose proof (inv_publisher_run _ _ _ Hi H') as (_&_&_&_&Hg').
    specialize (Hcl Hd). specialize (Hst Hcl). destruct l; cbn [run] in H'.
    + unfold Start in H'. by rewrite Hst in H'.
    + by apply publish_step_core in H' as (l'&c&_&->&_).
    + unfold Close in H'. destruct (_ >? 0); [|done]. by injection H' as <-.
    + by injection H' as <-.
    + unfold close_goroutine in H'. by rewrite Hcl, Hd in H'.
  - intros Hcs l s' H'. assert (Hac : nsqpublisher.active (core s) = 0) by (unfold nsqpublisher.active in *; lia).
    assert (Hstp : nsqpublisher.stopping (core s) = true).
    { destruct (nsqpublisher.stopping (core s)); [done|]. specialize (Hno eq_refl). lia. }
    destruct l; cbn [run] in H'.
    + unfold Start in H'. by rewrite Hstp in H'.
    + apply publish_step_core in H' as (l'&c&Hrun&->&_). cbn.
      by destruct (nsqpublisher.stopped_run _ _ _ _ Hc Hstp Hac Hrun).
    + unfold Close in H'. destruct (_ >? 0); [|done]. by injection H' as <-.
    + injection H' as <-. cbn. unfold nsqpublisher.beginDrain. by rewrite Hstp.
    + unfold close_goroutine in H'. destruct (closing s && negb (closeDone s)); [|done]. by injection H' as <-.
Qed.
End publisher.

Fixpoint run_all (n : Z) (ls : list Label) (s : State) : option State :=
  match ls with
  | [] => Some s
  | l :: ls => match run n l s with Some s' => run_all n ls s' | None => None end
  end.
Lemma publisher_run_reach n ls s s' : run_all n ls s = Some s' → rtc (step n) s s'.
Proof.
  revert s. induction ls as [|l ls IH]; intros s; simpl; [by intros [= ->]|].
  destruct (run n l s) as [s1|] eqn:E; [|done]. intros H. eapply rtc_l; [by exists l|by apply IH].
Qed.
Definition ex_labels : list Label :=
  [LStart; LPublish nsqpublisher.LSlot; LPublish (nsqpublisher.LAdmit false); LPublish nsqpublisher.LDrain;
   LPublish nsqpublisher.LReturn; LPublish nsqpublisher.LRelease; LPublish nsqpublisher.LDone; LClose; LGoroutine].
Definition ex_closed : State := Eval vm_compute in default initial (run_all 2 ex_labels initial).
Lemma ex_publisher_closed : rtc (step 2) initial ex_closed.
Proof. apply (publisher_run_reach 2 ex_labels). vm_compute. reflexivity. Qed.

Lemma rocket_publisher_stops_witness : gracefulStops ex_closed = 1 ∧ nsqpublisher.slots (core ex_closed) <= 2.
Proof.
  destruct (rocket_publisher_stops 2 ltac:(lia) ex_closed ex_publisher_closed) as (Hs&_&Hg&_).
  split; [exact Hg|exact Hs].
Defined.
End rocketpublisher.
