(* ===== verification/Observation.v ===== *)
(** * Observing the transaction protocol

    [internal/transactionobservation] classifies metadata; the adapters of
    storage/transaction/mysql and storage/transaction/mongo stream rows through
    it.  Both are shown to compute the same reference counts, in whatever order
    the database returns the rows.

    Instants count storage units of [unit] nanoseconds from the zero time; ages
    are kept in nanoseconds, of which the source reports the seconds. *)

From Stdlib Require Import ZifyBool.
From S2P Require Import Prelude GoStd Database Message Transaction TxCodec TxMySQL TxMySQLFacts TxProtocol TxMongo.

Module observation.
Import transaction.

(** ** The accumulator *)

Record Counters : Type := mkCounters {
  ReservedExecutions : Z; PreparingExecutions : Z; PreparedExpiryAge : Z; ConfirmationGapBranches : Z;
  OldestConfirmationObservationAge : Z; UnagedConfirmationGapBranches : Z; UntrackedAbortedBranches : Z;
  UnobservedCommittedBranches : Z; MetadataConflicts : Z
}.
Definition zero : Counters := mkCounters 0 0 0 0 0 0 0 0 0.
Record ProtocolObservation : Type := mkObservation { AsOf : Z; counters : Counters }.

Record Branch : Type := mkBranch { b_State : State; b_Half : HalfOutcome; b_Final : FinalOutcome; b_HalfAt : Z; b_FinalAt : Z }.

Definition validState (s : State) : bool := (s == Prepared) || (s == Committed) || (s == Aborted).

Section accumulator.
Context (unit : Z).

(** [time.Duration] saturates. *)
Definition age (now at_ : Z) : Z :=
  if (at_ =? 0) || (at_ >? now) then 0 else Z.min (2 ^ 63 - 1) ((now - at_) * unit).

Definition add_reserved (c : Counters) : Counters :=
  mkCounters (ReservedExecutions c + 1) (PreparingExecutions c) (PreparedExpiryAge c) (ConfirmationGapBranches c)
    (OldestConfirmationObservationAge c) (UnagedConfirmationGapBranches c) (UntrackedAbortedBranches c)
    (UnobservedCommittedBranches c) (MetadataConflicts c).
Definition add_preparing (a : Z) (c : Counters) : Counters :=
  mkCounters (ReservedExecutions c) (PreparingExecutions c + 1) (Z.max (PreparedExpiryAge c) a) (ConfirmationGapBranches c)
    (OldestConfirmationObservationAge c) (UnagedConfirmationGapBranches c) (UntrackedAbortedBranches c)
    (UnobservedCommittedBranches c) (MetadataConflicts c).
Definition add_conflict (c : Counters) : Counters :=
  mkCounters (ReservedExecutions c) (PreparingExecutions c) (PreparedExpiryAge c) (ConfirmationGapBranches c)
    (OldestConfirmationObservationAge c) (UnagedConfirmationGapBranches c) (UntrackedAbortedBranches c)
    (UnobservedCommittedBranches c) (MetadataConflicts c + 1).
Definition add_unobserved (c : Counters) : Counters :=
  mkCounters (ReservedExecutions c) (PreparingExecutions c) (PreparedExpiryAge c) (ConfirmationGapBranches c)
    (OldestConfirmationObservationAge c) (UnagedConfirmationGapBranches c) (UntrackedAbortedBranches c)
    (UnobservedCommittedBranches c + 1) (MetadataConflicts c).
Definition add_untracked (c : Counters) : Counters :=
  mkCounters (ReservedExecutions c) (PreparingExecutions c) (PreparedExpiryAge c) (ConfirmationGapBranches c)
    (OldestConfirmationObservationAge c) (UnagedConfirmationGapBranches c) (UntrackedAbortedBranches c + 1)
    (UnobservedCommittedBranches c) (MetadataConflicts c).
Definition add_gap (now at_ : Z) (c : Counters) : Counters :=
  mkCounters (ReservedExecutions c) (PreparingExecutions c) (PreparedExpiryAge c) (ConfirmationGapBranches c + 1)
    (if at_ =? 0 then OldestConfirmationObservationAge c else Z.max (OldestConfirmationObservationAge c) (age now at_))
    (if at_ =? 0 then UnagedConfirmationGapBranches c + 1 else UnagedConfirmationGapBranches c)
    (UntrackedAbortedBranches c) (UnobservedCommittedBranches c) (MetadataConflicts c).

Definition Execution (now : Z) (state : State) (started : bool) (lease : Z) (c : Counters) : result Counters :=
  if (now =? 0) || negb (validState state) || (lease =? 0) then Err ErrMetadata
  else Ok (if state == Prepared then if negb started then add_reserved c else add_preparing (age now lease) c else c).

(** Older documents omit the default audit fields. *)
Definition half_of (b : Branch) : HalfOutcome := if b_Half b == ""%string then HalfNotAttempted else b_Half b.
Definition final_of (b : Branch) : FinalOutcome := if b_Final b == ""%string then FinalNotAttempted else b_Final b.
Definition known_half (h : HalfOutcome) : bool :=
  (h == HalfNotAttempted) || (h == HalfPrepared) || (h == HalfRejected) || (h == HalfUnknown).
Definition known_final (f : FinalOutcome) : bool :=
  (f == FinalNotAttempted) || (f == FinalCommitConfirmed) || (f == FinalRollbackConfirmed) || (f == FinalUnknown).

Definition branch_conflict (state : State) (b : Branch) : bool :=
  (b_State b != state) || ((final_of b == FinalCommitConfirmed) && (state != Committed)) ||
  ((final_of b == FinalRollbackConfirmed) && (state != Aborted)).
Definition branch_unobserved (state : State) (b : Branch) : bool := (state == Committed) && (half_of b != HalfPrepared).
Definition branch_untracked (state : State) (started : bool) (b : Branch) : bool :=
  (state == Aborted) && started && (half_of b == HalfNotAttempted) && (final_of b != FinalCommitConfirmed) &&
  (final_of b != FinalRollbackConfirmed).
Definition branch_gap (state : State) (b : Branch) : bool :=
  negb ((state == Prepared) || ((half_of b != HalfPrepared) && (half_of b != HalfUnknown)) ||
        (final_of b == FinalCommitConfirmed) || (final_of b == FinalRollbackConfirmed)).

Definition branch_ok (state : State) (b : Branch) : bool :=
  validState state && validState (b_State b) && known_half (half_of b) && known_final (final_of b).

Definition observe_branch (now : Z) (state : State) (started : bool) (b : Branch) (c : Counters) : result Counters :=
  if negb (branch_ok state b) then Err ErrMetadata
  else
    let c := if branch_conflict state b then add_conflict c else c in
    let c := if branch_unobserved state b then add_unobserved c else c in
    let c := if branch_untracked state started b then add_untracked c else c in
    Ok (if branch_gap state b then add_gap now (if b_HalfAt b =? 0 then b_FinalAt b else b_HalfAt b) c else c).

(** ** Counting

    Every observation adds its own contribution: counts add up, ages keep the
    largest. *)

Definition cadd (a b : Counters) : Counters :=
  mkCounters (ReservedExecutions a + ReservedExecutions b) (PreparingExecutions a + PreparingExecutions b)
    (Z.max (PreparedExpiryAge a) (PreparedExpiryAge b)) (ConfirmationGapBranches a + ConfirmationGapBranches b)
    (Z.max (OldestConfirmationObservationAge a) (OldestConfirmationObservationAge b))
    (UnagedConfirmationGapBranches a + UnagedConfirmationGapBranches b)
    (UntrackedAbortedBranches a + UntrackedAbortedBranches b)
    (UnobservedCommittedBranches a + UnobservedCommittedBranches b) (MetadataConflicts a + MetadataConflicts b).
Fixpoint csum (l : list Counters) : Counters := match l with [] => zero | c :: l => cadd c (csum l) end.

(** The contributions, as a reader of the metrics understands them. *)
Definition bit (b : bool) : Z := if b then 1 else 0.
Definition execution_part (now : Z) (state : State) (started : bool) (lease : Z) : Counters :=
  mkCounters (bit ((state == Prepared) && negb started)) (bit ((state == Prepared) && started))
    (if (state == Prepared) && started then age now lease else 0) 0 0 0 0 0 0.
Definition branch_part (now : Z) (state : State) (started : bool) (b : Branch) : Counters :=
  let at_ := if b_HalfAt b =? 0 then b_FinalAt b else b_HalfAt b in
  mkCounters 0 0 0 (bit (branch_gap state b)) (if branch_gap state b && negb (at_ =? 0) then age now at_ else 0)
    (bit (branch_gap state b && (at_ =? 0))) (bit (branch_untracked state started b))
    (bit (branch_unobserved state b)) (bit (branch_conflict state b)).
Definition conflict_part : Counters := mkCounters 0 0 0 0 0 0 0 0 1.

Definition nonneg (c : Counters) : Prop := 0 <= PreparedExpiryAge c ∧ 0 <= OldestConfirmationObservationAge c.

Context (unit_pos : 0 < unit).

Lemma age_nonneg now at_ : 0 <= age now at_.
Proof. unfold age. destruct (_ || _) eqn:H; [lia|]. boolp. nia. Qed.

Lemma Counters_ext a b :
  ReservedExecutions a = ReservedExecutions b → PreparingExecutions a = PreparingExecutions b →
  PreparedExpiryAge a = PreparedExpiryAge b → ConfirmationGapBranches a = ConfirmationGapBranches b →
  OldestConfirmationObservationAge a = OldestConfirmationObservationAge b →
  UnagedConfirmationGapBranches a = UnagedConfirmationGapBranches b →
  UntrackedAbortedBranches a = UntrackedAbortedBranches b →
  UnobservedCommittedBranches a = UnobservedCommittedBranches b → MetadataConflicts a = MetadataConflicts b → a = b.
Proof. destruct a, b. cbn. by intros -> -> -> -> -> -> -> -> ->. Qed.

#[global] Instance cadd_comm : Comm (=) cadd.
Proof. intros a b. apply Counters_ext; cbn; lia. Qed.
#[global] Instance cadd_assoc : Assoc (=) cadd.
Proof. intros a b c. apply Counters_ext; cbn; lia. Qed.
Lemma cadd_zero c : nonneg c → cadd c zero = c.
Proof. intros [? ?]. apply Counters_ext; cbn; lia. Qed.
Lemma cadd_nonneg a b : nonneg a → nonneg (cadd a b).
Proof. intros [? ?]. split; cbn; lia. Qed.
Lemma csum_nonneg l : Forall nonneg l → nonneg (csum l).
Proof. destruct 1; [split; cbn; lia|]. by apply cadd_nonneg. Qed.
Lemma csum_app l l' : Forall nonneg l → Forall nonneg l' → csum (l ++ l') = cadd (csum l) (csum l').
Proof.
  intros Hl Hl'. induction Hl as [|c l Hc _ IH]; cbn [app csum].
  - rewrite (comm cadd), cadd_zero; [done|by apply csum_nonneg].
  - by rewrite IH, (assoc cadd).
Qed.
#[global] Instance csum_proper : Proper ((≡ₚ) ==> (=)) csum.
Proof.
  intros l l' Hp. induction Hp as [|c l l' _ IH|a b l|l1 l2 l3 _ IH1 _ IH2]; cbn [csum]; [done|by rewrite IH| |congruence].
  by rewrite !(assoc cadd), (comm cadd b a).
Qed.

Lemma execution_part_nonneg now st sd l : nonneg (execution_part now st sd l).
Proof. unfold nonneg, execution_part. cbn. pose proof (age_nonneg now l). destruct (_ && _); lia. Qed.
Lemma branch_part_nonneg now st sd b : nonneg (branch_part now st sd b).
Proof.
  unfold nonneg, branch_part. cbn. split; [lia|]. destruct (_ && _); [apply age_nonneg|lia].
Qed.

Lemma Execution_adds now st sd lease c :
  nonneg c → Execution now st sd lease c =
    if (now =? 0) || negb (validState st) || (lease =? 0) then Err ErrMetadata else Ok (cadd c (execution_part now st sd lease)).
Proof.
  intros [? ?]. unfold Execution. destruct (_ || _); [done|]. f_equal. pose proof (age_nonneg now lease).
  unfold execution_part. destruct (st == Prepared), sd; apply Counters_ext; cbn; lia.
Qed.

Lemma observe_branch_adds now st sd b c :
  nonneg c → observe_branch now st sd b c =
    if branch_ok st b then Ok (cadd c (branch_part now st sd b)) else Err ErrMetadata.
Proof.
  intros [? ?]. unfold observe_branch. destruct (branch_ok st b); [|done]. cbn [negb]. f_equal.
  unfold branch_part. set (at_ := if b_HalfAt b =? 0 then _ else _). pose proof (age_nonneg now at_).
  destruct (branch_conflict st b), (branch_unobserved st b), (branch_untracked st sd b), (branch_gap st b);
    apply Counters_ext; cbn; try lia; destruct (at_ =? 0); cbn; lia.
Qed.

(** A loop of contributions. *)
Lemma rfold_adds {A} (f : Counters → A → result Counters) (ok : A → bool) (part : A → Counters) l c r :
  (∀ x c, nonneg c → (∀ r, f c x = Ok r ↔ ok x = true ∧ r = cadd c (part x))) → (∀ x, nonneg (part x)) → nonneg c →
  rfold f l c = Ok r ↔ forallb ok l = true ∧ r = cadd c (csum (map part l)).
Proof.
  intros Hf Hp. revert c. induction l as [|x l IH]; intros c Hc; cbn [rfold forallb map csum].
  - rewrite cadd_zero by done. split; [by intros [= ->]|by intros [_ ->]].
  - rewrite rbind_Ok. split.
    + intros (c1&[Hx ->]%Hf&H); [|done]. apply IH in H as [Hl ->]; [|by apply cadd_nonneg].
      rewrite Hx, Hl. split; [done|]. by rewrite (assoc cadd).
    + intros [[Hx Hl]%andb_true_iff ->]. exists (cadd c (part x)). split; [by apply Hf|].
      apply IH; [by apply cadd_nonneg|]. split; [done|]. by rewrite (assoc cadd).
Qed.
End accumulator.

(** ** Mongo *)

Section mongo.
Import txmongo.
Context (b : Binding) (scan : list executionDoc → list executionDoc).
Definition mongo_unit : Z := 1000000.

Definition mongo_branch (br : branchDoc) : Branch :=
  mkBranch (bd_State br) (bd_Half br) (bd_Final br) (default 0 (bd_HalfAt br)) (default 0 (bd_FinalAt br)).

Definition observe_doc (now : Z) (c : Counters) (d : executionDoc) : result Counters :=
  try c <- Execution mongo_unit now (d_State d) (d_PrepareStarted d) (d_Lease d) c;
  let c := match d_Branches d with [] => add_conflict c | _ => c end in
  rfold (λ c br, observe_branch mongo_unit now (d_State d) (d_PrepareStarted d) (mongo_branch br) c) (d_Branches d) c.

(** The documents of the owner, in the order of the cursor. *)
Definition owned_docs (s : DB) : list executionDoc :=
  filter (λ d, d_Owner d = bn_Owner b) (map snd (map_to_list (execs s))).

Definition ObserveMongo : M DB ProtocolObservation := in_read_tx (
  now ← query (λ t s, match bindings s !! bn_Owner b with
                      | None => Err ErrBinding
                      | Some (store, epoch, version) =>
                        if (store != StoreID b) || (epoch != bn_WriterEpoch b) then Err ErrBinding
                        else if negb (version =? SchemaVersion) then Err ErrSchema
                        else if t_now t =? 0 then Err ErrMetadata
                        else Ok (t_now t)
                      end);
  c ← query (λ _ s, rfold (observe_doc now) (scan (owned_docs s)) zero);
  mret (mkObservation now c)).

(** The reference: every document of the owner contributes its execution, its
    branches, and a conflict when it has none. *)
Definition doc_part (now : Z) (d : executionDoc) : Counters :=
  cadd (execution_part mongo_unit now (d_State d) (d_PrepareStarted d) (d_Lease d))
    (match d_Branches d with
     | [] => conflict_part
     | brs => csum (map (λ br, branch_part mongo_unit now (d_State d) (d_PrepareStarted d) (mongo_branch br)) brs)
     end).
Definition doc_readable (now : Z) (d : executionDoc) : bool :=
  negb ((now =? 0) || negb (validState (d_State d)) || (d_Lease d =? 0)) &&
  forallb (λ br, branch_ok (d_State d) (mongo_branch br)) (d_Branches d).

Lemma observe_doc_adds now d c r :
  nonneg c → observe_doc now c d = Ok r ↔ doc_readable now d = true ∧ r = cadd c (doc_part now d).
Proof.
  intros Hc. unfold observe_doc, doc_readable, doc_part. rewrite (Execution_adds mongo_unit eq_refl) by done.
  destruct (_ || _); cbn [rbind negb andb]; [split; [done|by intros [? _]]|].
  set (e := execution_part _ _ _ _ _). assert (He : nonneg (cadd c e)) by (by apply cadd_nonneg).
  destruct (d_Branches d) as [|br brs] eqn:Hb.
  - cbn. assert (Hadd : add_conflict (cadd c e) = cadd c (cadd e conflict_part)).
    { rewrite (assoc cadd). destruct He as [? ?]. apply Counters_ext; cbn in *; lia. }
    rewrite Hadd. naive_solver.
  - rewrite (assoc cadd). apply (rfold_adds _ (λ br, branch_ok (d_State d) (mongo_branch br))
      (λ br, branch_part mongo_unit now (d_State d) (d_PrepareStarted d) (mongo_branch br))); [|by intros; apply branch_part_nonneg|done].
    intros x c' Hc' r'. rewrite (observe_branch_adds mongo_unit eq_refl) by done. destruct (branch_ok _ _); naive_solver.
Qed.

Lemma doc_part_nonneg now d : nonneg (doc_part now d).
Proof. apply cadd_nonneg, execution_part_nonneg. done. Qed.

Context (scan_perm : ∀ l, scan l ≡ₚ l).

Lemma mongo_observes now s c :
  rfold (observe_doc now) (scan (owned_docs s)) zero = Ok c ↔
  forallb (doc_readable now) (owned_docs s) = true ∧ c = csum (map (doc_part now) (owned_docs s)).
Proof.
  rewrite (rfold_adds _ (doc_readable now) (doc_part now)).
  - assert (Hf : forallb (doc_readable now) (scan (owned_docs s)) = forallb (doc_readable now) (owned_docs s)).
    { apply eq_true_iff_eq. rewrite !forallb_forall. setoid_rewrite <- list_elem_of_In. by setoid_rewrite (scan_perm (owned_docs s)). }
    rewrite Hf, (scan_perm (owned_docs s)), (comm cadd), cadd_zero; [done|]. apply csum_nonneg, Forall_fmap, Forall_true.
    intros d. apply doc_part_nonneg.
  - intros. by apply observe_doc_adds.
  - apply doc_part_nonneg.
  - split; cbn; lia.
Qed.
End mongo.

(** ** MySQL *)

Section mysql.
Import txmysql.
Context (b : Binding).
Definition mysql_unit : Z := 1000.

(** A row of the joined statement. *)
Record Row : Type := mkRow {
  o_store : string; o_epoch : string; o_version : Z;
  o_exec : option (bytes * ExecRow); o_witness : option (bytes * WitnessRow); o_first : bool
}.

Definition mysql_branch (v : WitnessRow) : Branch :=
  mkBranch (w_state v) (w_half_outcome v) (w_final_outcome v) (default 0 (w_half_at v)) (default 0 (w_final_at v)).

Definition observe_witness (now : Z) (x : ExecRow) (bk : bytes) (v : WitnessRow) (c : Counters) : result Counters :=
  if negb (len bk =? 32) || (w_half_outcome v == ""%string) || (w_final_outcome v == ""%string) then Err ErrMetadata
  else observe_branch mysql_unit now (x_state x) (x_prepare_started x) (mysql_branch v) c.

Definition observe_row (now : Z) (c : Counters) (row : Row) : result Counters :=
  if (o_store row != StoreID b) || (o_epoch row != bn_WriterEpoch b) then Err ErrBinding
  else if negb (o_version row =? SchemaVersion) then Err ErrSchema
  else match o_exec row with
  | None => Ok c
  | Some (ek, x) =>
    if negb (len ek =? 32) then Err ErrMetadata
    else
      try c <- (if o_first row then Execution mysql_unit now (x_state x) (x_prepare_started x) (x_lease_until x) c else Ok c);
      match o_witness row with
      | None => Ok (add_conflict c)
      | Some (bk, v) => observe_witness now x bk v c
      end
  end.

(** The least branch key of an execution, [MIN(branch_key)]. *)
Fixpoint min_key (k : bytes) (l : list bytes) : bytes :=
  match l with
  | [] => k
  | k' :: l => min_key (if String.ltb k' k then k' else k) l
  end.

Definition witnesses_of (s : DB) (k : bytes) : list (bytes * WitnessRow) :=
  omap (λ e : bytes * bytes * WitnessRow, if e.1.1 == k then Some (e.1.2, e.2) else None) (map_to_list (witnesses s)).
Definition owned_execs (s : DB) : list (bytes * ExecRow) :=
  filter (λ e, x_owner e.2 = bn_Owner b) (map_to_list (execs s)).

(** [observation.sql]: two outer joins. *)
Definition exec_rows (id epoch : string) (version : Z) (s : DB) (e : bytes * ExecRow) : list Row :=
  match witnesses_of s e.1 with
  | [] => [mkRow id epoch version (Some e) None true]
  | w :: ws => map (λ v, mkRow id epoch version (Some e) (Some v) (v.1 == min_key w.1 (map fst ws))) (w :: ws)
  end.
Definition observation_rows (s : DB) : list Row :=
  match bindings s !! bn_Owner b with
  | None => []
  | Some (id, epoch, version) =>
    match owned_execs s with
    | [] => [mkRow id epoch version None None true]
    | es => es ≫= exec_rows id epoch version s
    end
  end.

Context (scan : list Row → list Row).

Definition ObserveMySQL : M DB ProtocolObservation :=
  query (λ t s,
    let rows := scan (observation_rows s) in
    try c <- rfold (observe_row (t_now t)) rows zero;
    match rows with
    | [] => Err ErrBinding
    | _ => if t_now t =? 0 then Err ErrBinding else Ok (mkObservation (t_now t) c)
    end).

(** The reference, of the tables. *)
Definition exec_part (now : Z) (s : DB) (e : bytes * ExecRow) : Counters :=
  cadd (execution_part mysql_unit now (x_state e.2) (x_prepare_started e.2) (x_lease_until e.2))
    (match witnesses_of s e.1 with
     | [] => conflict_part
     | ws => csum (map (λ v, branch_part mysql_unit now (x_state e.2) (x_prepare_started e.2) (mysql_branch v.2)) ws)
     end).
Definition witness_readable (x : ExecRow) (v : bytes * WitnessRow) : bool :=
  (len v.1 =? 32) && (w_half_outcome v.2 != ""%string) && (w_final_outcome v.2 != ""%string) &&
  branch_ok (x_state x) (mysql_branch v.2).
Definition exec_readable (now : Z) (s : DB) (e : bytes * ExecRow) : bool :=
  (len e.1 =? 32) && negb ((now =? 0) || negb (validState (x_state e.2)) || (x_lease_until e.2 =? 0)) &&
  forallb (witness_readable e.2) (witnesses_of s e.1).

(** What one row contributes and whether it is accepted. *)
Definition row_part (now : Z) (row : Row) : Counters :=
  match o_exec row with
  | None => zero
  | Some (_, x) =>
    cadd (if o_first row then execution_part mysql_unit now (x_state x) (x_prepare_started x) (x_lease_until x) else zero)
      (match o_witness row with
       | None => conflict_part
       | Some (_, v) => branch_part mysql_unit now (x_state x) (x_prepare_started x) (mysql_branch v)
       end)
  end.
Definition row_readable (now : Z) (row : Row) : bool :=
  (o_store row == StoreID b) && (o_epoch row == bn_WriterEpoch b) && (o_version row =? SchemaVersion) &&
  match o_exec row with
  | None => true
  | Some (ek, x) =>
    (len ek =? 32) &&
    (negb (o_first row) || negb ((now =? 0) || negb (validState (x_state x)) || (x_lease_until x =? 0))) &&
    match o_witness row with None => true | Some v => witness_readable x v end
  end.

Lemma row_part_nonneg now row : nonneg (row_part now row).
Proof.
  unfold row_part. destruct (o_exec row) as [[ek x]|]; [|split; cbn; lia]. apply cadd_nonneg.
  destruct (o_first row); [by apply execution_part_nonneg|split; cbn; lia].
Qed.

Lemma observe_row_adds now row c r :
  nonneg c → observe_row now c row = Ok r ↔ row_readable now row = true ∧ r = cadd c (row_part now row).
Proof.
  intros Hc. unfold observe_row, row_readable, row_part.
  destruct (o_store row == StoreID b), (o_epoch row == bn_WriterEpoch b), (o_version row =? SchemaVersion);
    cbn [negb orb andb]; try (split; [done|by intros [? _]]).
  destruct (o_exec row) as [[ek x]|]; [|rewrite cadd_zero by done; naive_solver].
  destruct (len ek =? 32); cbn [negb andb]; [|split; [done|by intros [? _]]].
  assert (Hw : ∀ c0, nonneg c0 →
    match o_witness row with None => Ok (add_conflict c0) | Some (bk, v) => observe_witness now x bk v c0 end = Ok r ↔
    match o_witness row with None => true | Some v => witness_readable x v end = true ∧
    r = cadd c0 (match o_witness row with
                 | None => conflict_part
                 | Some (_, v) => branch_part mysql_unit now (x_state x) (x_prepare_started x) (mysql_branch v)
                 end)).
  { intros c0 Hc0. destruct (o_witness row) as [[bk v]|].
    - unfold observe_witness, witness_readable. cbn. destruct (len bk =? 32), (w_half_outcome v == ""%string),
        (w_final_outcome v == ""%string); cbn [negb orb andb]; try (split; [done|by intros [? _]]).
      rewrite (observe_branch_adds mysql_unit eq_refl) by done. destruct (branch_ok _ _); naive_solver.
    - assert (Ha : add_conflict c0 = cadd c0 conflict_part) by (destruct Hc0; apply Counters_ext; cbn; lia).
      rewrite Ha. naive_solver. }
  destruct (o_first row); cbn [negb orb].
  - rewrite (Execution_adds mysql_unit eq_refl) by done. destruct (_ || _) eqn:Hv; cbn [rbind negb andb];
      [split; [done|by intros [? _]]|]. rewrite Hw by (by apply cadd_nonneg). by rewrite (assoc cadd).
  - cbn [rbind]. rewrite Hw by done. by rewrite (assoc cadd), cadd_zero.
Qed.

(** ** One row of an execution counts for the execution *)

Lemma min_key_in k l : min_key k l ∈ k :: l.
Proof.
  revert k. induction l as [|k' l IH]; intros k; cbn [min_key]; [apply list_elem_of_here|].
  specialize (IH (if String.ltb k' k then k' else k)). apply elem_of_cons in IH as [->|Hin].
  - destruct (String.ltb k' k); [apply list_elem_of_further, list_elem_of_here|apply list_elem_of_here].
  - by apply list_elem_of_further, list_elem_of_further.
Qed.

Lemma witnesses_of_NoDup s k : NoDup (witnesses_of s k).*1.
Proof.
  unfold witnesses_of. pose proof (NoDup_fst_map_to_list (witnesses s)) as Hnd.
  induction (map_to_list (witnesses s)) as [|[[ek bk] v] l IH]; [constructor|].
  rewrite fmap_cons in Hnd. apply NoDup_cons in Hnd as [Hni Hnd]. specialize (IH Hnd).
  cbn. destruct (bool_decide_reflect (ek = k)) as [->|]; [|done]. cbn. apply NoDup_cons. split; [|done].
  intros ([bk' v']&Heq&([[ek1 bk1] v1]&Hin&Hsome)%list_elem_of_omap)%list_elem_of_fmap. cbn in *.
  destruct (bool_decide_reflect (ek1 = k)) as [->|]; [|done]. injection Hsome as -> _.
  apply Hni, list_elem_of_fmap. exists (k, bk', v1). by rewrite Heq.
Qed.

Lemma csum_first {V} (m : bytes) (E : Counters) (B : bytes * V → Counters) l :
  NoDup l.*1 → nonneg E → (∀ v, nonneg (B v)) →
  csum (map (λ v, cadd (if v.1 == m then E else zero) (B v)) l)
    = if decide (m ∈ l.*1) then cadd E (csum (map B l)) else csum (map B l).
Proof.
  intros Hnd HE HB. induction l as [|[k v] l IH]; [done|]. rewrite fmap_cons in Hnd. apply NoDup_cons in Hnd as [Hni Hnd].
  cbn [map csum fst]. rewrite (IH Hnd). rewrite fmap_cons. cbn [fst].
  destruct (bool_decide_reflect (k = m)) as [->|Hne].
  - rewrite (decide_False (P := m ∈ l.*1)) by done. rewrite decide_True by apply list_elem_of_here. by rewrite (assoc cadd).
  - assert (Hz : cadd zero (B (k, v)) = B (k, v)) by (rewrite (comm cadd); by apply cadd_zero). rewrite Hz.
    destruct (decide (m ∈ l.*1)) as [Hin|Hn].
    + rewrite decide_True by (by apply list_elem_of_further). by rewrite !(assoc cadd), (comm cadd E).
    + rewrite decide_False; [done|]. intros [->|?]%elem_of_cons; done.
Qed.

Lemma exec_rows_part now id epoch version s e :
  csum (map (row_part now) (exec_rows id epoch version s e)) = exec_part now s e.
Proof.
  destruct e as [k x]. unfold exec_rows, exec_part. cbn [fst snd]. pose proof (witnesses_of_NoDup s k) as Hnd.
  destruct (witnesses_of s k) as [|w ws].
  { cbn [map csum]. rewrite cadd_zero; [done|]. apply row_part_nonneg. }
  rewrite map_map. unfold row_part. cbn [o_exec o_first o_witness].
  rewrite (map_ext _ (λ v, cadd (if v.1 == min_key w.1 (map fst ws)
    then execution_part mysql_unit now (x_state x) (x_prepare_started x) (x_lease_until x) else zero)
    (branch_part mysql_unit now (x_state x) (x_prepare_started x) (mysql_branch v.2)))) by (by intros []).
  rewrite csum_first; [|done|by apply execution_part_nonneg|by intros; apply branch_part_nonneg].
  rewrite decide_True; [done|]. apply (min_key_in w.1 (map fst ws)).
Qed.

Lemma forallb_first {V} (m : bytes) (e : bool) (f : bytes * V → bool) l :
  m ∈ l.*1 → forallb (λ v, (negb (v.1 == m) || e) && f v) l = e && forallb f l.
Proof.
  intros Hm. apply eq_true_iff_eq. rewrite andb_true_iff, !forallb_forall. setoid_rewrite andb_true_iff. split.
  - intros H. split; [|by intros v Hv; apply H]. apply list_elem_of_fmap in Hm as (v&->&Hv%list_elem_of_In).
    apply H in Hv as [Hv _]. rewrite (bool_decide_eq_true_2 (v.1 = v.1)) in Hv by done. done.
  - intros [-> H] v Hv. rewrite orb_true_r. split; [done|by apply H].
Qed.

Lemma forallb_const {A} (c : bool) (f : A → bool) x l : forallb (λ v, c && f v) (x :: l) = c && forallb f (x :: l).
Proof. by destruct c. Qed.

Definition bound (id epoch : string) (version : Z) : bool :=
  (id == StoreID b) && (epoch == bn_WriterEpoch b) && (version =? SchemaVersion).

Lemma exec_rows_readable now id epoch version s e :
  forallb (row_readable now) (exec_rows id epoch version s e) = bound id epoch version && exec_readable now s e.
Proof.
  destruct e as [k x]. unfold exec_rows, exec_readable, bound. cbn [fst snd].
  destruct (witnesses_of s k) as [|w ws] eqn:Ew.
  { cbn. unfold row_readable. cbn. by rewrite !andb_true_r, !andb_assoc. }
  set (m := min_key w.1 (map fst ws)). set (good := negb ((now =? 0) || negb (validState (x_state x)) || (x_lease_until x =? 0))).
  set (bd := (id == StoreID b) && (epoch == bn_WriterEpoch b) && (version =? SchemaVersion)).
  assert (Hm : m ∈ (w :: ws).*1) by apply (min_key_in w.1 (map fst ws)).
  transitivity (bd && ((len k =? 32) && forallb (λ v, (negb (v.1 == m) || good) && witness_readable x v) (w :: ws))).
  - rewrite <- !forallb_const. generalize (w :: ws) as l. induction l as [|v l IH]; [done|]. cbn [map forallb]. rewrite IH.
    f_equal. unfold row_readable. cbn. fold bd. by rewrite !andb_assoc.
  - rewrite (forallb_first m good (witness_readable x) (w :: ws) Hm). by rewrite !andb_assoc.
Qed.

Lemma csum_bind {A} (f : A → list Row) (g : Row → Counters) l :
  (∀ row, nonneg (g row)) → csum (map g (l ≫= f)) = csum (map (λ x, csum (map g (f x))) l).
Proof.
  intros Hg. induction l as [|x l IH]; [done|]. rewrite bind_cons, map_app, csum_app.
  - cbn [map csum]. by rewrite IH.
  - by apply Forall_fmap, Forall_true.
  - by apply Forall_fmap, Forall_true.
Qed.
Lemma forallb_bind {A B} (f : A → list B) (g : B → bool) l : forallb g (l ≫= f) = forallb (λ x, forallb g (f x)) l.
Proof. induction l as [|x l IH]; [done|]. rewrite bind_cons, forallb_app. cbn. by rewrite IH. Qed.
Lemma forallb_perm {A} (f : A → bool) l l' : l ≡ₚ l' → forallb f l = forallb f l'.
Proof.
  intros Hp. apply eq_true_iff_eq. rewrite !forallb_forall. setoid_rewrite <- list_elem_of_In. by setoid_rewrite Hp.
Qed.

Context (scan_perm : ∀ l, scan l ≡ₚ l).

Lemma mysql_observes now s id epoch version c :
  bindings s !! bn_Owner b = Some (id, epoch, version) →
  rfold (observe_row now) (scan (observation_rows s)) zero = Ok c ↔
  bound id epoch version = true ∧ forallb (exec_readable now s) (owned_execs s) = true ∧
  c = csum (map (exec_part now s) (owned_execs s)).
Proof.
  intros Hb. rewrite (rfold_adds _ (row_readable now) (row_part now));
    [|by intros; apply observe_row_adds|apply row_part_nonneg|split; cbn; lia].
  rewrite (forallb_perm _ _ _ (scan_perm _)), (scan_perm (observation_rows s)), (comm cadd), cadd_zero by
    (apply csum_nonneg, Forall_fmap, Forall_true; intros; apply row_part_nonneg).
  unfold observation_rows. rewrite Hb. destruct (owned_execs s) as [|e es] eqn:He.
  - cbn. unfold row_readable, bound. cbn. rewrite !andb_true_r. naive_solver.
  - rewrite forallb_bind, csum_bind by (intros; apply row_part_nonneg).
    rewrite (map_ext _ _ (exec_rows_part now id epoch version s)).
    assert (Hf : forallb (λ x, forallb (row_readable now) (exec_rows id epoch version s x)) (e :: es)
      = bound id epoch version && forallb (exec_readable now s) (e :: es)).
    { rewrite <- forallb_const. generalize (e :: es) as l. induction l as [|x l IH]; [done|]. cbn [forallb].
      by rewrite IH, exec_rows_readable. }
    rewrite Hf, andb_true_iff. naive_solver.
Qed.

(** The store is bound for this process and every row of it is readable. *)
Definition mysql_observable (now : Z) (s : DB) : Prop :=
  (∃ id epoch version, bindings s !! bn_Owner b = Some (id, epoch, version) ∧ bound id epoch version = true) ∧
  forallb (exec_readable now s) (owned_execs s) = true.

Lemma observation_rows_nil s : bindings s !! bn_Owner b = None → scan (observation_rows s) = [].
Proof.
  intros Hb. pose proof (scan_perm (observation_rows s)) as Hp. unfold observation_rows in *. rewrite Hb in *.
  by apply Permutation_nil_r in Hp.
Qed.
Lemma observation_rows_cons s v : bindings s !! bn_Owner b = Some v → scan (observation_rows s) ≠ [].
Proof.
  intros Hb Hn. pose proof (scan_perm (observation_rows s)) as Hp. rewrite Hn in Hp. apply Permutation_nil_l in Hp.
  revert Hp. unfold observation_rows. rewrite Hb. destruct v as [[id epoch] version].
  destruct (owned_execs s) as [|e es]; [done|]. rewrite bind_cons. unfold exec_rows. by destruct (witnesses_of s e.1).
Qed.

Lemma ObserveMySQL_spec w n s obs :
  (ObserveMySQL w (n, s)).2.2 = s ∧
  ((ObserveMySQL w (n, s)).1 = Ok obs ↔
     t_fault (w n) = None ∧ t_now (w n) ≠ 0 ∧ mysql_observable (t_now (w n)) s ∧
     obs = mkObservation (t_now (w n)) (csum (map (exec_part (t_now (w n)) s) (owned_execs s)))).
Proof.
  split; [apply reads_query|]. unfold ObserveMySQL, query, stmt, mysql_observable. destruct (t_fault (w n)); [by split; [|intros [? _]]|].
  set (now := t_now (w n)). cbv zeta. destruct (bindings s !! bn_Owner b) as [[[id epoch] version]|] eqn:Hb.
  - pose proof (mysql_observes now s id epoch version) as Hobs. pose proof (observation_rows_cons s _ Hb) as Hne.
    destruct (rfold _ _ _) as [c|e] eqn:Hr; cbn [rbind].
    + destruct (proj1 (Hobs c Hb) eq_refl) as (Hbd&Hread&->).
      destruct (scan (observation_rows s)); [done|]. destruct (Z.eqb_spec now 0) as [Hz|Hz]; cbn [fst].
      * split; [done|]. by intros (_&?&_).
      * split; [intros [= <-]|intros (_&_&_&->)]; [|done]. do 2 (split; [done|]). split; [|done]. split; [|done].
        by exists id, epoch, version.
    + split; [done|]. intros (_&_&[(id'&ep'&ver'&[= <- <- <-]&Hbd) Hread]&_).
      by discriminate (proj2 (Hobs _ Hb) (conj Hbd (conj Hread eq_refl))).
  - rewrite (observation_rows_nil s Hb). cbn. split; [done|]. by intros (_&_&[(id'&ep'&ver'&?&_) _]&_).
Qed.
End mysql.

(** The Mongo store is bound and every document of it is readable. *)
Definition mongo_observable (b : Binding) (now : Z) (s : txmongo.DB) : Prop :=
  txmongo.bindings s !! bn_Owner b = Some (StoreID b, bn_WriterEpoch b, txmongo.SchemaVersion) ∧
  forallb (doc_readable now) (owned_docs b s) = true.

Lemma ObserveMongo_spec b scan w n s obs :
  (∀ l, scan l ≡ₚ l) → (ObserveMongo b scan w (n, s)).2.2 = s ∧
  ((ObserveMongo b scan w (n, s)).1 = Ok obs ↔
     t_fault (w n) = None ∧ t_fault (w (Datatypes.S n)) = None ∧ t_fault (w (Datatypes.S (Datatypes.S n))) = None ∧
     t_now (w (Datatypes.S n)) ≠ 0 ∧ mongo_observable b (t_now (w (Datatypes.S n))) s ∧
     obs = mkObservation (t_now (w (Datatypes.S n)))
             (csum (map (doc_part (t_now (w (Datatypes.S n)))) (owned_docs b s)))).
Proof.
  intros Hp. unfold ObserveMongo, in_read_tx, mbind, M_bind, query, stmt, mret, M_ret, mongo_observable.
  destruct (t_fault (w n)); [by split; [|split; [|intros [? _]]]|].
  destruct (t_fault (w (Datatypes.S n))); [by split; [|split; [|intros (_&?&_)]]|].
  set (now := t_now (w (Datatypes.S n))). cbv zeta.
  destruct (txmongo.bindings s !! bn_Owner b) as [[[id epoch] version]|]; cbn [rbind];
    [|split; [done|]; split; [done|]; by intros (_&_&_&_&[? _]&_)].
  destruct (bool_decide_reflect (id = StoreID b)) as [->|Hid], (bool_decide_reflect (epoch = bn_WriterEpoch b)) as [->|Hep];
    cbn [negb orb rbind]; try (split; [done|]; split; [done|]; intros (_&_&_&_&[[= ] _]&_); done).
  destruct (Z.eqb_spec version txmongo.SchemaVersion) as [->|Hv]; cbn [negb rbind];
    [|split; [done|]; split; [done|]; intros (_&_&_&_&[[= ] _]&_); done].
  destruct (Z.eqb_spec now 0) as [Hz|Hz]; cbn [rbind]; [split; [done|]; split; [done|]; by intros (_&_&_&?&_)|].
  destruct (t_fault (w (Datatypes.S (Datatypes.S n)))); [split; [done|]; split; [done|]; by intros (_&_&?&_)|].
  pose proof (mongo_observes b scan Hp now s) as Hobs. destruct (rfold _ _ _) as [c|e] eqn:Hr; cbn [rbind].
  - destruct (proj1 (Hobs c) eq_refl) as (Hread&->). split; [done|]. split; [intros [= <-]|intros (_&_&_&_&_&->)]; done.
  - split; [done|]. split; [done|]. intros (_&_&_&_&[_ Hread]&_). by discriminate (proj2 (Hobs _) (conj Hread eq_refl)).
Qed.

(** ** The adapters agree with the reference *)

(** C22: An observation is exactly the reference count of the stored protocol.
    Whatever order the database returns rows in, a snapshot of either store is
    the sum, over the executions of its owner, of what each execution and each of
    its branches means: no row of the join counts an execution twice, and none
    is missed.  It is given exactly when the store is bound, its clock is set and
    every row is readable, and observing changes nothing. *)
Theorem observation_reference b w n :
  (∀ scan (s : txmysql.DB) obs, (∀ l, scan l ≡ₚ l) →
     (ObserveMySQL b scan w (n, s)).2.2 = s ∧
     ((ObserveMySQL b scan w (n, s)).1 = Ok obs ↔
        t_fault (w n) = None ∧ t_now (w n) ≠ 0 ∧ mysql_observable b (t_now (w n)) s ∧
        obs = mkObservation (t_now (w n)) (csum (map (exec_part (t_now (w n)) s) (owned_execs b s))))) ∧
  (∀ scan (s : txmongo.DB) obs, (∀ l, scan l ≡ₚ l) →
     (ObserveMongo b scan w (n, s)).2.2 = s ∧
     ((ObserveMongo b scan w (n, s)).1 = Ok obs ↔
        t_fault (w n) = None ∧ t_fault (w (Datatypes.S n)) = None ∧ t_fault (w (Datatypes.S (Datatypes.S n))) = None ∧
        t_now (w (Datatypes.S n)) ≠ 0 ∧ mongo_observable b (t_now (w (Datatypes.S n))) s ∧
        obs = mkObservation (t_now (w (Datatypes.S n)))
                (csum (map (doc_part (t_now (w (Datatypes.S n)))) (owned_docs b s))))).
Proof.
  split; intros scan s obs Hp; [by apply ObserveMySQL_spec|by apply ObserveMongo_spec].
Qed.

(** ** The shared cases of contracts/transaction-observation-v1.json *)

Definition ex_now : Z := 63928310400000000.
Definition ex_minute : Z := 60000000.
Definition observe_case (state : State) (started : bool) (lease : Z) (br : option Branch) : result Counters :=
  try c <- Execution mysql_unit ex_now state started lease zero;
  match br with None => Ok c | Some br => observe_branch mysql_unit ex_now state started br c end.
Definition minutes_ns (k : Z) : Z := k * 60000000000.

Example ex_observed_cases :
  observe_case Committed true (ex_now + ex_minute)
    (Some (mkBranch Committed HalfPrepared FinalUnknown (ex_now - 10 * ex_minute) (ex_now - 1000000)))
    = Ok (mkCounters 0 0 0 1 (minutes_ns 10) 0 0 0 0) ∧
  observe_case Prepared false (ex_now + ex_minute) None = Ok (mkCounters 1 0 0 0 0 0 0 0 0) ∧
  observe_case Prepared true (ex_now - 2 * ex_minute) None = Ok (mkCounters 0 1 (minutes_ns 2) 0 0 0 0 0 0) ∧
  observe_case Aborted true (ex_now + ex_minute) (Some (mkBranch Aborted HalfUnknown FinalUnknown 0 0))
    = Ok (mkCounters 0 0 0 1 0 1 0 0 0).
Proof. vm_compute. done. Qed.

(** The committed execution of [TxProtocol]: one branch whose half message was
    never recorded. *)
Lemma ex_observable : mysql_observable txprotocol.ex_binding 3500 txprotocol.ex_db3.
Proof.
  split; [exists "store-1"%string, "epoch"%string, 1; split; vm_compute; reflexivity|vm_compute; reflexivity].
Qed.

Lemma observation_reference_witness :
  (ObserveMySQL txprotocol.ex_binding id (txprotocol.ex_tick 3500) (0%nat, txprotocol.ex_db3)).1
    = Ok (mkObservation 3500 (mkCounters 0 0 0 0 0 0 0 1 0)).
Proof.
  destruct (observation_reference txprotocol.ex_binding (txprotocol.ex_tick 3500) 0%nat) as [H _].
  destruct (H id txprotocol.ex_db3 (mkObservation 3500 (mkCounters 0 0 0 0 0 0 0 1 0)) (λ l, reflexivity l)) as [_ Hi].
  apply Hi. split; [reflexivity|]. split; [discriminate|]. split; [exact ex_observable|vm_compute; reflexivity].
Defined.
End observation.
