(* ===== verification/Catalog.v ===== *)
(** * catalog: event contracts

    [config.go] and [catalog.go].  The YAML decoder and the file system are
    parameters: a configuration is the decoded value.  Go iterates maps in any
    order: every loop takes the order of its iteration ([events], [topics]), a
    permutation of the map. *)

From S2P Require Import Prelude GoStd.

Module catalog.

Record TopicConfig : Type := mkTopic { Name : string; t_Description : string }.
Record EventConfig : Type := mkEvent {
  e_Topic : string; Delivery : string; Aggregate : string; Domain : string; e_Description : string; Handler : string
}.
Record Config : Type := mkConfig { Version : string; Topics : gmap string TopicConfig; Events : gmap string EventConfig }.
Record ValidateOptions : Type := mkOptions { RequireHandler : bool; RequireTopicReferenced : bool }.
Definition StrictValidateOptions : ValidateOptions := mkOptions true true.

Definition DeliveryClassBestEffort : string := "best_effort".
Definition DeliveryClassDurableOutbox : string := "durable_outbox".
Definition DeliveryClass_Valid (c : string) : bool := (c == DeliveryClassBestEffort) || (c == DeliveryClassDurableOutbox).

(** ** Validation *)

Definition check_event (c : Config) (opts : ValidateOptions) (referenced : gset string) (e : string * EventConfig)
    : result (gset string) :=
  match Topics c !! e_Topic e.2 with
  | None => Err (ErrMsg "event references unknown topic")
  | Some _ =>
    if RequireHandler opts && (Handler e.2 == ""%string) then Err (ErrMsg "event has empty handler")
    else if Delivery e.2 == ""%string then Err (ErrMsg "event has empty delivery")
    else if negb (DeliveryClass_Valid (Delivery e.2)) then Err (ErrMsg "event has invalid delivery")
    else Ok ({[e_Topic e.2]} ∪ referenced)
  end.
Definition ValidateWithOptions (c : Config) (opts : ValidateOptions) (events : list (string * EventConfig))
    (topics : list (string * TopicConfig)) : result () :=
  try referenced <- rfold (check_event c opts) events ∅;
  if RequireTopicReferenced opts then
    rfold (λ _ t, if bool_decide (t.1 ∈ referenced) then Ok () else Err (ErrMsg "topic has no events")) topics ()
  else Ok ().

(** ** Queries of the configuration *)

Definition GetTopicName (c : Config) (eventType : string) : option string :=
  e ← Events c !! eventType; t ← Topics c !! e_Topic e; Some (Name t).
Definition GetEventsByTopic (events : list (string * EventConfig)) (topicKey : string) : list string :=
  map fst (filter (λ e, e_Topic e.2 = topicKey) events).
Definition GetHandlerName (c : Config) (eventType : string) : string * bool :=
  match Events c !! eventType with None => (""%string, false) | Some e => (Handler e, Handler e != ""%string) end.
Definition GetDeliveryClass (c : Config) (eventType : string) : option string :=
  e ← Events c !! eventType; if Delivery e == ""%string then None else Some (Delivery e).

(** ** The catalog *)

Record Catalog : Type := mkCatalog {
  config : Config; eventToTopic : gmap string string; topicToEvents : gmap string (list string)
}.
Definition add_event (c : Config) (cat : Catalog) (e : string * EventConfig) : Catalog :=
  match Topics c !! e_Topic e.2 with
  | None => cat
  | Some t => mkCatalog (config cat) (<[e.1 := Name t]> (eventToTopic cat))
                (<[Name t := default [] (topicToEvents cat !! Name t) ++ [e.1]]> (topicToEvents cat))
  end.
Definition NewCatalog (c : Config) (events : list (string * EventConfig)) : Catalog :=
  fold_left (add_event c) events (mkCatalog c ∅ ∅).

Definition GetTopicForEvent (cat : Catalog) (eventType : string) : option string := eventToTopic cat !! eventType.
Definition GetEventsForTopic (cat : Catalog) (topicName : string) : list string := default [] (topicToEvents cat !! topicName).
Definition IsDurableOutbox (cat : Catalog) (eventType : string) : bool :=
  match GetDeliveryClass (config cat) eventType with Some d => d == DeliveryClassDurableOutbox | None => false end.
Definition IsEventRegistered (cat : Catalog) (eventType : string) : bool := bool_decide (is_Some (eventToTopic cat !! eventType)).
Definition AllTopicNames (cat : Catalog) : list string := map fst (map_to_list (topicToEvents cat)).

Record TopicSubscription : Type := mkSubscription { TopicName : string; TopicKey : string; EventTypes : list string }.
Definition TopicSubscriptions (topics : list (string * TopicConfig)) (events : list (string * EventConfig))
    : list TopicSubscription :=
  omap (λ t, match GetEventsByTopic events t.1 with
             | [] => None
             | es => Some (mkSubscription (Name t.2) t.1 es)
             end) topics.

(** ** Theorems *)

Definition event_ok (c : Config) (opts : ValidateOptions) (e : EventConfig) : Prop :=
  is_Some (Topics c !! e_Topic e) ∧ (RequireHandler opts = true → Handler e ≠ ""%string) ∧
  (Delivery e = DeliveryClassBestEffort ∨ Delivery e = DeliveryClassDurableOutbox).

Lemma check_event_Ok c opts r e r' :
  check_event c opts r e = Ok r' ↔ event_ok c opts e.2 ∧ r' = {[e_Topic e.2]} ∪ r.
Proof.
  unfold check_event, event_ok. destruct (Topics c !! e_Topic e.2); [|split; [done|by intros [[[? ?] _] _]]].
  destruct (RequireHandler opts); destruct (bool_decide_reflect (Handler e.2 = ""%string)) as [Hh|Hh]; cbn [andb].
  1: split; [done|]; intros [(_&Hn&_) _]; by destruct (Hn eq_refl).
  all: destruct (bool_decide_reflect (Delivery e.2 = ""%string)) as [Hd|Hd];
    [split; [done|]; rewrite Hd; by intros [(_&_&[?|?]) _]|].
  all: unfold DeliveryClass_Valid; destruct (bool_decide_reflect (Delivery e.2 = DeliveryClassBestEffort)),
    (bool_decide_reflect (Delivery e.2 = DeliveryClassDurableOutbox)); cbn; naive_solver.
Qed.

Lemma check_events_Ok c opts events r r' :
  rfold (check_event c opts) events r = Ok r' ↔
  Forall (λ e, event_ok c opts e.2) events ∧ r' = foldl (λ s e, {[e_Topic e.2]} ∪ s) r events.
Proof.
  revert r. induction events as [|e events IH]; intros r; cbn [rfold foldl].
  - split; [by intros [= ->]|by intros [_ ->]].
  - rewrite rbind_Ok, Forall_cons. split.
    + intros (r1&[? ->]%check_event_Ok&[? ->]%IH). done.
    + intros [[? ?] ->]. eexists. split; [by apply check_event_Ok|by apply IH].
Qed.

Lemma elem_of_referenced x events (r : gset string) :
  x ∈ foldl (λ s e, {[e_Topic e.2]} ∪ s) r events ↔ x ∈ r ∨ ∃ e : string * EventConfig, e ∈ events ∧ e_Topic e.2 = x.
Proof.
  revert r. induction events as [|e events IH]; intros r; cbn [foldl]; [set_solver|]. rewrite IH. set_solver.
Qed.

Lemma check_topics_Ok (r : gset string) (topics : list (string * TopicConfig)) :
  rfold (λ _ t, if bool_decide (t.1 ∈ r) then Ok () else Err (ErrMsg "topic has no events")) topics () = Ok () ↔
  Forall (λ t, t.1 ∈ r) topics.
Proof.
  induction topics as [|t topics IH]; cbn [rfold]; [done|]. rewrite rbind_Ok, Forall_cons.
  destruct (bool_decide_reflect (t.1 ∈ r)); naive_solver.
Qed.

Lemma omap_fst_NoDup {A B} (f : A * B → option A) l :
  (∀ e y, f e = Some y → y = e.1) → NoDup l.*1 → NoDup (omap f l).
Proof.
  intros Hf. induction l as [|e l IH]; [constructor|]. rewrite fmap_cons. intros [Hni Hnd]%NoDup_cons. cbn.
  destruct (f e) as [y|] eqn:Hy; [|by apply IH]. constructor; [|by apply IH]. rewrite (Hf _ _ Hy).
  intros (e'&Hin&He'%Hf)%list_elem_of_omap. apply Hni, list_elem_of_fmap. by exists e'.
Qed.

Section built.
Context (c : Config).

(** What the loop of [NewCatalog] has collected. *)
Definition collected (l : list (string * EventConfig)) (cat : Catalog) : Prop :=
  config cat = c ∧
  (∀ k n, eventToTopic cat !! k = Some n ↔ ∃ e t, (k, e) ∈ l ∧ Topics c !! e_Topic e = Some t ∧ n = Name t) ∧
  (∀ n, default [] (topicToEvents cat !! n)
        = omap (λ e : string * EventConfig, t ← Topics c !! e_Topic e.2; if Name t == n then Some e.1 else None) l).

Lemma add_event_collected l cat e :
  NoDup (l ++ [e]).*1 → collected l cat → collected (l ++ [e]) (add_event c cat e).
Proof.
  intros Hnd (Hc&He&Ht). destruct e as [k e]. rewrite fmap_app in Hnd. apply NoDup_app in Hnd as (_&Hni&_).
  assert (Hk : ∀ e', (k, e') ∉ l).
  { intros e' Hin. apply (Hni k); [apply list_elem_of_fmap; by exists (k, e')|apply list_elem_of_here]. }
  unfold add_event. cbn [fst snd]. destruct (Topics c !! e_Topic e) as [t|] eqn:Hto.
  - split; [done|]. split.
    + intros k' n. cbn. rewrite lookup_insert_Some, He. setoid_rewrite elem_of_app. setoid_rewrite list_elem_of_singleton.
      split.
      * intros [[<- <-]|[Hne (e'&t'&Hin&Ht'&->)]]; [exists e, t; auto|exists e', t'; auto].
      * intros (e'&t'&[Hin|[= -> ->]]&Ht'&->); [right|left].
        -- split; [intros <-; by eapply Hk|by exists e', t'].
        -- split; [done|congruence].
    + intros n. cbn. rewrite omap_app. cbn. rewrite Hto. cbn. destruct (decide (Name t = n)) as [<-|Hne].
      * rewrite lookup_insert_eq, bool_decide_eq_true_2 by done. cbn. by rewrite Ht.
      * rewrite lookup_insert_ne, bool_decide_eq_false_2 by done. cbn. by rewrite app_nil_r.
  - split; [done|]. split.
    + intros k' n. rewrite He. setoid_rewrite elem_of_app. setoid_rewrite list_elem_of_singleton. naive_solver.
    + intros n. rewrite omap_app. cbn. rewrite Hto. cbn. by rewrite app_nil_r.
Qed.

Lemma fold_collected l : NoDup l.*1 → collected l (fold_left (add_event c) l (mkCatalog c ∅ ∅)).
Proof.
  induction l as [|e l IH] using rev_ind; intros Hnd; [split; [done|]; split; [|done]|].
  - intros k n. cbn. rewrite lookup_empty. split; [done|]. intros (e&t&Hin&_). by inversion Hin.
  - rewrite fold_left_app. cbn. apply add_event_collected; [done|]. apply IH.
    rewrite fmap_app in Hnd. by apply NoDup_app in Hnd as (?&_).
Qed.

Context (events : list (string * EventConfig)) (topics : list (string * TopicConfig)).
Context (events_perm : events ≡ₚ map_to_list (Events c)) (topics_perm : topics ≡ₚ map_to_list (Topics c)).

Lemma events_lookup k e : (k, e) ∈ events ↔ Events c !! k = Some e.
Proof. rewrite events_perm. apply elem_of_map_to_list. Qed.
Lemma topics_lookup k t : (k, t) ∈ topics ↔ Topics c !! k = Some t.
Proof. rewrite topics_perm. apply elem_of_map_to_list. Qed.
Lemma events_NoDup : NoDup events.*1.
Proof. rewrite events_perm. apply NoDup_fst_map_to_list. Qed.


(** [ValidateWithOptions] in terms of the maps alone. *)
Definition config_ok (opts : ValidateOptions) : Prop :=
  map_Forall (λ _ e, event_ok c opts e) (Events c) ∧
  (RequireTopicReferenced opts = true → ∀ k, is_Some (Topics c !! k) → ∃ ty e, Events c !! ty = Some e ∧ e_Topic e = k).

Lemma ValidateWithOptions_spec opts : ValidateWithOptions c opts events topics = Ok () ↔ config_ok opts.
Proof.
  unfold ValidateWithOptions, config_ok. rewrite rbind_Ok.
  assert (Hev : Forall (λ e, event_ok c opts e.2) events ↔ map_Forall (λ _ e, event_ok c opts e) (Events c)).
  { rewrite Forall_forall. split.
    - intros H k e Hk. by apply (H (k, e)), events_lookup.
    - intros H [k e] Hin%events_lookup. by eapply H. }
  assert (Href : Forall (λ t, t.1 ∈ foldl (λ s e, {[e_Topic e.2]} ∪ s) (∅ : gset string) events) topics ↔
    ∀ k, is_Some (Topics c !! k) → ∃ ty e, Events c !! ty = Some e ∧ e_Topic e = k).
  { rewrite Forall_forall. split.
    - intros H k [t Ht]. apply topics_lookup in Ht. apply H, elem_of_referenced in Ht as [?|([ty e]&Hin&He)]; [set_solver|].
      apply events_lookup in Hin. by exists ty, e.
    - intros H [k t] Hin%topics_lookup. apply elem_of_referenced. right.
      destruct (H k (mk_is_Some _ _ Hin)) as (ty&e&Hty&He). exists (ty, e). split; [by apply events_lookup|done]. }
  split.
  - intros (r&[Hf ->]%check_events_Ok&H). split; [by apply Hev|]. intros Hreq. rewrite Hreq in H.
    apply Href. by apply check_topics_Ok.
  - intros [Hf Hr]. eexists. split; [by apply check_events_Ok; split; [apply Hev|]|].
    destruct (RequireTopicReferenced opts); [|done]. by apply check_topics_Ok, Href, Hr.
Qed.

(** A validated catalog routes every event.  Validation accepts exactly the
    configurations whose events name a known topic, a delivery class and (when
    required) a handler, and whose topics are used, in whatever order Go iterates
    the maps.  In the catalog of an accepted configuration every declared event
    and no other has a topic, the one the configuration names; the events listed
    for a topic are exactly those routed to it, each once; and the durable events
    are those declared so. *)
Theorem catalog_routes opts :
  (ValidateWithOptions c opts events topics = Ok () ↔ config_ok opts) ∧
  (config_ok opts → ∀ ty,
     GetTopicForEvent (NewCatalog c events) ty = GetTopicName c ty ∧
     (IsEventRegistered (NewCatalog c events) ty = true ↔ is_Some (Events c !! ty)) ∧
     (IsDurableOutbox (NewCatalog c events) ty = true ↔
        ∃ e, Events c !! ty = Some e ∧ Delivery e = DeliveryClassDurableOutbox) ∧
     ∀ n, NoDup (GetEventsForTopic (NewCatalog c events) n) ∧
       (ty ∈ GetEventsForTopic (NewCatalog c events) n ↔ GetTopicForEvent (NewCatalog c events) ty = Some n)).
Proof.
  split; [apply ValidateWithOptions_spec|]. intros [Hev _] ty.
  destruct (fold_collected events events_NoDup) as (Hc&He&Ht). fold (NewCatalog c events) in Hc, He, Ht.
  assert (Htopic : ∀ ty n, GetTopicForEvent (NewCatalog c events) ty = Some n ↔
    ∃ e t, Events c !! ty = Some e ∧ Topics c !! e_Topic e = Some t ∧ n = Name t).
  { intros ty' n. unfold GetTopicForEvent. rewrite He. by setoid_rewrite events_lookup. }
  split; [|split; [|split]].
  - apply option_eq. intros n. rewrite Htopic. unfold GetTopicName. rewrite bind_Some. setoid_rewrite bind_Some. naive_solver.
  - unfold IsEventRegistered. rewrite bool_decide_eq_true. split.
    + intros [n (e&t&?&_)%Htopic]. by exists e.
    + intros [e Hty]. destruct (Hev _ _ Hty) as ([t Ht']&_). exists (Name t). apply Htopic. by exists e, t.
  - unfold IsDurableOutbox, GetDeliveryClass. rewrite Hc. destruct (Events c !! ty) as [e|] eqn:Hty; cbn; [|naive_solver].
    destruct (Hev _ _ Hty) as (_&_&Hd). destruct (bool_decide_reflect (Delivery e = ""%string)) as [H0|H0].
    + rewrite H0 in Hd. by destruct Hd.
    + rewrite bool_decide_eq_true. naive_solver.
  - intros n. unfold GetEventsForTopic. rewrite Ht. split.
    + apply omap_fst_NoDup; [|apply events_NoDup]. intros e y (t&_&H)%bind_Some. by destruct (Name t == n); simplify_eq.
    + rewrite list_elem_of_omap, Htopic. setoid_rewrite bind_Some. split.
      * intros ([k e]&Hin%events_lookup&t&Ht'&H). cbn in *. destruct (bool_decide_reflect (Name t = n)); [|done].
        injection H as ->. by exists e, t.
      * intros (e&t&Hty&Ht'&->). exists (ty, e). split; [by apply events_lookup|]. exists t. split; [done|].
        by rewrite bool_decide_eq_true_2.
Qed.
End built.

Definition ex_config : Config := mkConfig "1"
  {["orders"%string := mkTopic "shop.orders" ""]}
  {["order.created"%string := mkEvent "orders" "durable_outbox" "" "" "" "onCreated"]}.
Lemma catalog_routes_witness :
  ValidateWithOptions ex_config StrictValidateOptions (map_to_list (Events ex_config)) (map_to_list (Topics ex_config)) = Ok () ∧
  GetTopicForEvent (NewCatalog ex_config (map_to_list (Events ex_config))) "order.created" = Some "shop.orders"%string.
Proof.
  destruct (catalog_routes ex_config (map_to_list (Events ex_config)) (map_to_list (Topics ex_config)) (reflexivity _)
    (reflexivity _) StrictValidateOptions) as [Hv Hr].
  split; [vm_compute; reflexivity|]. rewrite (proj1 (Hr (proj1 Hv ltac:(vm_compute; reflexivity)) "order.created"%string)).
  vm_compute. reflexivity.
Defined.

(** ** Loading *)

Definition Validate (c : Config) (events : list (string * EventConfig)) (topics : list (string * TopicConfig)) : result () :=
  ValidateWithOptions c StrictValidateOptions events topics.
Definition GetTopicKeys (topics : list (string * TopicConfig)) : list string := topics.*1.
Definition ListEventTypes (events : list (string * EventConfig)) : list string := events.*1.

(** The accessors of a catalog; [None] is the nil pointer. *)
Definition Catalog_Config (cat : option Catalog) : option Config := config <$> cat.
Definition GetTopicConfig (cat : option Catalog) (topicKey : string) : option TopicConfig := c ← Catalog_Config cat; Topics c !! topicKey.
Definition GetEventConfig (cat : option Catalog) (eventType : string) : option EventConfig := c ← Catalog_Config cat; Events c !! eventType.
Definition Catalog_GetDeliveryClass (cat : option Catalog) (eventType : string) : option string := c ← Catalog_Config cat; GetDeliveryClass c eventType.

Section load.
(** [os.ReadFile], the YAML decoder, and the orders in which maps are traversed. *)
Context (ReadFile : string → result bytes) (Unmarshal : bytes → result Config)
  (events_of : Config → list (string * EventConfig)) (topics_of : Config → list (string * TopicConfig)).

Definition ParseWithOptions (data : bytes) (opts : ValidateOptions) : result Config :=
  match Unmarshal data with
  | Err e => Err (ErrWrap "failed to parse config" e)
  | Ok cfg => match ValidateWithOptions cfg opts (events_of cfg) (topics_of cfg) with
              | Err e => Err (ErrWrap "config validation failed" e)
              | Ok _ => Ok cfg
              end
  end.
Definition Parse (data : bytes) : result Config := ParseWithOptions data StrictValidateOptions.
Definition LoadWithOptions (path : string) (opts : ValidateOptions) : result Config :=
  match ReadFile path with
  | Err e => Err (ErrWrap "failed to read config file" e)
  | Ok data => ParseWithOptions data opts
  end.
Definition Load (path : string) : result Config := LoadWithOptions path StrictValidateOptions.

Context (events_order : ∀ c, events_of c ≡ₚ map_to_list (Events c)) (topics_order : ∀ c, topics_of c ≡ₚ map_to_list (Topics c)).

(** A configuration is loaded exactly when its file decodes to it and it is valid:
    the order in which maps are traversed decides only which error is reported. *)
Theorem load_valid path opts c :
  LoadWithOptions path opts = Ok c ↔ ∃ data, ReadFile path = Ok data ∧ Unmarshal data = Ok c ∧ config_ok c opts.
Proof using events_order topics_order.
  unfold LoadWithOptions, ParseWithOptions. destruct (ReadFile path) as [data|e]; [|naive_solver]. destruct (Unmarshal data) as [c'|e] eqn:E; [|split; [done|intros (d&Hd&Hu&_); simplify_eq; congruence]].
  pose proof (ValidateWithOptions_spec c' (events_of c') (topics_of c') (events_order c') (topics_order c') opts) as Hv.
  destruct (ValidateWithOptions c' opts (events_of c') (topics_of c')) as [[]|e] eqn:Ev.
  - split; [intros [= <-]; exists data; split_and!; [done..|by apply Hv]|]. intros (d&Hd&Hu&_). simplify_eq. congruence.
  - split; [done|]. intros (d&Hd&Hu&Hc). simplify_eq. rewrite E in Hu. injection Hu as ->. by apply Hv in Hc.
Qed.
End load.

Lemma load_valid_witness : config_ok ex_config StrictValidateOptions.
Proof.
  assert (H : LoadWithOptions (λ _, Ok ""%string) (λ _, Ok ex_config) (λ c, map_to_list (Events c)) (λ c, map_to_list (Topics c)) "events.yaml" StrictValidateOptions = Ok ex_config)
    by (vm_compute; reflexivity).
  apply (load_valid (λ _, Ok ""%string) (λ _, Ok ex_config) (λ c, map_to_list (Events c)) (λ c, map_to_list (Topics c))
    (λ c, reflexivity _) (λ c, reflexivity _)) in H as (d&_&_&Hc). exact Hc.
Defined.
End catalog.
