(* ===== verification/Delivery.v ===== *)
(** * delivery/mysql: broker-published and business-confirmed deliveries

    [delivery/mysql/outbox.go] and its reference [schema.sql].  The host stages
    rows in its own transaction; a delivery loop reads [Pending], publishes and
    reports [Published], [Retry] or [Hold]; the receiver's durable receipt ends in
    [Confirm].  The table is a finite map from the primary key to rows, every SQL
    statement is one statement of [Database], and times are DATETIME(6)
    microseconds.  Text columns compare with PAD SPACE collations. *)

From S2P Require Import Prelude GoStd Database.
From Stdlib Require Import Ascii.

Module delivery.

(** ** Data *)

Record Identity : Type := mkIdentity { Producer : string; Destination : string; MessageID : string }.

Record Record_ : Type := mkRecord {
  Id : Identity;
  BodySHA256 : string;
  Body : bytes; Wire : bytes;
  Topic : string; AggregateKey : string;
  AggregateSequence : Z;
  Ordered : bool; RequiresReceipt : bool;
  Stage : string;
  Attempts : Z
}.

(** One row of the host's table. *)
Record Row : Type := mkRow {
  rec : Record_;
  available_at : Z; created_at : Z;
  published_at : option Z; confirmed_at : option Z;
  error_code : string
}.

#[global] Instance Identity_eq_dec : EqDecision Identity.
Proof. solve_decision. Defined.
#[global] Instance Record_eq_dec : EqDecision Record_.
Proof. solve_decision. Defined.
#[global] Instance delivery_row_eq_dec : EqDecision Row.
Proof. solve_decision. Defined.

(** A PAD SPACE collation ignores trailing spaces. *)
Fixpoint rtrim (s : string) : string :=
  match s with
  | EmptyString => EmptyString
  | String a t =>
    let t' := rtrim t in
    if (t' == ""%string) && (a == " "%char) then EmptyString else String a t'
  end.
Definition sql_eq (a b : string) : bool := rtrim a == rtrim b.

(** PRIMARY KEY (producer, destination, message_id) *)
Abbreviation key := (string * string * string)%type (only parsing).
Definition key_of (id : Identity) : key :=
  (rtrim (Producer id), rtrim (Destination id), rtrim (MessageID id)).

Abbreviation Table := (gmap key Row) (only parsing).

(** ** New: [^[a-zA-Z_][a-zA-Z0-9_]{0,63}$] *)

Definition letter (a : ascii) : bool :=
  in_range 97 122 a || in_range 65 90 a || (a == "_"%char).

Fixpoint all_chars (p : ascii → bool) (s : string) : bool :=
  match s with EmptyString => true | String a s => p a && all_chars p s end.

Definition identifier (table : string) : bool :=
  match table with
  | EmptyString => false
  | String a s => letter a && all_chars (λ a, letter a || in_range 48 57 a) s && (len s <=? 63)
  end.

Definition New (table : string) : result string :=
  if identifier table then Ok ("`" +:+ table +:+ "`")%string
  else Err (ErrMsg "single explicit SQL table identifier required").

(** ** Reading *)

(** [valid]: the nil transaction aside. *)
Definition valid (id : Identity) : bool :=
  (Producer id != ""%string) && (Destination id != ""%string) && (MessageID id != ""%string).

(** [locked]: the row FOR UPDATE, with the hash of the caller. *)
Definition locked (id : Identity) (hash : string) : M Table Record_ :=
  if negb (valid id) then raise ErrConflict else
  r ← catch (query (λ _ s, match s !! key_of id with Some r => Ok (rec r) | None => Err ErrNoRows end));
  match r with
  | Err e => if errors_is e ErrNoRows then raise ErrConflict else raise e
  | Ok r => if BodySHA256 r != hash then raise ErrConflict else mret r
  end.

(** The NOT EXISTS clause: an older unconfirmed ordered row of the aggregate. *)
Definition older_than (n o : Record_) : bool :=
  sql_eq (Producer (Id o)) (Producer (Id n)) && sql_eq (Destination (Id o)) (Destination (Id n)) &&
  sql_eq (AggregateKey o) (AggregateKey n) && Ordered o && negb (sql_eq (Stage o) "confirmed") &&
  (AggregateSequence o <? AggregateSequence n).

Definition blocked (s : Table) (n : Record_) : bool :=
  existsb (λ p, older_than n (rec p.2)) (map_to_list s).

Definition ready (now : Z) (s : Table) (r : Row) : bool :=
  (sql_eq (Stage (rec r)) "staged" || sql_eq (Stage (rec r)) "awaiting_receipt") &&
  (available_at r <=? now) && (negb (Ordered (rec r)) || negb (blocked s (rec r))).

(** ORDER BY available_at, message_id: the column holds up to 512 octets. *)
Fixpoint pad_to (n : nat) (s : string) : string :=
  match n, s with
  | O, _ => s
  | Datatypes.S n, EmptyString => String " "%char (pad_to n "")
  | Datatypes.S n, String a s => String a (pad_to n s)
  end.

Definition scan_le (p q : Row) : Prop :=
  available_at p < available_at q ∨
  (available_at p = available_at q ∧
   String.leb (pad_to 512 (MessageID (Id (rec p)))) (pad_to 512 (MessageID (Id (rec q)))) = true).

#[global] Instance pending_le_dec : RelDecision scan_le.
Proof. intros p q. unfold scan_le. apply _. Defined.

#[global] Instance pending_le_total : Total scan_le.
Proof.
  intros p q. unfold scan_le. destruct (Z.lt_trichotomy (available_at p) (available_at q)) as [?|[?|?]]; [auto| |auto].
  destruct (string_le_total (pad_to 512 (MessageID (Id (rec p)))) (pad_to 512 (MessageID (Id (rec q))))); auto.
Qed.

#[global] Instance pending_le_trans : Transitive scan_le.
Proof.
  intros p q r. unfold scan_le. intros [?|[? H1]] [?|[? H2]]; [lia..|]. right. split; [lia|].
  by eapply string_le_trans.
Qed.

Definition select_pending (now limit : Z) (s : Table) : list Row :=
  take (Z.to_nat limit)
    (merge_sort scan_le (filter (λ r, ready now s r = true) (snd <$> map_to_list s))).

(** A row that cannot be scanned, or an iteration that fails, is the fault of the statement. *)
Definition Pending (limit : Z) : M Table (list Record_) :=
  if (limit <? 1) || (limit >? 100) then raise (ErrMsg "original transaction and bounded batch required")
  else query (λ t s, Ok (rec <$> select_pending (t_now t) limit s)).

(** ** Writing *)

(** [UPDATE ... WHERE producer=? AND destination=? AND message_id=?] *)
Definition update (id : Identity) (set : Z → Row → result Row) : M Table () :=
  stmt (λ t s, match s !! key_of id with
               | Some r => try r' <- set (t_now t) r; Ok ((), <[key_of id := r']> s)
               | None => Ok ((), s)
               end).

(** BIGINT UNSIGNED: out of range is error 1690. *)
Definition inc64 (v : Z) : result Z := if v <? max_uint64 then Ok (v + 1) else Err (ErrDriver 1690).
(** VARCHAR(128) in strict mode: too long is error 1406. *)
Definition varchar128 (s : string) : result string := if len s <=? 128 then Ok s else Err (ErrDriver 1406).

Definition with_stage (stage : string) (attempts : Z) (r : Record_) : Record_ :=
  mkRecord (Id r) (BodySHA256 r) (Body r) (Wire r) (Topic r) (AggregateKey r) (AggregateSequence r)
    (Ordered r) (RequiresReceipt r) stage attempts.

Definition seconds (n : Z) : Z := n * 1000000.

Definition set_published (stage : string) (wait now : Z) (r : Row) : result Row :=
  try a <- (if RequiresReceipt (rec r) then inc64 (Attempts (rec r)) else Ok (Attempts (rec r)));
  Ok (mkRow (with_stage stage a (rec r)) (now + seconds wait) (created_at r) (Some now)
        (if RequiresReceipt (rec r) then None else Some now) "").

Definition set_confirmed (now : Z) (r : Row) : result Row :=
  Ok (mkRow (with_stage "confirmed" (Attempts (rec r)) (rec r)) (available_at r) (created_at r)
        (published_at r) (Some now) "").

Definition set_retry (delay : Z) (code : string) (now : Z) (r : Row) : result Row :=
  try a <- inc64 (Attempts (rec r)); try c <- varchar128 code;
  Ok (mkRow (with_stage (Stage (rec r)) a (rec r)) (now + seconds delay) (created_at r)
        (published_at r) (confirmed_at r) c).

Definition set_held (code : string) (_ : Z) (r : Row) : result Row :=
  try c <- varchar128 code;
  Ok (mkRow (with_stage "held" (Attempts (rec r)) (rec r)) (available_at r) (created_at r)
        (published_at r) (confirmed_at r) c).

Definition set_rearmed (now : Z) (r : Row) : result Row :=
  Ok (mkRow (with_stage "staged" (Attempts (rec r)) (rec r)) now (created_at r) (published_at r) None "").

Definition settled (stage : string) : bool := (stage == "confirmed"%string) || (stage == "held"%string).

Definition Published (id : Identity) (hash : string) (waitSeconds : Z) : M Table () :=
  if (waitSeconds <? 1) || (waitSeconds >? 60) then raise (ErrMsg "receipt wait must be 1..60 seconds") else
  r ← locked id hash;
  if settled (Stage r) then mret () else
  let stage := if RequiresReceipt r then "awaiting_receipt"%string else "confirmed"%string in
  update id (set_published stage waitSeconds).

Definition Confirm (id : Identity) (hash : string) : M Table () :=
  r ← locked id hash;
  if negb (RequiresReceipt r) then raise ErrConflict else update id set_confirmed.

Definition Retry (id : Identity) (hash : string) (delaySeconds : Z) (code : string) : M Table () :=
  if (delaySeconds <? 1) || (delaySeconds >? 60) then raise (ErrMsg "retry delay must be 1..60 seconds") else
  r ← locked id hash;
  if settled (Stage r) then mret () else update id (set_retry delaySeconds code).

Definition Hold (id : Identity) (hash code : string) : M Table () :=
  r ← locked id hash;
  if Stage r == "confirmed"%string then mret () else update id (set_held code).

Definition RearmAck (id : Identity) (hash : string) : M Table () :=
  r ← locked id hash;
  if RequiresReceipt r then raise ErrConflict else
  if Stage r == "held"%string then mret () else update id set_rearmed.

(** The operations on one record, as the host calls them. *)
Inductive op : Type :=
| OPublished (wait : Z) | OConfirm | ORetry (delay : Z) (code : string) | OHold (code : string) | ORearmAck.

Definition run (id : Identity) (hash : string) (o : op) : M Table () :=
  match o with
  | OPublished wait => Published id hash wait
  | OConfirm => Confirm id hash
  | ORetry delay code => Retry id hash delay code
  | OHold code => Hold id hash code
  | ORearmAck => RearmAck id hash
  end.

(** ** What an operation decides *)

Implicit Types (s : Table) (id : Identity) (hash : string) (o : op) (row : Row).

(** The check of the arguments, before any statement. *)
Definition rejected (o : op) : option error :=
  match o with
  | OPublished wait =>
    if (wait <? 1) || (wait >? 60) then Some (ErrMsg "receipt wait must be 1..60 seconds") else None
  | ORetry delay _ =>
    if (delay <? 1) || (delay >? 60) then Some (ErrMsg "retry delay must be 1..60 seconds") else None
  | _ => None
  end.

(** The decision on the locked row: an error, no write, or a SET list. *)
Definition decision (o : op) (r : Record_) : result (option (Z → Row → result Row)) :=
  match o with
  | OPublished wait =>
    Ok (if settled (Stage r) then None
        else Some (set_published (if RequiresReceipt r then "awaiting_receipt" else "confirmed") wait))
  | OConfirm => if RequiresReceipt r then Ok (Some set_confirmed) else Err ErrConflict
  | ORetry delay code => Ok (if settled (Stage r) then None else Some (set_retry delay code))
  | OHold code => Ok (if Stage r == "confirmed"%string then None else Some (set_held code))
  | ORearmAck =>
    if RequiresReceipt r then Err ErrConflict
    else Ok (if Stage r == "held"%string then None else Some set_rearmed)
  end.

Definition perform (id : Identity) (d : result (option (Z → Row → result Row))) : M Table () :=
  match d with
  | Err e => raise e
  | Ok None => mret ()
  | Ok (Some set) => update id set
  end.

Lemma run_decides id hash o w st :
  run id hash o w st =
  match rejected o with
  | Some e => (Err e, st)
  | None => (r ← locked id hash; perform id (decision o r)) w st
  end.
Proof.
  assert (Hb : ∀ k k' : Record_ → M Table (), (∀ r st, k r w st = k' r w st) →
                 (locked id hash ≫= k) w st = (locked id hash ≫= k') w st).
  { intros k k' Hk. unfold mbind, M_bind. destruct (locked id hash w st) as [[r|e] st']; auto. }
  destruct o as [wait| |delay code|code|]; simpl; unfold Published, Confirm, Retry, Hold, RearmAck;
    [destruct ((wait <? 1) || (wait >? 60))| |destruct ((delay <? 1) || (delay >? 60))| |]; try done;
    apply Hb; intros r st'; unfold decision, perform;
    destruct (settled (Stage r)), (RequiresReceipt r), (Stage r == "confirmed"%string),
      (Stage r == "held"%string); reflexivity.
Qed.

Lemma post_locked id hash (s : Table) (P : result Record_ → Table → Prop) :
  (∀ e, P (Err e) s) →
  (∀ row, s !! key_of id = Some row → BodySHA256 (rec row) = hash → P (Ok (rec row)) s) →
  post (locked id hash) s P.
Proof.
  intros Herr Hok. unfold locked. case_match; [by apply post_raise|].
  apply post_bind, post_catch, post_query.
  - intros _ a. destruct (s !! key_of id) as [row|] eqn:E; [|done]. intros [= <-].
    case_match; [by apply post_raise|]. boolp. by apply post_ret, Hok.
  - intros e. case_match; by apply post_raise.
Qed.

(** Every run leaves the table or writes one row as decided. *)
Lemma post_op id hash o (s : Table) (P : result () → Table → Prop) :
  (∀ r, P r s) →
  (∀ row set now row', s !! key_of id = Some row → BodySHA256 (rec row) = hash → rejected o = None →
     decision o (rec row) = Ok (Some set) → set now row = Ok row' → ∀ r, P r (<[key_of id := row']> s)) →
  post (run id hash o) s P.
Proof.
  intros Hsame Hset w n. rewrite run_decides. destruct (rejected o) eqn:Hr; [apply Hsame|].
  revert w n. change (post (r ← locked id hash; perform id (decision o r)) s P).
  apply post_bind, post_locked; [intros e; apply Hsame|]. intros row Hrow Hh.
  destruct (decision o (rec row)) as [[set|]|e] eqn:Hd; simpl.
  - apply post_stmt; [|intros e; apply Hsame]. intros t a s'. rewrite Hrow.
    intros (row'&Hs&[= <- <-])%rbind_Ok. split; [|intros e]; by eapply Hset.
  - by apply post_ret.
  - by apply post_raise.
Qed.

(** ** Histories *)

(** The fields no statement of the package writes. *)
Definition same_message (r r' : Row) : Prop :=
  rec r' = with_stage (Stage (rec r')) (Attempts (rec r')) (rec r) ∧ created_at r' = created_at r.

#[global] Instance same_message_preorder : PreOrder same_message.
Proof.
  split; [intros [[] ?]; by split|].
  intros r q p [H1 C1] [H2 C2]. split; [|congruence]. rewrite H2, H1. reflexivity.
Qed.

Definition call : Type := Identity * string * op.
Implicit Types (allowed : call → Prop).

Definition call_run (c : call) : M Table () := run c.1.1 c.1.2 c.2.

(** A host transaction makes any calls of [allowed], in any order, ignoring or
    heeding their answers, and commits, rolls back or fails; or the host stages a
    new record. *)
Inductive step (allowed : call → Prop) (s : Table) : Table → Prop :=
| step_tx calls w n r n' s' :
    Forall allowed calls → in_tx (for_each (λ c, catch (call_run c)) calls) w (n, s) = (r, (n', s')) →
    step allowed s s'
| step_stage row :
    s !! key_of (Id (rec row)) = None → Stage (rec row) = "staged"%string →
    step allowed s (<[key_of (Id (rec row)) := row]> s).

Abbreviation steps allowed := (rtc (step allowed)) (only parsing).

(** [key_of] and [Stage] of the rows this code and the host write. *)
Definition table_ok (s : Table) : Prop :=
  ∀ k r, s !! k = Some r → key_of (Id (rec r)) = k ∧
    Stage (rec r) ∈ ["staged"; "awaiting_receipt"; "confirmed"; "held"]%string.

(** A property of tables that every allowed decision and every staging keeps. *)
Lemma step_invariant allowed (I : Table → Prop) (s s' : Table) :
  (∀ (s : Table) id hash o row set now row', I s → allowed (id, hash, o) → s !! key_of id = Some row →
     BodySHA256 (rec row) = hash → decision o (rec row) = Ok (Some set) → set now row = Ok row' →
     I (<[key_of id := row']> s)) →
  (∀ (s : Table) row, I s → s !! key_of (Id (rec row)) = None → Stage (rec row) = "staged"%string →
     I (<[key_of (Id (rec row)) := row]> s)) →
  steps allowed s s' → I s → I s'.
Proof.
  intros Hop Hst. apply rtc_invariant. intros t t' Ht [calls w n r n' s'' Hc E|row Hn Hs]; [|by apply Hst].
  assert (Hp : post (for_each (λ c, catch (call_run c)) calls) t (λ _, I)).
  { clear E. revert t Ht; induction Hc as [|c calls Hc _ IH]; intros t Ht; [by apply post_ret|]. simpl.
    apply post_bind. eapply (post_mono _ _ (λ _, I)).
    - apply post_catch. destruct c as [[id hash] o]. apply post_op; [done|]. intros; eauto.
    - intros [y|e] u Hu; [|done]. apply post_bind. eapply post_mono; [by apply IH|].
      intros [ys|e] v Hv; [by apply post_ret|done]. }
  destruct (in_tx_run _ _ _ _ _ _ _ E) as [[-> _]|(a&n1&Hrun&_)]; [done|].
  eapply (post_run _ _ (λ _, I)); [exact Hrun|done].
Qed.

(** What a decided write does to the row. *)
Lemma decision_effect o row set now row' :
  decision o (rec row) = Ok (Some set) → set now row = Ok row' →
  same_message row row' ∧
  Stage (rec row') = match o with
                     | OPublished _ => if RequiresReceipt (rec row) then "awaiting_receipt" else "confirmed"
                     | OConfirm => "confirmed"
                     | ORetry _ _ => Stage (rec row)
                     | OHold _ => "held"
                     | ORearmAck => "staged"
                     end%string ∧
  match o with
  | OPublished _ | ORetry _ _ => Stage (rec row) ≠ "confirmed"%string ∧ Stage (rec row) ≠ "held"%string
  | OConfirm => RequiresReceipt (rec row) = true
  | OHold _ => Stage (rec row) ≠ "confirmed"%string
  | ORearmAck => RequiresReceipt (rec row) = false ∧ Stage (rec row) ≠ "held"%string
  end.
Proof.
  unfold decision, settled. intros Hd Hs. destruct o; cases Hd; boolp;
    unfold set_published, set_confirmed, set_retry, set_held, set_rearmed in Hs;
    repeat (apply rbind_Ok in Hs as (?&_&Hs)); injection Hs as <-; simpl;
    repeat split; simpl; auto; try congruence; by destruct (rec row).
Qed.

Lemma table_ok_steps allowed (s s' : Table) : steps allowed s s' → table_ok s → table_ok s'.
Proof.
  apply step_invariant.
  - intros t id hash o row set now row' Ht _ Hrow _ Hd Hs.
    destruct (decision_effect _ _ _ _ _ Hd Hs) as ((Hm&_)&Hst&_).
    intros k r. rewrite lookup_insert_Some. intros [[<- <-]|[? Hr]]; [|by apply Ht].
    destruct (Ht _ _ Hrow) as [Hk Hin]. rewrite Hm, Hst. split; [done|].
    simpl. destruct o; [destruct (RequiresReceipt (rec row))|..]; try done; set_solver.
  - intros t row Ht _ Hs k r. rewrite lookup_insert_Some. intros [[<- <-]|[? Hr]]; [|by apply Ht].
    split; [done|]. rewrite Hs. set_solver.
Qed.

(** The row under a key keeps its message and what every allowed decision keeps. *)
Lemma row_invariant allowed k (J : Row → Prop) s s' r :
  steps allowed s s' → s !! k = Some r → J r →
  (∀ id hash o row set now row', allowed (id, hash, o) → key_of id = k → BodySHA256 (rec row) = hash →
     same_message r row → J row → decision o (rec row) = Ok (Some set) → set now row = Ok row' → J row') →
  ∃ r', s' !! k = Some r' ∧ same_message r r' ∧ J r'.
Proof.
  intros Hs Hr HJ Hop.
  pose (I (t : Table) := ∃ r', t !! k = Some r' ∧ same_message r r' ∧ J r').
  apply (step_invariant allowed I s s'); [| |done|by exists r].
  - intros t id hash o row set now row' (q&Hq&Hm&HJq) Ha Hrow Hh Hd Hset.
    destruct (decide (key_of id = k)) as [Hk|Hk].
    + rewrite Hk, Hq in Hrow. injection Hrow as ->. exists row'. rewrite Hk, lookup_insert_eq.
      split; [done|]. split; [|by eapply Hop].
      transitivity row; [done|]. by apply (decision_effect _ _ _ _ _ Hd Hset).
    + exists q. by rewrite lookup_insert_ne.
  - intros t row (q&Hq&Hm&HJq) Hn _. exists q. rewrite lookup_insert_ne; [done|]. congruence.
Qed.

Lemma same_receipt r r' : same_message r r' → RequiresReceipt (rec r') = RequiresReceipt (rec r).
Proof. intros [-> _]. done. Qed.

Lemma same_hash r r' : same_message r r' → BodySHA256 (rec r') = BodySHA256 (rec r).
Proof. intros [-> _]. done. Qed.

Definition anything (c : call) : Prop := True.

(** Every call but a confirmation of record [k] with its hash. *)
Definition no_receipt (k : key) (hash : string) (c : call) : Prop :=
  ¬ (key_of c.1.1 = k ∧ c.1.2 = hash ∧ c.2 = OConfirm).

Lemma confirmed_final s s' k r :
  steps anything s s' → s !! k = Some r → RequiresReceipt (rec r) = true →
  Stage (rec r) = "confirmed"%string →
  ∃ r', s' !! k = Some r' ∧ same_message r r' ∧ Stage (rec r') = "confirmed"%string.
Proof.
  intros Hs Hr Hrr Hc. eapply row_invariant; [done..|]. simpl.
  intros id hash o row set now row' _ _ _ Hm Hcr Hd Hset. apply same_receipt in Hm.
  destruct (decision_effect _ _ _ _ _ Hd Hset) as (_&->&Hg). destruct o; naive_solver congruence.
Qed.

(** C26: Business confirmation takes a business receipt.  Through any host
    transactions, with any failures of the driver, a record is never lost and its
    message never changes; a record that requires a receipt becomes confirmed only
    when [Confirm] was called for it with the hash of its body, whatever was
    published, retried, held or rearmed, and then stays confirmed; a record that
    needs no receipt and is held stays held. *)
Theorem receipt_confirms s s' k r :
  s !! k = Some r →
  (steps anything s s' →
   ∃ r', s' !! k = Some r' ∧ same_message r r' ∧
     (RequiresReceipt (rec r) = true → Stage (rec r) = "confirmed"%string → Stage (rec r') = "confirmed"%string) ∧
     (RequiresReceipt (rec r) = false → Stage (rec r) = "held"%string → Stage (rec r') = "held"%string)) ∧
  (steps (no_receipt k (BodySHA256 (rec r))) s s' →
   RequiresReceipt (rec r) = true → Stage (rec r) ≠ "confirmed"%string →
   ∃ r', s' !! k = Some r' ∧ same_message r r' ∧ Stage (rec r') ≠ "confirmed"%string).
Proof.
  intros Hr. split.
  - intros Hs.
    apply (row_invariant anything k (λ r',
      (RequiresReceipt (rec r) = true → Stage (rec r) = "confirmed"%string → Stage (rec r') = "confirmed"%string) ∧
      (RequiresReceipt (rec r) = false → Stage (rec r) = "held"%string → Stage (rec r') = "held"%string)) s s');
      [done..|].
    intros id hash o row set now row' _ _ _ Hm%same_receipt [J1 J2] Hd Hset.
    destruct (decision_effect _ _ _ _ _ Hd Hset) as (_&->&Hg).
    destruct o; naive_solver congruence.
  - intros Hs Hrr Hc. eapply row_invariant; [done..|]. simpl.
    intros id hash o row set now row' Ha Hk Hh Hm Hn Hd Hset. pose proof (same_hash _ _ Hm).
    apply same_receipt in Hm. destruct (decision_effect _ _ _ _ _ Hd Hset) as (_&->&Hg).
    destruct o; [by rewrite Hm, Hrr| |done..]. destruct Ha. simpl. split_and!; congruence.
Qed.

(** ** The batch *)

Definition same_aggregate (a b : Record_) : Prop :=
  rtrim (Producer (Id a)) = rtrim (Producer (Id b)) ∧ rtrim (Destination (Id a)) = rtrim (Destination (Id b)) ∧
  rtrim (AggregateKey a) = rtrim (AggregateKey b).

Lemma older_than_spec n (o : Record_) :
  older_than n o = true ↔
  same_aggregate o n ∧ Ordered o = true ∧ rtrim (Stage o) ≠ "confirmed"%string ∧
  AggregateSequence o < AggregateSequence n.
Proof.
  unfold older_than, same_aggregate, sql_eq. rewrite !andb_true_iff, negb_true_iff, bool_decide_eq_false,
    !bool_decide_eq_true, Z.ltb_lt. tauto.
Qed.

Lemma blocked_spec s n :
  blocked s n = false ↔ ∀ k (o : Row), s !! k = Some o → older_than n (rec o) = false.
Proof.
  unfold blocked. rewrite <-not_true_iff_false, existsb_exists. split.
  - intros Hn k o Hk. apply not_true_iff_false. intros Ho. apply Hn. exists (k, o).
    by rewrite <-list_elem_of_In, elem_of_map_to_list.
  - intros H ([k o]&Hk&Ho). rewrite <-list_elem_of_In, elem_of_map_to_list in Hk. simpl in Ho. by rewrite (H k o) in Ho.
Qed.

Lemma select_pending_elem now limit s r :
  r ∈ select_pending now limit s → (∃ k, s !! k = Some r) ∧ ready now s r = true.
Proof.
  intros [? H]%(elem_of_take_sorted scan_le)%list_elem_of_filter. split; [|done].
  apply list_elem_of_fmap in H as ([k r']&->&?%elem_of_map_to_list). by exists k.
Qed.

Lemma select_pending_full now limit s k r :
  1 <= limit → s !! k = Some r → ready now s r = true → r ∉ select_pending now limit s →
  llen (select_pending now limit s) = limit ∧ ∀ q, q ∈ select_pending now limit s → scan_le q r.
Proof.
  intros Hl Hr Hd [Hn Hle]%(take_merge_sort scan_le).
  - split; [|done]. unfold llen, select_pending. rewrite Hn. lia.
  - apply list_elem_of_filter. split; [done|]. apply list_elem_of_fmap. exists (k, r).
    by rewrite elem_of_map_to_list.
Qed.

Lemma Pending_Ok limit w n s l n' s' :
  Pending limit w (n, s) = (Ok l, (n', s')) →
  1 <= limit <= 100 ∧ s' = s ∧ l = rec <$> select_pending (t_now (w n)) limit s.
Proof.
  unfold Pending. destruct (_ || _) eqn:Hg; [done|]. intros H. boolp.
  apply stmt_Ok in H as [(a&[= <-]&[= <- <-])%rbind_Ok _]. split; [lia|done].
Qed.

(** The stage of a reachable row compares as Go compares it. *)
Lemma stage_exact s k (o : Row) c :
  table_ok s → s !! k = Some o → c ∈ ["staged"; "awaiting_receipt"; "confirmed"; "held"]%string →
  rtrim (Stage (rec o)) = c ↔ Stage (rec o) = c.
Proof.
  intros Ht Ho Hc. destruct (Ht _ _ Ho) as [_ Hin].
  repeat (apply elem_of_cons in Hin as [->|Hin]); [..|by apply not_elem_of_nil in Hin];
    repeat (apply elem_of_cons in Hc as [->|Hc]); first [by apply not_elem_of_nil in Hc|reflexivity].
Qed.

Lemma ready_spec now s k r :
  table_ok s → s !! k = Some r →
  ready now s r = true ↔
  (Stage (rec r) = "staged"%string ∨ Stage (rec r) = "awaiting_receipt"%string) ∧ available_at r <= now ∧
  (Ordered (rec r) = true → ∀ j (o : Row), s !! j = Some o → Ordered (rec o) = true →
     same_aggregate (rec o) (rec r) → AggregateSequence (rec o) < AggregateSequence (rec r) →
     Stage (rec o) = "confirmed"%string).
Proof.
  intros Ht Hr. unfold ready, sql_eq.
  rewrite !andb_true_iff, !orb_true_iff, !bool_decide_eq_true, Z.leb_le, !negb_true_iff, blocked_spec.
  change (rtrim "staged") with "staged"%string. change (rtrim "awaiting_receipt") with "awaiting_receipt"%string.
  rewrite !(stage_exact s k r) by (done || set_solver).
  assert (Hb : (∀ j (o : Row), s !! j = Some o → older_than (rec r) (rec o) = false) ↔
    ∀ j (o : Row), s !! j = Some o → Ordered (rec o) = true →
     same_aggregate (rec o) (rec r) → AggregateSequence (rec o) < AggregateSequence (rec r) →
     Stage (rec o) = "confirmed"%string).
  { split; intros H j o Ho; specialize (H j o Ho).
    - intros ???. destruct (decide (Stage (rec o) = "confirmed"%string)) as [|Hn]; [done|].
      rewrite (proj2 (older_than_spec _ _)) in H; [done|]. split_and!; try done.
      rewrite (stage_exact s j o) by (done || set_solver). done.
    - apply not_true_iff_false. rewrite older_than_spec. intros (?&?&Hn&?). apply Hn.
      rewrite (stage_exact s j o) by (done || set_solver). auto. }
  rewrite Hb. destruct (Ordered (rec r)); naive_solver.
Qed.

(** C27: Deliveries follow the order of their aggregate.  In any state the host and
    this code can reach, a batch holds at most [limit] records and changes
    nothing; an ordered record is handed out only when every older ordered record
    of its aggregate is confirmed, and if that took a receipt it stays so; no two
    records of one aggregate's order share a batch unless they have one sequence
    number; and a record whose turn it is gets into the batch, unless the batch is
    full of records that come no later in the scan. *)
Theorem delivery_in_order s limit w n l n' s' :
  steps anything ∅ s → Pending limit w (n, s) = (Ok l, (n', s')) →
  s' = s ∧ llen l <= limit ∧
  (∀ x k (o : Row), x ∈ l → Ordered x = true → s !! k = Some o → Ordered (rec o) = true →
     same_aggregate (rec o) x → AggregateSequence (rec o) < AggregateSequence x →
     Stage (rec o) = "confirmed"%string ∧
     (RequiresReceipt (rec o) = true → ∀ u, steps anything s u →
        ∃ q : Row, u !! k = Some q ∧ same_message o q ∧ Stage (rec q) = "confirmed"%string)) ∧
  (∀ x y, x ∈ l → y ∈ l → Ordered x = true → Ordered y = true → same_aggregate x y →
     AggregateSequence x = AggregateSequence y) ∧
  (∀ k r, s !! k = Some r → Stage (rec r) = "staged"%string ∨ Stage (rec r) = "awaiting_receipt"%string →
     available_at r <= t_now (w n) →
     (Ordered (rec r) = true → ∀ j (o : Row), s !! j = Some o → Ordered (rec o) = true →
        same_aggregate (rec o) (rec r) → AggregateSequence (rec o) < AggregateSequence (rec r) →
        Stage (rec o) = "confirmed"%string) →
     rec r ∈ l ∨ llen l = limit ∧ ∀ x, x ∈ l → ∃ q, x = rec q ∧ scan_le q r).
Proof.
  intros Hreach (Hl&->&->)%Pending_Ok.
  assert (Ht : table_ok s) by (eapply table_ok_steps; [done|]; intros ? ?; by rewrite lookup_empty).
  set (now := t_now (w n)). split; [done|].
  assert (Hel : ∀ x, x ∈ rec <$> select_pending now limit s →
    ∃ k r, x = rec r ∧ s !! k = Some r ∧ ready now s r = true ∧ r ∈ select_pending now limit s).
  { intros x (r&->&Hr)%list_elem_of_fmap. destruct (select_pending_elem _ _ _ _ Hr) as [[k ?] ?]. eauto 10. }
  assert (Hold : ∀ x k (o : Row), x ∈ rec <$> select_pending now limit s → Ordered x = true → s !! k = Some o →
     Ordered (rec o) = true → same_aggregate (rec o) x → AggregateSequence (rec o) < AggregateSequence x →
     Stage (rec o) = "confirmed"%string).
  { intros x k o (j&r&->&Hr&(_&_&Hb)%(ready_spec now s j r)&_)%Hel; eauto. }
  split_and!.
  - unfold llen, select_pending. rewrite length_fmap, length_take. lia.
  - intros x k o ??????. split; [by eapply Hold|]. intros Hrr u Hu. eapply confirmed_final; [done..|]. by eapply Hold.
  - intros x y Hx Hy Ox Oy Ha. pose proof Hx as (kx&rx&->&Hrx&(Hsx&_)%(ready_spec now s kx rx)&_)%Hel; [|done..].
    pose proof Hy as (ky&ry&->&Hry&(Hsy&_)%(ready_spec now s ky ry)&_)%Hel; [|done..].
    destruct (Z.lt_trichotomy (AggregateSequence (rec rx)) (AggregateSequence (rec ry))) as [H|[H|H]]; [|done|].
    + specialize (Hold _ kx rx Hy Oy Hrx Ox Ha H). destruct Hsx; congruence.
    + destruct Ha as (?&?&?). assert (Stage (rec ry) = "confirmed"%string)
        by (apply (Hold _ ky ry Hx Ox Hry Oy); [by repeat split|done]). destruct Hsy; congruence.
  - intros k r Hr Hs Ha Hb. assert (Hrd : ready now s r = true) by (apply (ready_spec now s k r); auto).
    destruct (decide (r ∈ select_pending now limit s)) as [Hin|Hout].
    + left. apply list_elem_of_fmap. by exists r.
    + right. destruct (select_pending_full now limit s k r) as [Hn Hle]; [lia|done..|].
      unfold llen in *. rewrite length_fmap. split; [done|]. intros x (q&->&?)%list_elem_of_fmap. eauto.
Qed.

(** ** Examples *)

Definition ex_world (now : Z) : world := λ _, mkTick now None false "" (λ _, false).

Definition ex_row (m : string) (seq : Z) : Row :=
  mkRow (mkRecord (mkIdentity "iam" "qs" m) "hash" "body" "wire" "topic" "agg" seq true true "staged" 0)
    5 5 None None "".

Definition ex_key (m : string) : key := ("iam", "qs", m)%string.
Definition ex_s0 : Table := <[ex_key "m2" := ex_row "m2" 2]> (<[ex_key "m1" := ex_row "m1" 1]> ∅).
Definition ex_id : Identity := mkIdentity "iam" "qs" "m1 ".

(** One host transaction reports a publish and the next confirms the receipt. *)
Definition ex_tx (now : Z) (calls : list call) (s : Table) : Table :=
  (in_tx (for_each (λ c, catch (call_run c)) calls) (ex_world now) (0%nat, s)).2.2.
Definition ex_s1 : Table := ex_tx 10 [(ex_id, "hash", OPublished 30)%string] ex_s0.
Definition ex_s2 : Table := ex_tx 20 [(ex_id, "hash", OConfirm)%string; (ex_id, "hash", OHold "late")%string] ex_s1.

Lemma ex_step now calls s allowed : Forall allowed calls → step allowed s (ex_tx now calls s).
Proof.
  intros Hc. unfold ex_tx.
  destruct (in_tx (for_each (λ c, catch (call_run c)) calls) (ex_world now) (0%nat, s)) as [r [n s']] eqn:E.
  by eapply step_tx.
Qed.

Lemma ex_reach0 : steps anything ∅ ex_s0.
Proof.
  eapply rtc_l; [apply (step_stage _ _ (ex_row "m1" 1)); [apply lookup_empty|done]|].
  eapply rtc_l; [apply (step_stage _ _ (ex_row "m2" 2)); [by vm_compute|done]|]. apply rtc_refl.
Qed.

Lemma ex_reach2 : steps anything ex_s0 ex_s2.
Proof.
  eapply rtc_l; [apply (ex_step 10 [(ex_id, "hash", OPublished 30)%string]); repeat constructor|].
  eapply rtc_l; [|apply rtc_refl]. apply ex_step. repeat constructor.
Qed.

Example ex_stages :
  (Stage ∘ rec <$> ex_s0 !! ex_key "m1", Stage ∘ rec <$> ex_s1 !! ex_key "m1", Stage ∘ rec <$> ex_s2 !! ex_key "m1")
  = (Some "staged", Some "awaiting_receipt", Some "confirmed")%string.
Proof. vm_compute. reflexivity. Qed.

Example ex_batches :
  (MessageID ∘ Id <$> (rec <$> select_pending 10 10 ex_s0), MessageID ∘ Id <$> (rec <$> select_pending 60000000 10 ex_s1),
   MessageID ∘ Id <$> (rec <$> select_pending 60000000 10 ex_s2)) = (["m1"], ["m1"], ["m2"])%string.
Proof. vm_compute. reflexivity. Qed.

Lemma ex_no_receipt : no_receipt (ex_key "m1") (BodySHA256 (rec (ex_row "m1" 1))) (ex_id, "hash", OPublished 30)%string.
Proof. by intros (_&_&?). Qed.

Lemma receipt_confirms_witness :
  (∃ r', ex_s2 !! ex_key "m1" = Some r' ∧ same_message (ex_row "m1" 1) r') ∧
  (∃ r', ex_s1 !! ex_key "m1" = Some r' ∧ Stage (rec r') ≠ "confirmed"%string).
Proof.
  assert (E : ex_s0 !! ex_key "m1" = Some (ex_row "m1" 1)) by by vm_compute.
  split.
  - destruct (proj1 (receipt_confirms ex_s0 ex_s2 (ex_key "m1") (ex_row "m1" 1) E) ex_reach2) as (r'&?&?&_). eauto.
  - destruct (proj2 (receipt_confirms ex_s0 ex_s1 (ex_key "m1") (ex_row "m1" 1) E)) as (r'&?&_&?); [|done..|eauto].
    apply rtc_once, ex_step. repeat constructor. apply ex_no_receipt.
Defined.

Lemma ex_select : select_pending 10 10 ex_s0 = [ex_row "m1" 1].
Proof. vm_compute. reflexivity. Qed.

Lemma ex_pending :
  Pending 10 (ex_world 10) (0%nat, ex_s0) = (Ok [rec (ex_row "m1" 1)], (1%nat, ex_s0)).
Proof. unfold Pending, query, stmt. cbn -[select_pending ex_s0]. by rewrite ex_select. Qed.

Lemma delivery_in_order_witness :
  (llen [rec (ex_row "m1" 1)] <= 10)%Z.
Proof. by apply (delivery_in_order ex_s0 10 (ex_world 10) 0%nat _ 1%nat ex_s0 ex_reach0 ex_pending). Defined.

End delivery.
