(* ===== verification/NsqHandoff.v ===== *)
(** * transport/nsq: the failed-handoff transport

    [handoff_transport.go]: one [DirectHandoff] connects the failure consumer to a
    source nsqd, keeps a producer per address and publishes failure records
    there.  The model is a transition system: [Ready] holds the mutex over calls
    of the driver while [Close] may set [closing], so its critical section is
    several steps; slots, sends and the drained channel are those of
    [Nsq.nsqpublisher].  What a step does outside is logged. *)

From S2P Require Import Prelude GoStd Relay Nsq.

Module handoff.

Inductive Event : Type :=
| EConnect (address : string)              (* the failure consumer is connected *)
| ENew (address : string)                  (* a producer is created *)
| ESend (address topic : string)           (* producer.Publish starts *)
| EStop (address : string).                (* producer.Stop *)

(** Where [Ready] is while it holds the mutex. *)
Inductive Stage : Type := RConnect | RCheck | RNew | RLast.

Record Handoff : Type := mkHandoff {
  core : nsqpublisher.State;                  (* slots, active, stopping, drained *)
  begun : Z;                                  (* publishes past their first check, before a slot *)
  topic : string;
  producers : gset string;
  ready : option (string * string * Stage);   (* the Ready that holds the mutex *)
  closing : bool;
  snapshots : list (gset string);             (* the producers each Close copied *)
  stopper : option (gset string);             (* stopOnce ran; producers it has left *)
  stopDone : bool;
  log : list Event
}.

(** [newDirectHandoff]; the nil consumer and factory are not modelled. *)
Definition newDirectHandoff (maxInFlight : Z) : result Handoff :=
  if (maxInFlight <? 1) || (maxInFlight >? 1000)
  then Err (ErrMsg "consumer, producer factory and in-flight limit 1..1000 required")
  else Ok (mkHandoff nsqpublisher.initial 0 "" ∅ None false [] None false []).

Definition with_core (c : nsqpublisher.State) (h : Handoff) : Handoff :=
  mkHandoff c (begun h) (topic h) (producers h) (ready h) (closing h) (snapshots h) (stopper h) (stopDone h) (log h).
Definition with_ready (r : option (string * string * Stage)) (h : Handoff) : Handoff :=
  mkHandoff (core h) (begun h) (topic h) (producers h) r (closing h) (snapshots h) (stopper h) (stopDone h) (log h).
Definition emit (e : Event) (h : Handoff) : Handoff :=
  mkHandoff (core h) (begun h) (topic h) (producers h) (ready h) (closing h) (snapshots h) (stopper h) (stopDone h) (log h ++ [e]).

Section handoff.
Context (IsValidTopicName : string → bool) (maxInFlight : Z).

(** ** Ready *)

(** Up to the call of the driver; a refusal changes nothing. *)
Definition Ready_lock (address t : string) (h : Handoff) : option Handoff :=
  if (address == ""%string) || negb (IsValidTopicName t) || bool_decide (is_Some (ready h)) then None
  else if closing h || nsqpublisher.stopping (core h) then None
  else if (topic h != ""%string) && (topic h != t) then None
  else Some (with_ready (Some (address, t, RConnect)) h).

(** [ok]: ConnectToNSQD succeeded or was connected already. *)
Definition Ready_connect (ok : bool) (h : Handoff) : option Handoff :=
  match ready h with
  | Some (a, t, RConnect) =>
    Some (if ok then emit (EConnect a) (with_ready (Some (a, t, RCheck)) h) else with_ready None h)
  | _ => None
  end.
Definition Ready_check (ctxErr : bool) (h : Handoff) : option Handoff :=
  match ready h with
  | Some (a, t, RCheck) => Some (with_ready (if closing h || ctxErr then None else Some (a, t, RNew)) h)
  | _ => None
  end.
Definition Ready_producer (ok : bool) (h : Handoff) : option Handoff :=
  match ready h with
  | Some (a, t, RNew) =>
    if bool_decide (a ∈ producers h) then Some (with_ready (Some (a, t, RLast)) h)
    else if ok then
      Some (mkHandoff (core h) (begun h) (topic h) ({[a]} ∪ producers h) (Some (a, t, RLast)) (closing h) (snapshots h)
              (stopper h) (stopDone h) (log h ++ [ENew a]))
    else Some (with_ready None h)
  | _ => None
  end.
Definition Ready_last (ctxErr : bool) (h : Handoff) : option Handoff :=
  match ready h with
  | Some (a, t, RLast) =>
    Some (if closing h || ctxErr then with_ready None h
          else mkHandoff (core h) (begun h) t (producers h) None (closing h) (snapshots h) (stopper h) (stopDone h) (log h))
  | _ => None
  end.

(** ** Publish *)

Definition with_begun (n : Z) (h : Handoff) : Handoff :=
  mkHandoff (core h) n (topic h) (producers h) (ready h) (closing h) (snapshots h) (stopper h) (stopDone h) (log h).

(** The first check; a publish that passes it goes on to wait for a slot, also
    when [Close] begins in between. *)
Definition Publish_begin (h : Handoff) : option Handoff :=
  if closing h then None else Some (with_begun (begun h + 1) h).
(** The slot, or the context ends before there is one. *)
Definition Publish_slot (h : Handoff) : option Handoff :=
  if begun h >? 0
  then (λ c, with_core c (with_begun (begun h - 1) h)) <$> nsqpublisher.take_slot maxInFlight (core h)
  else None.
Definition Publish_quit (h : Handoff) : option Handoff :=
  if begun h >? 0 then Some (with_begun (begun h - 1) h) else None.

(** The check under the mutex, for the publish of [t] at [address]. *)
Definition refuses (address t : string) (ctxErr : bool) (h : Handoff) : bool :=
  closing h || negb (bool_decide (address ∈ producers h)) || (topic h != t) || ctxErr.
Definition Publish_admit (address t : string) (ctxErr : bool) (h : Handoff) : option Handoff :=
  if (address == ""%string) || negb (IsValidTopicName t) || bool_decide (is_Some (ready h)) then None
  else
    c ← nsqpublisher.admission (refuses address t ctxErr h) (core h);
    Some (if refuses address t ctxErr h || nsqpublisher.stopping (core h) then with_core c h
          else emit (ESend address t) (with_core c h)).
(** The context ends while the mutex is held elsewhere. *)
Definition Publish_giveup (h : Handoff) : option Handoff :=
  (λ c, with_core c h) <$> nsqpublisher.admission true (core h).
Definition Publish_giveback (h : Handoff) : option Handoff := (λ c, with_core c h) <$> nsqpublisher.give_back (core h).
(** The goroutine of the send. *)
Definition Publish_returns (h : Handoff) : option Handoff := (λ c, with_core c h) <$> nsqpublisher.call_returns (core h).
Definition Publish_release (h : Handoff) : option Handoff := (λ c, with_core c h) <$> nsqpublisher.call_release (core h).
Definition Publish_done (h : Handoff) : option Handoff :=
  if bool_decide (is_Some (ready h)) then None else (λ c, with_core c h) <$> nsqpublisher.call_done (core h).

(** The outcome the caller is told. *)
Definition Publish_outcome (w : nsqpublisher.Wait) : transport.Outcome :=
  match w with nsqpublisher.Answered None => transport.Confirmed | _ => transport.Unknown end.

(** ** Close *)

Definition Close_begin (h : Handoff) : Handoff :=
  mkHandoff (core h) (begun h) (topic h) (producers h) (ready h) true (snapshots h) (stopper h) (stopDone h) (log h).
Definition Close_lock (h : Handoff) : option Handoff :=
  if negb (closing h) || bool_decide (is_Some (ready h)) then None
  else Some (mkHandoff (nsqpublisher.beginDrain (core h)) (begun h) (topic h) (producers h) (ready h) (closing h)
               (producers h :: snapshots h) (stopper h) (stopDone h) (log h)).
(** [stopOnce.Do] of the Close that copied [ps]. *)
Definition Close_once (ps : gset string) (h : Handoff) : option Handoff :=
  if bool_decide (ps ∈ snapshots h) && (nsqpublisher.closes (core h) >? 0) then
    Some (mkHandoff (core h) (begun h) (topic h) (producers h) (ready h) (closing h) (snapshots h)
            (Some (default ps (stopper h))) (stopDone h) (log h))
  else None.
(** The goroutine that stops the producers. *)
Definition Stop_one (a : string) (h : Handoff) : option Handoff :=
  match stopper h with
  | Some rest =>
    if bool_decide (a ∈ rest) then
      Some (mkHandoff (core h) (begun h) (topic h) (producers h) (ready h) (closing h) (snapshots h)
              (Some (rest ∖ {[a]})) (stopDone h) (log h ++ [EStop a]))
    else None
  | None => None
  end.
Definition Stop_done (h : Handoff) : option Handoff :=
  match stopper h with
  | Some rest =>
    if bool_decide (rest = ∅) then
      Some (mkHandoff (core h) (begun h) (topic h) (producers h) (ready h) (closing h) (snapshots h) (stopper h) true (log h))
    else None
  | None => None
  end.

Inductive Label : Type :=
| LReady (address t : string) | LConnect (ok : bool) | LCheck (ctxErr : bool) | LProducer (ok : bool) | LLast (ctxErr : bool)
| LBegin | LSlot | LQuit | LAdmit (address t : string) (ctxErr : bool) | LGiveup | LGiveback | LReturn | LRelease | LDone
| LClosing | LClose | LOnce (ps : gset string) | LStop (a : string) | LStopDone.

Definition run (l : Label) (h : Handoff) : option Handoff :=
  match l with
  | LReady a t => Ready_lock a t h | LConnect ok => Ready_connect ok h | LCheck e => Ready_check e h
  | LProducer ok => Ready_producer ok h | LLast e => Ready_last e h
  | LBegin => Publish_begin h | LSlot => Publish_slot h | LQuit => Publish_quit h | LAdmit a t e => Publish_admit a t e h | LGiveup => Publish_giveup h
  | LGiveback => Publish_giveback h | LReturn => Publish_returns h | LRelease => Publish_release h | LDone => Publish_done h
  | LClosing => Some (Close_begin h) | LClose => Close_lock h | LOnce ps => Close_once ps h
  | LStop a => Stop_one a h | LStopDone => Stop_done h
  end.
Definition step (h h' : Handoff) : Prop := ∃ l, run l h = Some h'.

(** ** The protocol of a handoff *)

Definition no_stop (l : list Event) : Prop := ∀ a, EStop a ∉ l.

(** What may happen after [l]: the consumer is connected before a producer is
    created for an address, one is created per address, sends use it and one
    topic, and after the first stop there are only stops, one per producer. *)
Definition may_follow (l : list Event) (e : Event) : Prop :=
  match e with
  | EConnect a => no_stop l
  | ENew a => EConnect a ∈ l ∧ ENew a ∉ l ∧ no_stop l
  | ESend a t => ENew a ∈ l ∧ (∀ b u, ESend b u ∈ l → u = t) ∧ no_stop l
  | EStop a => ENew a ∈ l ∧ EStop a ∉ l
  end.

Inductive protocol : list Event → Prop :=
| protocol_nil : protocol []
| protocol_snoc l e : protocol l → may_follow l e → protocol (l ++ [e]).

Abbreviation stopping h := (nsqpublisher.stopping (core h)) (only parsing).

(** The mutex holder found the handoff open, and [Close] waits for it. *)
Definition ready_ok (h : Handoff) : Prop :=
  match ready h with
  | None => True
  | Some (a, t, st) =>
    IsValidTopicName t = true ∧ (topic h = ""%string ∨ topic h = t) ∧ stopping h = false ∧
    (st ≠ RConnect → EConnect a ∈ log h) ∧ (st = RLast → a ∈ producers h)
  end.

Definition stopper_ok (h : Handoff) : Prop :=
  match stopper h with
  | None => no_stop (log h) ∧ stopDone h = false
  | Some rest =>
    nsqpublisher.closes (core h) = 1 ∧ rest ⊆ producers h ∧
    (∀ a, EStop a ∈ log h ↔ a ∈ producers h ∖ rest) ∧ (stopDone h = true → rest = ∅)
  end.

Record inv (h : Handoff) : Prop := mkInv {
  inv_core : nsqpublisher.inv maxInFlight (core h);
  inv_log : protocol (log h);
  inv_new : ∀ a, ENew a ∈ log h ↔ a ∈ producers h;
  inv_ready : ready_ok h;
  inv_topic : ∀ a t, ESend a t ∈ log h → t = topic h ∧ t ≠ ""%string;
  inv_closing : stopping h = true → closing h = true;
  inv_snapshots : ∀ ps, ps ∈ snapshots h → ps = producers h ∧ stopping h = true;
  inv_stopper : stopper_ok h
}.

Context (limit_ok : 1 <= maxInFlight <= 1000) (topic_nonempty : IsValidTopicName "" = false).

Lemma closes_stopping h : inv h → nsqpublisher.closes (core h) = 1 → stopping h = true ∧ nsqpublisher.active (core h) = 0.
Proof.
  intros Hi Hc. destruct (inv_core h Hi) as (?&?&?&?&?&?&?&H1&H2&H3).
  destruct (stopping h); [|specialize (H2 eq_refl); lia]. split; [done|].
  unfold nsqpublisher.active in *. destruct (decide (0 < nsqpublisher.calling (core h) + nsqpublisher.returned (core h)
    + nsqpublisher.releasing (core h))); [specialize (H3 ltac:(done)); lia|lia].
Qed.

(** A handoff whose producers are being stopped is closing and idle. *)
Lemma stopped_drained h :
  inv h → stopper h ≠ None ∨ (∃ a, EStop a ∈ log h) →
  closing h = true ∧ stopping h = true ∧ nsqpublisher.active (core h) = 0.
Proof.
  intros Hi Hor. pose proof (inv_stopper h Hi) as Hp. unfold stopper_ok in Hp.
  destruct (stopper h) as [rest|]; [|destruct Hor as [?|[a ?]]; [done|by destruct (proj1 Hp a)]].
  destruct (closes_stopping h Hi (proj1 Hp)) as [Hs Ha]. by split; [apply (inv_closing h Hi)|].
Qed.

Lemma open_no_stop h : inv h → stopping h = false → no_stop (log h) ∧ stopper h = None ∧ snapshots h = [] ∧ stopDone h = false.
Proof.
  intros Hi Hs. pose proof (inv_stopper h Hi) as Hp. unfold stopper_ok in Hp. destruct (stopper h) as [rest|].
  - destruct Hp as (Hc&_). apply closes_stopping in Hc as [? _]; [congruence|done].
  - destruct Hp. split; [done|]. split; [done|]. split; [|done].
    destruct (snapshots h) as [|ps l] eqn:E; [done|]. destruct (inv_snapshots h Hi ps); [rewrite E; by left|congruence].
Qed.
(** Steps of the core that neither drain nor stop. *)
Definition core_label (l : nsqpublisher.Label) : Prop :=
  match l with
  | nsqpublisher.LDrain | nsqpublisher.LClose | nsqpublisher.LInterrupt => False
  | _ => True
  end.

Lemma inv_core_step h l c :
  inv h → core_label l → nsqpublisher.run maxInFlight l (core h) = Some c → inv (with_core c h).
Proof.
  intros Hi Hl Hr. pose proof (nsqpublisher.inv_run _ _ _ _ (inv_core h Hi) Hr) as Hc.
  assert (Hst : nsqpublisher.stopping c = stopping h).
  { destruct l; cbn in Hl, Hr; try done; unfold nsqpublisher.take_slot, nsqpublisher.admission, nsqpublisher.give_back,
      nsqpublisher.call_returns, nsqpublisher.call_release, nsqpublisher.call_done in Hr; cases Hr; simplify_eq/=;
      repeat case_goal; done. }
  assert (Hcl : nsqpublisher.closes (core h) = 1 → nsqpublisher.closes c = 1).
  { intros H1. destruct (closes_stopping h Hi H1) as [Hs Ha].
    destruct (nsqpublisher.stopped_run _ _ _ _ (inv_core h Hi) Hs Ha Hr) as [? ?].
    destruct Hc as (?&?&?&?&?&?&?&Hd&_). by apply Hd. }
  destruct Hi as [? ? ? Hrd ? ? ? Hp]. split; cbn; rewrite ?Hst; try done.
  - unfold ready_ok in *. cbn. by rewrite Hst.
  - unfold stopper_ok in *. cbn. destruct (stopper h) as [rest|]; [|done]. destruct Hp as (?&?&?&?). auto.
Qed.

(** The mutex is released, or [Ready] goes on. *)
Lemma inv_with_ready h r : inv h → ready_ok (with_ready r h) → inv (with_ready r h).
Proof. intros [] ?. by split. Qed.

Lemma inv_with_begun h n : inv h → inv (with_begun n h).
Proof. intros []. by split. Qed.

(** An event of an open handoff. *)
Definition after (e : Event) (ps : gset string) (r : option (string * string * Stage)) (h : Handoff) : Handoff :=
  mkHandoff (core h) (begun h) (topic h) ps r (closing h) (snapshots h) (stopper h) (stopDone h) (log h ++ [e]).

Lemma inv_after h e ps r :
  inv h → stopping h = false → (∀ a, e ≠ EStop a) → may_follow (log h) e →
  (∀ a, ENew a ∈ log h ++ [e] ↔ a ∈ ps) → (∀ a t, e = ESend a t → t = topic h ∧ t ≠ ""%string) →
  ready_ok (after e ps r h) → inv (after e ps r h).
Proof.
  intros Hi Hs He Hm Hnew Hsend Hr. destruct (open_no_stop h Hi Hs) as (Hn&Hso&Hsn&Hd).
  destruct Hi as [? ? _ _ Htop ? ? ?]. split; cbn; try done.
  - by constructor.
  - intros b u. rewrite elem_of_app, list_elem_of_singleton. intros [?|?]; [by eapply Htop|by eapply Hsend].
  - rewrite Hsn. intros qs Hqs. by apply not_elem_of_nil in Hqs.
  - unfold stopper_ok. cbn. rewrite Hso. split; [|done]. intros b. rewrite elem_of_app, list_elem_of_singleton.
    intros [?|<-]; [by eapply Hn|by eapply He].
Qed.

Lemma inv_connect h a t :
  inv h → ready h = Some (a, t, RConnect) → inv (after (EConnect a) (producers h) (Some (a, t, RCheck)) h).
Proof.
  intros Hi Hr. pose proof (inv_ready h Hi) as Hrd. unfold ready_ok in Hrd. rewrite Hr in Hrd.
  destruct Hrd as (Hv&Ht&Hs&_). destruct (open_no_stop h Hi Hs) as (Hn&_). apply inv_after; try done.
  - intros b. rewrite elem_of_app, list_elem_of_singleton, (inv_new h Hi). naive_solver.
  - unfold ready_ok. cbn. split_and!; try done. intros _. apply elem_of_app. right. by left.
Qed.

Lemma inv_producer h a t :
  inv h → ready h = Some (a, t, RNew) → a ∉ producers h →
  inv (after (ENew a) ({[a]} ∪ producers h) (Some (a, t, RLast)) h).
Proof.
  intros Hi Hr Ha. pose proof (inv_ready h Hi) as Hrd. unfold ready_ok in Hrd. rewrite Hr in Hrd.
  destruct Hrd as (Hv&Ht&Hs&Hc&_). destruct (open_no_stop h Hi Hs) as (Hn&_). apply inv_after; try done.
  - simpl. rewrite (inv_new h Hi). split_and!; [by apply Hc|done|done].
  - intros b. rewrite elem_of_app, list_elem_of_singleton, (inv_new h Hi), elem_of_union, elem_of_singleton. naive_solver.
  - unfold ready_ok. cbn. split_and!; try done; [|set_solver]. intros _. apply elem_of_app. left. by apply Hc.
Qed.

Lemma inv_send h a t :
  inv h → ready h = None → stopping h = false → a ∈ producers h → topic h = t → IsValidTopicName t = true →
  inv (after (ESend a t) (producers h) None h).
Proof.
  intros Hi Hr Hs Ha Ht Hv. destruct (open_no_stop h Hi Hs) as (Hn&_).
  assert (Hne : t ≠ ""%string) by (intros ->; congruence). apply inv_after; try done.
  - simpl. rewrite (inv_new h Hi). split_and!; [done| |done]. intros b u Hb. destruct (inv_topic h Hi _ _ Hb). congruence.
  - intros b. rewrite elem_of_app, list_elem_of_singleton, (inv_new h Hi). naive_solver.
  - naive_solver.
Qed.

Lemma inv_set_topic h a t :
  inv h → ready h = Some (a, t, RLast) →
  inv (mkHandoff (core h) (begun h) t (producers h) None (closing h) (snapshots h) (stopper h) (stopDone h) (log h)).
Proof.
  intros Hi Hr. pose proof (inv_ready h Hi) as Hrd. unfold ready_ok in Hrd. rewrite Hr in Hrd.
  destruct Hrd as (Hv&Ht&_). destruct Hi as [? ? ? _ Htop ? ? ?]. split; cbn; try done.
  intros b u Hb. destruct (Htop b u Hb) as [-> ?]. destruct Ht; [congruence|done].
Qed.

Lemma inv_close h :
  inv h → closing h = true → ready h = None →
  inv (mkHandoff (nsqpublisher.beginDrain (core h)) (begun h) (topic h) (producers h) None (closing h)
         (producers h :: snapshots h) (stopper h) (stopDone h) (log h)).
Proof.
  intros Hi Hcl Hr. pose proof (nsqpublisher.inv_beginDrain _ _ (inv_core h Hi)) as Hc.
  assert (Hst : nsqpublisher.stopping (nsqpublisher.beginDrain (core h)) = true).
  { unfold nsqpublisher.beginDrain. destruct (stopping h) eqn:E; [done|]. by repeat case_goal. }
  pose proof (closes_stopping h Hi) as Hcs. destruct Hi as [? ? ? _ ? ? Hsn Hp]. split; cbn; try done.
  - intros ps [->|Hps]%elem_of_cons; [done|]. by destruct (Hsn ps Hps).
  - unfold stopper_ok in *. cbn. destruct (stopper h) as [rest|]; [|done]. destruct Hp as (Ho&?). split; [|done].
    destruct (Hcs Ho) as [Hs _]. unfold nsqpublisher.beginDrain. by rewrite Hs.
Qed.

Lemma inv_once h ps :
  inv h → ps ∈ snapshots h → nsqpublisher.closes (core h) > 0 →
  inv (mkHandoff (core h) (begun h) (topic h) (producers h) (ready h) (closing h) (snapshots h)
            (Some (default ps (stopper h))) (stopDone h) (log h)).
Proof.
  intros Hi Hps Hcl. destruct (inv_snapshots h Hi ps Hps) as [-> Hs].
  assert (Hone : nsqpublisher.closes (core h) = 1).
  { destruct (inv_core h Hi) as (?&?&?&?&?&?&?&Hc1&_&Hc3). apply Hc1; [done|].
    unfold nsqpublisher.active in *. destruct (decide (0 < nsqpublisher.calling (core h) + nsqpublisher.returned (core h)
      + nsqpublisher.releasing (core h))); [specialize (Hc3 ltac:(done)); lia|lia]. }
  destruct Hi as [? ? Hnew ? ? ? Hsn Hp]. split; cbn; try done.
  unfold stopper_ok in *. cbn. destruct (stopper h) as [rest|]; [done|]. simpl. destruct Hp as [Hn Hd].
  split_and!; try done; [|congruence]. intros a. split; [intros Ha; by apply Hn in Ha|set_solver].
Qed.

Lemma inv_stop h rest a :
  inv h → stopper h = Some rest → a ∈ rest →
  inv (mkHandoff (core h) (begun h) (topic h) (producers h) (ready h) (closing h) (snapshots h)
              (Some (rest ∖ {[a]})) (stopDone h) (log h ++ [EStop a])).
Proof.
  intros Hi Hso Ha. pose proof (inv_stopper h Hi) as Hp. unfold stopper_ok in Hp. rewrite Hso in Hp.
  destruct Hp as (Hone&Hsub&Hst&Hd). pose proof (closes_stopping h Hi Hone) as [Hs _].
  destruct Hi as [? ? Hnew Hrd Htop ? ? _]. split; cbn; try done.
  - constructor; [done|]. simpl. rewrite Hnew, Hst. set_solver.
  - intros b. rewrite elem_of_app, list_elem_of_singleton, Hnew. naive_solver.
  - unfold ready_ok in *. cbn. destruct (ready h) as [[[b u] st]|]; [|done]. destruct Hrd as (?&?&?&?). congruence.
  - intros b u. rewrite elem_of_app, list_elem_of_singleton. intros [?|?]; [by eapply Htop|done].
  - unfold stopper_ok. cbn. split_and!; [done|set_solver| |intros E; specialize (Hd E); set_solver].
    intros b. rewrite elem_of_app, list_elem_of_singleton, Hst. destruct (decide (b = a)); set_solver.
Qed.

(** The labels of [Ready]. *)
Definition ready_label (l : Label) : Prop :=
  match l with LReady _ _ | LConnect _ | LCheck _ | LProducer _ | LLast _ => True | _ => False end.

Lemma inv_ready_run l h h' : inv h → ready_label l → run l h = Some h' → inv h'.
Proof.
  intros Hi Hl H. pose proof (inv_ready h Hi) as Hrd. unfold ready_ok in Hrd.
  destruct l as [a t|ok|e|ok|e| | | |a t e| | | | | | | |ps|a|]; try done; cbn [run] in H.
  - unfold Ready_lock in H. cases H. simplify_eq/=. boolp. apply inv_with_ready; [done|]. unfold ready_ok. cbn.
    split_and!; try done.
    destruct (decide (topic h = ""%string)); [by left|right].
    match goal with H : _ && _ = false |- _ => apply andb_false_iff in H as [?|?]; boolp; congruence end.
  - unfold Ready_connect in H. destruct (ready h) as [[[a t] []]|] eqn:Hr; try done. injection H as <-.
    destruct ok; [exact (inv_connect h a t Hi Hr)|by apply inv_with_ready].
  - unfold Ready_check in H. destruct (ready h) as [[[a t] []]|] eqn:Hr; try done. injection H as <-.
    apply inv_with_ready; [done|]. unfold ready_ok. cbn. destruct (closing h || e); [done|].
    destruct Hrd as (?&?&?&Hc&_). split_and!; try done. intros _. by apply Hc.
  - unfold Ready_producer in H. destruct (ready h) as [[[a t] []]|] eqn:Hr; try done.
    destruct (bool_decide_reflect (a ∈ producers h)); [|destruct ok]; injection H as <-.
    + apply inv_with_ready; [done|]. unfold ready_ok. cbn. destruct Hrd as (?&?&?&Hc&_). split_and!; try done. auto.
    + by apply (inv_producer h a t).
    + by apply inv_with_ready.
  - unfold Ready_last in H. destruct (ready h) as [[[a t] []]|] eqn:Hr; try done. injection H as <-.
    destruct (closing h || e); [by apply inv_with_ready|by eapply inv_set_topic].
Qed.

Lemma handoff_inv_run l h h' : inv h → run l h = Some h' → inv h'.
Proof.
  intros Hi H.
  assert (Hcore : ∀ k, core_label k → (λ c, with_core c h) <$> nsqpublisher.run maxInFlight k (core h) = Some h' → inv h').
  { intros k Hk (c&Hc&->)%fmap_Some. by eapply inv_core_step. }
  destruct l as [a t|ok|e|ok|e| | | |a t e| | | | | | | |ps|a|];
    try (eapply inv_ready_run; [done| |exact H]; exact I); cbn [run] in H.
  - unfold Publish_begin in H. destruct (closing h); [done|]. injection H as <-. by apply inv_with_begun.
  - unfold Publish_slot in H. destruct (_ >? _); [|done]. apply fmap_Some in H as (c&Hc&->).
    apply (inv_core_step _ nsqpublisher.LSlot); [by apply inv_with_begun|done|exact Hc].
  - unfold Publish_quit in H. destruct (_ >? _); [|done]. injection H as <-. by apply inv_with_begun.
  - unfold Publish_admit in H. destruct (_ || _ || _) eqn:Hg; [done|]. boolp.
    destruct (nsqpublisher.admission _ (core h)) as [c|] eqn:Hc; [|done]. cbn in H. injection H as <-.
    assert (Hi' : inv (with_core c h)) by (exact (inv_core_step h (nsqpublisher.LAdmit _) c Hi I Hc)).
    destruct (refuses a t e h || stopping h) eqn:Href; [done|]. unfold refuses in Href. boolp.
    match goal with H : ¬ is_Some (ready h) |- _ => apply eq_None_not_Some in H as Hn end.
    unfold emit. cbn. rewrite Hn. apply (inv_send (with_core c h) a t); try done. cbn.
    unfold nsqpublisher.admission in Hc. case_hyp Hc. by case_goal.
  - exact (Hcore (nsqpublisher.LAdmit true) I H).
  - exact (Hcore nsqpublisher.LGiveback I H).
  - exact (Hcore nsqpublisher.LReturn I H).
  - exact (Hcore nsqpublisher.LRelease I H).
  - unfold Publish_done in H. destruct (bool_decide _); [done|]. exact (Hcore nsqpublisher.LDone I H).
  - injection H as <-. destruct Hi. by split.
  - unfold Close_lock in H. destruct (_ || _) eqn:Hg; [done|]. injection H as <-. boolp.
    match goal with H : ¬ is_Some (ready h) |- _ => apply eq_None_not_Some in H as Hn end. rewrite Hn. by apply inv_close.
  - unfold Close_once in H. destruct (_ && _) eqn:Hg; [|done]. injection H as <-. boolp. apply inv_once; [done..|lia].
  - unfold Stop_one in H. cases H. simplify_eq/=. boolp. by apply inv_stop.
  - unfold Stop_done in H. cases H. simplify_eq/=. boolp. destruct Hi as [? ? ? ? ? ? ? Hp]. split; try done.
    unfold stopper_ok in *. cbn. simplify_option_eq. destruct Hp as (?&?&?&_). by split_and!.
Qed.

Abbreviation fresh := (mkHandoff nsqpublisher.initial 0 "" ∅ None false [] None false []) (only parsing).

Lemma handoff_inv_reach h : rtc step fresh h → inv h.
Proof.
  intros Hr. eapply rtc_invariant; [|exact Hr|].
  - intros a b Ha [l Hl]. by eapply handoff_inv_run.
  - split; cbn; try done; [apply nsqpublisher.inv_reach; [done|apply rtc_refl]|constructor|..].
    + intros a. split; [by intros ?%not_elem_of_nil|set_solver].
    + intros a t H. by apply not_elem_of_nil in H.
    + intros ps H. by apply not_elem_of_nil in H.
    + split; [|done]. intros a H. by apply not_elem_of_nil in H.
Qed.

(** After the producers were stopped nothing happens any more. *)
Lemma handoff_stopped_run l h h' :
  inv h → stopDone h = true → run l h = Some h' → stopDone h' = true ∧ log h' = log h.
Proof.
  intros Hi Hd H. pose proof (inv_stopper h Hi) as Hp. unfold stopper_ok in Hp.
  destruct (stopper h) as [rest|] eqn:Hso; [|destruct Hp; congruence]. destruct Hp as (Hone&_&_&Hr). specialize (Hr Hd).
  destruct (closes_stopping h Hi Hone) as [Hs _]. pose proof (inv_ready h Hi) as Hrd. unfold ready_ok in Hrd.
  assert (Hn : ready h = None) by (destruct (ready h) as [[[a t] st]|]; [destruct Hrd as (?&?&?&?); congruence|done]).
  destruct l; cbn [run] in H; unfold Ready_lock, Ready_connect, Ready_check, Ready_producer, Ready_last, Publish_begin, Publish_slot, Publish_quit,
    Publish_admit, Publish_giveup, Publish_giveback, Publish_returns, Publish_release, Publish_done, Close_lock, Close_once,
    Stop_one, Stop_done in H; rewrite ?Hn, ?Hs, ?Hso, ?Hr, ?orb_true_r in H; try done;
    try (apply fmap_Some in H as (?&_&->); done); try (cases H; simplify_eq/=; done).
  - cases H; by apply fmap_Some in H as (?&_&->).
  - destruct (_ || _ || _); [done|]. destruct (nsqpublisher.admission _ _); [|done]. cbn in H. by injection H as <-.
Qed.

Lemma stopped_reach h h' :
  inv h → stopDone h = true → rtc step h h' → log h' = log h.
Proof.
  intros Hi Hd Hr.
  apply (rtc_invariant step (λ x, inv x ∧ stopDone x = true ∧ log x = log h) h h'); [|done|done].
  intros a b (Ha&Hda&Hla) [l Hl]. destruct (handoff_stopped_run _ _ _ Ha Hda Hl) as [? ->].
  split; [by eapply handoff_inv_run|done].
Qed.

(** ** Close can complete *)

Definition reaches (h : Handoff) (P : Handoff → Prop) : Prop := ∃ h', rtc step h h' ∧ P h'.

Lemma reaches_step l h h1 P : run l h = Some h1 → reaches h1 P → reaches h P.
Proof. intros Hl (h'&Hr&HP). exists h'. split; [|done]. eapply rtc_l; [by exists l|done]. Qed.

(** [Ready] lets go of the mutex when it finds the handoff closing. *)
Lemma reaches_unlocked h P :
  closing h = true → (∀ h1, closing h1 = true → ready h1 = None → rtc step h h1 → reaches h1 P) → reaches h P.
Proof.
  intros Hc HP. destruct (ready h) as [[[a t] st]|] eqn:Hr; [|by apply HP; [..|apply rtc_refl]].
  assert (H3 : ∀ h2, closing h2 = true → ready h2 = Some (a, t, RLast) → rtc step h h2 → reaches h P).
  { intros h2 H2 Hr2 Hs. destruct (HP (with_ready None h2)) as (h'&?&?); [done..| |].
    - eapply rtc_r; [exact Hs|]. exists (LLast true). cbn. unfold Ready_last. by rewrite Hr2, H2.
    - exists h'. split; [|done]. etransitivity; [exact Hs|]. eapply rtc_l; [|done].
      exists (LLast true). cbn. unfold Ready_last. by rewrite Hr2, H2. }
  assert (H1 : ∀ l, run l h = Some (with_ready None h) → reaches h P).
  { intros l Hl. eapply reaches_step; [exact Hl|]. apply HP; [done..|]. apply rtc_once. by exists l. }
  destruct st.
  - apply (H1 (LConnect false)). cbn. unfold Ready_connect. by rewrite Hr.
  - apply (H1 (LCheck true)). cbn. unfold Ready_check. by rewrite Hr, Hc.
  - destruct (bool_decide_reflect (a ∈ producers h)) as [Ha|Ha].
    + apply (H3 (with_ready (Some (a, t, RLast)) h)); [done..|]. apply rtc_once. exists (LProducer false).
      cbn. unfold Ready_producer. rewrite Hr. by rewrite bool_decide_eq_true_2.
    + apply (H1 (LProducer false)). cbn. unfold Ready_producer. rewrite Hr. by rewrite bool_decide_eq_false_2.
  - apply (H3 h); [done..|apply rtc_refl].
Qed.

(** Sends return, and the last one closes the drained channel. *)
Lemma reaches_drained h P :
  inv h → ready h = None → stopping h = true →
  (∀ h1, inv h1 → ready h1 = None → snapshots h1 = snapshots h → nsqpublisher.closes (core h1) = 1 → reaches h1 P) →
  reaches h P.
Proof.
  remember (Z.to_nat (nsqpublisher.work (core h))) as n eqn:Hn. revert h Hn.
  induction n as [n IH] using lt_wf_ind. intros h Hn Hi Hr Hs HP.
  destruct (nsqpublisher.core_progress maxInFlight (core h) (inv_core h Hi) Hs) as [Ha|(k&c&Hk&Hc&Hsc&Hw)].
  - apply HP; try done. destruct (inv_core h Hi) as (?&?&?&?&?&?&?&Hc1&_). by apply Hc1.
  - assert (Hgo : ∃ l, core_label k ∧ run l h = Some (with_core c h)).
    { repeat (apply elem_of_cons in Hk as [->|Hk]); [exists LReturn|exists LRelease|exists LDone|by apply not_elem_of_nil in Hk];
        (split; [done|]); cbn in Hc |- *; unfold Publish_returns, Publish_release, Publish_done; rewrite Hc; try done.
      by rewrite Hr, bool_decide_eq_false_2 by (by intros [? ?]). }
    destruct Hgo as (l&Hl&Hrun). eapply reaches_step; [exact Hrun|].
    eapply (IH (Z.to_nat (nsqpublisher.work c))); [lia|done|by eapply inv_core_step|done..].
Qed.

Lemma reaches_stopped h rest :
  stopper h = Some rest → reaches h (λ h', stopDone h' = true).
Proof.
  revert h. induction rest as [|a rest Ha IH] using set_ind_L; intros h Hso.
  - eexists. split; [|apply (eq_refl true : stopDone (mkHandoff (core h) (begun h) (topic h) (producers h) (ready h) (closing h)
      (snapshots h) (stopper h) true (log h)) = true)].
    apply rtc_once. exists LStopDone. cbn. unfold Stop_done. rewrite Hso. by rewrite bool_decide_eq_true_2.
  - eapply (reaches_step (LStop a)); [|apply (IH (mkHandoff (core h) (begun h) (topic h) (producers h) (ready h) (closing h)
      (snapshots h) (Some rest) (stopDone h) (log h ++ [EStop a]))); done].
    cbn. unfold Stop_one. rewrite Hso, bool_decide_eq_true_2 by set_solver. do 3 f_equal. set_solver.
Qed.

Lemma close_completes h : inv h → reaches h (λ h', stopDone h' = true).
Proof.
  intros Hi. apply (reaches_step LClosing _ (Close_begin h)); [done|].
  assert (Hi1 : inv (Close_begin h)) by (by apply (handoff_inv_run LClosing h)).
  apply reaches_unlocked; [done|]. intros h1 Hc Hr Hs.
  assert (inv h1) as Hi2 by (eapply rtc_invariant; [|exact Hs|done]; intros a b Ha [l Hl]; by eapply handoff_inv_run).
  assert (Hl : run LClose h1 = Some (mkHandoff (nsqpublisher.beginDrain (core h1)) (begun h1) (topic h1) (producers h1) None (closing h1)
         (producers h1 :: snapshots h1) (stopper h1) (stopDone h1) (log h1))).
  { cbn. unfold Close_lock. rewrite Hc, Hr. by rewrite bool_decide_eq_false_2 by (by intros [? ?]). }
  eapply reaches_step; [exact Hl|]. apply reaches_drained; [by eapply handoff_inv_run|done| |].
  - cbn. unfold nsqpublisher.beginDrain. destruct (stopping h1) eqn:E; [done|]. by repeat case_goal.
  - cbn. intros h2 Hi3 Hr2 Hsn Hone. eapply (reaches_step (LOnce (producers h1))).
    + cbn. unfold Close_once. rewrite Hsn, Hone, bool_decide_eq_true_2 by (by left). reflexivity.
    + by eapply reaches_stopped.
Qed.

End handoff.

(** C28: A failed handoff is orderly.  In every interleaving of Ready, Publish and
    Close, no more sends than the limit hold a slot, and the driver sees only
    this: the failure consumer is connected to a source before a producer is
    created for it, at most one producer is created per source, every send uses
    such a producer and all sends one topic, and after the first producer is
    stopped nothing is connected, created or sent.  Producers are stopped only
    when drained: from the moment Close starts to stop them, and whenever one
    has been stopped, the handoff is closing and no send is running.  When Close
    reports success every producer was stopped, once, no send was running and nothing happens
    ever after; and from every state a Close can complete. *)
Theorem handoff_orderly valid maxInFlight h0 h :
  valid ""%string = false → newDirectHandoff maxInFlight = Ok h0 → rtc (step valid maxInFlight) h0 h →
  0 <= nsqpublisher.slots (core h) <= maxInFlight ∧ protocol (log h) ∧
  (stopper h ≠ None ∨ (∃ a, EStop a ∈ log h) →
     closing h = true ∧ nsqpublisher.stopping (core h) = true ∧ nsqpublisher.active (core h) = 0) ∧
  (stopDone h = true →
     nsqpublisher.active (core h) = 0 ∧ (∀ a, ENew a ∈ log h → EStop a ∈ log h) ∧
     ∀ h', rtc (step valid maxInFlight) h h' → log h' = log h) ∧
  ∃ h', rtc (step valid maxInFlight) h h' ∧ stopDone h' = true.
Proof.
  unfold newDirectHandoff. intros Hv Hnew Hr. destruct (_ || _) eqn:Hg; [done|]. injection Hnew as <-. boolp.
  assert (Hlim : 1 <= maxInFlight <= 1000) by lia.
  assert (Hi : inv valid maxInFlight h) by (by apply handoff_inv_reach).
  split; [|split; [exact (inv_log valid maxInFlight h Hi)|split; [by eapply stopped_drained|split; [|by apply close_completes]]]].
  - destruct (inv_core valid maxInFlight h Hi) as (?&?&?&?&?&?&_). unfold nsqpublisher.slots in *. lia.
  - intros Hd. pose proof (inv_stopper valid maxInFlight h Hi) as Hp. unfold stopper_ok in Hp.
    destruct (stopper h) as [rest|]; [|destruct Hp; congruence]. destruct Hp as (Hone&_&Hst&He). rewrite (He Hd) in Hst.
    split; [by apply (closes_stopping valid maxInFlight)|]. split; [|intros h' Hr'; by eapply stopped_reach].
    intros a. rewrite (inv_new valid maxInFlight h Hi), Hst. set_solver.
Qed.

Fixpoint run_all (valid : string → bool) (n : Z) (ls : list Label) (h : Handoff) : option Handoff :=
  match ls with
  | [] => Some h
  | l :: ls => match run valid n l h with Some h' => run_all valid n ls h' | None => None end
  end.
Lemma handoff_run_all_reach valid n ls h h' : run_all valid n ls h = Some h' → rtc (step valid n) h h'.
Proof.
  revert h. induction ls as [|l ls IH]; intros h; simpl; [by intros [= ->]|].
  destruct (run valid n l h) as [h1|] eqn:E; [|done]. intros H. eapply rtc_l; [by exists l|by apply IH].
Qed.

(** A handoff at one source, and a second Ready that a Close interrupts. *)
Definition ex_valid (t : string) : bool := t != ""%string.
Definition ex_labels : list Label :=
  [LReady "nsqd:4150" "failed"; LConnect true; LCheck false; LProducer true; LLast false; LBegin; LSlot; LAdmit "nsqd:4150" "failed" false;
   LReady "other:4150" "failed"; LConnect true; LClosing; LCheck false; LClose; LReturn; LRelease; LDone;
   LOnce {["nsqd:4150"%string]}; LStop "nsqd:4150"; LStopDone].
Definition ex_fresh : Handoff := mkHandoff nsqpublisher.initial 0 "" ∅ None false [] None false [].
Definition ex_end : Handoff := default ex_fresh (run_all ex_valid 2 ex_labels ex_fresh).

Lemma ex_log : log ex_end = [EConnect "nsqd:4150"; ENew "nsqd:4150"; ESend "nsqd:4150" "failed"; EConnect "other:4150"; EStop "nsqd:4150"].
Proof. vm_compute. reflexivity. Qed.

Lemma ex_reached : rtc (step ex_valid 2) ex_fresh ex_end.
Proof.
  apply (handoff_run_all_reach _ _ ex_labels). unfold ex_end.
  assert (Hs : is_Some (run_all ex_valid 2 ex_labels ex_fresh)) by (vm_compute; by eexists).
  by destruct Hs as [h' ->].
Qed.

Lemma handoff_orderly_witness :
  stopDone ex_end = true ∧ nsqpublisher.active (core ex_end) = 0 ∧ protocol (log ex_end) ∧ closing ex_end = true.
Proof.
  assert (Hd : stopDone ex_end = true) by (vm_compute; reflexivity).
  destruct (handoff_orderly ex_valid 2 ex_fresh ex_end eq_refl eq_refl ex_reached) as (_&Hp&Hdr&Hs&_).
  assert (Hst : stopper ex_end ≠ None) by (vm_compute; discriminate).
  split; [exact Hd|]. split; [exact (proj1 (Hs Hd))|]. split; [exact Hp|exact (proj1 (Hdr (or_introl Hst)))].
Defined.

End handoff.
