(* ===== verification/NsqSubscriber.v ===== *)
(** * transport/nsq: discovery, provisioning and the managed subscriber

    [discovery.go]: the nsqd nodes that lookupd reports; [provisioner.go]: topics
    and channels are created on every node before the first publish;
    [subscriber.go]: registration of consumers, failure side first, and shutdown.
    Parameters: answers of HTTP and of the NSQ driver, URL parsing and the
    driver's name checks. *)

From Stdlib Require Import Ascii.
From S2P Require Import Prelude GoStd Relay Json Wire Nsq NsqHandoff.

(** ** Text helpers of the Go library *)

Module gotext.

(** Remove one leading or trailing space of any form. *)
Definition drop_prefix (s : string) : option string :=
  (λ t, String.substring (String.length t) (String.length s - String.length t) s) <$>
    (snd <$> list_find (λ t, has_prefix t s = true) spaces).
Definition drop_suffix (s : string) : option string :=
  (λ t, String.substring 0 (String.length s - String.length t) s) <$>
    (snd <$> list_find (λ t, has_suffix t s = true) spaces).

Fixpoint iterate (f : string → option string) (fuel : nat) (s : string) : string :=
  match fuel with
  | O => s
  | Datatypes.S fuel => match f s with Some s' => iterate f fuel s' | None => s end
  end.

(** [strings.TrimSpace]: every round removes an octet at least. *)
Definition TrimSpace (s : string) : string :=
  let s := iterate drop_prefix (String.length s) s in iterate drop_suffix (String.length s) s.

Fixpoint contains_char (c : ascii) (s : string) : bool :=
  match s with EmptyString => false | String a s => (a == c) || contains_char c s end.

(** The text before and after the last [c]. *)
Fixpoint split_last (c : ascii) (s : string) : option (string * string) :=
  match s with
  | EmptyString => None
  | String a t =>
    match split_last c t with
    | Some (x, y) => Some (String a x, y)
    | None => if a == c then Some (""%string, t) else None
    end
  end.
Fixpoint split_first (c : ascii) (s : string) : option (string * string) :=
  match s with
  | EmptyString => None
  | String a t => if a == c then Some (""%string, t) else (λ p, (String a p.1, p.2)) <$> split_first c t
  end.

(** [net.SplitHostPort]: host and port, or an error. *)
Definition SplitHostPort (hostport : string) : option (string * string) :=
  match split_last ":"%char hostport with
  | None => None
  | Some (before, port) =>
    match hostport with
    | String "["%char t =>
      match split_first "]"%char t with
      | None => None
      | Some (host, after) =>
        (* the last colon is the one right after the bracket *)
        if (after == (":" +:+ port)%string) &&
           negb (contains_char "["%char t) && negb (contains_char "]"%char after)
        then Some (host, port) else None
      end
    | _ =>
      if contains_char ":"%char before || contains_char "["%char hostport || contains_char "]"%char hostport
      then None else Some (before, port)
    end
  end.

Definition JoinHostPort (host port : string) : string :=
  if contains_char ":"%char host then ("[" +:+ host +:+ "]:" +:+ port)%string else (host +:+ ":" +:+ port)%string.

Example trim_examples :
  map TrimSpace ["  a b "; ""; "   "; "x"]%string = ["a b"; ""; ""; "x"]%string.
Proof. vm_compute. reflexivity. Qed.

Example host_port_examples :
  map SplitHostPort ["nsqd:4150"; "nsqd"; "a:b:1"; "[::1]:4150"; "[::1]"; "::1:4150"; ":1"]%string =
  [Some ("nsqd", "4150"); None; None; Some ("::1", "4150"); None; None; Some ("", "1")]%string.
Proof. vm_compute. reflexivity. Qed.
End gotext.

(** ** Discovery *)

Module discovery.
Import gotext json.

Record lookupdProducer : Type := mkProducer { BroadcastAddress : string; Hostname : string; TCPPort : Z }.

(** [json.Unmarshal] of one producer, of the array, of the response. *)
Definition set_producer (v : value) : result lookupdProducer :=
  match v with
  | JNull => Ok (mkProducer "" "" 0)
  | JObj ms =>
    try l <- assign false ["broadcast_address"; "hostname"; "tcp_port"]%string ms;
    try a <- fold_field "broadcast_address" set_string l ""%string;
    try b <- fold_field "hostname" set_string l ""%string;
    try c <- fold_field "tcp_port" set_int l 0;
    Ok (mkProducer a b c)
  | _ => Err type_error
  end.
Definition set_producers (acc : list lookupdProducer) (v : value) : result (list lookupdProducer) :=
  match v with
  | JNull => Ok []
  | JArr vs => rmap_list set_producer vs
  | _ => Err type_error
  end.
Definition set_response (v : value) : result (list lookupdProducer) :=
  match v with
  | JNull => Ok []
  | JObj ms => try l <- assign false ["producers"%string] ms; fold_field "producers" set_producers l []
  | _ => Err type_error
  end.

(** [io.LimitReader(body, 1<<20)] *)
Definition limited (body : bytes) : bytes :=
  if len body <=? 1048576 then body else String.substring 0 (Z.to_nat 1048576) body.

(** [json.NewDecoder(...).Decode]: the first value, whatever follows it. *)
Definition decode_first (body : bytes) : option value :=
  fst <$> parse_value (2 * String.length body + 2) body.

(** A lookupd answered with a status and a body, or the request failed. *)
Definition query_response (status : Z) (body : bytes) : result (list lookupdProducer) :=
  if (status <? 200) || (status >=? 300) then Err (ErrMsg "lookupd status")
  else match decode_first (limited body) with
       | None => Err (ErrWrap "decode lookupd producers" syntax_error)
       | Some v =>
         match set_response v with
         | Ok ps => Ok ps
         | Err e => Err (ErrWrap "decode lookupd producers" e)
         end
       end.

(** The host:port of a producer, if it has one. *)
Definition address_of (p : lookupdProducer) : option string :=
  let host := TrimSpace (BroadcastAddress p) in
  let host := if host == ""%string then TrimSpace (Hostname p) else host in
  if (host == ""%string) || (TCPPort p <? 1) || (TCPPort p >? 65535) then None
  else Some (JoinHostPort host (FormatUint (TCPPort p))).

Definition string_le (a b : string) : Prop := String.leb a b = true.
#[global] Instance string_le_dec : RelDecision string_le.
Proof. intros a b. unfold string_le. apply _. Defined.

#[global] Instance string_le_total' : Total string_le := string_le_total.
#[global] Instance string_le_trans' : Transitive string_le := string_le_trans.
#[global] Instance string_le_antisymm : AntiSymm (=) string_le.
Proof. intros a b. apply String.leb_antisym. Qed.

(** The loop over the answers, in the order in which they arrive. *)
Definition absorb (st : gset string * list error) (r : string * result (list lookupdProducer)) : gset string * list error :=
  match r.2 with
  | Err e => (st.1, st.2 ++ [ErrWrap r.1 e])
  | Ok ps => (list_to_set (omap address_of ps) ∪ st.1, st.2)
  end.

Definition join_all (es : list error) : option error := foldr (λ e acc, errors_join (Some e) acc) None es.

Definition resolveLookupdProducers (path : string) (arrivals : list (string * result (list lookupdProducer)))
    : result (list string) :=
  if bool_decide (arrivals = []) then Err (ErrMsg "lookupd addresses required")
  else
    let '(found, failures) := fold_left absorb arrivals (∅, []) in
    if bool_decide (found = ∅) then
      match join_all failures with
      | None => Err (ErrMsg ("no lookupd returned an NSQD for " +:+ path))
      | Some e => Err (ErrWrap ("no lookupd returned an NSQD for " +:+ path) e)
      end
    else Ok (merge_sort string_le (elements found)).

Definition resolveTopicProducers (valid_topic : bool) (arrivals : list (string * result (list lookupdProducer)))
    : result (list string) :=
  if negb valid_topic then Err (ErrMsg "valid topic and lookupd addresses required")
  else resolveLookupdProducers "/lookup" arrivals.

(** [resolveBootstrapSources]: the topic's nodes, or the first active node. *)
Definition resolveBootstrapSources (valid_topic : bool)
    (lookups nodes : list (string * result (list lookupdProducer))) : result (list string) :=
  match resolveTopicProducers valid_topic lookups with
  | Ok addresses => Ok addresses
  | Err topicErr =>
    match resolveLookupdProducers "/nodes" nodes with
    | Err nodesErr => Err (ErrJoin topicErr (ErrWrap "resolve active NSQD nodes" nodesErr))
    | Ok l => Ok (take 1 l)
    end
  end.

(** *** What is found *)

(** Address [a] is reported by some answer. *)
Definition reported (arrivals : list (string * result (list lookupdProducer))) (a : string) : Prop :=
  ∃ src ps p, (src, Ok ps) ∈ arrivals ∧ p ∈ ps ∧ address_of p = Some a.

Lemma absorb_found arrivals st a :
  a ∈ (fold_left absorb arrivals st).1 ↔ a ∈ st.1 ∨ reported arrivals a.
Proof.
  revert st. induction arrivals as [|[src r] arrivals IH]; intros st; simpl.
  - split; [by left|]. intros [?|(?&?&?&H&_)]; [done|by apply not_elem_of_nil in H].
  - rewrite IH. unfold absorb, reported. simpl. setoid_rewrite elem_of_cons. destruct r as [ps|e]; simpl.
    + rewrite elem_of_union, elem_of_list_to_set, list_elem_of_omap. naive_solver.
    + naive_solver.
Qed.

Lemma resolve_Ok path arr l :
  resolveLookupdProducers path arr = Ok l →
  l ≠ [] ∧ NoDup l ∧ Sorted string_le l ∧ ∀ a, a ∈ l ↔ reported arr a.
Proof.
  unfold resolveLookupdProducers. destruct (bool_decide (arr = [])); [done|].
  pose proof (absorb_found arr (∅, [])) as Hf.
  destruct (fold_left absorb arr (∅, [])) as [found failures]. simpl in Hf.
  destruct (bool_decide_reflect (found = ∅)) as [|Hne]; [by destruct (join_all failures)|]. intros [= <-].
  assert (Hin : ∀ a, a ∈ merge_sort string_le (elements found) ↔ a ∈ found).
  { intros a. rewrite (merge_sort_Permutation string_le). apply elem_of_elements. }
  split_and!.
  - intros E. apply Hne. apply set_eq. intros a. rewrite <-Hin, E. set_solver.
  - rewrite (merge_sort_Permutation string_le). apply NoDup_elements.
  - apply (Sorted_merge_sort string_le).
  - intros a. rewrite Hin, Hf. set_solver.
Qed.

Lemma resolve_iff path arr : (∃ a, reported arr a) ↔ is_Ok (resolveLookupdProducers path arr) = true.
Proof.
  split.
  - intros [a Ha]. unfold resolveLookupdProducers.
    rewrite bool_decide_eq_false_2 by (intros ->; destruct Ha as (?&?&?&H&_); by apply not_elem_of_nil in H).
    pose proof (absorb_found arr (∅, []) a) as Hf. destruct (fold_left absorb arr (∅, [])) as [found failures].
    simpl in Hf. rewrite bool_decide_eq_false_2 by (intros ->; set_solver). done.
  - destruct (resolveLookupdProducers path arr) as [l|] eqn:E; [|done]. intros _.
    destruct (resolve_Ok _ _ _ E) as (Hne&_&_&Hin). destruct l as [|a l]; [done|]. exists a. apply Hin. by left.
Qed.

Lemma first_node nodes l k :
  resolveLookupdProducers "/nodes" nodes = Ok k → l = take 1 k → l ≠ [] ∧ ∀ a, a ∈ l → length l = 1%nat ∧ reported nodes a.
Proof.
  intros (Hne&_&_&Hin)%resolve_Ok ->. destruct k as [|b k]; [done|]. split; [done|].
  intros a Ha. split; [done|]. apply Hin. simpl in Ha. rewrite take_0 in Ha. set_solver.
Qed.

(** Discovery does not depend on timing.  The addresses resolved from the
    answers of the lookupd servers are exactly the valid ones reported by any of
    them, sorted and without repetition, whatever the order in which the answers
    arrive; resolution fails exactly when no answer reports one; and a
    subscription bootstraps on the topic's nodes, or on one active node, never on
    none. *)
Theorem discovery_deterministic path arrivals arrivals' :
  arrivals ≡ₚ arrivals' →
  (∀ l, resolveLookupdProducers path arrivals = Ok l → resolveLookupdProducers path arrivals' = Ok l) ∧
  (∀ l, resolveLookupdProducers path arrivals = Ok l →
     l ≠ [] ∧ NoDup l ∧ Sorted string_le l ∧ ∀ a, a ∈ l ↔ reported arrivals a) ∧
  ((∃ a, reported arrivals a) ↔ is_Ok (resolveLookupdProducers path arrivals) = true) ∧
  (∀ valid nodes l, resolveBootstrapSources valid arrivals nodes = Ok l →
     l ≠ [] ∧ ∀ a, a ∈ l → reported arrivals a ∨ length l = 1%nat ∧ reported nodes a).
Proof.
  intros Hp.
  assert (Hrep : ∀ a, reported arrivals a ↔ reported arrivals' a) by (intros a; unfold reported; by setoid_rewrite Hp).
  split_and!; [|apply resolve_Ok|apply resolve_iff|].
  - intros l E. assert (Hi : is_Ok (resolveLookupdProducers path arrivals') = true).
    { apply resolve_iff. setoid_rewrite <-Hrep. apply (resolve_iff path). by rewrite E. }
    destruct (resolveLookupdProducers path arrivals') as [k|] eqn:E'; [|done]. f_equal.
    destruct (resolve_Ok _ _ _ E) as (_&Hnd&Hs&Hl), (resolve_Ok _ _ _ E') as (_&Hnd'&Hs'&Hk). symmetry.
    eapply (Sorted_unique string_le); [done..|]. apply NoDup_Permutation; [done..|]. intros a. by rewrite Hl, Hk.
  - intros valid nodes l. unfold resolveBootstrapSources, resolveTopicProducers.
    assert (Hnodes : ∀ e, match resolveLookupdProducers "/nodes" nodes with
                          | Err e' => Err (ErrJoin e (ErrWrap "resolve active NSQD nodes" e'))
                          | Ok l => Ok (take 1 l) end = Ok l → 
              l ≠ [] ∧ ∀ a, a ∈ l → reported arrivals a ∨ length l = 1%nat ∧ reported nodes a).
    { intros e. destruct (resolveLookupdProducers "/nodes" nodes) as [k|] eqn:E; [|done]. intros [= <-].
      destruct (first_node _ _ _ E eq_refl). auto. }
    destruct valid; simpl; [|apply Hnodes]. destruct (resolveLookupdProducers "/lookup" arrivals) as [k|] eqn:E.
    + intros [= <-]. destruct (resolve_Ok _ _ _ E) as (?&_&_&Hin). split; [done|]. intros a ?%Hin. by left.
    + apply Hnodes.
Qed.
(** Two servers, one of which answers late, one fails. *)
Definition ex_body : bytes :=
  ("{" +:+ quote "producers" +:+ ":[{" +:+ quote "hostname" +:+ ":" +:+ quote " n2 " +:+ "," +:+ quote "tcp_port" +:+
   ":4150},{" +:+ quote "broadcast_address" +:+ ":" +:+ quote "::1" +:+ "," +:+ quote "TCP_Port" +:+ ":4150}]} tail")%string.
Definition ex_arrivals : list (string * result (list lookupdProducer)) :=
  [("b"%string, query_response 200 ex_body); ("a"%string, query_response 500 "")].

Example ex_resolved :
  resolveLookupdProducers "/lookup" ex_arrivals = Ok ["[::1]:4150"; "n2:4150"]%string.
Proof. vm_compute. reflexivity. Qed.

Lemma discovery_deterministic_witness :
  resolveLookupdProducers "/lookup" (reverse ex_arrivals) = Ok ["[::1]:4150"; "n2:4150"]%string.
Proof.
  exact (proj1 (discovery_deterministic "/lookup" ex_arrivals (reverse ex_arrivals)
    (Permutation_sym (reverse_Permutation _))) _ ex_resolved).
Defined.
End discovery.

(** ** Provisioning *)

Module provisioner.
Import gotext.

(** The fields of a parsed URL that the code reads. *)
Record URL : Type := mkURL {
  Scheme : string; hasUser : bool; u_Hostname : string; Host : string; Path : string; RawQuery : string; Fragment : string
}.

Section provisioner.
Context (Parse : string → option URL) (String_ : URL → string).

(** [strconv.Atoi] of a port and its range: one sign is accepted, digits follow. *)
Definition Atoi (s : string) : option Z :=
  match s with
  | String "+"%char t => ParseUint t
  | String "-"%char t => Z.opp <$> ParseUint t
  | _ => ParseUint s
  end.
Definition valid_port (port : string) : bool :=
  match Atoi port with Some n => (1 <=? n) && (n <=? 65535) | None => false end.

Definition valid_endpoint (raw : string) : result URL :=
  match Parse raw with
  | None => Err (ErrMsg "explicit nsqd HTTP URL required")
  | Some u =>
    if ((Scheme u != "http"%string) && (Scheme u != "https"%string)) || hasUser u || (u_Hostname u == ""%string) ||
       (Path u != ""%string) || (RawQuery u != ""%string) || (Fragment u != ""%string)
    then Err (ErrMsg "explicit nsqd HTTP URL required")
    else match SplitHostPort (Host u) with
         | None => Err (ErrMsg "nsqd HTTP port required")
         | Some (_, port) => if valid_port port then Ok u else Err (ErrMsg "invalid nsqd HTTP port")
         end
  end.

Definition add_endpoint (st : list URL * gset string) (raw : string) : result (list URL * gset string) :=
  try u <- valid_endpoint raw;
  if bool_decide (String_ u ∈ st.2) then Ok st else Ok (st.1 ++ [u], {[String_ u]} ∪ st.2).

Definition NewProvisioner (nsqdHTTP : list string) : result (list URL) :=
  if bool_decide (nsqdHTTP = []) then Err (ErrMsg "host HTTP client and nsqd HTTP endpoints required")
  else try st <- rfold add_endpoint nsqdHTTP ([], ∅); Ok st.1.

(** One POST to a node. *)
Record Request : Type := mkRequest { q_node : URL; q_path : string; q_query : list (string * string) }.

Inductive Reply : Type :=
| CtxErr (e : error)                     (* ctx.Err before the request *)
| NoRequest (e : error) | NoResponse (e : error)
| Response (status : Z) (readErr closeErr : option error).

(** What one iteration returns; [None] goes on with the next node. *)
Definition reply_error (r : Reply) : option error :=
  match r with
  | CtxErr e | NoRequest e => Some e
  | NoResponse e => Some (ErrWrap "prepare NSQ resource" e)
  | Response status readErr closeErr =>
    if negb (status =? 200) then Some (ErrMsg "prepare NSQ resource: status")
    else match errors_join readErr closeErr with
         | Some e => Some (ErrWrap "read NSQ preparation response" e)
         | None => None
         end
  end.

(** The world answers each iteration in turn; its request and answer are logged. *)
Context (reply : nat → Request → Reply).
Definition log : Type := list (Request * Reply).

Fixpoint ensure (path : string) (query : list (string * string)) (nodes : list URL) (l : log) : option error * log :=
  match nodes with
  | [] => (None, l)
  | node :: nodes =>
    let q := mkRequest node path query in
    let r := reply (length l) q in
    let l := l ++ [(q, r)] in
    match reply_error r with
    | Some e => (Some e, l)
    | None => ensure path query nodes l
    end
  end.

Context (IsValidTopicName IsValidChannelName : string → bool).

Definition EnsureTopic (nodes : list URL) (topic : string) (l : log) : option error * log :=
  if negb (IsValidTopicName topic) then (Some (ErrMsg "valid NSQ topic required"), l)
  else ensure "/topic/create" [("topic"%string, topic)] nodes l.

Definition EnsureChannel (nodes : list URL) (topic channel : string) (l : log) : option error * log :=
  if negb (IsValidTopicName topic) || negb (IsValidChannelName channel) || has_suffix "#ephemeral" channel
  then (Some (ErrMsg "valid NSQ topic and durable channel required"), l)
  else
    let '(err, l) := EnsureTopic nodes topic l in
    match err with
    | Some e => (Some e, l)
    | None => ensure "/channel/create" [("topic"%string, topic); ("channel"%string, channel)] nodes l
    end.

(** *** What success means *)

(** Every node accepted the request, in order. *)
Definition accepted_by (path : string) (query : list (string * string)) (nodes : list URL) (l : log) : Prop :=
  Forall2 (λ node p, p.1 = mkRequest node path query ∧ ∃ re ce, p.2 = Response 200 re ce ∧ re = None ∧ ce = None) nodes l.

Lemma reply_error_ok r : reply_error r = None → r = Response 200 None None.
Proof.
  unfold reply_error. destruct r as [| | |status re ce]; try done. destruct (Z.eqb_spec status 200) as [->|]; [|done].
  destruct re, ce; done.
Qed.

Lemma ensure_Ok path query nodes l l' :
  ensure path query nodes l = (None, l') → ∃ k, l' = l ++ k ∧ accepted_by path query nodes k.
Proof.
  revert l. induction nodes as [|node nodes IH]; intros l; simpl.
  - intros [= <-]. exists []. by rewrite app_nil_r; repeat constructor.
  - destruct (reply_error _) eqn:E; [done|]. intros (k&->&Hk)%IH. apply reply_error_ok in E.
    eexists (_ :: k). rewrite <-app_assoc. split; [done|]. constructor; [|done]. simpl. rewrite E. eauto 6.
Qed.

(** A failed preparation reports the first node that did not accept. *)
Lemma ensure_Err path query nodes l e l' :
  ensure path query nodes l = (Some e, l') →
  ∃ pre node k r, (∃ post, nodes = pre ++ node :: post) ∧ accepted_by path query pre k ∧
    l' = l ++ k ++ [(mkRequest node path query, r)] ∧ reply_error r = Some e.
Proof.
  revert l. induction nodes as [|node nodes IH]; intros l; simpl; [done|].
  destruct (reply_error _) eqn:E.
  - intros [= <- <-]. exists [], node, []. eexists. split_and!; [by eexists|constructor|reflexivity|done].
  - intros (pre&node'&k&r&(post&->)&Hk&->&Hr)%IH. apply reply_error_ok in E. rewrite E.
    exists (node :: pre), node'. eexists (_ :: k), r. split_and!; [by exists post| |by rewrite <-app_assoc|done].
    constructor; [simpl; eauto 6|done].
Qed.

(** Preparation is complete before it succeeds.  EnsureChannel returns nil only
    after every node of the provisioner accepted the topic and then every node
    accepted the durable channel, each with status 200 and a readable answer; and
    when it fails every accepted request before the failing one concerns an
    earlier node, so that nothing is skipped. *)
Theorem channel_prepared nodes topic channel l r l' :
  EnsureChannel nodes topic channel l = (r, l') →
  let tq := [("topic"%string, topic)] in
  let cq := [("topic"%string, topic); ("channel"%string, channel)] in
  match r with
  | None =>
    IsValidTopicName topic = true ∧ IsValidChannelName channel = true ∧ has_suffix "#ephemeral" channel = false ∧
    ∃ k1 k2, l' = l ++ k1 ++ k2 ∧ accepted_by "/topic/create" tq nodes k1 ∧ accepted_by "/channel/create" cq nodes k2
  | Some e =>
    l' = l ∨
    (∃ pre node post k q, nodes = pre ++ node :: post ∧ reply_error q = Some e ∧
       (l' = l ++ k ++ [(mkRequest node "/topic/create" tq, q)] ∧ accepted_by "/topic/create" tq pre k ∨
        ∃ k1, l' = l ++ k1 ++ k ++ [(mkRequest node "/channel/create" cq, q)] ∧
          accepted_by "/topic/create" tq nodes k1 ∧ accepted_by "/channel/create" cq pre k))
  end.
Proof.
  unfold EnsureChannel. destruct (_ || _ || _) eqn:Hg; [intros [= <- <-]; by left|]. boolp.
  unfold EnsureTopic. match goal with H : IsValidTopicName topic = true |- _ => rewrite H end. cbn [negb].
  destruct (ensure "/topic/create" _ nodes l) as [[e|] l1] eqn:E.
  - intros [= <- <-]. right. apply ensure_Err in E as (pre&node&k&q&(post&->)&Hk&->&Hq).
    exists pre, node, post, k, q. auto.
  - apply ensure_Ok in E as (k1&->&Hk1). intros E2. destruct r as [e|].
    + right. apply ensure_Err in E2 as (pre&node&k&q&(post&->)&Hk&->&Hq). exists pre, node, post, k, q.
      split_and!; [done..|]. right. exists k1. by rewrite <-app_assoc.
    + apply ensure_Ok in E2 as (k2&->&Hk2). split_and!; [done..|]. exists k1, k2. by rewrite <-app_assoc.
Qed.
End provisioner.

Definition ex_node (host : string) : URL := mkURL "http" false host (host +:+ ":4151") "" "" "".
Definition ex_parse (raw : string) : option URL :=
  if has_prefix "http://" raw then Some (ex_node (String.substring 7 (String.length raw - 12) raw)) else None.
Definition ex_string (u : URL) : string := (Scheme u +:+ "://" +:+ Host u)%string.

Example ex_nodes :
  NewProvisioner ex_parse ex_string ["http://a:4151"; "http://b:4151"; "http://a:4151"]%string = Ok [ex_node "a"; ex_node "b"].
Proof. vm_compute. reflexivity. Qed.

Definition ex_reply (n : nat) (_ : Request) : Reply := Response 200 None None.

Lemma channel_prepared_witness :
  ∃ k1 k2, (EnsureChannel ex_reply (λ _, true) (λ _, true) [ex_node "a"; ex_node "b"] "orders" "billing" []).2 = k1 ++ k2 ∧
    accepted_by "/topic/create" [("topic", "orders")]%string [ex_node "a"; ex_node "b"] k1.
Proof.
  destruct (EnsureChannel ex_reply (λ _, true) (λ _, true) [ex_node "a"; ex_node "b"] "orders" "billing" []) as [r l'] eqn:E.
  assert (Hr : r = None) by (vm_compute in E; by injection E).
  pose proof (channel_prepared ex_reply (λ _, true) (λ _, true) [ex_node "a"; ex_node "b"] "orders" "billing" [] r l' E) as H.
  rewrite Hr in H. destruct H as (_&_&_&k1&k2&Hl&H1&_). exists k1, k2. split; [exact Hl|exact H1].
Defined.
End provisioner.

(** ** The managed subscriber *)

Module subscriber.
Import gotext legacy nsq.

(** The driver settings the code reads or writes. *)
Record Driver : Type := mkDriver { DialTimeout : Z; ReadTimeout : Z; WriteTimeout : Z; d_MaxInFlight : Z; d_MaxAttempts : Z }.

Record SubscriberConfig : Type := mkConfig {
  NSQDAddresses : list string; LookupdAddresses : list string; Driver_ : option Driver;
  MaxInFlight : Z; MaxAttempts : Z; Retry : Backoff; FailedHandoffGroup : string
}.

(** What a subscriber keeps of its configuration. *)
Record Settings : Type := mkSettings {
  addresses : list string; lookupds : list string; driver : Driver;
  inFlight : Z; attempts : Z; retry : Backoff; group : string
}.

Record Running : Type := mkRunning { r_topic : string; r_channel : string; r_failureTopic : string }.

Record Subscriber : Type := mkSubscriber { running : list Running; identities : gset string }.

Section subscriber.
Context (IsValidTopicName IsValidChannelName : string → bool) (NewConfig : Driver).

(** The addresses without repetitions, or the first invalid one. *)
Definition add_address (st : list string * gset string) (a : string) : result (list string * gset string) :=
  match SplitHostPort a with
  | None => Err (ErrMsg "invalid NSQD address")
  | Some _ => if bool_decide (a ∈ st.2) then Ok st else Ok (st.1 ++ [a], {[a]} ∪ st.2)
  end.

Definition NewSubscriber (config : SubscriberConfig) : result Settings :=
  if bool_decide (bool_decide (NSQDAddresses config = []) = bool_decide (LookupdAddresses config = [])) ||
     (MaxAttempts config =? 0)
  then Err (ErrMsg "exactly one of NSQD or lookupd addresses, plus bounded attempts, required")
  else if (FailedHandoffGroup config != ""%string) && negb (IsValidChannelName (FailedHandoffGroup config))
  then Err (ErrMsg "invalid failed handoff group")
  else if (BaseDelay (Retry config) <? 0) || (nsq.MaxDelay (Retry config) <? 0) || negb (jitterInRange (Retry config))
  then Err (ErrMsg "invalid retry backoff")
  else
    let d := default NewConfig (Driver_ config) in
    let n := if MaxInFlight config =? 0 then d_MaxInFlight d else MaxInFlight config in
    if (n <? 1) || (n >? 1000) then Err (ErrMsg "max in-flight must be 1..1000")
    else if (DialTimeout d <=? 0) || (ReadTimeout d <=? 0) || (WriteTimeout d <=? 0)
    then Err (ErrMsg "bounded NSQ dial/read/write timeouts required")
    else
      try st <- rfold add_address (NSQDAddresses config) ([], ∅);
      Ok (mkSettings st.1 (LookupdAddresses config)
            (mkDriver (DialTimeout d) (ReadTimeout d) (WriteTimeout d) n 0) n (MaxAttempts config)
            (Retry config) (FailedHandoffGroup config)).

(** *** Subscribe *)

(** What the world answers during one Subscribe, in the order of the calls;
    [None] is success. *)
Record Answers : Type := mkAnswers {
  a_stopping : bool;                      (* stopping at the first check *)
  a_lock : option error;                  (* lockWithContext *)
  a_stopping2 : bool; a_ctx : option error;
  a_resolve : result (list string);       (* resolveBootstrapSources *)
  a_failure : option error;               (* NewConsumer of the failure topic *)
  a_business : option error;              (* NewConsumer of the topic *)
  a_connectF : option error; a_lookupF : option error; a_connectB : option error;
  a_stopping3 : bool; a_ctx3 : option error;
  a_ctx4 : option error;                  (* ctx.Err after the stops of cleanupPartial *)
  a_waitB : option error; a_waitF : option error; a_idle : option error; a_handoff : option error
}.

Inductive Event : Type :=
| ENewFailure (topic : string) | ENewBusiness (topic channel : string)
| EHandlers
| EConnectFailure (addrs : list string) | ELookupFailure | EConnectBusiness
| EStopBusiness | EStopFailure
| EWaited.                                (* cleanup proved both sides and the handoff idle *)

Definition identity (topic channel : string) : string := topic +:+ nul +:+ channel.

Context (cfg : Settings).

Definition failure_topic (topic channel : string) : string :=
  if group cfg != ""%string then FailedHandoffTopicForGroup topic (group cfg) else FailedHandoffTopic topic channel.

Definition retain (r : Running) (s : Subscriber) : Subscriber :=
  mkSubscriber (running s ++ [r]) ({[identity (r_topic r) (r_channel r)]} ∪ identities s).

(** Both versions of [cleanupPartial]: stop both, then wait for everything. *)
Definition cleanupPartial (w : Answers) (r : Running) (s : Subscriber) : option error * Subscriber * list Event :=
  let err := match a_ctx4 w with
             | Some e => Some e
             | None => errors_join (errors_join (a_waitB w) (a_waitF w)) (errors_join (a_idle w) (a_handoff w))
             end in
  match err with
  | Some e => (Some e, retain r s, [EStopBusiness; EStopFailure])
  | None => (None, s, [EStopBusiness; EStopFailure; EWaited])
  end.

(** The error of a failed registration, joined with that of its cleanup. *)
Definition abandon (e : error) (w : Answers) (r : Running) (s : Subscriber) (evs : list Event)
    : option error * Subscriber * list Event :=
  let '(err, s, stops) := cleanupPartial w r s in (errors_join (Some e) err, s, evs ++ stops).

(** [NewDirectHandoff] and [NewSubscription] on the settings. *)
Definition binding_error (topic channel : string) : option error :=
  if (DialTimeout (driver cfg) <=? 0) || (ReadTimeout (driver cfg) <=? 0) || (WriteTimeout (driver cfg) <=? 0)
  then Some (ErrMsg "bounded NSQ dial/read/write timeouts required")
  else match handoff.newDirectHandoff (inFlight cfg) with
       | Err e => Some e
       | Ok _ =>
         match NewSubscription (mkSubConfig topic channel (group cfg) (attempts cfg) (retry cfg))
                 IsValidTopicName IsValidChannelName with
         | Err e => Some e
         | Ok _ => None
         end
       end.

(** From the connection of the failure consumer on. *)
Definition connect (w : Answers) (addrs : list string) (r : Running) (s : Subscriber) (evs : list Event)
    : option error * Subscriber * list Event :=
  let evs := evs ++ [EConnectFailure addrs] in
  match a_connectF w with
  | Some e => abandon (ErrWrap "connect failure consumer" e) w r s evs
  | None =>
    let by_lookup := negb (bool_decide (lookupds cfg = [])) in
    let evs := if by_lookup then evs ++ [ELookupFailure] else evs in
    match (if by_lookup then a_lookupF w else None) with
    | Some e => abandon (ErrWrap "discover failure topic" e) w r s evs
    | None =>
      let evs := evs ++ [EConnectBusiness] in
      match a_connectB w with
      | Some e => abandon (ErrWrap "connect business consumer" e) w r s evs
      | None =>
        if a_stopping3 w || bool_decide (is_Some (a_ctx3 w)) then
          abandon (default (ErrMsg "NSQ subscriber stopped during registration")
                     (errors_join (Some (ErrMsg "NSQ subscriber stopped during registration")) (a_ctx3 w))) w r s evs
        else (None, retain r s, evs)
      end
    end
  end.

Definition Subscribe (w : Answers) (topic channel : string) (s : Subscriber) : option error * Subscriber * list Event :=
  let fail e := (Some e, s, []) in
  if a_stopping w then fail (ErrMsg "NSQ subscriber is stopping") else
  match a_lock w with Some e => fail e | None =>
  if a_stopping2 w then fail (ErrMsg "NSQ subscriber is stopping") else
  match a_ctx w with Some e => fail e | None =>
  if negb (IsValidTopicName topic) || negb (IsValidChannelName channel)
  then fail (ErrMsg "valid topic, channel, handler and durable failure handler required") else
  if bool_decide (identity topic channel ∈ identities s)
  then fail (ErrMsg "duplicate NSQ topic/channel subscription") else
  let ft := failure_topic topic channel in
  if existsb (λ r, r_failureTopic r == ft) (running s)
  then fail (ErrMsg "duplicate NSQ failure topic in one subscriber") else
  match (if bool_decide (lookupds cfg = []) then Ok (addresses cfg) else a_resolve w) with
  | Err e => fail (ErrWrap "resolve NSQD producers" e)
  | Ok addrs =>
    match a_failure w with
    | Some e => fail (ErrWrap "create failure consumer" e)
    | None =>
      match binding_error topic channel with
      | Some e => (Some e, s, [ENewFailure ft; EStopFailure])
      | None =>
        match a_business w with
        | Some e => (Some (ErrWrap "create business consumer" e), s, [ENewFailure ft; EStopFailure])
        | None =>
          connect w addrs (mkRunning topic channel ft) s [ENewFailure ft; ENewBusiness topic channel; EHandlers]
        end
      end
    end
  end end end.

(** *** Close *)

(** The waits of one running subscription, in order. *)
Record Waits : Type := mkWaits { w_business : option error; w_failure : option error; w_idle : option error; w_handoff : option error }.

Definition first_error (l : list (option error)) : option error :=
  foldr (λ x acc, match x with Some e => Some e | None => acc end) None l.

(** Every consumer is told to stop, then each is waited for. *)
Definition Close (lock : option error) (waits : Running → Waits) (s : Subscriber) : option error * list Running :=
  match lock with
  | Some e => (Some e, [])
  | None =>
    (first_error (concat (map (λ r, let w := waits r in [w_business w; w_failure w; w_idle w; w_handoff w]) (running s))),
     running s)
  end.

(** *** Ownership *)

(** The identities are those of the running subscriptions, without repetitions,
    and no two share a failure topic. *)
Definition sub_ok (s : Subscriber) : Prop :=
  NoDup ((λ r, identity (r_topic r) (r_channel r)) <$> running s) ∧ NoDup (r_failureTopic <$> running s) ∧
  ∀ i, i ∈ identities s ↔ i ∈ (λ r, identity (r_topic r) (r_channel r)) <$> running s.

Lemma retain_ok r s :
  sub_ok s → identity (r_topic r) (r_channel r) ∉ identities s → r_failureTopic r ∉ (r_failureTopic <$> running s) →
  sub_ok (retain r s).
Proof.
  intros (H1&H2&H3) Hi Hf. unfold sub_ok, retain. cbn. rewrite !fmap_app. cbn. split_and!.
  - apply NoDup_app. split_and!; [done| |apply NoDup_singleton]. intros x Hx ->%list_elem_of_singleton. by apply Hi, H3.
  - apply NoDup_app. split_and!; [done| |apply NoDup_singleton]. intros x Hx ->%list_elem_of_singleton. done.
  - intros i. rewrite elem_of_union, elem_of_singleton, elem_of_app, list_elem_of_singleton, H3. tauto.
Qed.

Definition business_connected (evs : list Event) : Prop := EConnectBusiness ∈ evs.
Definition failure_connected (evs : list Event) : Prop := ∃ addrs, EConnectFailure addrs ∈ evs.

(** A registration that failed after connecting stopped both consumers, and either
    saw them end or keeps them. *)
Definition given_up (r : Running) (s s' : Subscriber) (evs : list Event) : Prop :=
  EStopBusiness ∈ evs ∧ EStopFailure ∈ evs ∧ ((EWaited ∈ evs ∧ s' = s) ∨ s' = retain r s).

Lemma give_up_spec e w r s evs err s' evs' :
  abandon e w r s evs = (err, s', evs') →
  is_Some err ∧ given_up r s s' evs' ∧ ∃ stops, evs' = evs ++ stops ∧ EConnectBusiness ∉ stops.
Proof.
  unfold abandon, cleanupPartial. destruct (match a_ctx4 w with Some e => _ | None => _ end) as [e'|].
  - intros [= <- <- <-]. split; [done|]. split; [|eexists; split; [done|set_solver]].
    unfold given_up. split_and!; [set_solver..|by right].
  - intros [= <- <- <-]. split; [done|]. split; [|eexists; split; [done|set_solver]].
    unfold given_up. split_and!; [set_solver..|left; split; [set_solver|done]].
Qed.

(** The events of a registration that connects. *)
Definition failure_first (w : Answers) (addrs : list string) (evs : list Event) : Prop :=
  ∀ pre suf, evs = pre ++ EConnectBusiness :: suf →
    EConnectFailure addrs ∈ pre ∧ a_connectF w = None ∧ (lookupds cfg ≠ [] → ELookupFailure ∈ pre ∧ a_lookupF w = None).

Lemma connect_spec w addrs r s evs err s' evs' :
  (∀ e, e ∈ evs → e ≠ EConnectBusiness ∧ e ≠ EStopBusiness ∧ e ≠ EStopFailure) →
  connect w addrs r s evs = (err, s', evs') →
  failure_first w addrs evs' ∧
  match err with
  | None => s' = retain r s ∧ business_connected evs' ∧ EStopBusiness ∉ evs' ∧ EStopFailure ∉ evs'
  | Some _ => given_up r s s' evs'
  end.
Proof.
  intros Hev. unfold connect.
  assert (Hnb : EConnectBusiness ∉ evs) by (intros Hb; by apply Hev in Hb as [? _]).
  assert (Hns : EStopBusiness ∉ evs ∧ EStopFailure ∉ evs) by (split; intros Hb; by apply Hev in Hb as (?&?&?)).
  assert (Hnone : ∀ l, EConnectBusiness ∉ l → failure_first w addrs l).
  { intros l Hl pre suf ->. destruct Hl. set_solver. }
  set (evs1 := evs ++ [EConnectFailure addrs]).
  assert (H1 : EConnectFailure addrs ∈ evs1) by set_solver.
  destruct (a_connectF w) as [e|] eqn:EF.
  { intros ([e' ->]&Hg&stops&->&Hst)%give_up_spec. split; [|done]. apply Hnone. subst evs1. set_solver. }
  set (by_lookup := negb (bool_decide (lookupds cfg = []))).
  set (evs2 := if by_lookup then evs1 ++ [ELookupFailure] else evs1).
  assert (H2 : EConnectFailure addrs ∈ evs2 ∧ EConnectBusiness ∉ evs2 ∧ EStopBusiness ∉ evs2 ∧ EStopFailure ∉ evs2 ∧
               (lookupds cfg ≠ [] → ELookupFailure ∈ evs2 ∧ by_lookup = true)).
  { subst evs2 by_lookup evs1. destruct (bool_decide_reflect (lookupds cfg = [])); cbn; set_solver. }
  destruct H2 as (H2&Hnb2&Hsb2&Hsf2&Hlk).
  destruct (if by_lookup then a_lookupF w else None) as [e|] eqn:EL.
  { intros ([e' ->]&Hg&stops&->&Hst)%give_up_spec. split; [|done]. apply Hnone. set_solver. }
  assert (Hff : ∀ stops, EConnectBusiness ∉ stops → failure_first w addrs ((evs2 ++ [EConnectBusiness]) ++ stops)).
  { intros stops Hst pre suf Heq. rewrite <-app_assoc in Heq. cbn in Heq.
    assert (pre = evs2) as ->.
    { clear -Heq Hnb2 Hst. revert pre Heq. induction evs2 as [|x l IH]; intros [|y pre] Heq; cbn in *; simplify_eq; [done|..].
      - set_solver. - set_solver. - f_equal. eapply IH; [set_solver|done]. }
    split_and!; [done..|]. intros [? Hb]%Hlk. rewrite Hb in EL. done. }
  destruct (a_connectB w) as [e|].
  { intros ([e' ->]&Hg&stops&->&Hst)%give_up_spec. split; [by apply Hff|done]. }
  destruct (a_stopping3 w || _).
  { intros ([e' ->]&Hg&stops&->&Hst)%give_up_spec. split; [by apply Hff|done]. }
  intros [= <- <- <-]. split; [|split_and!; [done|unfold business_connected; set_solver..]].
  rewrite <-(app_nil_r (evs2 ++ [EConnectBusiness])). apply Hff. set_solver.
Qed.

(** The failure side comes first, and the outcome is as [err] says. *)
Definition outcome (w : Answers) (r : Running) (s : Subscriber) (err : option error) (s' : Subscriber) (evs : list Event) : Prop :=
  (∃ addrs, failure_first w addrs evs ∧
     (lookupds cfg = [] → addrs = addresses cfg) ∧ (lookupds cfg ≠ [] → failure_connected evs → a_resolve w = Ok addrs)) ∧
  match err with
  | None => s' = retain r s ∧ business_connected evs ∧ EStopBusiness ∉ evs ∧ EStopFailure ∉ evs
  | Some _ => (¬ failure_connected evs ∧ ¬ business_connected evs ∧ s' = s) ∨ given_up r s s' evs
  end.

Lemma quiet_outcome w r s e evs :
  (∀ x, x ∈ evs → ∃ t, x = ENewFailure t ∨ x = EStopFailure) → outcome w r s (Some e) s evs.
Proof.
  intros Hl.
  assert (Hfc : ¬ failure_connected evs) by (intros [a Ha]; apply Hl in Ha as [t [?|?]]; done).
  assert (Hbc : ¬ business_connected evs) by (intros Ha; apply Hl in Ha as [t [?|?]]; done).
  split; [|by left]. exists (addresses cfg). split_and!; [|done|done].
  intros pre suf ->. destruct Hbc. unfold business_connected. set_solver.
Qed.

(** A registration owns what it starts.  The business consumer is connected only
    after the failure consumer was connected to every resolved address (and to
    lookupd when that is configured), so that no business message can fail before
    its failure topic is consumed.  On success the subscription is running.  A
    registration that fails either connected nothing and changes nothing, or
    stopped both consumers and either saw them and the handoff end or keeps the
    subscription for Close; and the running subscriptions never share an identity
    or a failure topic. *)
Theorem subscribe_owns w topic channel s err s' evs :
  sub_ok s → Subscribe w topic channel s = (err, s', evs) →
  sub_ok s' ∧ outcome w (mkRunning topic channel (failure_topic topic channel)) s err s' evs.
Proof.
  intros Hs. unfold Subscribe. set (ft := failure_topic topic channel). set (r := mkRunning topic channel ft).
  assert (Hq : ∀ e l, (∀ x, x ∈ l → ∃ t, x = ENewFailure t ∨ x = EStopFailure) →
    (Some e, s, l) = (err, s', evs) → sub_ok s' ∧ outcome w r s err s' evs).
  { intros e l Hl [= <- <- <-]. split; [done|]. by apply quiet_outcome. }
  assert (Hnil : ∀ x : Event, x ∈ [] → ∃ t, x = ENewFailure t ∨ x = EStopFailure) by (intros x Hx; by apply not_elem_of_nil in Hx).
  assert (Hstop : ∀ x : Event, x ∈ [ENewFailure ft; EStopFailure] → ∃ t, x = ENewFailure t ∨ x = EStopFailure).
  { intros x Hx. exists ft. set_solver. }
  destruct (a_stopping w); [by apply Hq|]. destruct (a_lock w); [by apply Hq|].
  destruct (a_stopping2 w); [by apply Hq|]. destruct (a_ctx w); [by apply Hq|].
  destruct (_ || _); [by apply Hq|].
  destruct (bool_decide_reflect (identity topic channel ∈ identities s)) as [|Hid]; [by apply Hq|].
  destruct (existsb _ _) eqn:Hex; [by apply Hq|].
  destruct (if bool_decide (lookupds cfg = []) then _ else _) as [addrs|e] eqn:Haddr; [|by apply Hq].
  destruct (a_failure w); [by apply Hq|]. destruct (binding_error topic channel); [by apply Hq|].
  destruct (a_business w); [by apply Hq|].
  intros (Hff&Herr)%connect_spec; [|set_solver].
  assert (Hret : sub_ok (retain r s)).
  { apply retain_ok; [done..|]. cbn. intros (q&Hq'&Hin)%list_elem_of_fmap.
    apply not_true_iff_false in Hex. apply Hex, existsb_exists. exists q. rewrite <-list_elem_of_In, bool_decide_eq_true. done. }
  split.
  - destruct err; [|by destruct Herr as [-> _]]. destruct Herr as (_&_&[[_ ->]| ->]); done.
  - split; [|destruct err; [by right|done]]. exists addrs. split; [done|].
    destruct (bool_decide_reflect (lookupds cfg = [])); split; try done. by injection Haddr.
Qed.

Lemma first_error_None l : first_error l = None ↔ Forall (λ x, x = None) l.
Proof.
  induction l as [|[e|] l IH]; cbn; [by split|..]; rewrite Forall_cons; [naive_solver|]. rewrite IH. naive_solver.
Qed.

(** A successful Close saw every consumer of every running subscription stop, its
    handlers idle and its handoff drained. *)
Theorem close_waits lock waits s :
  (Close lock waits s).1 = None ↔
  lock = None ∧ ∀ r, r ∈ running s →
    w_business (waits r) = None ∧ w_failure (waits r) = None ∧ w_idle (waits r) = None ∧ w_handoff (waits r) = None.
Proof.
  unfold Close. destruct lock as [e|]; cbn; [naive_solver|]. rewrite first_error_None, Forall_concat, Forall_map, Forall_forall.
  cbn. split; [intros H; split; [done|]; intros r Hr; specialize (H r Hr)|intros [_ H] r Hr; specialize (H r Hr)].
  - repeat (apply Forall_cons in H as [? H]). auto.
  - destruct H as (?&?&?&?). by repeat constructor.
Qed.
End subscriber.

Definition ex_settings : Settings :=
  mkSettings ["n1:4150"; "n2:4150"]%string [] (mkDriver 1 1 1 10 0) 10 3 (mkBackoff 1000 60000 true true) "".
Definition ex_answers : Answers :=
  mkAnswers false None false None (Ok []) None None None None (Some (ErrDriver 1)) false None None None (Some ErrContext) None None.
Definition ex_empty_sub : Subscriber := mkSubscriber [] ∅.

(** The business side cannot connect and its cleanup runs out of time: the
    subscription is kept for Close. *)
Lemma subscribe_owns_witness :
  let '(err, s', evs) := Subscribe (λ _, true) (λ _, true) ex_settings ex_answers "orders" "billing" ex_empty_sub in
  is_Some err ∧ length (running s') = 1%nat ∧ sub_ok s'.
Proof.
  assert (Hs : sub_ok ex_empty_sub) by (split_and!; [constructor|constructor|intros i; cbn; set_solver]).
  destruct (Subscribe (λ _, true) (λ _, true) ex_settings ex_answers "orders" "billing" ex_empty_sub) as [[err s'] evs] eqn:E.
  assert (H : is_Some err ∧ length (running s') = 1%nat).
  { vm_compute in E. injection E as <- <- <-. split; [by eexists|done]. }
  destruct (subscribe_owns (λ _, true) (λ _, true) ex_settings ex_answers "orders" "billing" ex_empty_sub err s' evs Hs E) as [Hok _].
  split; [exact (proj1 H)|]. split; [exact (proj2 H)|exact Hok].
Defined.
End subscriber.
