(* ===== verification/Protected.v ===== *)
(** * wire/protected: sealed messages

    [protected.go]: a message is signed for its producer and routing context and
    encrypted for its receiver; [Open] checks the JOSE headers itself, then the
    signature, the context and the digest.  The JOSE library is a class of
    operations: its laws, for the two keys of a message, are what its
    documentation says of signing and encryption.  Which keys a library accepts,
    the curve of a key and equality of public keys are fields of the key. *)

From Stdlib Require Import Ascii.
From S2P Require Import Prelude GoStd Json Wire.

Module protected.
Import json legacy.

Definition Profile : string := "rm-secure-v1".

(** ** Data *)

Record Context_ : Type := mkContext {
  Producer : string; Destination : string; Topic : string; MessageID : string; Metadata : gmap string string
}.
#[global] Instance Context_eq_dec : EqDecision Context_.
Proof. solve_decision. Defined.

(** The dynamic type of a key, on P-256 or not, and its public part. *)
Inductive KeyValue : Type := PrivateKey (p256 : bool) (pub : Z) | PublicKey (p256 : bool) (pub : Z) | OtherKey.
#[global] Instance KeyValue_eq_dec : EqDecision KeyValue.
Proof. solve_decision. Defined.

Record JWK : Type := mkJWK { KeyID : string; Valid : bool; Key : KeyValue }.
Definition public_value (k : KeyValue) : KeyValue :=
  match k with PrivateKey c p => PublicKey c p | k => k end.
Definition Public (k : JWK) : JWK := mkJWK (KeyID k) (Valid k) (public_value (Key k)).

Record TrustedSigner : Type := mkSigner { s_Producer : string; s_Key : JWK }.
Record Keyring : Type := mkKeyring { Decrypt : gmap string JWK; Signers : gmap string TrustedSigner }.

Record record : Type := mkRecord { r_Context : Context_; PayloadSHA256 : string; Payload : bytes }.

(** go-jose: signing with ES256, verification of ES256, encryption with
    ECDH-ES+A256KW and A256GCM, and decryption, each on compact forms. *)
Class Jose : Type := {
  jws_sign : JWK → Z → bytes → option string;       (* the number is the randomness *)
  jws_verify : JWK → string → option bytes;
  jwe_encrypt : JWK → Z → bytes → option string;
  jwe_decrypt : JWK → string → option bytes
}.

Definition validContext (c : Context_) : bool :=
  (Producer c != ""%string) && (Destination c != ""%string) && (Topic c != ""%string) && (MessageID c != ""%string).

Definition validKey (k : JWK) (private : bool) : bool :=
  if (KeyID k == ""%string) || negb (Valid k) then false
  else match Key k with
       | PrivateKey p256 _ => p256
       | PublicKey p256 _ => negb private && p256
       | OtherKey => false
       end.

(** ** The signed record as JSON *)

Definition context_spec (c : Context_) : list (string * bool * value) :=
  [("producer"%string, false, JStr (Producer c)); ("destination"%string, false, JStr (Destination c));
   ("topic"%string, false, JStr (Topic c)); ("message_id"%string, false, JStr (MessageID c));
   ("metadata"%string, false, metadata_value (Metadata c))].
Definition context_value (c : Context_) : value := JObj (members (context_spec c)).

Definition record_spec (r : record) : list (string * bool * value) :=
  [("context"%string, false, context_value (r_Context r)); ("payload_sha256"%string, false, JStr (PayloadSHA256 r));
   ("payload"%string, false, of_bytes (Payload r))].
Definition record_value (r : record) : value := JObj (members (record_spec r)).

Definition context_names : list string := ["producer"; "destination"; "topic"; "message_id"; "metadata"]%string.
Definition record_names : list string := ["context"; "payload_sha256"; "payload"]%string.

(** A repeated member is decoded into the value already there. *)
Definition set_context (acc : Context_) (v : value) : result Context_ :=
  match v with
  | JNull => Ok acc
  | JObj ms =>
    try l <- assign false context_names ms;
    try a <- fold_field "producer" set_string l (Producer acc);
    try b <- fold_field "destination" set_string l (Destination acc);
    try c <- fold_field "topic" set_string l (Topic acc);
    try d <- fold_field "message_id" set_string l (MessageID acc);
    try e <- fold_field "metadata" set_map l (Metadata acc);
    Ok (mkContext a b c d e)
  | _ => Err type_error
  end.
Definition zero_context : Context_ := mkContext "" "" "" "" ∅.

Definition set_record (v : value) : result record :=
  match v with
  | JNull => Ok (mkRecord zero_context "" "")
  | JObj ms =>
    try l <- assign false record_names ms;
    try c <- fold_field "context" set_context l zero_context;
    try h <- fold_field "payload_sha256" set_string l ""%string;
    try p <- fold_field "payload" set_bytes l ""%string;
    Ok (mkRecord c h p)
  | _ => Err type_error
  end.

Definition record_of (c : Context_) (payload : bytes) : record := mkRecord c (hex_encode (sha256 payload)) payload.

(** ** Headers *)

(** [base64.RawURLEncoding.DecodeString]: no padding, '-' and '_'. *)
Definition url_char (a : ascii) : option ascii :=
  if octet 45 a then Some (chr 43) else if octet 95 a then Some (chr 47)
  else if octet 43 a || octet 47 a || octet 61 a then None else Some a.
Fixpoint url_chars (s : string) : option string :=
  match s with
  | EmptyString => Some EmptyString
  | String a s => b ← url_char a; t ← url_chars s; Some (String b t)
  end.
Definition raw_url_decode (s : string) : option bytes :=
  t ← url_chars (drop_newlines s);
  b64_quanta (t +:+ match len t mod 4 with 2 => "==" | 3 => "=" | _ => "" end)%string.

(** [json.Unmarshal] into a map of raw messages: the last of equal keys counts. *)
Definition raw_map (ms : list (string * value)) : gmap string value :=
  fold_left (λ m p, <[p.1 := p.2]> m) ms ∅.

Definition header (segment : string) (allowed : list string) : result (gmap string value) :=
  match raw_url_decode segment with
  | None => Err ErrProtection
  | Some body =>
    match parse body with
    | Some (JObj ms) =>
      let h := raw_map ms in
      if bool_decide (map_Forall (λ k _, k ∈ allowed) h) then Ok h else Err ErrProtection
    | _ => Err ErrProtection
    end
  end.

Definition stringValue (h : gmap string value) (k : string) : string :=
  match h !! k with Some (JStr s) => s | _ => ""%string end.

(** [strings.Split(s, ".")] *)
Fixpoint split_dot (s : string) : list string :=
  match s with
  | EmptyString => [""%string]
  | String a s =>
    if a == "."%char then ""%string :: split_dot s
    else match split_dot s with [] => [String a ""%string] | x :: l => String a x :: l end
  end.

Fixpoint contains_dot (s : string) : bool :=
  match s with EmptyString => false | String a s => (a == "."%char) || contains_dot s end.

(** ** Seal and Open *)

(** [int] arithmetic. *)
Definition int64 (z : Z) : Z := (z + 2 ^ 63) mod 2 ^ 64 - 2 ^ 63.

Section protected.
Context `{J : Jose}.

Definition Seal (c : Context_) (payload : bytes) (signing recipient : JWK) (r1 r2 : Z) : result bytes :=
  if negb (validContext c) || negb (validKey signing true) || negb (validKey recipient false) then Err ErrProtection
  else if Key (Public signing) == Key (Public recipient) then Err ErrProtection
  else
    match jws_sign signing r1 (marshal (record_value (record_of c payload))) with
    | None => Err ErrProtection
    | Some compact =>
      match jwe_encrypt (Public recipient) r2 compact with
      | None => Err ErrProtection
      | Some wire => Ok wire
      end
    end.

(** The check of the outer header and of the receiver's key. *)
Definition outer_key (segment : string) (keys : Keyring) : result JWK :=
  try h <- header segment ["alg"; "enc"; "kid"; "typ"; "cty"; "epk"]%string;
  if (stringValue h "alg" != "ECDH-ES+A256KW"%string) || (stringValue h "enc" != "A256GCM"%string) ||
     (stringValue h "typ" != Profile) || (stringValue h "cty" != "JWS"%string) then Err ErrProtection
  else
    let kid := stringValue h "kid" in
    match Decrypt keys !! kid with
    | None => Err ErrProtection
    | Some key => if negb (validKey key true) || (KeyID key != kid) then Err ErrProtection else Ok key
    end.

(** The check of the inner header and of the signer. *)
Definition inner_key (segment : string) (expected : Context_) (keys : Keyring) : result JWK :=
  try sh <- header segment ["alg"; "kid"; "typ"]%string;
  if (stringValue sh "alg" != "ES256"%string) || (stringValue sh "typ" != Profile) then Err ErrProtection
  else
    let kid := stringValue sh "kid" in
    match Signers keys !! kid with
    | None => Err ErrProtection
    | Some signer =>
      if (s_Producer signer != Producer expected) || negb (validKey (s_Key signer) false) || (KeyID (s_Key signer) != kid)
      then Err ErrProtection else Ok (s_Key signer)
    end.

Definition Open (wire : bytes) (expected : Context_) (keys : Keyring) (maxPayload : Z) : result bytes :=
  if negb (validContext expected) || (maxPayload <? 1) || (len wire >? int64 (3 * maxPayload + 8192)) then Err ErrProtection
  else match split_dot wire with
  | [p0; _; _; _; _] =>
    try key <- outer_key p0 keys;
    match jwe_decrypt key wire with
    | None => Err ErrProtection
    | Some plain =>
      match split_dot plain with
      | [s0; _; _] =>
        try signer <- inner_key s0 expected keys;
        match jws_verify (Public signer) plain with
        | None => Err ErrProtection
        | Some body =>
          match parse body with
          | None => Err ErrProtection
          | Some v =>
            match set_record v with
            | Err _ => Err ErrProtection
            | Ok value =>
              if (r_Context value != expected) || (len (Payload value) >? maxPayload) then Err ErrProtection
              else if PayloadSHA256 value != hex_encode (sha256 (Payload value)) then Err ErrProtection
              else Ok (Payload value)
            end
          end
        end
      | _ => Err ErrProtection
      end
    end
  | _ => Err ErrProtection
  end.

(** ** The record survives JSON *)

Lemma context_names_ok : NoDup context_names.
Proof. apply (bool_decide_unpack _). vm_compute. reflexivity. Qed.
Lemma record_names_ok : NoDup record_names.
Proof. apply (bool_decide_unpack _). vm_compute. reflexivity. Qed.

Lemma set_context_value c : set_context zero_context (context_value c) = Ok c.
Proof.
  unfold set_context, context_value. rewrite assign_known by (by apply members_known). cbn [rbind].
  pose proof context_names_ok as Hnd. change context_names with ((context_spec c).*1.*1) in Hnd.
  read_member 0%nat Hnd. cbn [set_string rbind]. read_member 1%nat Hnd. cbn [set_string rbind].
  read_member 2%nat Hnd. cbn [set_string rbind]. read_member 3%nat Hnd. cbn [set_string rbind].
  read_member 4%nat Hnd. cbn [Metadata zero_context]. rewrite set_map_value. by destruct c.
Qed.

Lemma set_record_value r : set_record (record_value r) = Ok r.
Proof.
  unfold set_record, record_value. rewrite assign_known by (by apply members_known). cbn [rbind].
  pose proof record_names_ok as Hnd. change record_names with ((record_spec r).*1.*1) in Hnd.
  read_member 0%nat Hnd. rewrite set_context_value. cbn [rbind]. read_member 1%nat Hnd. cbn [set_string rbind].
  read_member 2%nat Hnd. unfold set_bytes, of_bytes. rewrite b64_decode_encode. by destruct r.
Qed.

(** Text that JSON keeps. *)
Definition utf8_context (c : Context_) : Prop :=
  utf8_valid (Producer c) = true ∧ utf8_valid (Destination c) = true ∧ utf8_valid (Topic c) = true ∧
  utf8_valid (MessageID c) = true ∧ utf8_map (Metadata c).

Lemma clean_record c payload : utf8_context c → clean (record_value (record_of c payload)).
Proof.
  intros (?&?&?&?&?). apply clean_obj, members_Forall. unfold record_spec. rewrite !Forall_cons. cbn [fst snd].
  split_and!; [|intros _; split; [reflexivity|]..|constructor].
  - intros _. split; [reflexivity|]. apply clean_obj, members_Forall. unfold context_spec. rewrite !Forall_cons.
    split_and!; [intros _; split; [reflexivity|clean_value]..|constructor].
  - apply utf8_hex.
  - apply clean_of_bytes.
Qed.

Lemma parse_record c payload :
  utf8_context c → parse (marshal (record_value (record_of c payload))) = Some (record_value (record_of c payload)).
Proof. intros Hc. by apply parse_marshal, clean_record. Qed.

(** ** Laws of the JOSE library for the keys of a message *)

(** A compact JWS has three segments, of which the first is the protected header
    with the algorithm, the key and the type, and verifies to what was signed;
    a compact JWE has five, and decrypts to what was encrypted. *)
Record jose_laws (signing recipient : JWK) : Prop := {
  sign_law r body t : jws_sign signing r body = Some t →
    (∃ h p s m, split_dot t = [h; p; s] ∧ header h ["alg"; "kid"; "typ"]%string = Ok m ∧
       stringValue m "alg" = "ES256"%string ∧ stringValue m "kid" = KeyID signing ∧ stringValue m "typ" = Profile) ∧
    ∀ k, Public k = Public signing → jws_verify (Public k) t = Some body;
  encrypt_law r body t : jwe_encrypt (Public recipient) r body = Some t →
    (∃ h k i c g m, split_dot t = [h; k; i; c; g] ∧
       header h ["alg"; "enc"; "kid"; "typ"; "cty"; "epk"]%string = Ok m ∧
       stringValue m "alg" = "ECDH-ES+A256KW"%string ∧ stringValue m "enc" = "A256GCM"%string ∧
       stringValue m "kid" = KeyID recipient ∧ stringValue m "typ" = Profile ∧ stringValue m "cty" = "JWS"%string) ∧
    ∀ k, validKey k true = true → Public k = Public recipient → jwe_decrypt k t = Some body
}.

(** ** Properties *)

Lemma outer_key_Ok segment keys key :
  outer_key segment keys = Ok key →
  ∃ h, header segment ["alg"; "enc"; "kid"; "typ"; "cty"; "epk"]%string = Ok h ∧
    stringValue h "alg" = "ECDH-ES+A256KW"%string ∧ stringValue h "enc" = "A256GCM"%string ∧
    stringValue h "typ" = Profile ∧ stringValue h "cty" = "JWS"%string ∧
    Decrypt keys !! stringValue h "kid" = Some key ∧ validKey key true = true ∧ KeyID key = stringValue h "kid".
Proof.
  unfold outer_key. intros (h&Hh&H)%rbind_Ok. exists h. split; [done|].
  destruct (_ || _ || _ || _) eqn:Hg; [done|]. destruct (Decrypt keys !! _) as [k|]; [|done].
  destruct (negb (validKey k true) || _) eqn:Hk; [done|]. injection H as <-. boolp. by split_and!.
Qed.

Lemma inner_key_Ok segment expected keys key :
  inner_key segment expected keys = Ok key →
  ∃ h signer, header segment ["alg"; "kid"; "typ"]%string = Ok h ∧
    stringValue h "alg" = "ES256"%string ∧ stringValue h "typ" = Profile ∧
    Signers keys !! stringValue h "kid" = Some signer ∧ s_Producer signer = Producer expected ∧
    validKey (s_Key signer) false = true ∧ KeyID (s_Key signer) = stringValue h "kid" ∧ key = s_Key signer.
Proof.
  unfold inner_key. intros (h&Hh&H)%rbind_Ok. destruct (_ || _) eqn:Hg; [done|].
  destruct (Signers keys !! _) as [g|] eqn:Hs; [|done]. exists h, g.
  destruct (_ || _ || _) eqn:Hk; [done|]. injection H as <-. boolp. by split_and!.
Qed.

(** The JOSE headers that Open accepts: the allowed members only, the fixed
    algorithms, type and content type, and the id of a key. *)
Definition outer_accepted (segment kid : string) : Prop :=
  ∃ h, header segment ["alg"; "enc"; "kid"; "typ"; "cty"; "epk"]%string = Ok h ∧
    stringValue h "alg" = "ECDH-ES+A256KW"%string ∧ stringValue h "enc" = "A256GCM"%string ∧
    stringValue h "typ" = Profile ∧ stringValue h "cty" = "JWS"%string ∧ stringValue h "kid" = kid.
Definition inner_accepted (segment kid : string) : Prop :=
  ∃ h, header segment ["alg"; "kid"; "typ"]%string = Ok h ∧
    stringValue h "alg" = "ES256"%string ∧ stringValue h "typ" = Profile ∧ stringValue h "kid" = kid.


(** A sealed message opens.  What Seal wrote for a context of UTF-8 text is
    opened, for the same context, to the same payload, by a receiver that holds
    the recipient's private key and trusts the signing key for that producer,
    whatever randomness the library used. *)
Theorem seal_open c payload signing recipient r1 r2 wire keys rk signer maxPayload :
  jose_laws signing recipient → Seal c payload signing recipient r1 r2 = Ok wire → utf8_context c →
  Decrypt keys !! KeyID recipient = Some rk → validKey rk true = true → Public rk = Public recipient →
  Signers keys !! KeyID signing = Some signer → s_Producer signer = Producer c →
  validKey (s_Key signer) false = true → Public (s_Key signer) = Public signing →
  1 <= maxPayload → len payload <= maxPayload → len wire <= int64 (3 * maxPayload + 8192) →
  Open wire c keys maxPayload = Ok payload.
Proof.
  intros HJ Hseal Hu Hrk Hrv Hrp Hsg Hsp Hsv Hspub Hmax Hlen Hwire. unfold Seal in Hseal.
  destruct (_ || _ || _) eqn:Hg in Hseal; [done|]. boolp. destruct (_ == _); [done|].
  destruct (jws_sign signing r1 _) as [compact|] eqn:Hsign; [|done].
  destruct (jwe_encrypt _ r2 compact) as [t|] eqn:Henc; [|done]. injection Hseal as ->.
  destruct (sign_law _ _ HJ _ _ _ Hsign) as ((h&?&?&m&Hsplit&Hh&Ha&Hk&Ht)&Hver).
  destruct (encrypt_law _ _ HJ _ _ _ Henc) as ((eh&?&?&?&?&em&Hesplit&Heh&Hea&Hee&Hek&Het&Hec)&Hdec).
  assert (HK1 : KeyID rk = KeyID recipient) by (by injection Hrp).
  assert (HK2 : KeyID (s_Key signer) = KeyID signing) by (by injection Hspub).
  assert (Ho : outer_key eh keys = Ok rk).
  { unfold outer_key. rewrite Heh. cbn [rbind]. rewrite Hea, Hee, Het, Hec, Hek, Hrk, Hrv, HK1.
    by rewrite !bool_decide_eq_true_2. }
  assert (Hi : inner_key h c keys = Ok (s_Key signer)).
  { unfold inner_key. rewrite Hh. cbn [rbind]. rewrite Ha, Ht, Hk, Hsg, Hsp, Hsv, HK2. by rewrite !bool_decide_eq_true_2. }
  unfold Open. match goal with H : validContext c = true |- _ => rewrite H end.
  rewrite (proj2 (Z.ltb_ge _ _)) by lia. rewrite Z.gtb_ltb, (proj2 (Z.ltb_ge _ _)) by lia. cbn [negb orb].
  rewrite Hesplit, Ho. cbn [rbind]. rewrite Hdec by done. rewrite Hsplit, Hi. cbn [rbind].
  rewrite Hver by done. rewrite parse_record by done. rewrite set_record_value. cbn [record_of r_Context Payload PayloadSHA256].
  rewrite !bool_decide_eq_true_2 by done. rewrite Z.gtb_ltb, (proj2 (Z.ltb_ge _ _)) by lia. done.
Qed.
End protected.

(** ** A library for which the laws hold

    It signs and encrypts by writing headers as go-jose does and the body in
    hexadecimal. *)

Lemma split_dot_app a t : contains_dot a = false → split_dot (a +:+ "." +:+ t) = a :: split_dot t.
Proof.
  induction a as [|x a IH]; intros H; [done|]. rewrite string_cons_app. cbn in H |- *.
  apply orb_false_iff in H as [-> Ha]. by rewrite IH.
Qed.

Lemma split_dot_single a : contains_dot a = false → split_dot a = [a].
Proof.
  induction a as [|x a IH]; intros H; cbn; [done|]. cbn in H. apply orb_false_iff in H as [-> Ha]. by rewrite IH.
Qed.

Lemma hex_no_dot s : contains_dot (hex_encode s) = false.
Proof.
  assert (Hd : ∀ n, 0 <= n < 16 → (hex_digit n == "."%char) = false).
  { intros n Hn. assert (Hf : forallb (λ n, negb (hex_digit n == "."%char)) (seqZ 0 16) = true) by (vm_compute; reflexivity).
    rewrite forallb_forall in Hf. apply negb_true_iff, Hf. rewrite <-list_elem_of_In, elem_of_seqZ. lia. }
  induction s as [|a s IH]; [done|]. cbn [hex_encode contains_dot]. rewrite IH.
  pose proof (byte_val_range a). rewrite !Hd; [done|..]; Z.to_euclidean_division_equations; lia.
Qed.

Definition ex_inner : string := "eyJhbGciOiJFUzI1NiIsImtpZCI6InNpZ24tMSIsInR5cCI6InJtLXNlY3VyZS12MSJ9".
Definition ex_outer : string :=
  "eyJhbGciOiJFQ0RILUVTK0EyNTZLVyIsImN0eSI6IkpXUyIsImVuYyI6IkEyNTZHQ00iLCJlcGsiOnsiY3J2IjoiUC0yNTYiLCJrdHkiOiJFQyJ9LCJraWQiOiJlbmMtMSIsInR5cCI6InJtLXNlY3VyZS12MSJ9".

Definition ex_jose : Jose := {|
  jws_sign k r body := Some (ex_inner +:+ "." +:+ hex_encode body +:+ "." +:+ "signature");
  jws_verify k t := match split_dot t with [_; b; _] => hex_decode b | _ => None end;
  jwe_encrypt k r body := Some (ex_outer +:+ "." +:+ "" +:+ "." +:+ "iv" +:+ "." +:+ hex_encode body +:+ "." +:+ "tag");
  jwe_decrypt k t := match split_dot t with [_; _; _; b; _] => hex_decode b | _ => None end
|}%string.

Definition ex_signing : JWK := mkJWK "sign-1" true (PrivateKey true 1).
Definition ex_recipient : JWK := mkJWK "enc-1" true (PublicKey true 2).
Definition ex_private : JWK := mkJWK "enc-1" true (PrivateKey true 2).

Lemma ex_split3 body : split_dot (ex_inner +:+ "." +:+ hex_encode body +:+ "." +:+ "signature")%string
  = [ex_inner; hex_encode body; "signature"%string].
Proof. by rewrite split_dot_app, split_dot_app by (done || apply hex_no_dot). Qed.

Lemma ex_split5 body :
  split_dot (ex_outer +:+ "." +:+ "" +:+ "." +:+ "iv" +:+ "." +:+ hex_encode body +:+ "." +:+ "tag")%string
  = [ex_outer; ""; "iv"; hex_encode body; "tag"]%string.
Proof. by rewrite !split_dot_app by (done || apply hex_no_dot). Qed.

Lemma ex_laws : @jose_laws ex_jose ex_signing ex_recipient.
Proof.
  split; cbn [jws_sign jws_verify jwe_encrypt jwe_decrypt ex_jose]; intros r body t [= <-].
  - split; [|intros k _; rewrite ex_split3; apply hex_decode_encode].
    eexists _, _, _, _. split; [apply ex_split3|]. split; [vm_compute; reflexivity|]. by vm_compute.
  - split; [|intros k _ _; rewrite ex_split5; apply hex_decode_encode].
    eexists _, _, _, _, _, _. split; [apply ex_split5|]. split; [vm_compute; reflexivity|]. by vm_compute.
Qed.

Definition ex_context : Context_ := mkContext "iam" "qs" "orders" "m-1" {["k"%string := "v"%string]}.
Definition ex_keys : Keyring :=
  mkKeyring {["enc-1"%string := ex_private]} {["sign-1"%string := mkSigner "iam" (Public ex_signing)]}.
Definition ex_wire : bytes :=
  match @Seal ex_jose ex_context "payload" ex_signing ex_recipient 0 0 with Ok w => w | Err _ => ""%string end.

Lemma ex_sealed : @Seal ex_jose ex_context "payload" ex_signing ex_recipient 0 0 = Ok ex_wire.
Proof. vm_compute. reflexivity. Qed.

Lemma ex_utf8 : utf8_context ex_context.
Proof. split_and!; [done..|]. cbn. by apply map_Forall_singleton. Qed.

Lemma ex_size : len ex_wire <= int64 (3 * 100 + 8192).
Proof. apply Z.leb_le. vm_compute. reflexivity. Qed.

Lemma seal_open_witness : @Open ex_jose ex_wire ex_context ex_keys 100 = Ok "payload"%string.
Proof.
  apply (@seal_open ex_jose ex_context "payload" ex_signing ex_recipient 0 0 ex_wire ex_keys ex_private
    (mkSigner "iam" (Public ex_signing)) 100 ex_laws ex_sealed ex_utf8); try reflexivity; [lia|cbn; unfold len; simpl; lia|apply ex_size].
Defined.

Lemma ex_opened : @Open ex_jose ex_wire ex_context ex_keys 100 = Ok "payload"%string.
Proof. vm_compute. reflexivity. Qed.

End protected.
