(* ===== verification/Signaling.v ===== *)
(** * signaling/redis: best-effort signals

    [signaler.go] and [options.go].  Signals are values of a host type with a name
    and a codec, an interface of the host; Redis is the answer to each call and the
    stream of events a subscription yields. *)

From S2P Require Import Prelude GoStd.

Module signaling.

Record Options : Type := mkOptions { Prefix : string; Channel : string; BufferSize : Z; ErrorHandler : bool }.

Definition defaultPrefix : string := "signal".
Definition defaultBufferSize : Z := 100.
Definition DefaultOptions : Options := mkOptions defaultPrefix "" defaultBufferSize false.
Definition normalizeOptions (o : Options) : Options :=
  mkOptions (if (Prefix o == ""%string) && (Channel o == ""%string) then defaultPrefix else Prefix o) (Channel o)
    (if BufferSize o <=? 0 then defaultBufferSize else BufferSize o) (ErrorHandler o).

Definition ErrEmptySignalName : error := ErrMsg "signal name is empty".
Definition ErrNilHandler : error := ErrMsg "signal handler is nil".

(** What the host gives: the type of signals, its zero value and its codec. *)
Class Signal (T : Type) : Type := {
  SignalName : T → string; zero : T; Marshal : T → result bytes; Unmarshal : bytes → result T
}.

Section signaler.
Context {T : Type} `{!Signal T}.

Definition channel (o : Options) (name : string) : string :=
  if Channel o != ""%string then Channel o else (Prefix o +:+ ":" +:+ name)%string.

(** [Notify]: the answer of PUBLISH, and what was published. *)
Definition Notify (o : Options) (x : T) (publish : option error) : option error * list (string * bytes) :=
  if SignalName x == ""%string then (Some ErrEmptySignalName, [])
  else match Marshal x with
  | Err e => (Some e, [])
  | Ok payload => (publish, match publish with None => [(channel o (SignalName x), payload)] | Some _ => [] end)
  end.

(** What the select of [Watch] sees next. *)
Inductive Event : Type := Done (e : error) | Payload (p : bytes) | Closed.

Record Watched : Type := mkWatched { returned : option (option error); handled : list T; reported : list error }.

(** The loop: [returned] is [None] while it waits for more events. *)
Fixpoint watch_loop (o : Options) (es : list Event) (handled : list T) (reported : list error) : Watched :=
  match es with
  | [] => mkWatched None handled reported
  | Done e :: _ => mkWatched (Some (Some e)) handled reported
  | Closed :: _ => mkWatched (Some None) handled reported
  | Payload p :: es =>
    match Unmarshal p with
    | Err e => watch_loop o es handled (if ErrorHandler o then reported ++ [e] else reported)
    | Ok x => watch_loop o es (handled ++ [x]) reported
    end
  end.

(** [Watch]: the channel it subscribes to, and its result on the events of it. *)
Definition Watch (o : Options) (handler : bool) (receive : option error) (es : list Event) : option string * Watched :=
  if negb handler then (None, mkWatched (Some (Some ErrNilHandler)) [] [])
  else if (SignalName zero == ""%string) && (Channel o == ""%string) then (None, mkWatched (Some (Some ErrEmptySignalName)) [] [])
  else (Some (channel o (SignalName zero)),
        match receive with Some e => mkWatched (Some (Some e)) [] [] | None => watch_loop o es [] [] end).

(** What a channel carries of the published messages. *)
Definition carried (c : string) (ps : list (string * bytes)) : list Event := (Payload ∘ snd) <$> filter (λ m, m.1 = c) ps.

Lemma watch_loop_app o es fs hs rs :
  Forall (λ e, ∃ p, e = Payload p) es →
  watch_loop o (es ++ fs) hs rs = watch_loop o fs (handled (watch_loop o es hs rs)) (reported (watch_loop o es hs rs)).
Proof.
  intros H. revert hs rs. induction H as [|e es [p ->] _ IH]; intros hs rs; [done|]. cbn. destruct (Unmarshal p); apply IH.
Qed.

Lemma string_app_cancel_l (a b c : string) : (a +:+ b = a +:+ c → b = c)%string.
Proof. intros H. by apply string_app_inj_len in H as [_ ?]. Qed.

(** Without an explicit channel, signals of different names use different channels. *)
Lemma channel_inj o a b : Channel o = ""%string → channel o a = channel o b → a = b.
Proof.
  intros Hc. unfold channel. rewrite Hc. cbn. intros H%string_app_cancel_l. by injection H.
Qed.

(** The messages of a list of notifications, all of which Redis accepted. *)
Definition notify_all (o : Options) (xs : list T) : list (string * bytes) := concat ((λ x, (Notify o x None).2) <$> xs).

Context (codec : ∀ x : T, ∃ p, Marshal x = Ok p ∧ Unmarshal p = Ok x).

Lemma watch_notified o xs hs rs :
  Forall (λ x, SignalName x ≠ ""%string) xs → Channel o = ""%string →
  watch_loop o (carried (channel o (SignalName zero)) (notify_all o xs)) hs rs
  = mkWatched None (hs ++ filter (λ x, SignalName x = SignalName zero) xs) rs.
Proof.
  intros Hn Hc. revert hs. induction Hn as [|x xs Hx _ IH]; intros hs; [by rewrite app_nil_r|].
  unfold notify_all. rewrite fmap_cons. cbn [concat]. unfold carried. rewrite filter_app, fmap_app.
  fold (carried (channel o (SignalName zero)) (concat ((λ x, (Notify o x None).2) <$> xs))). fold (notify_all o xs).
  destruct (codec x) as (p&Hm&Hu). unfold Notify at 1. rewrite bool_decide_eq_false_2 by done. rewrite Hm. cbn [snd].
  rewrite filter_cons. cbn [fst]. rewrite filter_cons. destruct (decide (SignalName x = SignalName zero)) as [He|He].
  - rewrite decide_True by (by rewrite He). cbn. rewrite Hu, IH. by rewrite <- app_assoc.
  - rewrite decide_False by (intros H; apply He; by apply (channel_inj o)). cbn. apply IH.
Qed.

(** A watcher handles its own signals, all of them and in order.  With one prefix,
    of all the signals notified through Redis the handler of a watcher is called
    with exactly those that carry the watched name, in the order they were
    published, and no error is reported; the watch ends with the context's error. *)
Theorem signals_watched o xs e :
  let o := normalizeOptions o in
  Forall (λ x, SignalName x ≠ ""%string) xs → Channel o = ""%string → SignalName zero ≠ ""%string →
  let c := channel o (SignalName zero) in
  Watch o true None (carried c (notify_all o xs) ++ [Done e])
  = (Some c, mkWatched (Some (Some e)) (filter (λ x, SignalName x = SignalName zero) xs) []).
Proof.
  intros o' Hn Hc Hz c. unfold Watch. cbn [negb]. rewrite bool_decide_eq_false_2 by done. cbn [andb].
  f_equal. rewrite watch_loop_app.
  - unfold c. by rewrite watch_notified.
  - unfold carried. apply Forall_fmap, Forall_forall. cbn. eauto.
Qed.
End signaler.

(** ** A host type of signals: two names *)

#[global] Instance ex_signal : Signal bool := {
  SignalName := λ x : bool, if x then "scores"%string else "reports"%string; zero := false;
  Marshal := λ x : bool, Ok (if x then "1"%string else "0"%string);
  Unmarshal := λ p, if p == "1"%string then Ok true else if p == "0"%string then Ok false else Err (ErrMsg "decode")
}.

Lemma ex_signal_codec (x : bool) : ∃ p, Marshal x = Ok p ∧ Unmarshal p = Ok x.
Proof. destruct x; [exists "1"%string|exists "0"%string]; done. Qed.

Lemma signals_watched_witness :
  Watch (T := bool) DefaultOptions true None (carried "signal:reports" (notify_all DefaultOptions [false; true; false]) ++ [Done ErrContext])
  = (Some "signal:reports"%string, mkWatched (Some (Some ErrContext)) [false; false] []).
Proof.
  refine (signals_watched ex_signal_codec DefaultOptions [false; true; false] ErrContext _ eq_refl _).
  - repeat constructor; discriminate.
  - discriminate.
Defined.
End signaling.
