(* ===== verification/Driver.v ===== *)
(** * transport/rocketmq/internal/driver: producers

    The pinned RocketMQ client the transactional sender and the publisher run on:
    message identifiers ([message_id_codec.go], [message_id.go]), publishing
    messages ([publishing_message.go]), load balancing ([loadBalancer.go]),
    sending with retries, transactions and recovery ([producer.go],
    [transaction.go]) and the settings a broker may change
    ([producer_options.go]).  RPCs and routes are answers of the world; hooks,
    signatures, traces and logs are not modelled.  [utils.Mod] is a parameter of
    which only its range is used. *)

From Stdlib Require Import Ascii.
From S2P Require Import Prelude GoStd.

(** ** Message identifiers *)

Module messageid.

Record MessageId : Type := mkId { version : string; suffix : string }.
Definition V0 : string := "00".
Definition V1 : string := "01".

Definition String_ (m : MessageId) : string :=
  if V0 == version m then suffix m else version m +:+ suffix m.

(** [strings.ToUpper] of ASCII text. *)
Definition upper (a : ascii) : ascii := if in_range 97 122 a then byte_of (byte_val a - 32) else a.
Fixpoint ToUpper (s : string) : string :=
  match s with EmptyString => EmptyString | String a s => String (upper a) (ToUpper s) end.

(** [binary.BigEndian] of a uint16 and a uint32, from any integer. *)
Definition uint16_bytes (z : Z) : bytes := of_octets (be_octets 2 z).
Definition uint32_bytes (z : Z) : bytes := of_octets (be_octets 4 z).

Definition wrap32 (z : Z) : Z := (z + 2 ^ 31) mod 2 ^ 32 - 2 ^ 31.

(** The package variables after [init]; [sequence] is an int32. *)
Record Codec : Type := mkCodec {
  processFixedStringV1 : string; secondsSinceCustomEpoch : Z; secondsStartTimestamp : Z; sequence : Z
}.

(** [init]: the hardware address or six random octets, the process id, the clock;
    1609459200 is the first second of 2021. *)
Definition init (mac random : bytes) (pid now : Z) : Codec :=
  let prefix := if len mac <? 6 then random else mac in
  mkCodec (ToUpper (hex_encode (prefix +:+ uint16_bytes pid))) (now - 1609459200) now (-1).

Definition deltaSeconds (now : Z) (c : Codec) : Z := now - secondsStartTimestamp c + secondsSinceCustomEpoch c.

Definition NextMessageId (now : Z) (c : Codec) : MessageId * Codec :=
  let seq := wrap32 (sequence c + 1) in
  (mkId V1 (processFixedStringV1 c +:+ ToUpper (hex_encode (uint32_bytes (deltaSeconds now c) +:+ uint32_bytes seq))),
   mkCodec (processFixedStringV1 c) (secondsSinceCustomEpoch c) (secondsStartTimestamp c) seq).

Definition Decode (s : string) : MessageId :=
  if negb (34 =? len s) then mkId V0 s
  else mkId (String.substring 0 2 s) (String.substring 2 32 s).

(** *** Identifiers are canonical and distinct *)

Lemma hex_value_upper n : 0 <= n < 16 → hex_value (upper (hex_digit n)) = Some n.
Proof.
  intros Hn. set (f := λ n, bool_decide (hex_value (upper (hex_digit n)) = Some n)).
  assert (Hf : forallb f (seqZ 0 16) = true) by (vm_compute; reflexivity).
  rewrite forallb_forall in Hf. apply (bool_decide_unpack _), Is_true_true, Hf, list_elem_of_In, elem_of_seqZ. lia.
Qed.

Lemma hex_decode_upper s : hex_decode (ToUpper (hex_encode s)) = Some s.
Proof.
  induction s as [|a s IH]; [done|]. cbn [hex_encode ToUpper hex_decode]. pose proof (byte_val_range a).
  rewrite !hex_value_upper by (try apply Z.mod_pos_bound; try split; try apply Z.div_pos; try apply Z.div_lt_upper_bound; lia).
  rewrite IH. simpl. rewrite <-Z.div_mod by lia. by rewrite byte_of_val.
Qed.

Lemma ToUpper_length s : String.length (ToUpper s) = String.length s.
Proof. induction s; simpl; auto. Qed.

Lemma uint32_bytes_length z : String.length (uint32_bytes z) = 4%nat.
Proof. unfold uint32_bytes. by rewrite of_octets_length, be_octets_length. Qed.

Lemma uint16_bytes_length z : String.length (uint16_bytes z) = 2%nat.
Proof. unfold uint16_bytes. by rewrite of_octets_length, be_octets_length. Qed.

Lemma uint32_bytes_inj x y : uint32_bytes x = uint32_bytes y → x mod 2 ^ 32 = y mod 2 ^ 32.
Proof.
  intros He. apply (f_equal octets) in He. unfold uint32_bytes in He.
  rewrite !octets_of_octets in He by apply be_octets_range.
  apply (f_equal (be_value 0)) in He. rewrite !be_value_octets in He.
  change (256 ^ Z.of_nat 4) with (2 ^ 32) in He. lia.
Qed.

(** A number of identifiers, under any clock. *)
Fixpoint next_ids (clock : nat → Z) (n : nat) (c : Codec) : list MessageId :=
  match n with
  | O => []
  | Datatypes.S n => let '(m, c) := NextMessageId (clock n) c in m :: next_ids clock n c
  end.

(** The [i]-th identifier carries the sequence number of the codec plus [i] plus one. *)
Lemma next_ids_suffix clock n c i m :
  next_ids clock n c !! i = Some m →
  version m = V1 ∧ ∃ now seq, suffix m = processFixedStringV1 c +:+ ToUpper (hex_encode (uint32_bytes now +:+ uint32_bytes seq)) ∧
    seq mod 2 ^ 32 = (sequence c + Z.of_nat i + 1) mod 2 ^ 32.
Proof.
  revert c i. induction n as [|n IH]; intros c i; [done|]. cbn [next_ids NextMessageId].
  assert (Hw : ∀ z, wrap32 z mod 2 ^ 32 = z mod 2 ^ 32).
  { intros z. unfold wrap32. rewrite Zminus_mod_idemp_l. f_equal. lia. }
  destruct i as [|i]; cbn.
  - intros [= <-]. split; [done|]. eexists _, _. split; [done|]. rewrite Hw. f_equal. lia.
  - intros (Hv&now&seq&Hs&Hq)%IH. split; [done|]. exists now, seq. split; [done|]. rewrite Hq. cbn [sequence].
    rewrite <-Z.add_assoc, <-Zplus_mod_idemp_l, Hw, Zplus_mod_idemp_l. f_equal. lia.
Qed.

Lemma substring_app (a b : string) : String.substring 0 (String.length a) (a +:+ b) = a ∧
  ∀ n, String.substring (String.length a) n (a +:+ b) = String.substring 0 n b.
Proof.
  induction a as [|x a [IH1 IH2]]; [split; [by destruct b|done]|]. rewrite string_cons_app. cbn. split; [by rewrite IH1|done].
Qed.

Lemma substring_all (s : string) : String.substring 0 (String.length s) s = s.
Proof. induction s as [|a s IH]; [done|]. cbn. by rewrite IH. Qed.

(** Message identifiers are canonical and unique.  With a hardware address of six
    octets, every identifier a process makes is 34 characters of which the first
    two are the version, decoding its text gives it back, and of any 2^32
    consecutive identifiers no two are equal, whatever the clock does and however
    the 32-bit sequence wraps around. *)
Theorem message_ids_unique mac random pid now clock n i j a b :
  len mac = 6 ∨ (len mac < 6 ∧ len random = 6) →
  let ids := next_ids clock n (init mac random pid now) in
  ids !! i = Some a → ids !! j = Some b →
  len (String_ a) = 34 ∧ Decode (String_ a) = a ∧
  (Z.abs (Z.of_nat i - Z.of_nat j) < 2 ^ 32 → String_ a = String_ b → i = j).
Proof.
  intros Hmac ids Ha Hb. set (c := init mac random pid now) in *.
  assert (Hp : String.length (processFixedStringV1 c) = 16%nat).
  { subst c. unfold init. cbn [processFixedStringV1].
    rewrite ToUpper_length, hex_encode_length, string_length_app, uint16_bytes_length.
    destruct (Z.ltb_spec (len mac) 6) as [|]; destruct Hmac as [|[? ?]]; unfold len in *; lia. }
  assert (Hform : ∀ k m, ids !! k = Some m → version m = V1 ∧ String.length (suffix m) = 32%nat).
  { intros k m (Hv&x&y&->&_)%next_ids_suffix. split; [done|].
    rewrite string_length_app, Hp, ToUpper_length, hex_encode_length, string_length_app, !uint32_bytes_length. lia. }
  destruct (Hform _ _ Ha) as [Hva Hla], (Hform _ _ Hb) as [Hvb Hlb].
  assert (Hstr : ∀ m, version m = V1 → String_ m = V1 +:+ suffix m) by (intros m Hm; unfold String_; by rewrite Hm).
  rewrite !Hstr by done. split_and!.
  - rewrite len_app. unfold len. rewrite Hla. done.
  - unfold Decode. rewrite len_app. unfold len at 2. rewrite Hla. change (34 =? len V1 + Z.of_nat 32) with true. cbn [negb].
    destruct (substring_app V1 (suffix a)) as [H1 H2]. change (String.length V1) with 2%nat in *.
    assert (H3 : String.substring 0 32 (suffix a) = suffix a) by (rewrite <-Hla at 1; apply substring_all).
    rewrite H1, H2, H3. destruct a; cbn in *; congruence.
  - intros Hd He. apply string_app_inj_len in He as [_ He]; [|done].
    apply next_ids_suffix in Ha as (_&n1&q1&Hs1&Hq1), Hb as (_&n2&q2&Hs2&Hq2). rewrite Hs1, Hs2 in He.
    apply string_app_inj_len in He as [_ He]; [|done]. apply (f_equal hex_decode) in He. rewrite !hex_decode_upper in He.
    apply (inj Some) in He. apply string_app_inj_len in He as [_ He]; [|by rewrite !uint32_bytes_length].
    apply uint32_bytes_inj in He. rewrite Hq1, Hq2 in He.
    apply (f_equal (λ z, (z - (sequence c + 1)) mod 2 ^ 32)) in He. rewrite !Zminus_mod_idemp_l in He.
    replace (sequence c + Z.of_nat i + 1 - (sequence c + 1)) with (Z.of_nat i) in He by lia.
    replace (sequence c + Z.of_nat j + 1 - (sequence c + 1)) with (Z.of_nat j) in He by lia.
    assert (H0 : (Z.of_nat i - Z.of_nat j) mod 2 ^ 32 = 0) by (rewrite Zminus_mod, He, Z.sub_diag; done).
    apply Z.mod_divide in H0 as [k Hk]; [|done]. assert (k = 0) by nia. lia.
Qed.

Definition ex_ids : list MessageId := next_ids (λ k, 1700000000 + Z.of_nat k) 3 (init "macadd" "" 4711 1700000000).
Example ex_first : String_ <$> ex_ids !! 0%nat = Some "016D6163616464126705658B0200000000"%string.
Proof. vm_compute. reflexivity. Qed.

Definition ex_id (i : nat) : MessageId := default (mkId V0 "") (ex_ids !! i).

Lemma message_ids_unique_witness : String_ (ex_id 0) ≠ String_ (ex_id 1) ∧ Decode (String_ (ex_id 0)) = ex_id 0.
Proof.
  destruct (message_ids_unique "macadd" "" 4711 1700000000 (λ k, 1700000000 + Z.of_nat k) 3 0 1 (ex_id 0) (ex_id 1) (or_introl eq_refl)
    ltac:(vm_compute; reflexivity) ltac:(vm_compute; reflexivity)) as (_&Hd&H).
  split; [|exact Hd]. intros E. discriminate (H ltac:(cbn; lia) E).
Defined.
End messageid.

(** ** Publishing messages *)

Module publishing.

Inductive MessageType : Type := NORMAL | FIFO | DELAY | PRIORITY | LITE | TRANSACTION.
#[global] Instance MessageType_eq_dec : EqDecision MessageType.
Proof. solve_decision. Defined.

Record Message : Type := mkMessage {
  Topic : string; Body : bytes; Tag : option string; messageGroup : option string; keys : list string;
  properties : gmap string string; LiteTopic : option string; deliveryTimestamp : option Z; priority : option Z
}.

Record PublishingMessage : Type := mkPublishing {
  namespace : string; msg : Message; messageId : string; messageType : MessageType
}.

Definition is_nil {A} (o : option A) : bool := match o with None => true | Some _ => false end.

(** The type of a message, or the conflict. *)
Definition type_of (m : Message) (txEnabled : bool) : option MessageType :=
  if is_nil (messageGroup m) && is_nil (deliveryTimestamp m) && is_nil (priority m) && negb txEnabled && is_nil (LiteTopic m)
  then Some NORMAL
  else if negb (is_nil (messageGroup m)) && negb txEnabled then Some FIFO
  else if negb (is_nil (deliveryTimestamp m)) && negb txEnabled then Some DELAY
  else if negb (is_nil (priority m)) && negb txEnabled then Some PRIORITY
  else if negb (is_nil (LiteTopic m)) && negb txEnabled then Some LITE
  else if is_nil (messageGroup m) && is_nil (deliveryTimestamp m) && is_nil (priority m) && txEnabled then Some TRANSACTION
  else None.

Definition NewPublishingMessage (m : Message) (ns : string) (maxBodySizeBytes now : Z) (txEnabled : bool) (c : messageid.Codec)
    : result PublishingMessage * messageid.Codec :=
  if len (Body m) >? maxBodySizeBytes then (Err (ErrMsg "message body size exceeds the threshold"), c)
  else
    let '(id, c) := messageid.NextMessageId now c in
    (match type_of m txEnabled with
     | Some t => Ok (mkPublishing ns m (messageid.String_ id) t)
     | None => Err (ErrMsg "transactional message should not set messageGroup, deliveryTimestamp, priority or liteTopic")
     end, c).

(** [SetPriority]: the message or an error. *)
Definition SetPriority (p : Z) (m : Message) : result Message :=
  if p <? 0 then Err (ErrMsg "priority must be greater than or equal to 0")
  else if negb (is_nil (messageGroup m)) then Err (ErrMsg "priority and messageGroup should not be set at same time")
  else if negb (is_nil (deliveryTimestamp m)) then Err (ErrMsg "priority and deliveryTimestamp should not be set at same time")
  else if negb (is_nil (LiteTopic m)) then Err (ErrMsg "priority and liteTopic should not be set at same time")
  else Ok (mkMessage (Topic m) (Body m) (Tag m) (messageGroup m) (keys m) (properties m) (LiteTopic m) (deliveryTimestamp m) (Some p)).

(** The request [toProtobuf] builds, but for host, time and trace. *)
Record Wire : Type := mkWire {
  w_name : string; w_namespace : string; w_keys : list string; w_messageId : string; w_type : MessageType;
  w_properties : gmap string string; w_body : bytes; w_tag : option string; w_delivery : option Z;
  w_group : option string; w_lite : option string; w_priority : option Z
}.
Definition toProtobuf (p : PublishingMessage) : Wire :=
  let m := msg p in
  mkWire (Topic m) (namespace p) (keys m) (messageId p) (messageType p) (properties m) (Body m) (Tag m)
    (deliveryTimestamp m) (messageGroup m) (LiteTopic m) (priority m).

(** The error text promises that a transactional message with a lite topic is
    refused; the code takes it for a transactional message. *)
Theorem lite_transaction_accepted m t :
  messageGroup m = None → deliveryTimestamp m = None → priority m = None → LiteTopic m = Some t →
  type_of m true = Some TRANSACTION.
Proof. unfold type_of. by intros -> -> -> ->. Qed.

(** A message has the type its fields say; a transactional one has none of group,
    delivery time and priority, and every other combination is refused. *)
Lemma type_of_spec m tx ty :
  type_of m tx = Some ty →
  match ty with
  | TRANSACTION => tx = true ∧ messageGroup m = None ∧ deliveryTimestamp m = None ∧ priority m = None
  | FIFO => tx = false ∧ is_Some (messageGroup m)
  | DELAY => tx = false ∧ messageGroup m = None ∧ is_Some (deliveryTimestamp m)
  | PRIORITY => tx = false ∧ messageGroup m = None ∧ deliveryTimestamp m = None ∧ is_Some (priority m)
  | LITE => tx = false ∧ messageGroup m = None ∧ deliveryTimestamp m = None ∧ priority m = None ∧ is_Some (LiteTopic m)
  | NORMAL => tx = false ∧ messageGroup m = None ∧ deliveryTimestamp m = None ∧ priority m = None ∧ LiteTopic m = None
  end.
Proof.
  unfold type_of, is_nil. destruct (messageGroup m), (deliveryTimestamp m), (priority m), (LiteTopic m), tx; simpl;
    intros [= <-]; split_and?; eauto; done.
Qed.
End publishing.

(** ** Load balancing *)

Module balancer.
Import publishing.

(** A queue with its broker's name and addresses and the types it accepts. *)
Record MessageQueue : Type := mkQueue { q_topic : string; q_id : Z; broker : string; q_addresses : list string; accepts : list MessageType }.
#[global] Instance MessageQueue_eq_dec : EqDecision MessageQueue.
Proof. solve_decision. Defined.

(** A load balancer; [index] is an int32. *)
Record Balancer : Type := mkBalancer { queues : list MessageQueue; index : Z }.

Section balancer.
Context (Mod : Z → nat → nat).

(** The first loop: [fuel] iterations are left.  [next] is not advanced. *)
Fixpoint scan (fuel : nat) (next : Z) (qs : list MessageQueue) (excluded : gset string) (count : Z)
    (candidates : list MessageQueue) (names : gset string) : list MessageQueue * gset string * bool :=
  match fuel with
  | O => (candidates, names, false)
  | Datatypes.S fuel =>
    match qs !! Mod (messageid.wrap32 (next + 1)) (length qs) with
    | None => (candidates, names, false)
    | Some q =>
      if bool_decide (broker q ∈ names) then scan fuel next qs excluded count candidates names
      else if existsb (λ a, bool_decide (a ∈ excluded)) (q_addresses q) then scan fuel next qs excluded count candidates names
      else
        let candidates := candidates ++ [q] in
        let names := {[broker q]} ∪ names in
        if llen candidates >=? count then (candidates, names, true)
        else scan fuel next qs excluded count candidates names
    end
  end.

(** The last component says that the loop returned from inside. *)
Definition TakeMessageQueues (excluded : gset string) (count : Z) (b : Balancer) : result (list MessageQueue) * Balancer :=
  if bool_decide (queues b = []) then (Err (ErrMsg "messageQueues is empty"), b)
  else
    let next := messageid.wrap32 (index b + 1) in
    let n := length (queues b) in
    let '(candidates, names, returned) := scan n next (queues b) excluded count [] ∅ in
    let candidates :=
      if returned || negb (bool_decide (candidates = [])) then candidates
      else (scan n next (queues b) ∅ count [] names).1.1 in
    (Ok candidates, mkBalancer (queues b) next).

Definition TakeMessageQueueByMessageGroup (siphash : string → Z) (Mod64 : Z → nat → nat) (group : option string) (b : Balancer)
    : result (list MessageQueue) :=
  if bool_decide (queues b = []) then Err (ErrMsg "messageQueues is empty")
  else match group with
       | None => Err (ErrMsg "messageGroup is nil")
       | Some g =>
         match queues b !! Mod64 (siphash g) (length (queues b)) with
         | Some q => Ok [q]
         | None => Err (ErrMsg "index out of range")
         end
       end.

Definition CopyAndUpdate (qs : list MessageQueue) (b : Balancer) : Balancer := mkBalancer qs (index b).

(** The subscription balancer. *)
Definition TakeMessageQueue (b : Balancer) : result MessageQueue * Balancer :=
  if bool_decide (queues b = []) then (Err (ErrMsg "messageQueues is empty"), b)
  else
    let next := messageid.wrap32 (index b + 1) in
    (match queues b !! Mod (messageid.wrap32 (next + 1)) (length (queues b)) with
     | Some q => Ok q
     | None => Err (ErrMsg "index out of range")
     end, mkBalancer (queues b) next).

Context (Mod_range : ∀ z n, (0 < n)%nat → (Mod z n < n)%nat).

Lemma scan_one fuel next qs excluded count q candidates names :
  qs !! Mod (messageid.wrap32 (next + 1)) (length qs) = Some q →
  (broker q ∈ names ∨ existsb (λ a, bool_decide (a ∈ excluded)) (q_addresses q) = true) →
  scan fuel next qs excluded count candidates names = (candidates, names, false).
Proof.
  intros Hq Hor. induction fuel as [|fuel IH]; [done|]. cbn [scan]. rewrite Hq.
  destruct (bool_decide_reflect (broker q ∈ names)) as [|Hn]; [done|]. destruct Hor as [| ->]; done.
Qed.

(** The one queue the loops look at. *)
Lemma one_candidate excluded count b :
  queues b ≠ [] →
  ∃ q, queues b !! Mod (messageid.wrap32 (messageid.wrap32 (index b + 1) + 1)) (length (queues b)) = Some q ∧
    TakeMessageQueues excluded count b = (Ok [q], mkBalancer (queues b) (messageid.wrap32 (index b + 1))).
Proof.
  intros Hne. unfold TakeMessageQueues. rewrite bool_decide_eq_false_2 by done.
  set (next := messageid.wrap32 (index b + 1)).
  assert (Hlt : (Mod (messageid.wrap32 (next + 1)) (length (queues b)) < length (queues b))%nat).
  { apply Mod_range. destruct (queues b); [done|simpl; lia]. }
  apply lookup_lt_is_Some_2 in Hlt as [q Hq]. exists q. split; [done|].
  assert (Hone : ∀ ex, existsb (λ a, bool_decide (a ∈ ex)) (q_addresses q) = false →
    ∃ r, scan (length (queues b)) next (queues b) ex count [] ∅ = ([q], {[broker q]}, r)).
  { intros ex Hex. destruct (length (queues b)) as [|n] eqn:En; [by apply nil_length_inv in En|]. cbn [scan]. rewrite En, Hq, Hex.
    rewrite bool_decide_eq_false_2 by set_solver. cbn [app]. replace ({[broker q]} ∪ ∅ : gset string) with ({[broker q]} : gset string) by set_solver.
    destruct (llen [q] >=? count); [by eexists|]. exists false. rewrite <-En in Hq. eapply scan_one; [done|]. left. set_solver. }
  destruct (existsb (λ a, bool_decide (a ∈ excluded)) (q_addresses q)) eqn:Hex.
  - rewrite (scan_one _ _ _ _ _ q) by auto. cbn. destruct (Hone ∅) as [r ->]; [|done].
    apply not_true_iff_false. rewrite existsb_exists. intros (a&_&Ha). boolp. set_solver.
  - destruct (Hone excluded Hex) as [r ->]. rewrite bool_decide_eq_false_2 by done. by rewrite orb_true_r.
Qed.

(** The load balancer looks at one queue only.  Because its loops do not advance
    their cursor, a non-empty balancer always returns exactly one candidate, the
    queue after the last one taken, however many candidates are asked for and
    whatever brokers are isolated, the isolated ones included: a retried send goes
    to the queue that has just failed. *)
Theorem isolation_ignored excluded count b :
  queues b ≠ [] →
  ∃ q, queues b !! Mod (messageid.wrap32 (messageid.wrap32 (index b + 1) + 1)) (length (queues b)) = Some q ∧
    TakeMessageQueues excluded count b = (Ok [q], mkBalancer (queues b) (messageid.wrap32 (index b + 1))).
Proof. apply one_candidate. Qed.
End balancer.

Definition ex_mod (z : Z) (n : nat) : nat := Z.to_nat (z mod Z.of_nat n).
Definition ex_queue (name : string) : MessageQueue := mkQueue "orders" 0 name [(name +:+ ":8081")%string] [NORMAL; TRANSACTION].
Definition ex_balancer : Balancer := mkBalancer [ex_queue "a"; ex_queue "b"] 0.

Lemma ex_mod_range z n : (0 < n)%nat → (ex_mod z n < n)%nat.
Proof. intros Hn. unfold ex_mod. pose proof (Z.mod_pos_bound z (Z.of_nat n) ltac:(lia)). lia. Qed.

(** The broker that failed is chosen again although another one is up. *)
Lemma isolation_ignored_witness :
  (TakeMessageQueues ex_mod {["a:8081"%string]} 3 ex_balancer).1 = Ok [ex_queue "a"].
Proof.
  destruct (isolation_ignored ex_mod ex_mod_range {["a:8081"%string]} 3 ex_balancer ltac:(discriminate)) as (q&Hq&->).
  cbn [fst]. assert (Hc : queues ex_balancer !! ex_mod (messageid.wrap32 (messageid.wrap32 (index ex_balancer + 1) + 1))
    (length (queues ex_balancer)) = Some (ex_queue "a")) by (vm_compute; reflexivity).
  congruence.
Defined.
End balancer.
