(* ===== verification/DriverProducer.v ===== *)
(** * transport/rocketmq/internal/driver: sending and transactions

    [producer.go], [transaction.go] and the settings of [producer_options.go]:
    one send with its retries, half messages, commit and rollback, and the
    broker's recovery commands.  The callers send one message at a time, so that
    the comparisons of [send0] between messages are not modelled.  Every RPC is
    logged and answered by the world; a transaction is used by one goroutine.  One
    send runs with the settings it began with: the source reads the retry maximum
    again for each attempt, so a settings command that arrives in the middle of a
    send is not modelled. *)

From S2P Require Import Prelude GoStd Driver.

Module producer.
Import publishing balancer.

(** ** Data *)

Record Receipt : Type := mkReceipt { MessageID : string; TransactionId : string; Endpoints : list string }.

Inductive Resolution : Type := UNKNOWN | COMMIT | ROLLBACK.
#[global] Instance Resolution_eq_dec : EqDecision Resolution.
Proof. solve_decision. Defined.
Inductive Source : Type := SOURCE_CLIENT | SOURCE_SERVER_CHECK.

Inductive Rpc : Type :=
| RSend (q : MessageQueue) (w : Wire)
| REnd (endpoints : list string) (topic messageId transactionId : string) (r : Resolution) (src : Source).

(** A transport error, or a status and the entries of the response. *)
Inductive Reply : Type := RErr (e : error) | RStatus (code : Z) (entries : list (string * string)).

Definition Code_OK : Z := 20000.

(** The error of a reply; a status other than OK is [ErrRpcStatus]. *)
Definition reply_error (r : Reply) : option error :=
  match r with
  | RErr e => Some e
  | RStatus code _ => if code =? Code_OK then None else Some (ErrDriver code)
  end.

Record Settings : Type := mkSettings { maxAttempts : Z; validateMessageType : bool; maxBodySizeBytes : Z }.

(** [applySettingsCommand]: the publishing settings, if the command has them, and
    the attempts of its retry policy. *)
Definition applySettingsCommand (pubSub : option (option (bool * Z))) (attempts : option Z) (s : Settings) : result Settings :=
  match pubSub with
  | None => Err (ErrMsg "onSettingsCommand err = pubSub is nil")
  | Some None => Err (ErrMsg "[bug] Issued settings not match with the client type")
  | Some (Some (validate, maxBody)) => Ok (mkSettings (default (maxAttempts s) attempts) validate maxBody)
  end.

Record Producer : Type := mkProducer {
  on : bool; isolated : gset string; topics : gset string; cache : gmap string Balancer;
  settings : Settings; codec : messageid.Codec; namespace : string
}.

(** [NewProducer]: the settings before the broker's. *)
Definition NewProducer (maxAttempts : Z) (topics : list string) (ns : string) (c : messageid.Codec) : Producer :=
  mkProducer false ∅ (list_to_set topics) ∅ (mkSettings maxAttempts true 4194304) c ns.

Definition log : Type := list (Rpc * Reply).

Section producer.
Context (Mod : Z → nat → nat) (Mod64 : Z → nat → nat) (siphash : string → Z).
Context (world : nat → Rpc → Reply) (clock : nat → Z) (getMessageQueues : nat → string → result (list MessageQueue)).

Definition call (r : Rpc) (l : log) : Reply * log := let a := world (length l) r in (a, l ++ [(r, a)]).

(** ** Sending *)

(** The attempts [send1] allows. *)
Definition attempts_of (t : MessageType) (s : Settings) : Z := if t == TRANSACTION then 1 else maxAttempts s.

(** [send1]; [fuel] is at least the number of attempts left. *)
Fixpoint send1 (fuel : nat) (s : Settings) (candidates : list MessageQueue) (p : PublishingMessage) (attempt : Z)
    (iso : gset string) (l : log) : result (list Receipt) * gset string * log :=
  match fuel with
  | O => (Err (ErrMsg "fuel"), iso, l)
  | Datatypes.S fuel =>
    match candidates !! Mod (messageid.wrap32 (attempt - 1)) (length candidates) with
    | None => (Err (ErrMsg "index out of range"), iso, l)
    | Some q =>
      if validateMessageType s && negb (bool_decide (messageType p ∈ accepts q))
      then (Err (ErrMsg "current message type not match with topic accept message types"), iso, l)
      else
        let '(a, l) := call (RSend q (toProtobuf p)) l in
        match reply_error a, a with
        | Some e, _ =>
          let iso := list_to_set (q_addresses q) ∪ iso in
          if attempt >=? attempts_of (messageType p) s then (Err e, iso, l)
          else send1 fuel s candidates p (attempt + 1) iso l
        | None, RStatus _ entries =>
          (Ok (map (λ x, mkReceipt x.1 x.2 (q_addresses q)) entries), iso, l)
        | None, RErr e => (Err e, iso, l)
        end
    end
  end.

Definition with_cache (t : string) (b : Balancer) (p : Producer) : Producer :=
  mkProducer (on p) (isolated p) (topics p) (<[t := b]> (cache p)) (settings p) (codec p) (namespace p).
Definition with_isolated (iso : gset string) (p : Producer) : Producer :=
  mkProducer (on p) iso (topics p) (cache p) (settings p) (codec p) (namespace p).
Definition with_topic (t : string) (p : Producer) : Producer :=
  mkProducer (on p) (isolated p) ({[t]} ∪ topics p) (cache p) (settings p) (codec p) (namespace p).
Definition with_codec (c : messageid.Codec) (p : Producer) : Producer :=
  mkProducer (on p) (isolated p) (topics p) (cache p) (settings p) c (namespace p).

(** [getPublishingTopicRouteResult] *)
Definition getPublishingTopicRouteResult (t : string) (l : log) (p : Producer) : result Balancer * Producer :=
  match cache p !! t with
  | Some b => (Ok b, p)
  | None =>
    match getMessageQueues (length l) t with
    | Err e => (Err e, p)
    | Ok qs => let b := mkBalancer qs 0 in (Ok b, with_cache t b p)
    end
  end.

(** The queues a message may go to. *)
Definition candidates_for (m : PublishingMessage) (b : Balancer) (p : Producer) : result (list MessageQueue) * Balancer :=
  match (if messageType m == FIFO then messageGroup (msg m) else None) with
  | Some g => (TakeMessageQueueByMessageGroup siphash Mod64 (Some g) b, b)
  | None => TakeMessageQueues Mod (isolated p) (if messageType m == TRANSACTION then 1 else maxAttempts (settings p)) b
  end.

(** [send0] of one message, from the check of the topics on. *)
Definition send0 (m : PublishingMessage) (l : log) (p : Producer) : result (list Receipt) * Producer * log :=
  let t := Topic (msg m) in
  let p := with_topic t p in
  let '(r, p) := getPublishingTopicRouteResult t l p in
  match r with
  | Err e => (Err e, p, l)
  | Ok b =>
    let '(r, b) := candidates_for m b p in
    let p := with_cache t b p in
    match r with
    | Ok (q :: qs) =>
      let '(r, iso, l) := send1 (Z.to_nat (Z.max 1 (attempts_of (messageType m) (settings p)))) (settings p) (q :: qs) m 1 (isolated p) l in
      (r, with_isolated iso p, l)
    | _ => (Err (ErrMsg "no broker available to sendMessage"), p, l)
    end
  end.

Definition new_message (m : Message) (tx : bool) (l : log) (p : Producer) : result PublishingMessage * Producer :=
  let '(r, c) := NewPublishingMessage m (namespace p) (maxBodySizeBytes (settings p)) (clock (length l)) tx (codec p) in
  (r, with_codec c p).

Definition Send (m : Message) (l : log) (p : Producer) : result (list Receipt) * Producer * log :=
  if negb (on p) then (Err (ErrMsg "producer is not running"), p, l)
  else
    let '(r, p) := new_message m false l p in
    match r with Err e => (Err e, p, l) | Ok pm => send0 pm l p end.

(** ** Transactions *)

(** [messageSendReceiptMap] holds the message and its receipt. *)
Record Tx : Type := mkTx { messages : gmap string PublishingMessage; receipts : gmap string (PublishingMessage * Receipt) }.
Definition BeginTransaction : Tx := mkTx ∅ ∅.
Definition MAX_MESSAGE_NUM : nat := 1.

Definition tryAddMessage (m : Message) (l : log) (p : Producer) (tx : Tx) : result PublishingMessage * Producer * Tx :=
  if bool_decide (MAX_MESSAGE_NUM < size (messages tx))%nat
  then (Err (ErrMsg "message in transaction has exceeded the threshold"), p, tx)
  else
    let '(r, p) := new_message m true l p in
    match r with
    | Err e => (Err e, p, tx)
    | Ok pm => (Ok pm, p, mkTx (<[messageId pm := pm]> (messages tx)) (receipts tx))
    end.

Definition tryAddReceipt (pm : PublishingMessage) (r : Receipt) (tx : Tx) : result Tx :=
  if bool_decide (is_Some (messages tx !! messageId pm))
  then Ok (mkTx (messages tx) (<[messageId pm := (pm, r)]> (receipts tx)))
  else Err (ErrMsg "message(s) is not contained in current transaction").

Definition SendWithTransaction (m : Message) (l : log) (p : Producer) (tx : Tx) : result (list Receipt) * Producer * Tx * log :=
  if negb (on p) then (Err (ErrMsg "producer is not running"), p, tx, l)
  else
    let '(r, p, tx) := tryAddMessage m l p tx in
    match r with
    | Err e => (Err e, p, tx, l)
    | Ok pm =>
      let '(r, p, l) := send0 pm l p in
      match r with
      | Err e => (Err e, p, tx, l)
      | Ok [rc] =>
        if (MessageID rc == ""%string) || (TransactionId rc == ""%string)
        then (Err (ErrMsg "transaction half receipt incomplete"), p, tx, l)
        else match tryAddReceipt pm rc tx with
             | Err e => (Err e, p, tx, l)
             | Ok tx => (Ok [rc], p, tx, l)
             end
      | Ok _ => (Err (ErrMsg "transaction half receipt incomplete"), p, tx, l)
      end
    end.

Definition endTransaction (endpoints : list string) (topic messageId transactionId : string) (r : Resolution) (src : Source) (l : log)
    : option error * log :=
  let '(a, l) := call (REnd endpoints topic messageId transactionId r src) l in (reply_error a, l).

(** The Range over the receipts, in the order [rs]; it stops at the first error. *)
Fixpoint end_all (r : Resolution) (rs : list (PublishingMessage * Receipt)) (l : log) : option error * log :=
  match rs with
  | [] => (None, l)
  | (pm, rc) :: rs =>
    let '(e, l) := endTransaction (Endpoints rc) (Topic (msg pm)) (MessageID rc) (TransactionId rc) r SOURCE_CLIENT l in
    match e with
    | Some e => (Some (ErrWrap "transaction message end failed" e), l)
    | None => end_all r rs l
    end
  end.

(** [CommitContext] and [RollBackContext]. *)
Definition finish (r : Resolution) (rs : list (PublishingMessage * Receipt)) (l : log) : option error * log :=
  match rs with
  | [] => (Some (ErrMsg "transactional message has not been sent yet"), l)
  | _ => end_all r rs l
  end.

(** ** Recovery *)

(** A recovery command: complete or not, its message and transaction. *)
Record Command : Type := mkCommand { complete : bool; c_topic : string; c_messageId : string; c_transactionId : string }.

(** [onRecoverOrphanedTransactionCommand], with the work it hands over when the
    adapter admits it; the last component is what [AfterRecovery] is told. *)
Definition onRecoverOrphanedTransactionCommand (checker : option (Command → Resolution)) (admitted : bool)
    (endpoints : list string) (c : Command) (l : log) : option error * log * option (Resolution * option error) :=
  if negb (complete c) then (Some (ErrMsg "invalid transaction recovery command"), l, None)
  else match checker with
  | None => (Some (ErrMsg "no transaction checker registered, ignore it"), l, None)
  | Some check =>
    if admitted then
      let r := check c in
      let '(e, l) := endTransaction endpoints (c_topic c) (c_messageId c) (c_transactionId c) r SOURCE_SERVER_CHECK l in
      (None, l, Some (r, e))
    else (None, l, None)
  end.

(** ** What a send does *)

Context (Mod_range : ∀ z n, (0 < n)%nat → (Mod z n < n)%nat).

(** The RPCs of one send of [w] to queue [q]: every one but the last failed, and
    the last is the answer. *)
Definition sent (q : MessageQueue) (w : Wire) (k : log) (r : result (list Receipt)) : Prop :=
  Forall (λ x, x.1 = RSend q w) k ∧
  match r with
  | Ok rs => ∃ pre entries, k = pre ++ [(RSend q w, RStatus Code_OK entries)] ∧
      Forall (λ x, is_Some (reply_error x.2)) pre ∧ rs = map (λ x, mkReceipt x.1 x.2 (q_addresses q)) entries
  | Err e => Forall (λ x, is_Some (reply_error x.2)) k ∧ ∀ x, last k = Some x → reply_error x.2 = Some e
  end.

Lemma reply_ok code entries : reply_error (RStatus code entries) = None → code = Code_OK.
Proof. unfold reply_error. destruct (Z.eqb_spec code Code_OK); done. Qed.

Lemma sent_cons q w a e k r :
  reply_error a = Some e → k ≠ [] → sent q w k r → sent q w ((RSend q w, a) :: k) r.
Proof.
  intros Ha Hne [Hf Hr]. split; [by constructor|]. destruct r as [rs|e'].
  - destruct Hr as (pre&entries&->&Hp&->). exists ((RSend q w, a) :: pre), entries. split_and!; [done| |done].
    constructor; [by exists e|done].
  - destruct Hr as [Hall Hlast]. split; [constructor; [by exists e|done]|]. intros x Hx. apply Hlast.
    destruct k as [|y k]; [done|]. exact Hx.
Qed.

(** A send with one candidate: it answers within its attempts. *)
Lemma send1_spec fuel s q m attempt iso l r iso' l' :
  1 <= attempt → (Z.to_nat (Z.max 1 (attempts_of (messageType m) s - attempt + 1)) <= fuel)%nat →
  send1 fuel s [q] m attempt iso l = (r, iso', l') →
  ∃ k, l' = l ++ k ∧ sent q (toProtobuf m) k r ∧
    llen k <= Z.max 1 (attempts_of (messageType m) s - attempt + 1) ∧
    (k = [] ↔ validateMessageType s = true ∧ messageType m ∉ accepts q).
Proof.
  revert attempt iso l. induction fuel as [|fuel IH]; intros attempt iso l Ha Hfuel; [lia|]. cbn [send1].
  assert (Hidx : [q] !! Mod (messageid.wrap32 (attempt - 1)) (length [q]) = Some q).
  { pose proof (Mod_range (messageid.wrap32 (attempt - 1)) 1 ltac:(lia)). cbn [length].
    destruct (Mod (messageid.wrap32 (attempt - 1)) 1); [done|lia]. }
  rewrite Hidx. destruct (validateMessageType s && negb (bool_decide (messageType m ∈ accepts q))) eqn:Hv.
  { boolp. intros [= <- <- <-]. exists []. rewrite app_nil_r. split_and!; [done|repeat constructor; done|unfold llen; simpl; lia|done]. }
  assert (Hne : ¬ (validateMessageType s = true ∧ messageType m ∉ accepts q)).
  { intros [Hs Hn]. rewrite Hs, (bool_decide_eq_false_2 _ Hn) in Hv. done. }
  unfold call. set (a := world (length l) (RSend q (toProtobuf m))).
  destruct (reply_error a) as [e|] eqn:Herr.
  - destruct (Z.geb_spec attempt (attempts_of (messageType m) s)) as [Hge|Hlt].
    + intros [= <- <- <-]. exists [(RSend q (toProtobuf m), a)]. split_and!; [done| |unfold llen; simpl; lia|done].
      split; [by repeat constructor|]. split; [repeat constructor; by exists e|]. intros x [= <-]. done.
    + intros (k&->&Hs&Hl&Hk)%IH; [|lia..]. exists ((RSend q (toProtobuf m), a) :: k).
      rewrite <-app_assoc. split_and!; [done| |unfold llen in *; simpl; lia|done].
      apply (sent_cons _ _ _ e); [done| |done]. intros ->. by apply Hne, Hk.
  - destruct a as [e|code entries] eqn:Ea; [done|]. apply reply_ok in Herr as ->. intros [= <- <- <-].
    exists [(RSend q (toProtobuf m), RStatus Code_OK entries)]. split_and!; [done| |unfold llen; simpl; lia|done].
    split; [by repeat constructor|]. exists [], entries. split_and!; [done|constructor|done].
Qed.

(** The candidates are one queue or none. *)
Lemma candidates_one m b p r b' :
  candidates_for m b p = (r, b') → (∃ q, r = Ok [q] ∧ q ∈ queues b) ∨ ∃ e, r = Err e.
Proof.
  unfold candidates_for.
  assert (Htake : ∀ n, TakeMessageQueues Mod (isolated p) n b = (r, b') → (∃ q, r = Ok [q] ∧ q ∈ queues b) ∨ ∃ e, r = Err e).
  { intros n E. destruct (decide (queues b = [])) as [Hn|Hne].
    - unfold TakeMessageQueues in E. rewrite bool_decide_eq_true_2 in E by done. injection E as <- _. right. by eexists.
    - destruct (one_candidate Mod Mod_range (isolated p) n b Hne) as (q&Hq&E'). rewrite E' in E.
      injection E as <- _. left. exists q. split; [done|]. by eapply list_elem_of_lookup_2. }
  destruct (messageType m == FIFO); [|apply Htake]. destruct (messageGroup (msg m)) as [g|]; [|apply Htake].
  intros [= <- _]. unfold TakeMessageQueueByMessageGroup. destruct (bool_decide _); [right; by eexists|].
  destruct (queues b !! _) as [q|] eqn:Hq; [left|right; by eexists]. exists q. split; [done|]. by eapply list_elem_of_lookup_2.
Qed.

(** Why [send0] makes no RPC: no route, no candidate, or a queue that does not take
    the type of the message. *)
Definition unsent (m : PublishingMessage) (l : log) (p : Producer) : Prop :=
  match getPublishingTopicRouteResult (Topic (msg m)) l (with_topic (Topic (msg m)) p) with
  | (Err _, _) => True
  | (Ok b, p) =>
    match (candidates_for m b p).1 with
    | Ok (q :: _) => validateMessageType (settings p) = true ∧ messageType m ∉ accepts q
    | _ => True
    end
  end.

Lemma send0_spec m l p r p' l' :
  send0 m l p = (r, p', l') →
  ∃ k, l' = l ++ k ∧ llen k <= Z.max 1 (attempts_of (messageType m) (settings p)) ∧ (k = [] → unsent m l p) ∧
    ((k = [] ∧ ∃ e, r = Err e) ∨ ∃ q, sent q (toProtobuf m) k r).
Proof.
  unfold send0, unsent. set (t := Topic (msg m)).
  destruct (getPublishingTopicRouteResult t l (with_topic t p)) as [rb p1] eqn:Er.
  assert (Hset : settings p1 = settings p).
  { unfold getPublishingTopicRouteResult in Er. cases Er; simplify_eq/=; done. }
  assert (Hnone : ∀ (P : Prop) e p2, P → (Err e, p2, l) = (r, p', l') → ∃ k, l' = l ++ k ∧
    llen k <= Z.max 1 (attempts_of (messageType m) (settings p)) ∧ (k = [] → P) ∧ ((k = [] ∧ ∃ e, r = Err e) ∨ ∃ q, sent q (toProtobuf m) k r)).
  { intros P e p2 HP [= <- <- <-]. exists []. rewrite app_nil_r. split_and!; [done|unfold llen; simpl; lia|done|left; eauto]. }
  destruct rb as [b|e]; [|by apply Hnone]. destruct (candidates_for m b p1) as [rq b'] eqn:Ec. cbn [fst].
  apply candidates_one in Ec as [(q&->&_)|[e ->]]; [|by apply Hnone].
  cbn [settings with_cache isolated]. rewrite Hset. destruct (send1 _ _ _ _ _ _ _) as [[r1 iso] l1] eqn:Es. intros [= <- <- <-].
  apply send1_spec in Es as (k&->&Hs&Hl&Hk); [|lia|rewrite Z.sub_add; lia].
  exists k. split_and!; [done|lia|by intros H%Hk|right; by exists q].
Qed.

Lemma new_message_spec m tx l p r p' :
  new_message m tx l p = (r, p') → settings p' = settings p ∧ on p' = on p ∧
  ∀ pm, r = Ok pm → msg pm = m ∧ type_of m tx = Some (messageType pm).
Proof.
  unfold new_message, NewPublishingMessage.
  destruct (len (Body m) >? _); [intros [= <- <-]; split_and!; [done..|by intros pm [=]]|].
  destruct (messageid.NextMessageId _ _) as [id c]. destruct (type_of m tx) as [ty|]; intros [= <- <-]; split_and!; try done.
  intros pm [= <-]. done.
Qed.

(** The end of a transaction with one receipt. *)
Lemma finish_one r pm rc l e l' :
  finish r [(pm, rc)] l = (e, l') →
  ∃ a, l' = l ++ [(REnd (Endpoints rc) (Topic (msg pm)) (MessageID rc) (TransactionId rc) r SOURCE_CLIENT, a)] ∧
    (e = None ↔ reply_error a = None).
Proof.
  unfold finish, end_all, endTransaction, call. set (a := world _ _). destruct (reply_error a) as [x|] eqn:E; intros [= <- <-];
    exists a; split; [done|by rewrite E|done|by rewrite E].
Qed.

(** The outcomes of a send in a new transaction. *)
Lemma half_message_cases m l p r p' tx' l' :
  SendWithTransaction m l p BeginTransaction = (r, p', tx', l') →
  ∃ k, l' = l ++ k ∧ llen k <= 1 ∧
  ((∃ e, r = Err e) ∧ receipts tx' = ∅ ∨
   ∃ pm q rc, r = Ok [rc] ∧ msg pm = m ∧ messageType pm = TRANSACTION ∧ MessageID rc ≠ ""%string ∧ TransactionId rc ≠ ""%string ∧
     k = [(RSend q (toProtobuf pm), RStatus Code_OK [(MessageID rc, TransactionId rc)])] ∧ Endpoints rc = q_addresses q ∧
     receipts tx' = {[messageId pm := (pm, rc)]}).
Proof.
  assert (Hfail : ∀ (tx : Tx) k e p1, receipts tx = ∅ → llen k <= 1 → (Err e, p1, tx, l ++ k) = (r, p', tx', l') →
    ∃ k, l' = l ++ k ∧ llen k <= 1 ∧ (∃ e, r = Err e) ∧ receipts tx' = ∅).
  { intros tx k e p1 Htx Hk [= <- <- <- <-]. eauto 10. }
  assert (Hweak : ∀ P : log → Prop, (∃ k, l' = l ++ k ∧ llen k <= 1 ∧ (∃ e, r = Err e) ∧ receipts tx' = ∅) →
    ∃ k, l' = l ++ k ∧ llen k <= 1 ∧ ((∃ e, r = Err e) ∧ receipts tx' = ∅ ∨ P k)) by (intros P (k&?&?&?); eauto 10).
  assert (Hnil : llen ([] : log) <= 1) by (unfold llen; simpl; lia).
  unfold SendWithTransaction. destruct (on p); cbn [negb];
    [|intros H; apply Hweak; rewrite <-(app_nil_r l) in H; by eapply Hfail in H].
  unfold tryAddMessage. cbn [messages BeginTransaction]. rewrite map_size_empty, bool_decide_eq_false_2 by (unfold MAX_MESSAGE_NUM; lia).
  destruct (new_message m true l p) as [[pm|e] p1] eqn:En; apply new_message_spec in En as (_&_&Hpm);
    [|intros H; apply Hweak; rewrite <-(app_nil_r l) in H; by eapply Hfail in H].
  destruct (Hpm pm eq_refl) as [Hm Hty]. assert (Htx : messageType pm = TRANSACTION).
  { pose proof (type_of_spec _ _ _ Hty) as H. destruct (messageType pm); naive_solver. }
  destruct (send0 pm l p1) as [[rs p2] l1] eqn:Es. apply send0_spec in Es as (k&->&Hk&_&Hor).
  assert (Hlen : llen k <= 1) by (unfold attempts_of in Hk; rewrite Htx, bool_decide_eq_true_2 in Hk by done; lia).
  destruct rs as [rs|e]; [|intros H; apply Hweak; by eapply Hfail in H].
  destruct Hor as [[_ [e ?]]|(q&Hf&pre&entries&Hkk&_&Hrs)]; [done|].
  assert (pre = []) as -> by (destruct pre; [done|]; rewrite Hkk in Hlen; unfold llen in Hlen; simpl in Hlen;
    rewrite length_app in Hlen; simpl in Hlen; lia). cbn in Hkk.
  destruct rs as [|rc [|rc' rs]]; [intros H; apply Hweak; by eapply Hfail in H| |intros H; apply Hweak; by eapply Hfail in H].
  destruct (_ || _) eqn:Hg; [intros H; apply Hweak; by eapply Hfail in H|].
  boolp. unfold tryAddReceipt. cbn [messages]. rewrite lookup_insert_eq, bool_decide_eq_true_2 by done.
  intros [= <- <- <- <-]. exists k. split_and!; [done..|]. right. exists pm, q, rc.
  destruct entries as [|[a b] [|? ?]]; try done. injection Hrs as ->. by rewrite insert_empty.
Qed.

(** C30: A half message is sent at most once and ended as its receipt says.  Whatever
    the broker answers, SendWithTransaction makes at most one RPC, also when the
    broker's settings ask for retries.  When it succeeds that RPC was answered OK
    with one complete receipt, and each Commit or Rollback then makes exactly one
    RPC, to the same broker, with the identifiers of that receipt and the wanted
    resolution, and succeeds exactly when the broker answers OK.  When it fails the
    transaction holds no receipt, and a Commit or Rollback sends nothing and
    fails. *)
Theorem half_message_once m l p r p' tx' l' :
  SendWithTransaction m l p BeginTransaction = (r, p', tx', l') →
  ∃ k, l' = l ++ k ∧ llen k <= 1 ∧
  match r with
  | Ok rs => ∃ pm q rc, rs = [rc] ∧ msg pm = m ∧ messageType pm = TRANSACTION ∧
      MessageID rc ≠ ""%string ∧ TransactionId rc ≠ ""%string ∧
      k = [(RSend q (toProtobuf pm), RStatus Code_OK [(MessageID rc, TransactionId rc)])] ∧
      map_to_list (receipts tx') = [(messageId pm, (pm, rc))] ∧
      ∀ res l1 e l2, finish res (snd <$> map_to_list (receipts tx')) l1 = (e, l2) →
        ∃ a, l2 = l1 ++ [(REnd (q_addresses q) (Topic m) (MessageID rc) (TransactionId rc) res SOURCE_CLIENT, a)] ∧
          (e = None ↔ reply_error a = None)
  | Err _ => receipts tx' = ∅ ∧ ∀ res l1, ∃ e, finish res (snd <$> map_to_list (receipts tx')) l1 = (Some e, l1)
  end.
Proof.
  intros (k&->&Hk&[[[e ->] Hrc]|(pm&q&rc&->&Hm&Ht&?&?&->&He&Hrc)])%half_message_cases.
  - exists k. rewrite Hrc, map_to_list_empty. split_and!; [done..|]. intros res l1. by eexists.
  - eexists. split_and!; [done..|]. exists pm, q, rc. rewrite Hrc, map_to_list_singleton. split_and!; try done.
    intros res l1 e l2. change (snd <$> [(messageId pm, (pm, rc))]) with [(pm, rc)].
    intros Hf%finish_one. by rewrite Hm, He in Hf.
Qed.


(** Recovery reports what was sent.  AfterRecovery is called exactly when a complete
    command was admitted, after one EndTransaction RPC marked as a server check
    and carrying the checker's answer, with that answer and the outcome of the
    RPC; otherwise nothing is sent. *)
Theorem recovery_reports checker admitted endpoints c l e l' after :
  onRecoverOrphanedTransactionCommand checker admitted endpoints c l = (e, l', after) →
  match after with
  | Some (r, err) => e = None ∧ complete c = true ∧ admitted = true ∧ (∃ check, checker = Some check ∧ r = check c) ∧
      ∃ a, l' = l ++ [(REnd endpoints (c_topic c) (c_messageId c) (c_transactionId c) r SOURCE_SERVER_CHECK, a)] ∧ err = reply_error a
  | None => l' = l ∧ (complete c = false ∨ checker = None ∨ admitted = false)
  end.
Proof.
  unfold onRecoverOrphanedTransactionCommand, endTransaction, call. destruct (complete c); cbn [negb]; [|intros [= <- <- <-]; auto].
  destruct checker as [check|]; [|intros [= <- <- <-]; auto]. destruct admitted; [|intros [= <- <- <-]; auto].
  intros [= <- <- <-]. split_and!; eauto.
Qed.
End producer.

(** ** A broker that is down once *)

Definition ex_codec : messageid.Codec := messageid.init "macadd" "" 4711 1700000000.
Definition ex_world (n : nat) (r : Rpc) : Reply :=
  match n, r with
  | O, RSend _ _ => RErr (ErrDriver 14)
  | _, RSend _ w => RStatus Code_OK [(w_messageId w, "tx-1"%string)]
  | _, REnd _ _ _ _ _ _ => RStatus Code_OK []
  end.
Definition ex_routes (n : nat) (t : string) : result (list MessageQueue) := Ok [ex_queue "a"; ex_queue "b"].
Definition ex_producer : Producer := mkProducer true ∅ ∅ ∅ (mkSettings 3 true 4194304) ex_codec "".
Definition ex_message : Message := mkMessage "orders" "body" None None [] ∅ None None None.

Abbreviation ex_send := (Send ex_mod ex_mod (λ _, 0) ex_world (λ _, 1700000000) ex_routes ex_message [] ex_producer) (only parsing).
Abbreviation ex_half l :=
  (SendWithTransaction ex_mod ex_mod (λ _, 0) ex_world (λ _, 1700000000) ex_routes ex_message l ex_producer BeginTransaction) (only parsing).


(** The first half message is lost and not sent again; the second is answered. *)
Lemma half_message_once_witness :
  is_Ok (ex_half []).1.1.1 = false ∧ llen (ex_half []).2 <= 1 ∧ is_Ok (ex_half (ex_half []).2).1.1.1 = true.
Proof.
  assert (H1 : is_Ok (ex_half []).1.1.1 = false) by (vm_compute; reflexivity).
  assert (H2 : is_Ok (ex_half (ex_half []).2).1.1.1 = true) by (vm_compute; reflexivity).
  split; [exact H1|]. split; [|exact H2]. clear. destruct (ex_half []) as [[[r p'] tx'] l'] eqn:E. cbn [snd].
  destruct (half_message_once ex_mod ex_mod (λ _, 0) ex_world (λ _, 1700000000) ex_routes ex_mod_range ex_message [] ex_producer r p' tx' l' E)
    as (k&Hk&Hlen&_).
  rewrite Hk. exact Hlen.
Defined.
End producer.
