(* ===== verification/DriverConsumer.v ===== *)
(** * transport/rocketmq/internal/driver: consumers

    [simple_consumer.go] with [receive_rate_limiter.go]: the consumer the
    subscriber polls.  RPCs are answers of the world; hooks, logs and metrics are
    not modelled; [utils.Mod] and the digests of message bodies are parameters. *)

From S2P Require Import Prelude GoStd Driver DriverProducer NsqSubscriber.

Module simpleconsumer.
Import publishing balancer producer discovery.

(** ** Received messages *)

Inductive DigestType : Type := CRC32 | MD5 | SHA1 | OtherDigest.
Inductive Encoding : Type := GZIP | IDENTITY | OtherEncoding.

(** The parts of a protobuf message the view is made of. *)
Record WireMessage : Type := mkWireMessage {
  wm_topic : string; wm_id : string; wm_body : bytes; wm_digest : DigestType; wm_checksum : string; wm_encoding : Encoding;
  wm_handle : string; wm_attempt : Z; wm_properties : gmap string string
}.
Record MessageView : Type := mkView {
  v_topic : string; v_id : string; v_body : bytes; ReceiptHandle : string; deliveryAttempt : Z;
  v_properties : gmap string string; v_endpoints : option (list string); corrupted : bool
}.

Section view.
(** The checksum texts of a body, upper case, and decompression. *)
Context (digest : DigestType → bytes → string) (AutoDecode : bytes → option bytes).

Definition fromProtobuf (m : WireMessage) (q : option MessageQueue) : MessageView :=
  let bad_digest := match wm_digest m with
                    | OtherDigest => false
                    | d => digest d (wm_body m) != wm_checksum m
                    end in
  let '(body, bad_body) := match wm_encoding m with
                           | GZIP => match AutoDecode (wm_body m) with Some b => (b, false) | None => (wm_body m, true) end
                           | _ => (wm_body m, false)
                           end in
  mkView (wm_topic m) (wm_id m) body (wm_handle m) (wm_attempt m) (wm_properties m) (q_addresses <$> q) (bad_digest || bad_body).

(** ** Receive *)

Inductive Response : Type :=
| RspStatus (code : Z) | RspMessage (m : WireMessage) | RspTimestamp (t : Z) | RspOther.

(** The loop over the responses: the last status and the messages. *)
Definition absorb_response (st : Z * list WireMessage) (r : Response) : Z * list WireMessage :=
  match r with
  | RspStatus c => (c, st.2)
  | RspMessage m => (st.1, st.2 ++ [m])
  | _ => st
  end.

Definition INTERNAL_SERVER_ERROR : Z := 50001.

(** How the stream ended: its responses, an error, or the timeout. *)
Inductive Stream : Type := Timeout | StreamErr (e : error) | Responses (rs : list Response).

Definition receiveMessage (q : MessageQueue) (s : result Stream) : result (list MessageView) :=
  match s with
  | Err e => Err e
  | Ok Timeout => Err (ErrMsg "[error] CODE=DEADLINE_EXCEEDED")
  | Ok (StreamErr e) => Err e
  | Ok (Responses rs) =>
    let '(code, ms) := fold_left absorb_response rs (INTERNAL_SERVER_ERROR, []) in
    if code =? Code_OK then Ok (map (λ m, fromProtobuf m (Some q)) ms) else Err (ErrDriver code)
  end.
End view.

(** *** The consumer *)

Record Consumer : Type := mkConsumer {
  on : bool; subscriptions : gmap string string; topicIndex : Z; routes : gmap string Balancer; current : Z; maxConcurrency : Z
}.

(** [newReceiveRateLimiter] *)
Definition limiter_limit (n : Z) : Z := if n <=? 0 then 10 else n.

Definition NewSimpleConsumer (subs : gmap string string) (maxReceiveConcurrency : Z) : Consumer :=
  mkConsumer false subs 0 ∅ 0 (limiter_limit maxReceiveConcurrency).

Definition Subscribe (topic expression : string) (route : option error) (c : Consumer) : option error * Consumer :=
  match route with
  | Some e => (Some e, c)
  | None => (None, mkConsumer (on c) (<[topic := expression]> (subscriptions c)) (topicIndex c) (routes c) (current c) (maxConcurrency c))
  end.
Definition Unsubscribe (topic : string) (c : Consumer) : Consumer :=
  mkConsumer (on c) (delete topic (subscriptions c)) (topicIndex c) (routes c) (current c) (maxConcurrency c).

(** [acquire] succeeds when there is room; [release]. *)
Definition acquire (c : Consumer) : option Consumer :=
  if current c >=? maxConcurrency c then None
  else Some (mkConsumer (on c) (subscriptions c) (topicIndex c) (routes c) (current c + 1) (maxConcurrency c)).
Definition release (c : Consumer) : Consumer :=
  if current c >? 0 then mkConsumer (on c) (subscriptions c) (topicIndex c) (routes c) (current c - 1) (maxConcurrency c) else c.

Section receive.
Context (Mod : Z → nat → nat).

(** The subscribed topics in a stable order. *)
Definition sorted_topics (c : Consumer) : list string := merge_sort string_le (elements (dom (subscriptions c))).

(** The topic of one Receive and the advanced cursor. *)
Definition next_topic (c : Consumer) : option string * Consumer :=
  let ts := sorted_topics c in
  let next := messageid.wrap32 (topicIndex c + 1) in
  (ts !! Mod (messageid.wrap32 (next + 1)) (length ts),
   mkConsumer (on c) (subscriptions c) next (routes c) (current c) (maxConcurrency c)).

(** What [Receive] asks for: the queue and the filter, before the permit. *)
Definition Receive_request (maxMessageNum : Z) (route : string → result (list MessageQueue)) (c : Consumer)
    : result (MessageQueue * string) * Consumer :=
  if negb (on c) then (Err (ErrMsg "simple consumer is not running"), c)
  else if maxMessageNum <=? 0 then (Err (ErrMsg "maxMessageNum must be greater than 0"), c)
  else if bool_decide (sorted_topics c = []) then (Err (ErrMsg "there is no topic to receive message"), c)
  else
    let '(t, c) := next_topic c in
    match t with
    | None => (Err (ErrMsg "index out of range"), c)
    | Some t =>
      match subscriptions c !! t with
      | None => (Err (ErrMsg "no found filterExpression"), c)
      | Some fe =>
        let r := match routes c !! t with Some b => Ok b | None => try qs <- route t; Ok (mkBalancer qs 0) end in
        match r with
        | Err e => (Err e, c)
        | Ok b =>
          let '(q, b) := TakeMessageQueue Mod b in
          let c := mkConsumer (on c) (subscriptions c) (topicIndex c) (<[t := b]> (routes c)) (current c) (maxConcurrency c) in
          match q with Err e => (Err e, c) | Ok q => (Ok (q, fe), c) end
        end
      end
    end.

(** ** Acknowledgement *)

(** [Ack]: a status other than OK is recorded in the metrics and not returned. *)
Definition Ack (c : Consumer) (reply : Reply) : option error :=
  if negb (on c) then Some (ErrMsg "simple consumer is not running")
  else match reply with RErr e => Some e | RStatus _ _ => None end.

(** [ChangeInvisibleDuration]: the new handle of the view, and the error. *)
Definition ChangeInvisibleDuration (c : Consumer) (v : MessageView) (reply : Reply) (handle : string) : option error * MessageView :=
  if negb (on c) then (Some (ErrMsg "simple consumer is not running"), v)
  else match v_endpoints v with
  | None => (Some (ErrMsg "changeInvisibleDuration failed, err = the endpoints in message is nil"), v)
  | Some _ =>
    (reply_error reply,
     match reply with
     | RErr _ => v
     | RStatus _ _ => mkView (v_topic v) (v_id v) (v_body v) handle (deliveryAttempt v) (v_properties v) (v_endpoints v) (corrupted v)
     end)
  end.

(** A refused acknowledgement looks accepted.  Whatever status the broker answers
    an acknowledgement with, a running consumer reports success; changing the
    invisibility of a message reports every such refusal. *)
Theorem refused_ack_reported c v code entries handle :
  on c = true → code ≠ Code_OK → is_Some (v_endpoints v) →
  Ack c (RStatus code entries) = None ∧ (ChangeInvisibleDuration c v (RStatus code entries) handle).1 = Some (ErrDriver code).
Proof.
  intros Hon Hc [e He]. unfold Ack, ChangeInvisibleDuration, reply_error. rewrite Hon, He. cbn.
  by destruct (Z.eqb_spec code Code_OK).
Qed.

(** ** Rotation *)

(** The topics of [n] consecutive Receives with unchanged subscriptions. *)
Fixpoint rotation (n : nat) (c : Consumer) : list (option string) :=
  match n with
  | O => []
  | Datatypes.S n => let '(t, c) := next_topic c in t :: rotation n c
  end.

Context (Mod_law : ∀ z n, 0 <= z → (0 < n)%nat → Mod z n = Z.to_nat (z mod Z.of_nat n)).

Lemma wrap32_small z : - 2 ^ 31 <= z < 2 ^ 31 → messageid.wrap32 z = z.
Proof. intros Hz. unfold messageid.wrap32. rewrite Z.mod_small; lia. Qed.

Lemma rotation_lookup n c i :
  0 <= topicIndex c → topicIndex c + Z.of_nat n + 1 < 2 ^ 31 → sorted_topics c ≠ [] → (i < n)%nat →
  rotation n c !! i = Some (sorted_topics c !! Z.to_nat ((topicIndex c + 2 + Z.of_nat i) mod llen (sorted_topics c))).
Proof.
  revert c i. induction n as [|n IH]; intros c i H0 Hb Hne Hi; [lia|]. cbn [rotation next_topic].
  rewrite (wrap32_small (topicIndex c + 1)) by lia. rewrite wrap32_small by lia.
  assert (Hlen : (0 < length (sorted_topics c))%nat) by (destruct (sorted_topics c); [done|simpl; lia]).
  destruct i as [|i]; cbn -[Z.of_nat].
  - rewrite Mod_law by lia. unfold llen. do 4 f_equal. lia.
  - rewrite IH; [|cbn [topicIndex]; lia..|done|lia]. cbn [topicIndex]. unfold sorted_topics. cbn [subscriptions]. do 4 f_equal. lia.
Qed.

Lemma rotation_length n c : length (rotation n c) = n.
Proof. revert c. induction n as [|n IH]; intros c; [done|]. cbn. by rewrite IH. Qed.

(** A window of [n] consecutive residues meets every residue once. *)
Lemma window_residue n start j :
  (0 < n)%nat → (j < n)%nat → ∃ i, (i < n)%nat ∧ Z.to_nat ((start + Z.of_nat i) mod Z.of_nat n) = j.
Proof.
  intros Hn Hj. exists (Z.to_nat ((Z.of_nat j - start) mod Z.of_nat n)).
  pose proof (Z.mod_pos_bound (Z.of_nat j - start) (Z.of_nat n) ltac:(lia)). split; [lia|].
  rewrite Z2Nat.id, Zplus_mod_idemp_r by lia. replace (start + (Z.of_nat j - start)) with (Z.of_nat j) by lia.
  rewrite Z.mod_small by lia. lia.
Qed.

(** A consumer starves no topic.  While the subscriptions are unchanged, as many
    consecutive Receives as there are topics, before the 32-bit cursor wraps
    around, poll every topic exactly once. *)
Theorem no_topic_starves c :
  0 <= topicIndex c → topicIndex c + llen (sorted_topics c) + 1 < 2 ^ 31 → sorted_topics c ≠ [] →
  rotation (length (sorted_topics c)) c ≡ₚ Some <$> sorted_topics c.
Proof.
  intros H0 Hb Hne. set (n := length (sorted_topics c)).
  assert (Hn : (0 < n)%nat) by (subst n; destruct (sorted_topics c); [done|simpl; lia]).
  pose proof (rotation_length n c) as Hlen.
  assert (Hnd : NoDup (Some <$> sorted_topics c)).
  { apply NoDup_fmap; [apply _|]. unfold sorted_topics. rewrite (merge_sort_Permutation string_le). apply NoDup_elements. }
  symmetry. apply submseteq_length_Permutation; [|rewrite length_fmap; lia].
  apply NoDup_submseteq; [done|]. intros x (t&->&Ht)%list_elem_of_fmap.
  apply list_elem_of_lookup in Ht as [j Hj]. pose proof (lookup_lt_Some _ _ _ Hj) as Hlt.
  destruct (window_residue n (topicIndex c + 2) j Hn Hlt) as (i&Hi&Hij).
  apply list_elem_of_lookup. exists i. rewrite rotation_lookup by (done || unfold llen in *; lia).
  unfold llen. fold n. by rewrite Hij, Hj.
Qed.
End receive.

Definition ex_consumer : Consumer :=
  mkConsumer true {["b"%string := "*"%string; "a"%string := "*"%string; "c"%string := "*"%string]} 7 ∅ 0 10.

Lemma ex_mod_law z n : 0 <= z → (0 < n)%nat → ex_mod z n = Z.to_nat (z mod Z.of_nat n).
Proof. done. Qed.

Example ex_rotation : rotation ex_mod 3 ex_consumer = [Some "a"; Some "b"; Some "c"]%string.
Proof. vm_compute. reflexivity. Qed.

Lemma no_topic_starves_witness : rotation ex_mod (length (sorted_topics ex_consumer)) ex_consumer ≡ₚ Some <$> sorted_topics ex_consumer.
Proof.
  apply (no_topic_starves ex_mod ex_mod_law ex_consumer); [cbn; lia| |].
  - apply Z.ltb_lt. vm_compute. reflexivity.
  - intros E. assert (H : length (sorted_topics ex_consumer) = 3%nat) by (vm_compute; reflexivity). rewrite E in H. discriminate.
Defined.

Definition ex_view : MessageView := mkView "orders" "id" "body" "handle" 1 ∅ (Some ["a:8081"%string]) false.

Lemma refused_ack_reported_witness : Ack ex_consumer (RStatus 40017 []) = None.
Proof.
  exact (proj1 (refused_ack_reported ex_consumer ex_view 40017 [] "handle" eq_refl ltac:(discriminate) (ex_intro _ _ eq_refl))).
Defined.
End simpleconsumer.
