(* ===== verification/DriverProcess.v ===== *)
(** * transport/rocketmq/internal/driver: push consumers

    [process_queue.go] and [consumer_service.go] with the parts of
    [push_consumer.go] they run in, as one transition system: the process queues
    and their cache counters, the consume services (standard, FIFO, lite FIFO), the
    settlement loops of acknowledgement, negative acknowledgement and dead
    lettering, reception, and the scan of assignments.  A task of the executor, a
    timer, a call that is about to receive, a receive in flight and a scan under way
    are pending tasks a run may take in any order; so calls that receive from several
    new queues of one scan interleave, which the source makes one after the other.
    RPC answers, listener outcomes, clocks and assignments come with each step; the
    retry policy's delay and the comparisons of [utils] are parameters; logs are not modelled. *)

From S2P Require Import Prelude GoStd Driver DriverProducer.

Module process.
Import producer messageid.

Definition wrap64 (z : Z) : Z := (z + 2 ^ 63) mod 2 ^ 64 - 2 ^ 63.

(** ** Data *)

Inductive ConsumerResult : Type := SUCCESS | FAILURE | SUSPEND (suspendTime : Z).

(** [NewConsumerResultSuspend]: [None] is its panic; durations are nanoseconds. *)
Definition minSuspendTime : Z := 50000000.
Definition NewConsumerResultSuspend (d : Z) : option ConsumerResult := if d <? minSuspendTime then None else Some (SUSPEND d).

(** A message view, and the process queue (by index) it was received through. *)
Record View : Type := mkView {
  v_queue : nat; v_body : bytes; v_attempt : Z; v_group : option string; v_lite : string; v_endpoints : bool; isCorrupted : bool
}.
Definition with_attempt (a : Z) (v : View) : View :=
  mkView (v_queue v) (v_body v) a (v_group v) (v_lite v) (v_endpoints v) (isCorrupted v).

(** [defaultProcessQueue]; views and queues are pointers, so both are indices. *)
Record Queue : Type := mkQueue {
  mq_topic : string; dropped : bool; cachedMessagesNums : Z; cachedMessagesBytes : Z; receptionTimes : Z;
  receivedMessagesQuantity : Z; activityNanoTime : Z; cacheFullNanoTime : Z
}.
Definition MinInt64 : Z := - 2 ^ 63.
Definition newDefaultProcessQueue (topic : string) (now : Z) : Queue := mkQueue topic false 0 0 0 0 now MinInt64.

(** The settlements of a message. *)
Inductive Settle : Type := SAck | SChange (d : Z) | SForward.

(** What happens after a consume task. *)
Inductive Kont : Type := KStandard | KFifo (rest : list nat) | KLite (rest : list nat) | KRetry.
Definition rest_of (k : Kont) : list nat := match k with KFifo r | KLite r => r | _ => [] end.

(** How far a call of [receiveMessageImmediatelyWithAttemptId] is: called, past the
    check that the consumer runs, past the activity stamp.  No lock is held between. *)
Inductive Reception : Type := RCalled | RChecked | RStamped.

Inductive Task : Type :=
| TRun (p : nat) (k : Kont)                      (* submitted to the executor *)
| TDelayed (d : Z) (p : nat) (k : Kont)          (* a timer that will submit it *)
| TSettle (s : Settle) (p : nat) (attempt : Z)   (* a timer that settles again *)
| TReceiving (q : nat)                           (* a receive in flight *)
| TReceiveLater (d : Z) (q : nat)                (* a timer that receives again *)
| TReceive (r : Reception) (q : nat)             (* a call that will start a receive *)
| TScan.                                         (* a scan of the assignments under way *)

Definition task_views (t : Task) : list nat :=
  match t with
  | TRun p k | TDelayed _ p k => p :: rest_of k
  | TSettle _ p _ => [p]
  | _ => []
  end.

Inductive Service : Type := Standard | Fifo | LiteFifo.

(** [pcSettings] and [pcOpts]. *)
Record Config : Type := mkConfig {
  service : Service; lite_client : bool; accelerator : bool; MaxAttempts : Z; GetNextAttemptDelay : Z → Z;
  receiveBatchSize : Z; longPollingTimeout : Z; requestTimeout : Z;
  maxCacheMessageCount : Z; maxCacheMessageSizeInBytes : Z
}.

(** The consumer with what it did: consumed views with their attempt, evicted views
    and views no task will settle. *)
Record State : Type := mkState {
  on : bool; stopping : bool; accepting : bool; inflight : Z;
  table : gmap string nat; assigned : gmap string (option (list string));
  queues : list Queue; views : list View; tasks : list Task;
  consumed : list (nat * Z); evicted : list nat; stranded : list nat; okQuantity : Z; errorQuantity : Z
}.

Definition with_queues qs s := mkState (on s) (stopping s) (accepting s) (inflight s) (table s) (assigned s) qs (views s) (tasks s) (consumed s) (evicted s) (stranded s) (okQuantity s) (errorQuantity s).
Definition with_views vs s := mkState (on s) (stopping s) (accepting s) (inflight s) (table s) (assigned s) (queues s) vs (tasks s) (consumed s) (evicted s) (stranded s) (okQuantity s) (errorQuantity s).
Definition with_tasks ts s := mkState (on s) (stopping s) (accepting s) (inflight s) (table s) (assigned s) (queues s) (views s) ts (consumed s) (evicted s) (stranded s) (okQuantity s) (errorQuantity s).
Definition with_consumed cs s := mkState (on s) (stopping s) (accepting s) (inflight s) (table s) (assigned s) (queues s) (views s) (tasks s) cs (evicted s) (stranded s) (okQuantity s) (errorQuantity s).
Definition with_evicted es s := mkState (on s) (stopping s) (accepting s) (inflight s) (table s) (assigned s) (queues s) (views s) (tasks s) (consumed s) es (stranded s) (okQuantity s) (errorQuantity s).
Definition with_stranded xs s := mkState (on s) (stopping s) (accepting s) (inflight s) (table s) (assigned s) (queues s) (views s) (tasks s) (consumed s) (evicted s) xs (okQuantity s) (errorQuantity s).
Definition with_inflight n s := mkState (on s) (stopping s) (accepting s) n (table s) (assigned s) (queues s) (views s) (tasks s) (consumed s) (evicted s) (stranded s) (okQuantity s) (errorQuantity s).
Definition with_table t a s := mkState (on s) (stopping s) (accepting s) (inflight s) t a (queues s) (views s) (tasks s) (consumed s) (evicted s) (stranded s) (okQuantity s) (errorQuantity s).
Definition with_flags o st ac s := mkState o st ac (inflight s) (table s) (assigned s) (queues s) (views s) (tasks s) (consumed s) (evicted s) (stranded s) (okQuantity s) (errorQuantity s).
Definition with_quantity o e s := mkState (on s) (stopping s) (accepting s) (inflight s) (table s) (assigned s) (queues s) (views s) (tasks s) (consumed s) (evicted s) (stranded s) o e.

Definition add_task (t : Task) (s : State) : State := with_tasks (tasks s ++ [t]) s.
Definition strand (ps : list nat) (s : State) : State := with_stranded (stranded s ++ ps) s.

Definition count_queue (dn db : Z) (q : Queue) : Queue :=
  mkQueue (mq_topic q) (dropped q) (wrap32 (cachedMessagesNums q + dn)) (wrap64 (cachedMessagesBytes q + db))
    (receptionTimes q) (receivedMessagesQuantity q) (activityNanoTime q) (cacheFullNanoTime q).
Definition on_queue (q : nat) (f : Queue → Queue) (s : State) : State := with_queues (alter f q (queues s)) s.

(** [evictCacheMessage], the callback of every settlement. *)
Definition evictCacheMessage (p : nat) (s : State) : State :=
  match views s !! p with
  | None => s
  | Some v => with_evicted (evicted s ++ [p]) (on_queue (v_queue v) (count_queue (-1) (- len (v_body v))) s)
  end.

(** ** Settlement *)

Definition Code_INVALID_RECEIPT_HANDLE : Z := 40013.

(** [ack0], [changeInvisibleDuration0] and [forwardMessageToDeadLetterQueue0]: the
    status of the response, or the error. *)
Definition ack0 (s : State) (r : Reply) : result Z :=
  if negb (on s) then Err (ErrMsg "push consumer is not running")
  else match r with RErr e => Err e | RStatus c _ => Ok c end.
Definition changeInvisibleDuration0 (v : View) (r : Reply) : result Z :=
  if negb (v_endpoints v) then Err (ErrMsg "changeInvisibleDuration failed, err = the endpoints in message is nil")
  else match r with
  | RErr e => Err e
  | RStatus c _ => if c =? Code_OK then Ok c else Err (ErrDriver c)
  end.
Definition forwardMessageToDeadLetterQueue0 (r : Reply) : result Z :=
  match r with RErr e => Err e | RStatus c _ => Ok c end.

(** Whether one attempt calls its callback; otherwise it is scheduled again. *)
Definition ackMessage0 (s : State) (r : Reply) : bool :=
  match ack0 s r with
  | Err _ => false
  | Ok c => if c =? Code_INVALID_RECEIPT_HANDLE then true else if negb (c =? Code_OK) then false else true
  end.
Definition changeInvisibleDuration (v : View) (r : Reply) : bool :=
  match changeInvisibleDuration0 v r with
  | Err _ => false
  | Ok c => if c =? Code_INVALID_RECEIPT_HANDLE then true else if negb (c =? Code_OK) then false else true
  end.
Definition forwardToDeadLetterQueue0 (r : Reply) : bool :=
  match forwardMessageToDeadLetterQueue0 r with
  | Err _ => false
  | Ok c => if negb (c =? Code_OK) then false else true
  end.

(** One attempt of a settlement with its answer: evict, or try again later. *)
Definition settle (sk : Settle) (p : nat) (attempt : Z) (r : Reply) (s : State) : State :=
  match views s !! p with
  | None => s
  | Some v =>
    let finished := match sk with
                    | SAck => ackMessage0 s r
                    | SChange _ => changeInvisibleDuration v r
                    | SForward => forwardToDeadLetterQueue0 r
                    end in
    if finished then evictCacheMessage p s else add_task (TSettle sk p (1 + attempt)) s
  end.

Section consumer.
Context (cfg : Config) (IsAssignmentsEmpty : option (list string) → bool)
  (CompareAssignments : option (list string) → option (list string) → bool).

(** The answers of the calls one step makes. *)
Definition Answers : Type := Settle → nat → Reply.

Definition convertSuspendResultIfNeeded (r : ConsumerResult) : ConsumerResult :=
  match r with SUSPEND _ => if lite_client cfg then r else FAILURE | _ => r end.

Definition nack_of (v : View) : Settle := SChange (GetNextAttemptDelay cfg (v_attempt v)).

Definition eraseMessage (p : nat) (res : ConsumerResult) (rs : Answers) (s : State) : State :=
  match views s !! p with
  | None => s
  | Some v =>
    match convertSuspendResultIfNeeded res with
    | FAILURE => let k := nack_of v in settle k p 1 (rs k p) (with_quantity (okQuantity s) (errorQuantity s + 1) s)
    | _ => settle SAck p 1 (rs SAck p) (with_quantity (okQuantity s + 1) (errorQuantity s) s)
    end
  end.
Definition discardMessage (p : nat) (rs : Answers) (s : State) : State :=
  match views s !! p with None => s | Some v => settle (nack_of v) p 1 (rs (nack_of v) p) s end.
Definition discardFifoMessage (p : nat) (rs : Answers) (s : State) : State := settle SForward p 1 (rs SForward p) s.

(** [Submit]: an executor that shut down refuses the task. *)
Definition Submit (p : nat) (k : Kont) (s : State) : State :=
  if accepting s then add_task (TRun p k) s else strand (p :: rest_of k) s.
Definition consumeWithDuration (d : Z) (p : nat) (k : Kont) (s : State) : State :=
  if d <=? 0 then Submit p k s else add_task (TDelayed d p k) s.

Definition eraseFifoMessage (p : nat) (res : ConsumerResult) (rs : Answers) (s : State) : State :=
  match views s !! p with
  | None => s
  | Some v =>
    match convertSuspendResultIfNeeded res with
    | FAILURE =>
      if v_attempt v <? MaxAttempts cfg then
        consumeWithDuration (GetNextAttemptDelay cfg (v_attempt v)) p KRetry
          (with_views (<[p := with_attempt (wrap32 (v_attempt v + 1)) v]> (views s)) s)
      else settle SForward p 1 (rs SForward p) s
    | SUCCESS => settle SAck p 1 (rs SAck p) s
    | SUSPEND d => settle (SChange d) p 1 (rs (SChange d) p) s
    end
  end.

(** ** Consume services *)

(** [consumeIteratively] of both FIFO services: the list from [ptr] on. *)
Fixpoint consumeIteratively (k : list nat → Kont) (ps : list nat) (rs : Answers) (s : State) : State :=
  match ps with
  | [] => s
  | p :: rest =>
    match views s !! p with
    | None => s
    | Some v => if isCorrupted v then consumeIteratively k rest rs (discardFifoMessage p rs s) else Submit p (k rest) s
    end
  end.

(** [standardConsumeService.consume] *)
Fixpoint consume_standard (ps : list nat) (rs : Answers) (s : State) : State :=
  match ps with
  | [] => s
  | p :: rest =>
    match views s !! p with
    | None => s
    | Some v => consume_standard rest rs (if isCorrupted v then discardMessage p rs s else Submit p KStandard s)
    end
  end.

Definition key_of (vs : list View) (lite : bool) (p : nat) : string :=
  match vs !! p with None => ""%string | Some v => if lite then v_lite v else default ""%string (v_group v) end.

(** [groupMessageBy]: the groups, in the order of the keys (Go's is unspecified),
    and the views without a key. *)
Definition groupMessageBy (vs : list View) (lite : bool) (ps : list nat) : list (list nat) * list nat :=
  let keys := elements (list_to_set (filter (λ k, k ≠ ""%string) (key_of vs lite <$> ps)) : gset string) in
  ((λ k, filter (λ p, key_of vs lite p = k) ps) <$> keys, filter (λ p, key_of vs lite p = ""%string) ps).

Definition consume_fifo (lite : bool) (ps : list nat) (rs : Answers) (s : State) : State :=
  let k := if lite then KLite else KFifo in
  if negb (accelerator cfg) || (llen ps <=? 1) then consumeIteratively k ps rs s
  else
    let '(groups, rest) := groupMessageBy (views s) lite ps in
    let s := fold_left (λ s g, consumeIteratively k g rs s) groups s in
    if 0 <? llen rest then consumeIteratively k rest rs s else s.

Definition consume (ps : list nat) (rs : Answers) (s : State) : State :=
  match service cfg with
  | Standard => consume_standard ps rs s
  | Fifo => consume_fifo false ps rs s
  | LiteFifo => consume_fifo true ps rs s
  end.

(** How a consume task ends: the listener returned or panicked, or an interceptor
    panicked before or after it. *)
Inductive Outcome : Type := Returned (r : ConsumerResult) | ListenerPanic | BeforePanic | AfterPanic.

(** The callback of a consume task. *)
Definition callback (p : nat) (k : Kont) (o : Outcome) (rs : Answers) (s : State) : State :=
  let '(res, failed) := match o with
                        | Returned r => (r, false)
                        | ListenerPanic => (FAILURE, false)
                        | BeforePanic | AfterPanic => (FAILURE, true)
                        end in
  match k with
  | KRetry => eraseFifoMessage p res rs s
  | KStandard => if failed then strand [p] s else eraseMessage p res rs s
  | KFifo rest =>
    if failed then strand (p :: rest) s
    else consumeIteratively KFifo rest rs (eraseFifoMessage p res rs s)
  | KLite rest =>
    if failed then strand (p :: rest) s
    else
      let s := eraseFifoMessage p res rs s in
      match res with
      | SUSPEND _ =>
        let same := λ x, key_of (views s) true x = key_of (views s) true p in
        let s := fold_left (λ s x, eraseFifoMessage x res rs s) (filter same rest) s in
        consumeIteratively KLite (filter (λ x, ¬ same x) rest) rs s
      | _ => consumeIteratively KLite rest rs s
      end
  end.

(** [newConsumeTask] *)
Definition run_task (p : nat) (k : Kont) (o : Outcome) (rs : Answers) (s : State) : State :=
  let s := match o, views s !! p with
           | BeforePanic, _ | _, None => s
           | _, Some v => with_consumed (consumed s ++ [(p, v_attempt v)]) s
           end in
  callback p k o rs s.

(** ** Reception *)

Definition isRunning (s : State) : bool := if stopping s then false else on s.

(** The thresholds: [int32(math.Max(1, float64(max)/float64(size)))], exact for int32
    counts and for sizes below 2^53 bytes. *)
Definition per_queue (max : Z) (s : State) : Z :=
  let size := Z.of_nat (size (table s)) in
  if size <=? 0 then 0 else Z.max 1 (Z.quot max size).
Definition cacheMessageCountThresholdPerQueue (s : State) : Z := per_queue (maxCacheMessageCount cfg) s.
Definition cacheMessageBytesThresholdPerQueue (s : State) : Z := per_queue (maxCacheMessageSizeInBytes cfg) s.

Definition getReceptionBatchSize (q : Queue) (s : State) : Z :=
  Z.min (Z.max (wrap32 (cacheMessageCountThresholdPerQueue s - cachedMessagesNums q)) 1) (receiveBatchSize cfg).

Definition set_activity (now : Z) (q : Queue) : Queue :=
  mkQueue (mq_topic q) (dropped q) (cachedMessagesNums q) (cachedMessagesBytes q) (receptionTimes q)
    (receivedMessagesQuantity q) now (cacheFullNanoTime q).
Definition count_reception (q : Queue) : Queue :=
  mkQueue (mq_topic q) (dropped q) (cachedMessagesNums q) (cachedMessagesBytes q) (receptionTimes q + 1)
    (receivedMessagesQuantity q) (activityNanoTime q) (cacheFullNanoTime q).
Definition set_full (now : Z) (q : Queue) : Queue :=
  mkQueue (mq_topic q) (dropped q) (cachedMessagesNums q) (cachedMessagesBytes q) (receptionTimes q)
    (receivedMessagesQuantity q) (activityNanoTime q) now.
Definition drop (q : Queue) : Queue :=
  mkQueue (mq_topic q) true (cachedMessagesNums q) (cachedMessagesBytes q) (receptionTimes q)
    (receivedMessagesQuantity q) (activityNanoTime q) (cacheFullNanoTime q).

(** [receiveMessageImmediately]: the call begins; its actions are steps of their own. *)
Definition receiveMessageImmediately (q : nat) (s : State) : State := add_task (TReceive RCalled q) s.

(** The next action of [receiveMessageImmediatelyWithAttemptId], between any actions
    of others: the check, the activity stamp, and the hook before the receive, which
    counts it in flight, with the receive itself.  The attempt id it is given does
    not reach the request. *)
Definition receiveMessageImmediatelyWithAttemptId (r : Reception) (q : nat) (now : Z) (s : State) : State :=
  match r with
  | RCalled => if negb (isRunning s) then s else add_task (TReceive RChecked q) s
  | RChecked => add_task (TReceive RStamped q) (on_queue q (set_activity now) s)
  | RStamped => add_task (TReceiving q) (with_inflight (inflight s + 1) (on_queue q count_reception s))
  end.

Definition receiveMessageLater (d : Z) (q : nat) (s : State) : State := add_task (TReceiveLater d q) s.

Definition isCacheFull (q : Queue) (s : State) : bool :=
  (cacheMessageCountThresholdPerQueue s <=? cachedMessagesNums q) || (cacheMessageBytesThresholdPerQueue s <=? cachedMessagesBytes q).

Definition RECEIVING_FLOW_CONTROL_BACKOFF_DELAY : Z := 20000000.
Definition RECEIVING_FAILURE_BACKOFF_DELAY : Z := 1000000000.
Definition RECEIVING_BACKOFF_DELAY_WHEN_CACHE_IS_FULL : Z := 1000000000.

Definition receiveMessage (q : nat) (now : Z) (s : State) : State :=
  match queues s !! q with
  | None => s
  | Some pq =>
    if dropped pq then s
    else if isCacheFull pq s then receiveMessageLater RECEIVING_BACKOFF_DELAY_WHEN_CACHE_IS_FULL q (on_queue q (set_full now) s)
    else receiveMessageImmediately q s
  end.

Definition cacheMessages (q : nat) (vs : list View) (s : State) : State :=
  on_queue q (λ pq, fold_left (λ pq v, count_queue 1 (len (v_body v)) pq) vs pq) s.

Definition count_received (n : Z) (q : Queue) : Queue :=
  mkQueue (mq_topic q) (dropped q) (cachedMessagesNums q) (cachedMessagesBytes q) (receptionTimes q)
    (receivedMessagesQuantity q + n) (activityNanoTime q) (cacheFullNanoTime q).

(** A received view belongs to the queue it came through. *)
Definition of_queue (q : nat) (v : View) : View :=
  mkView q (v_body v) (v_attempt v) (v_group v) (v_lite v) (v_endpoints v) (isCorrupted v).

Definition onReceiveMessageResult (q : nat) (vs : list View) (rs : Answers) (now : Z) (s : State) : State :=
  let s := match vs with
           | [] => s
           | _ =>
             let vs := of_queue q <$> vs in
             let n := length (views s) in
             let s := on_queue q (count_received (llen vs)) (cacheMessages q vs (with_views (views s ++ vs) s)) in
             consume (seq n (length vs)) rs s
           end in
  receiveMessage q now s.

Definition Code_MESSAGE_NOT_FOUND : Z := 40401.
Definition Code_TOO_MANY_REQUESTS : Z := 42900.

Definition onReceiveMessageException (q : nat) (e : error) (s : State) : State :=
  let d := match e with
           | ErrDriver c => if c =? Code_TOO_MANY_REQUESTS then RECEIVING_FAILURE_BACKOFF_DELAY else RECEIVING_FLOW_CONTROL_BACKOFF_DELAY
           | _ => RECEIVING_FLOW_CONTROL_BACKOFF_DELAY
           end in
  receiveMessageLater d q s.

(** The end of a receive: the hook after it does not run for an empty answer. *)
Definition received (q : nat) (r : result (list View)) (rs : Answers) (now : Z) (s : State) : State :=
  match r with
  | Ok vs => onReceiveMessageResult q vs rs now (with_inflight (inflight s - 1) s)
  | Err e =>
    let isNoNewMessage := match e with ErrDriver c => c =? Code_MESSAGE_NOT_FOUND | _ => false end in
    onReceiveMessageException q e (if isNoNewMessage then s else with_inflight (inflight s - 1) s)
  end.

(** ** Assignments *)

Definition expired (now : Z) (q : Queue) : bool :=
  let maxIdleDuration := wrap64 ((longPollingTimeout cfg + requestTimeout cfg) * 3) in
  if wrap64 (now - activityNanoTime q) <? maxIdleDuration then false
  else if wrap64 (now - cacheFullNanoTime q) <? maxIdleDuration then false
  else true.

Definition dropProcessQueue (mq : string) (s : State) : State :=
  match table s !! mq with
  | None => s
  | Some q => on_queue q drop (with_table (delete mq (table s)) (assigned s) s)
  end.

Definition createProcessQueue (topic mq : string) (now : Z) (s : State) : option nat * State :=
  match table s !! mq with
  | Some _ => (None, s)
  | None =>
    let q := length (queues s) in
    (Some q, with_table (<[mq := q]> (table s)) (assigned s) (with_queues (queues s ++ [newDefaultProcessQueue topic now]) s))
  end.

(** The queues of the topic the scan of the table drops. *)
Definition dropped_by_sync (topic : string) (latest : list string) (now : Z) (s : State) : list string :=
  fst <$> filter (λ e, match queues s !! e.2 with
                       | None => false
                       | Some q => (mq_topic q == topic) && (bool_decide (e.1 ∉ latest) || expired now q)
                       end = true) (map_to_list (table s)).

Definition syncProcessQueue (topic : string) (assignments : option (list string)) (now : Z) (s : State) : State :=
  let latest := remove_dups (default [] assignments) in
  let s := fold_left (λ s mq, dropProcessQueue mq s) (dropped_by_sync topic latest now s) s in
  fold_left (λ s mq, match createProcessQueue topic mq now s with
                     | (Some q, s) => receiveMessageImmediately q s
                     | (None, s) => s
                     end) latest s.

(** [scanAssignments] for one topic; assignments are the names of their queues, and
    [None] is the nil of a failed query. *)
Definition scan_topic (topic : string) (newest : result (list string)) (now : Z) (s : State) : State :=
  let newest := match newest with Ok a => Some a | Err _ => None end in
  let existed := default None (assigned s !! topic) in
  if IsAssignmentsEmpty newest && IsAssignmentsEmpty existed then s
  else
    let s := syncProcessQueue topic newest now s in
    if CompareAssignments newest existed then s else with_table (table s) (<[topic := newest]> (assigned s)) s.

(** ** Runs *)

Inductive Label : Type :=
| LScanBegin | LScan (topic : string) (newest : result (list string)) (now : Z) | LScanEnd
| LRun (i : nat) (o : Outcome) (rs : Answers)
| LFire (i : nat) (rs : Answers) (now : Z)
| LReceive (i : nat) (now : Z)
| LReceived (i : nat) (r : result (list View)) (rs : Answers) (now : Z)
| LStopping | LShutdown | LOff.

Definition take_task (i : nat) (s : State) : State := with_tasks (delete i (tasks s)) s.

(** [scanAssignments] sees [stopping] once, before it goes through the topics; one
    goroutine scans. *)
Definition is_scan (t : Task) : bool := match t with TScan => true | _ => false end.
Definition scanning (s : State) : bool := existsb is_scan (tasks s).
Definition scan_begin (s : State) : State := if stopping s || scanning s then s else add_task TScan s.
Definition scan_end (s : State) : State := with_tasks (filter (λ t, is_scan t = false) (tasks s)) s.

(** One step: the check of a scan, a topic of it or its end, a task of the executor, a
    timer, an action of a call that receives, the end of a receive, and the stages of
    [GracefulStop]. *)
Definition step (l : Label) (s : State) : State :=
  match l with
  | LScanBegin => scan_begin s
  | LScan topic newest now => if scanning s then scan_topic topic newest now s else s
  | LScanEnd => scan_end s
  | LRun i o rs => match tasks s !! i with Some (TRun p k) => run_task p k o rs (take_task i s) | _ => s end
  | LFire i rs now =>
    match tasks s !! i with
    | Some (TDelayed _ p k) => Submit p k (take_task i s)
    | Some (TSettle sk p a) => settle sk p a (rs sk p) (take_task i s)
    | Some (TReceiveLater _ q) => receiveMessageImmediately q (take_task i s)
    | _ => s
    end
  | LReceive i now =>
    match tasks s !! i with
    | Some (TReceive r q) => receiveMessageImmediatelyWithAttemptId r q now (take_task i s)
    | _ => s
    end
  | LReceived i r rs now => match tasks s !! i with Some (TReceiving q) => received q r rs now (take_task i s) | _ => s end
  | LStopping => with_flags (on s) true (accepting s) s
  | LShutdown => with_flags (on s) (stopping s) false s
  | LOff => with_flags false (stopping s) (accepting s) s
  end.

Definition run (ls : list Label) (s : State) : State := fold_left (λ s l, step l s) ls s.

Definition started : State := mkState true false true 0 ∅ ∅ [] [] [] [] [] [] 0 0.

(** ** Every view is held exactly once *)

Definition in_hand (s : State) : list nat := concat (task_views <$> tasks s).
Definition held (s : State) : list nat := in_hand s ++ evicted s ++ stranded s.

(** What no operation changes of a view. *)
Definition sig (v : View) : nat * bytes := (v_queue v, v_body v).

(** The views of a queue that are not evicted yet, each weighted by [w]. *)
Definition weight (w : bytes → Z) (i : nat) (x : nat * bytes) : Z := if x.1 == i then w x.2 else 0.
Fixpoint sumZ (l : list Z) : Z := match l with [] => 0 | x :: l => x + sumZ l end.
Definition weigh (w : bytes → Z) (i : nat) (vs : list (nat * bytes)) (ps : list nat) : Z :=
  sumZ ((λ p, match vs !! p with Some x => weight w i x | None => 0 end) <$> ps).
Definition load (w : bytes → Z) (i : nat) (s : State) : Z :=
  sumZ (weight w i <$> (sig <$> views s)) - weigh w i (sig <$> views s) (evicted s).
Definition one (b : bytes) : Z := 1.

Definition counted (s : State) : Prop :=
  ∀ i q, queues s !! i = Some q → cachedMessagesNums q = wrap32 (load one i s) ∧ cachedMessagesBytes q = wrap64 (load len i s).

Definition task_within (n : nat) (t : Task) : Prop :=
  match t with TReceiving q | TReceiveLater _ q | TReceive _ q => (q < n)%nat | _ => True end.
Definition tasks_within (s : State) : Prop := Forall (task_within (length (queues s))) (tasks s).

(** [s'] is [s] after an operation that took over the views [ps]. *)
Record moves (ps : list nat) (s s' : State) : Prop := mkMoves {
  mv_held : held s' ≡ₚ ps ++ held s;
  mv_sig : sig <$> views s' = sig <$> views s;
  mv_counted : counted s → counted s';
  mv_queues : length (queues s') = length (queues s);
  mv_tasks : tasks_within s → tasks_within s'
}.

Lemma moves_refl s : moves [] s s.
Proof. by constructor. Qed.

Lemma moves_trans ps qs s s1 s2 : moves ps s s1 → moves qs s1 s2 → moves (ps ++ qs) s s2.
Proof.
  intros [A1 A2 A3 A4 A5] [B1 B2 B3 B4 B5]. constructor; [|congruence|auto|congruence|auto].
  rewrite B1, A1. by rewrite !app_assoc, (Permutation_app_comm qs).
Qed.

Lemma moves_perm ps qs s s' : ps ≡ₚ qs → moves ps s s' → moves qs s s'.
Proof. intros Hp [? ? ? ? ?]. constructor; try done. by rewrite <- Hp. Qed.

Lemma moves_views ps s s' p : moves ps s s' → is_Some (views s' !! p) ↔ is_Some (views s !! p).
Proof.
  intros [_ H _ _ _]. apply (f_equal (lookup p)) in H. rewrite !list_lookup_fmap in H.
  destruct (views s !! p), (views s' !! p); simpl in H; try discriminate; split; intros [? ?]; eauto; discriminate.
Qed.

Lemma wrap_add b z d : 0 < b → ((z + b) mod (2 * b) - b + d + b) mod (2 * b) = (z + d + b) mod (2 * b).
Proof.
  intros Hb. replace ((z + b) mod (2 * b) - b + d + b) with ((z + b) mod (2 * b) + d) by lia.
  rewrite Zplus_mod_idemp_l. f_equal. lia.
Qed.
Lemma wrap32_add z d : wrap32 (wrap32 z + d) = wrap32 (z + d).
Proof. unfold wrap32. change (2 ^ 32) with (2 * 2 ^ 31). by rewrite wrap_add. Qed.
Lemma wrap64_add z d : wrap64 (wrap64 z + d) = wrap64 (z + d).
Proof. unfold wrap64. change (2 ^ 64) with (2 * 2 ^ 63). by rewrite wrap_add. Qed.

Lemma sumZ_app l k : sumZ (l ++ k) = sumZ l + sumZ k.
Proof. induction l as [|x l IH]; simpl; [done|]. rewrite IH. lia. Qed.

Lemma weigh_snoc w i vs ps p :
  weigh w i vs (ps ++ [p]) = weigh w i vs ps + match vs !! p with Some x => weight w i x | None => 0 end.
Proof. unfold weigh. rewrite fmap_app, sumZ_app. cbn. lia. Qed.

Lemma moves_add_task t s : task_within (length (queues s)) t → moves (task_views t) s (add_task t s).
Proof.
  intros Ht. constructor; try done.
  - unfold held, in_hand, add_task. cbn. rewrite fmap_app, concat_app. cbn. rewrite app_nil_r, <- app_assoc.
    by rewrite !app_assoc, (Permutation_app_comm (concat _)).
  - intros H. unfold tasks_within, add_task in *. cbn. apply Forall_app. auto.
Qed.

Lemma moves_strand ps s : moves ps s (strand ps s).
Proof.
  constructor; try done. unfold held, in_hand, strand. cbn.
  by rewrite !app_assoc, (Permutation_app_comm _ ps), !app_assoc.
Qed.

(** Updates that touch no view, no task and no counter. *)
Lemma moves_quantity o e s : moves [] s (with_quantity o e s).
Proof. by constructor. Qed.
Lemma moves_consumed c s : moves [] s (with_consumed c s).
Proof. by constructor. Qed.
Lemma moves_inflight n s : moves [] s (with_inflight n s).
Proof. by constructor. Qed.

Lemma moves_queue q f s :
  (∀ x, cachedMessagesNums (f x) = cachedMessagesNums x ∧ cachedMessagesBytes (f x) = cachedMessagesBytes x) →
  moves [] s (on_queue q f s).
Proof.
  intros Hf. constructor; try done.
  - intros Hc i x. unfold on_queue. cbn. destruct (decide (i = q)) as [->|].
    + rewrite list_lookup_alter_eq. intros (y&Hy&->)%fmap_Some. destruct (Hf y) as [-> ->]. by apply Hc.
    + rewrite list_lookup_alter_ne by done. apply Hc.
  - unfold on_queue. cbn. by rewrite length_alter.
  - unfold tasks_within, on_queue. cbn. by rewrite length_alter.
Qed.

Lemma moves_evict p s : is_Some (views s !! p) → moves [p] s (evictCacheMessage p s).
Proof.
  intros [v Hv]. unfold evictCacheMessage. rewrite Hv. constructor; try done.
  - unfold held, in_hand. cbn. rewrite <- app_assoc. cbn.
    by rewrite <- Permutation_middle, (Permutation_middle (concat _)).
  - intros Hc i x Hx.
    assert (Hw : ∀ w, load w i (with_evicted (evicted s ++ [p]) (on_queue (v_queue v) (count_queue (-1) (- len (v_body v))) s))
                      = load w i s - weight w i (sig v)).
    { intros w. unfold load. cbn [views evicted with_evicted on_queue with_queues]. rewrite weigh_snoc, list_lookup_fmap, Hv. cbn [fmap option_fmap option_map]. lia. }
    rewrite !Hw. cbn in Hx. unfold weight, sig, one. cbn. destruct (decide (v_queue v = i)) as [<-|Hne].
    + rewrite list_lookup_alter_eq in Hx. apply fmap_Some in Hx as (y&Hy&->). cbn. destruct (Hc _ _ Hy) as [-> ->].
      rewrite wrap32_add, wrap64_add. by rewrite bool_decide_eq_true_2.
    + rewrite list_lookup_alter_ne in Hx by done. rewrite bool_decide_eq_false_2, !Z.sub_0_r by done. by apply Hc.
  - cbn. by rewrite length_alter.
  - unfold tasks_within. cbn. by rewrite length_alter.
Qed.

Lemma moves_settle k p a r s : is_Some (views s !! p) → moves [p] s (settle k p a r s).
Proof.
  intros Hv. unfold settle. destruct (views s !! p) as [v|] eqn:E; [|by destruct Hv].
  destruct (match k with SAck => _ | SChange _ => _ | SForward => _ end); [apply moves_evict; by rewrite E|].
  by apply (moves_add_task (TSettle k p (1 + a))).
Qed.

Lemma moves_attempt p v a s : views s !! p = Some v → moves [] s (with_views (<[p := with_attempt a v]> (views s)) s).
Proof.
  intros Hv. assert (Hs : sig <$> <[p := with_attempt a v]> (views s) = sig <$> views s).
  { rewrite list_fmap_insert. apply list_insert_id. by rewrite list_lookup_fmap, Hv. }
  constructor; try done. intros Hc i q Hq. unfold load. cbn [views evicted with_views]. rewrite Hs. by apply Hc.
Qed.

Definition known (s : State) (ps : list nat) : Prop := Forall (λ p, is_Some (views s !! p)) ps.

Lemma known_moves ps qs s s' : moves qs s s' → known s ps → known s' ps.
Proof. intros Hm Hs. eapply Forall_impl; [exact Hs|]. intros p. apply (moves_views _ _ _ p Hm). Qed.

Lemma moves_Submit p k s : moves (p :: rest_of k) s (Submit p k s).
Proof. unfold Submit. destruct (accepting s); [by apply (moves_add_task (TRun p k))|apply moves_strand]. Qed.

Lemma moves_consumeWithDuration d p k s : moves (p :: rest_of k) s (consumeWithDuration d p k s).
Proof. unfold consumeWithDuration. destruct (d <=? 0); [apply moves_Submit|by apply (moves_add_task (TDelayed d p k))]. Qed.

Lemma moves_eraseMessage p r rs s : is_Some (views s !! p) → moves [p] s (eraseMessage p r rs s).
Proof.
  intros Hv. unfold eraseMessage. destruct (views s !! p) as [v|] eqn:E; [|by destruct Hv].
  destruct (convertSuspendResultIfNeeded r);
    (eapply (moves_trans [] [p]); [apply moves_quantity|apply moves_settle; cbn; by rewrite E]).
Qed.

Lemma moves_eraseFifoMessage p r rs s : is_Some (views s !! p) → moves [p] s (eraseFifoMessage p r rs s).
Proof.
  intros Hv. unfold eraseFifoMessage. destruct (views s !! p) as [v|] eqn:E; [|by destruct Hv].
  destruct (convertSuspendResultIfNeeded r); [apply moves_settle; by rewrite E| |apply moves_settle; by rewrite E].
  destruct (v_attempt v <? MaxAttempts cfg); [|apply moves_settle; by rewrite E].
  eapply (moves_trans [] [p]); [by apply moves_attempt|apply (moves_consumeWithDuration _ p KRetry)].
Qed.

Lemma moves_discard p rs s : is_Some (views s !! p) → moves [p] s (discardMessage p rs s).
Proof. intros Hv. unfold discardMessage. destruct (views s !! p) eqn:E; [apply moves_settle; by rewrite E|by destruct Hv]. Qed.

Lemma moves_iteratively k ps rs s :
  (∀ l, rest_of (k l) = l) → known s ps → moves ps s (consumeIteratively k ps rs s).
Proof.
  intros Hk. revert s. induction ps as [|p ps IH]; intros s Hs; [apply moves_refl|].
  apply Forall_cons in Hs as [Hp Hs]. cbn. destruct (views s !! p) as [v|] eqn:E; [|by destruct Hp]. destruct (isCorrupted v).
  - pose proof (moves_settle SForward p 1 (rs SForward p) s ltac:(by rewrite E)) as Hm.
    apply (moves_trans [p] ps _ _ _ Hm), IH, (known_moves _ _ _ _ Hm Hs).
  - rewrite <- (Hk ps) at 1. apply moves_Submit.
Qed.

Lemma moves_fold (f : State → nat → State) ps s :
  (∀ s p, is_Some (views s !! p) → moves [p] s (f s p)) → known s ps → moves ps s (fold_left f ps s).
Proof.
  intros Hf. revert s. induction ps as [|p ps IH]; intros s Hs; [apply moves_refl|].
  apply Forall_cons in Hs as [Hp Hs]. pose proof (Hf s p Hp) as Hm. cbn.
  apply (moves_trans [p] ps _ _ _ Hm), IH, (known_moves _ _ _ _ Hm Hs).
Qed.

Lemma moves_groups k gs rs s :
  (∀ l, rest_of (k l) = l) → known s (concat gs) →
  moves (concat gs) s (fold_left (λ s g, consumeIteratively k g rs s) gs s).
Proof.
  intros Hk. revert s. induction gs as [|g gs IH]; intros s Hs; [apply moves_refl|].
  cbn in *. apply Forall_app in Hs as [Hg Hs]. pose proof (moves_iteratively k g rs s Hk Hg) as Hm.
  apply (moves_trans g _ _ _ _ Hm), IH, (known_moves _ _ _ _ Hm Hs).
Qed.

Lemma moves_standard ps rs s : known s ps → moves ps s (consume_standard ps rs s).
Proof.
  revert s. induction ps as [|p ps IH]; intros s Hs; [apply moves_refl|].
  apply Forall_cons in Hs as [Hp Hs]. cbn. destruct (views s !! p) as [v|] eqn:E; [|by destruct Hp].
  assert (Hm : moves [p] s (if isCorrupted v then discardMessage p rs s else Submit p KStandard s)).
  { destruct (isCorrupted v); [apply moves_discard; by rewrite E|apply (moves_Submit p KStandard)]. }
  apply (moves_trans [p] ps _ _ _ Hm), IH, (known_moves _ _ _ _ Hm Hs).
Qed.

(** The groups of a batch partition it. *)
Lemma filter_key_cons {A} (f : A → string) k keys (ps : list A) : k ∉ keys →
  filter (λ p, f p = k) ps ++ filter (λ p, f p ∈ keys) ps ≡ₚ filter (λ p, f p ∈ k :: keys) ps.
Proof.
  intros Hk. induction ps as [|p ps IH]; [done|]. rewrite !filter_cons.
  destruct (decide (f p = k)) as [Hp|Hp]; [rewrite (decide_False (P := f p ∈ keys)), (decide_True (P := f p ∈ k :: keys)) by set_solver; cbn; by rewrite IH|].
  destruct (decide (f p ∈ keys)); [rewrite (decide_True (P := f p ∈ k :: keys)) by set_solver|rewrite (decide_False (P := f p ∈ k :: keys)) by set_solver; done].
  by rewrite <- Permutation_middle, IH.
Qed.

Lemma groups_partition {A} (f : A → string) keys (ps : list A) : NoDup keys →
  concat ((λ k, filter (λ p, f p = k) ps) <$> keys) ≡ₚ filter (λ p, f p ∈ keys) ps.
Proof.
  induction 1 as [|k keys Hk _ IH]; cbn.
  - induction ps as [|p ps IH]; [done|]. rewrite filter_cons. by rewrite decide_False by set_solver.
  - by rewrite IH, filter_key_cons.
Qed.

Lemma filter_ext_in {A} (P Q : A → Prop) `{!∀ x, Decision (P x), !∀ x, Decision (Q x)} (l : list A) :
  (∀ x, x ∈ l → P x ↔ Q x) → filter P l = filter Q l.
Proof.
  induction l as [|x l IH]; intros Hl; [done|]. rewrite !filter_cons, IH by set_solver.
  specialize (Hl x ltac:(set_solver)). by repeat case_decide; try tauto.
Qed.

Lemma groupMessageBy_perm vs lite ps :
  let '(gs, rest) := groupMessageBy vs lite ps in concat gs ++ rest ≡ₚ ps.
Proof.
  unfold groupMessageBy. rewrite groups_partition by apply NoDup_elements.
  rewrite Permutation_app_comm. etransitivity; [|apply (filter_app_complement (λ p, key_of vs lite p = ""%string) ps)].
  f_equiv. apply reflexive_eq, filter_ext_in. intros p Hp.
  rewrite elem_of_elements, elem_of_list_to_set, list_elem_of_filter. set_solver.
Qed.

Lemma known_perm s ps qs : ps ≡ₚ qs → known s ps → known s qs.
Proof. unfold known. by intros ->. Qed.

Lemma known_filter s (P : nat → Prop) `{!∀ x, Decision (P x)} ps : known s ps → known s (filter P ps).
Proof. unfold known. rewrite !Forall_forall. intros Hs x [_ Hx]%list_elem_of_filter. auto. Qed.

Lemma moves_fifo lite ps rs s : known s ps → moves ps s (consume_fifo lite ps rs s).
Proof.
  intros Hs. unfold consume_fifo. set (k := if lite then KLite else KFifo).
  assert (Hk : ∀ l, rest_of (k l) = l) by (by destruct lite).
  destruct (negb (accelerator cfg) || (llen ps <=? 1)); [by apply moves_iteratively|].
  pose proof (groupMessageBy_perm (views s) lite ps) as Hp. destruct (groupMessageBy _ _ _) as [gs rest].
  apply (moves_perm _ _ _ _ Hp). apply (known_perm _ _ _ (symmetry Hp)), Forall_app in Hs as [Hg Hr].
  pose proof (moves_groups k gs rs s Hk Hg) as Hm. eapply (moves_trans _ rest); [exact Hm|].
  pose proof (known_moves _ _ _ _ Hm Hr). destruct (Z.ltb_spec 0 (llen rest)) as [|Hl]; [by apply moves_iteratively|].
  destruct rest; [apply moves_refl|unfold llen in Hl; simpl in Hl; lia].
Qed.

Lemma moves_consume ps rs s : known s ps → moves ps s (consume ps rs s).
Proof. intros Hs. unfold consume. destruct (service cfg); [by apply moves_standard|by apply moves_fifo..]. Qed.

Lemma moves_callback p k o rs s :
  known s (p :: rest_of k) → moves (p :: rest_of k) s (callback p k o rs s).
Proof.
  intros Hs. apply Forall_cons in Hs as [Hp Hr]. unfold callback. set (rf := match o with Returned r => _ | _ => _ end).
  destruct rf as [r f]. destruct k as [|rest|rest|]; cbn [rest_of] in *.
  - destruct f; [apply moves_strand|by apply moves_eraseMessage].
  - destruct f; [apply moves_strand|]. pose proof (moves_eraseFifoMessage p r rs s Hp) as Hm.
    apply (moves_trans [p] rest _ _ _ Hm), moves_iteratively; [done|]. by apply (known_moves _ _ _ _ Hm).
  - destruct f; [apply moves_strand|]. pose proof (moves_eraseFifoMessage p r rs s Hp) as Hm.
    pose proof (known_moves _ _ _ _ Hm Hr) as Hr'. apply (moves_trans [p] rest _ _ _ Hm).
    destruct r as [| |d]; [by apply moves_iteratively..|].
    set (s1 := eraseFifoMessage p (SUSPEND d) rs s) in *. set (same := λ x, key_of (views s1) true x = key_of (views s1) true p).
    pose proof (filter_app_complement same rest) as Hf. apply (moves_perm _ _ _ _ Hf).
    pose proof (known_filter s1 same rest Hr'). pose proof (known_filter s1 (λ x, ¬ same x) rest Hr') as Hb.
    assert (Hm2 : moves (filter same rest) s1 (fold_left (λ s x, eraseFifoMessage x (SUSPEND d) rs s) (filter same rest) s1)).
    { apply moves_fold; [|done]. intros. by apply moves_eraseFifoMessage. }
    apply (moves_trans _ _ _ _ _ Hm2), moves_iteratively; [done|]. by apply (known_moves _ _ _ _ Hm2).
  - by apply moves_eraseFifoMessage.
Qed.

Lemma moves_run_task p k o rs s : known s (p :: rest_of k) → moves (p :: rest_of k) s (run_task p k o rs s).
Proof.
  intros Hs. unfold run_task. eapply (moves_trans []); [|apply moves_callback].
  - destruct o; try apply moves_refl; (destruct (views s !! p); [apply moves_consumed|apply moves_refl]).
  - destruct o; try exact Hs; (destruct (views s !! p); exact Hs).
Qed.

Lemma moves_receiveImmediately q s : (q < length (queues s))%nat → moves [] s (receiveMessageImmediately q s).
Proof. intros Hq. by apply (moves_add_task (TReceive RCalled q)). Qed.

Lemma moves_reception r q now s :
  (q < length (queues s))%nat → moves [] s (receiveMessageImmediatelyWithAttemptId r q now s).
Proof.
  intros Hq. destruct r; unfold receiveMessageImmediatelyWithAttemptId.
  - destruct (negb (isRunning s)); [apply moves_refl|]. by apply (moves_add_task (TReceive RChecked q)).
  - apply (moves_trans [] [] _ (on_queue q (set_activity now) s)); [by apply moves_queue|].
    apply (moves_add_task (TReceive RStamped q)). cbn. by rewrite length_alter.
  - apply (moves_trans [] [] _ (with_inflight (inflight s + 1) (on_queue q count_reception s))).
    + apply (moves_trans [] [] _ (on_queue q count_reception s)); [by apply moves_queue|apply moves_inflight].
    + apply (moves_add_task (TReceiving q)). cbn. by rewrite length_alter.
Qed.

Lemma scan_end_views ts : concat (task_views <$> filter (λ t, is_scan t = false) ts) = concat (task_views <$> ts).
Proof.
  induction ts as [|t ts IH]; [done|]. rewrite filter_cons.
  destruct (decide (is_scan t = false)); [rewrite !fmap_cons; cbn [concat]; by rewrite IH|].
  by destruct t.
Qed.

Lemma moves_scan_begin s : moves [] s (scan_begin s).
Proof. unfold scan_begin. destruct (_ || _); [apply moves_refl|]. by apply (moves_add_task TScan). Qed.

Lemma moves_scan_end s : moves [] s (scan_end s).
Proof.
  constructor; try done.
  - unfold held, in_hand. cbn. by rewrite scan_end_views.
  - unfold tasks_within. cbn. intros H. apply Forall_forall. intros t [_ Ht]%list_elem_of_filter.
    rewrite Forall_forall in H. by apply H.
Qed.

Lemma moves_receiveMessage q now s : moves [] s (receiveMessage q now s).
Proof.
  unfold receiveMessage. destruct (queues s !! q) as [pq|] eqn:E; [|apply moves_refl]. apply lookup_lt_Some in E.
  destruct (dropped pq); [apply moves_refl|]. destruct (isCacheFull pq s); [|by apply moves_receiveImmediately].
  apply (moves_trans [] [] _ (on_queue q (set_full now) s)); [by apply moves_queue|].
  apply (moves_add_task (TReceiveLater _ q)). cbn. by rewrite length_alter.
Qed.

(** ** The invariant *)

Record inv (s : State) : Prop := mkInv {
  inv_held : held s ≡ₚ seq 0 (length (views s));
  inv_counted : counted s;
  inv_tasks : tasks_within s;
  inv_views : Forall (λ x, (x.1 < length (queues s))%nat) (sig <$> views s)
}.

Lemma moves_inv s s' : moves [] s s' → inv s → inv s'.
Proof.
  intros [A1 A2 A3 A4 A5] [B1 B2 B3 B4]. constructor; [|auto|auto|by rewrite A4, A2].
  rewrite A1. cbn. rewrite B1. apply (f_equal length) in A2. rewrite !length_fmap in A2. by rewrite A2.
Qed.

Lemma concat_delete {A B} (f : A → list B) l i x : l !! i = Some x → concat (f <$> l) ≡ₚ f x ++ concat (f <$> delete i l).
Proof.
  revert i. induction l as [|y l IH]; intros [|i] Hi; [done..|by injection Hi as ->|]. cbn. rewrite (IH i Hi).
  by rewrite !app_assoc, (Permutation_app_comm (f y)).
Qed.

(** A step that takes a task and takes over its views. *)
Lemma take_inv i t s s' : tasks s !! i = Some t → moves (task_views t) (take_task i s) s' → inv s → inv s'.
Proof.
  intros Ht [A1 A2 A3 A4 A5] [B1 B2 B3 B4]. cbn in A2, A4. constructor; [|by auto| |by rewrite A4, A2].
  - rewrite A1. apply (f_equal length) in A2. rewrite !length_fmap in A2. rewrite A2, <- B1.
    unfold held, in_hand. cbn. by rewrite (concat_delete _ _ _ _ Ht), <- app_assoc.
  - apply A5. unfold tasks_within in *. cbn. by apply Forall_delete.
Qed.

Lemma inv_take_known i t s : tasks s !! i = Some t → inv s → known (take_task i s) (task_views t).
Proof.
  intros Ht [B1 _ _ _]. apply Forall_forall. intros p Hp. cbn. apply lookup_lt_is_Some.
  assert (Hin : p ∈ held s).
  { unfold held, in_hand. rewrite (concat_delete _ _ _ _ Ht). set_solver. }
  rewrite B1 in Hin. apply elem_of_seq in Hin. lia.
Qed.

Lemma take_task_inv i t s : task_views t = [] → tasks s !! i = Some t → inv s → inv (take_task i s).
Proof. intros Hv Ht. apply (take_inv i t s _ Ht). rewrite Hv. apply moves_refl. Qed.

Lemma task_queue_lt i t s : tasks s !! i = Some t → inv s → task_within (length (queues s)) t.
Proof. intros Ht [_ _ B3 _]. by eapply Forall_lookup_1 in Ht. Qed.

Lemma count_fold vs q a b :
  cachedMessagesNums q = wrap32 a → cachedMessagesBytes q = wrap64 b →
  let q' := fold_left (λ pq v, count_queue 1 (len (v_body v)) pq) vs q in
  cachedMessagesNums q' = wrap32 (a + llen vs) ∧ cachedMessagesBytes q' = wrap64 (b + sumZ (len ∘ v_body <$> vs)).
Proof.
  revert q a b. induction vs as [|v vs IH]; intros q a b Ha Hb; cbn [fold_left].
  - cbn. rewrite Ha, Hb. by rewrite !Z.add_0_r.
  - destruct (IH (count_queue 1 (len (v_body v)) q) (a + 1) (b + len (v_body v))) as [-> ->].
    + cbn. by rewrite Ha, wrap32_add.
    + cbn. by rewrite Hb, wrap64_add.
    + change (sumZ (len ∘ v_body <$> v :: vs)) with (len (v_body v) + sumZ (len ∘ v_body <$> vs)).
      unfold llen. cbn [length]. split; f_equal; lia.
Qed.

Lemma sumZ_weight w i q vs :
  sumZ (weight w i <$> (sig <$> (of_queue q <$> vs))) = if decide (q = i) then sumZ (w ∘ v_body <$> vs) else 0.
Proof.
  induction vs as [|v vs IH]; [by destruct (decide _)|]. rewrite !fmap_cons.
  cbn [sumZ]. rewrite IH. unfold weight. cbn [fst snd sig of_queue v_queue v_body compose].
  destruct (decide (q = i)); [by rewrite bool_decide_eq_true_2|by rewrite bool_decide_eq_false_2].
Qed.

Lemma sumZ_one vs : sumZ (one ∘ v_body <$> vs) = llen vs.
Proof.
  induction vs as [|v vs IH]; [done|]. rewrite fmap_cons. cbn [sumZ]. rewrite IH. unfold llen, one. cbn [compose]. cbn [length]. lia.
Qed.

Lemma weigh_app w i vs ws ps : Forall (λ p, (p < length vs)%nat) ps → weigh w i (vs ++ ws) ps = weigh w i vs ps.
Proof.
  unfold weigh. intros Hps. f_equal. apply list_fmap_ext. intros i' p Hp. rewrite Forall_forall in Hps.
  rewrite lookup_app_l; [done|]. apply Hps. by eapply list_elem_of_lookup_2.
Qed.

Lemma inv_evicted_lt s : inv s → Forall (λ p, (p < length (sig <$> views s))%nat) (evicted s).
Proof.
  intros [B1 _ _ _]. apply Forall_forall. intros p Hp. rewrite length_fmap.
  assert (Hin : p ∈ held s) by (unfold held; set_solver). rewrite B1 in Hin. apply elem_of_seq in Hin. lia.
Qed.

(** The cache after a receive, before the views are given to the service. *)
Definition cached (q : nat) (vs : list View) (s : State) : State :=
  on_queue q (count_received (llen vs)) (cacheMessages q vs (with_views (views s ++ vs) s)).

Lemma load_cached w i q vs s :
  inv s → load w i (cached q (of_queue q <$> vs) s) = load w i s + if decide (q = i) then sumZ (w ∘ v_body <$> vs) else 0.
Proof.
  intros Hi. unfold load, cached. cbn [views evicted with_views cacheMessages on_queue with_queues].
  rewrite fmap_app, weigh_app by (by apply inv_evicted_lt). rewrite fmap_app, sumZ_app, sumZ_weight. lia.
Qed.

Lemma body_of_queue (w : bytes → Z) q (vs : list View) : w ∘ v_body <$> (of_queue q <$> vs) = w ∘ v_body <$> vs.
Proof. rewrite <- list_fmap_compose. by apply list_fmap_ext. Qed.

Lemma counted_cached q vs s : inv s → counted (cached q (of_queue q <$> vs) s).
Proof.
  intros Hi i x Hx. rewrite !load_cached by done. cbn in Hx. destruct (decide (q = i)) as [->|Hne].
  - rewrite !list_lookup_alter_eq in Hx. apply fmap_Some in Hx as (y&Hy&->). apply fmap_Some in Hy as (z&Hz&->). cbn.
    destruct (inv_counted s Hi i z Hz) as [Hn Hb]. rewrite <- !(body_of_queue _ i vs). rewrite sumZ_one.
    by apply count_fold.
  - rewrite !list_lookup_alter_ne in Hx by done. rewrite !Z.add_0_r. by apply Hi.
Qed.

Lemma inv_cached_consume q vs rs s :
  inv s → (q < length (queues s))%nat →
  inv (consume (seq (length (views s)) (length vs)) rs (cached q (of_queue q <$> vs) s)).
Proof.
  intros Hi Hq. set (s1 := cached q (of_queue q <$> vs) s).
  assert (Hv : views s1 = views s ++ (of_queue q <$> vs)) by done.
  assert (Hl : length (queues s1) = length (queues s)) by (cbn; by rewrite !length_alter).
  assert (Hk : known s1 (seq (length (views s)) (length vs))).
  { apply Forall_forall. intros p Hp%elem_of_seq. apply lookup_lt_is_Some. rewrite Hv, length_app, length_fmap. lia. }
  destruct (moves_consume _ rs s1 Hk) as [A1 A2 A3 A4 A5]. destruct Hi as [B1 B2 B3 B4]. constructor.
  - rewrite A1. change (held s1) with (held s). apply (f_equal length) in A2. rewrite !length_fmap, Hv, length_app, length_fmap in A2.
    rewrite A2, B1, seq_app, Permutation_app_comm. done.
  - apply A3, counted_cached. by constructor.
  - apply A5. unfold tasks_within in *. by rewrite Hl.
  - rewrite A2, A4, Hl, Hv, fmap_app. apply Forall_app. split; [done|]. apply Forall_fmap, Forall_fmap, Forall_forall. done.
Qed.

Lemma inv_received q r rs now s : inv s → (q < length (queues s))%nat → inv (received q r rs now s).
Proof.
  intros Hi Hq. unfold received. destruct r as [vs|e].
  - apply (moves_inv _ _ (moves_receiveMessage _ _ _)). pose proof (moves_inv _ _ (moves_inflight (inflight s - 1) s) Hi) as Hi'.
    destruct vs as [|v vs]; [done|]. cbv zeta. rewrite length_fmap. exact (inv_cached_consume q (v :: vs) rs _ Hi' Hq).
  - cbv zeta. set (b := match e with ErrDriver _ => _ | _ => _ end).
    eapply moves_inv; [apply (moves_add_task (TReceiveLater _ q)); by destruct b|].
    destruct b; [done|]. by apply (moves_inv _ _ (moves_inflight _ _)).
Qed.

Lemma moves_table t a s : moves [] s (with_table t a s).
Proof. by constructor. Qed.

Lemma moves_drop mq s : moves [] s (dropProcessQueue mq s).
Proof.
  unfold dropProcessQueue. destruct (table s !! mq) as [q|]; [|apply moves_refl].
  eapply (moves_trans [] []); [apply moves_table|by apply moves_queue].
Qed.

Lemma load_fresh w s : inv s → load w (length (queues s)) s = 0.
Proof.
  intros Hi. assert (Hw : ∀ x, x ∈ sig <$> views s → weight w (length (queues s)) x = 0).
  { intros x Hx. pose proof (inv_views s Hi) as Hf. rewrite Forall_forall in Hf. specialize (Hf x Hx).
    unfold weight. rewrite bool_decide_eq_false_2; [done|lia]. }
  unfold load, weigh. assert (Hz : ∀ l : list Z, Forall (λ z, z = 0) l → sumZ l = 0) by (induction 1 as [|z l -> _ IH]; [done|exact IH]).
  rewrite !Hz; [done| |].
  - apply Forall_fmap, Forall_forall. intros p _. cbn. destruct ((sig <$> views s) !! p) eqn:E; [|done].
    apply Hw. by eapply list_elem_of_lookup_2.
  - apply Forall_fmap, Forall_forall. exact Hw.
Qed.

Lemma inv_create topic mq now s :
  inv s → let '(o, s') := createProcessQueue topic mq now s in inv s' ∧ ∀ q, o = Some q → (q < length (queues s'))%nat.
Proof.
  intros Hi. unfold createProcessQueue. destruct (table s !! mq); [by split|].
  split; [|intros q [= <-]; cbn; rewrite length_app; cbn; lia].
  destruct Hi as [B1 B2 B3 B4] eqn:E. clear E. constructor; [done| | |].
  - intros i x Hx. cbn in Hx. change (load one i _) with (load one i s). change (load len i _) with (load len i s).
    apply lookup_app_Some in Hx as [Hx|[Hl Hx]]; [by apply B2|]. apply list_lookup_singleton_Some in Hx as [Hx <-].
    assert (i = length (queues s)) as -> by lia. by rewrite !load_fresh.
  - unfold tasks_within in *. cbn. rewrite length_app. eapply Forall_impl; [exact B3|].
    intros [] ?; cbn in *; try done; lia.
  - cbn. rewrite length_app. eapply Forall_impl; [exact B4|]. cbn. lia.
Qed.

Lemma inv_fold {A} (f : State → A → State) l s : (∀ s x, inv s → inv (f s x)) → inv s → inv (fold_left f l s).
Proof. intros Hf. revert s. induction l as [|x l IH]; intros s Hi; [done|]. cbn. auto. Qed.

Lemma inv_sync topic a now s : inv s → inv (syncProcessQueue topic a now s).
Proof.
  intros Hi. unfold syncProcessQueue. apply inv_fold.
  - intros s1 mq H1. pose proof (inv_create topic mq now s1 H1) as Hc. destruct (createProcessQueue _ _ _ _) as [[q|] s2]; [|apply Hc].
    destruct Hc as [Hc Hq]. apply (moves_inv s2); [|done]. apply moves_receiveImmediately. by apply Hq.
  - apply inv_fold; [|done]. intros s1 mq. apply moves_inv, moves_drop.
Qed.

Lemma process_inv_step l s : inv s → inv (step l s).
Proof.
  intros Hi. destruct l as [|topic newest now| |i o rs|i rs now|i now|i r rs now| | |]; cbn [step].
  - apply (moves_inv _ _ (moves_scan_begin s) Hi).
  - destruct (scanning s); [|done]. unfold scan_topic. destruct (_ && _); [done|]. destruct (CompareAssignments _ _).
    + by apply inv_sync.
    + apply (moves_inv _ _ (moves_table _ _ _)). by apply inv_sync.
  - apply (moves_inv _ _ (moves_scan_end s) Hi).
  - destruct (tasks s !! i) as [[p k| | | | | |]|] eqn:E; try done.
    apply (take_inv i _ _ _ E); [|done]. apply (moves_run_task p k), (inv_take_known i (TRun p k)); done.
  - destruct (tasks s !! i) as [[|d p k|sk p a| |d q| |]|] eqn:E; try done.
    + apply (take_inv i _ _ _ E); [|done]. apply (moves_Submit p k).
    + apply (take_inv i _ _ _ E); [|done]. apply moves_settle. pose proof (inv_take_known i _ s E Hi) as Hk. by inversion Hk.
    + apply (moves_inv (take_task i s)); [|by apply (take_task_inv i (TReceiveLater d q))].
      apply moves_receiveImmediately. exact (task_queue_lt i _ s E Hi).
  - destruct (tasks s !! i) as [[| | | | |r q|]|] eqn:E; try done.
    apply (moves_inv (take_task i s)); [|by apply (take_task_inv i (TReceive r q))].
    apply moves_reception. exact (task_queue_lt i _ s E Hi).
  - destruct (tasks s !! i) as [[| | |q| | |]|] eqn:E; try done.
    apply inv_received; [by apply (take_task_inv i (TReceiving q))|]. exact (task_queue_lt i _ s E Hi).
  - destruct Hi. by constructor.
  - destruct Hi. by constructor.
  - destruct Hi. by constructor.
Qed.

Lemma inv_started : inv started.
Proof. constructor; [done|by intros i q H|by apply Forall_nil|by apply Forall_nil]. Qed.

Lemma inv_runs ls s : inv s → inv (run ls s).
Proof. apply inv_fold. intros s1 l. apply process_inv_step. Qed.

Lemma weigh_perm w i vs ps qs : ps ≡ₚ qs → weigh w i vs ps = weigh w i vs qs.
Proof.
  unfold weigh. induction 1; cbn [fmap list_fmap sumZ]; lia.
Qed.

Lemma weigh_split w i vs ps qs : weigh w i vs (ps ++ qs) = weigh w i vs ps + weigh w i vs qs.
Proof. unfold weigh. by rewrite fmap_app, sumZ_app. Qed.

Lemma weigh_all w i vs : sumZ (weight w i <$> vs) = weigh w i vs (seq 0 (length vs)).
Proof.
  induction vs as [|x vs IH] using rev_ind; [done|]. rewrite length_app, Nat.add_1_r, seq_S, weigh_snoc, weigh_app.
  - rewrite fmap_app, sumZ_app, IH, Nat.add_0_l, list_lookup_middle by done. cbn. lia.
  - apply Forall_forall. intros p Hp%elem_of_seq. lia.
Qed.

Lemma load_pending w i s : inv s → load w i s = weigh w i (sig <$> views s) (in_hand s ++ stranded s).
Proof.
  intros Hi. unfold load. rewrite weigh_all, length_fmap, <- (weigh_perm _ _ _ _ _ (inv_held s Hi)).
  unfold held. rewrite !weigh_split. lia.
Qed.

(** C32: The cache of a process queue is accounted for.  In every run, each received
    message is held exactly once: by one pending task, by the list of evicted
    messages, or by the messages an interceptor panic or a stopped executor left
    without a task; and the two counters of a queue are, at their width, the number
    and the total size of its messages that are not evicted. *)
Theorem cache_accounts ls i q :
  let s := run ls started in
  queues s !! i = Some q →
  in_hand s ++ evicted s ++ stranded s ≡ₚ seq 0 (length (views s)) ∧
  cachedMessagesNums q = wrap32 (weigh one i (sig <$> views s) (in_hand s ++ stranded s)) ∧
  cachedMessagesBytes q = wrap64 (weigh len i (sig <$> views s) (in_hand s ++ stranded s)).
Proof.
  intros s Hq. pose proof (inv_runs ls started inv_started) as Hi. fold s in Hi.
  split; [exact (inv_held s Hi)|]. rewrite <- !load_pending by done. by apply Hi.
Qed.

(** ** Assignments, expiry and order *)

(** A queue whose cache was never full never expires.  Its time of a full cache
    is the least int64, so the time since then overflows to a negative duration,
    which is below every idle limit. *)
Theorem never_expires now q :
  0 <= now < 2 ^ 63 → cacheFullNanoTime q = MinInt64 → 0 <= (longPollingTimeout cfg + requestTimeout cfg) * 3 < 2 ^ 63 →
  expired now q = false.
Proof.
  intros Hn Hq Hl. unfold expired. rewrite Hq.
  assert (H1 : wrap64 ((longPollingTimeout cfg + requestTimeout cfg) * 3) = (longPollingTimeout cfg + requestTimeout cfg) * 3).
  { unfold wrap64. rewrite Z.mod_small; lia. }
  assert (H2 : wrap64 (now - MinInt64) = now - 2 ^ 63).
  { unfold wrap64, MinInt64. replace (now - - 2 ^ 63 + 2 ^ 63) with (now + 1 * 2 ^ 64) by lia. rewrite Z_mod_plus_full, Z.mod_small; lia. }
  rewrite H1, H2. destruct (_ <? _); [done|]. destruct (Z.ltb_spec (now - 2 ^ 63) ((longPollingTimeout cfg + requestTimeout cfg) * 3)); [done|lia].
Qed.

(** What dropping queues leaves of the table and of the queues. *)
Lemma drop_one mq s :
  let s' := dropProcessQueue mq s in
  table s' = delete mq (table s) ∧ stopping s' = stopping s ∧ assigned s' = assigned s ∧
  (∀ q pq, queues s !! q = Some pq → ∃ pq', queues s' !! q = Some pq' ∧ (dropped pq = true → dropped pq' = true)) ∧
  (∀ q pq, table s !! mq = Some q → queues s !! q = Some pq → ∃ pq', queues s' !! q = Some pq' ∧ dropped pq' = true).
Proof.
  unfold dropProcessQueue. destruct (table s !! mq) as [k|] eqn:E; cbn.
  - repeat split; try done.
    + intros q pq Hq. destruct (decide (k = q)) as [->|]; [rewrite list_lookup_alter_eq, Hq|rewrite list_lookup_alter_ne, Hq by done]; cbn; eauto.
    + intros q pq [= ->] Hq. rewrite list_lookup_alter_eq, Hq. cbn. eauto.
  - repeat split; eauto; [by rewrite delete_id|intros; congruence].
Qed.

Lemma drop_many mqs s :
  let s' := fold_left (λ s mq, dropProcessQueue mq s) mqs s in
  (∀ mq, mq ∈ mqs → table s' !! mq = None) ∧
  (∀ q pq, queues s !! q = Some pq → ∃ pq', queues s' !! q = Some pq' ∧ (dropped pq = true → dropped pq' = true)) ∧
  (∀ mq q pq, mq ∈ mqs → table s !! mq = Some q → queues s !! q = Some pq → ∃ pq', queues s' !! q = Some pq' ∧ dropped pq' = true) ∧
  table s' ⊆ table s.
Proof.
  revert s. induction mqs as [|m mqs IH]; intros s; cbn; [split_and!; [set_solver|eauto|set_solver|done]|].
  destruct (drop_one m s) as (Ht&_&_&Hk&Hd). destruct (IH (dropProcessQueue m s)) as (IH1&IH2&IH3&IH4). split_and!.
  - intros mq [->|Hin]%elem_of_cons; [|by apply IH1].
    apply eq_None_not_Some. intros [x E]. apply (lookup_weaken _ _ _ _ E) in IH4. rewrite Ht, lookup_delete_eq in IH4. done.
  - intros q pq Hq. destruct (Hk q pq Hq) as (pq1&H1&H1'). destruct (IH2 q pq1 H1) as (pq2&H2&H2'). eauto.
  - intros mq q pq [->|Hin]%elem_of_cons Hm Hq.
    + destruct (Hd q pq Hm Hq) as (pq1&H1&H1'). destruct (IH2 q pq1 H1) as (pq2&H2&H2'). eauto.
    + destruct (decide (mq = m)) as [->|Hne].
      * destruct (Hd q pq Hm Hq) as (pq1&H1&H1'). destruct (IH2 q pq1 H1) as (pq2&H2&H2'). eauto.
      * destruct (Hk q pq Hq) as (pq1&H1&_). apply (IH3 mq q pq1 Hin); [|done]. by rewrite Ht, lookup_delete_ne.
  - etransitivity; [exact IH4|]. rewrite Ht. apply delete_subseteq.
Qed.

Lemma dropped_by_sync_elem topic now s mq q pq :
  table s !! mq = Some q → queues s !! q = Some pq → mq_topic pq = topic → mq ∈ dropped_by_sync topic [] now s.
Proof.
  intros Hm Hq Ht. unfold dropped_by_sync. apply list_elem_of_fmap. exists (mq, q). split; [done|].
  apply list_elem_of_filter. split; [|by apply elem_of_map_to_list]. cbn. rewrite Hq, Ht.
  rewrite bool_decide_eq_true_2 by done. by rewrite bool_decide_eq_true_2 by apply not_elem_of_nil.
Qed.

(** A failed query of the assignments drops every queue of the topic.  When the
    scan of a topic that has assignments fails, the error is logged and the nil
    answer is taken for an empty assignment: every process queue of the topic leaves
    the table and is marked dropped. *)
Theorem failed_query_drops topic e now s mq q pq :
  scanning s = true → IsAssignmentsEmpty (default None (assigned s !! topic)) = false →
  table s !! mq = Some q → queues s !! q = Some pq → mq_topic pq = topic →
  let s' := step (LScan topic (Err e) now) s in
  table s' !! mq = None ∧ ∃ pq', queues s' !! q = Some pq' ∧ dropped pq' = true.
Proof.
  intros Hs Ha Hm Hq Ht. cbn [step]. rewrite Hs. unfold scan_topic. rewrite Ha, andb_false_r.
  pose proof (dropped_by_sync_elem topic now s mq q pq Hm Hq Ht) as Hin.
  destruct (drop_many (dropped_by_sync topic [] now s) s) as (H1&_&H3&_).
  destruct (CompareAssignments _ _); (split; [by apply H1|by apply (H3 mq q pq)]).
Qed.

(** A FIFO consumer overtakes a failed message.  When the listener fails a message
    that has attempts left, its retry waits for the delay of the retry policy while
    the next message of the same batch is submitted at once. *)
Theorem fifo_overtaken i p n rest v w rs s :
  tasks s !! i = Some (TRun p (KFifo (n :: rest))) → p ≠ n →
  views s !! p = Some v → views s !! n = Some w → isCorrupted w = false →
  v_attempt v < MaxAttempts cfg → 0 < GetNextAttemptDelay cfg (v_attempt v) → accepting s = true →
  tasks (step (LRun i (Returned FAILURE) rs) s)
  = delete i (tasks s) ++ [TDelayed (GetNextAttemptDelay cfg (v_attempt v)) p KRetry; TRun n (KFifo rest)].
Proof.
  intros Hi Hne Hp Hn Hc Ha Hd Hacc. cbn [step]. rewrite Hi. unfold run_task. cbn. rewrite Hp. cbn.
  unfold eraseFifoMessage. cbn. rewrite Hp. rewrite (proj2 (Z.ltb_lt _ _) Ha). unfold consumeWithDuration.
  rewrite (proj2 (Z.leb_gt _ _) Hd). cbn. rewrite list_lookup_insert_ne by done. rewrite Hn, Hc. unfold Submit. cbn. rewrite Hacc. cbn.
  by rewrite <- app_assoc.
Qed.

(** A negative acknowledgement with an invalid receipt handle is retried for ever,
    although the code means to give up, as it does for an acknowledgement: the error
    of [changeInvisibleDuration0] hides the status. *)
Theorem invalid_handle_retried d p a rs now i s v :
  tasks s !! i = Some (TSettle (SChange d) p a) → views s !! p = Some v →
  rs (SChange d) p = RStatus Code_INVALID_RECEIPT_HANDLE [] →
  tasks (step (LFire i rs now) s) = delete i (tasks s) ++ [TSettle (SChange d) p (1 + a)].
Proof.
  intros Hi Hv Hr. cbn [step]. rewrite Hi, Hr. unfold settle. cbn. rewrite Hv.
  unfold changeInvisibleDuration, changeInvisibleDuration0. by destruct (v_endpoints v).
Qed.

Lemma last_task t s : tasks (add_task t s) !! length (tasks s) = Some t.
Proof. cbn. by rewrite list_lookup_middle. Qed.
Lemma take_last t s : tasks (take_task (length (tasks s)) (add_task t s)) = tasks s.
Proof. cbn. by rewrite delete_middle, app_nil_r. Qed.

Lemma receive_last i r q now s :
  i = length (tasks s) →
  ∃ s1, step (LReceive i now) (add_task (TReceive r q) s) = receiveMessageImmediatelyWithAttemptId r q now s1 ∧
        tasks s1 = tasks s ∧ isRunning s1 = isRunning s.
Proof. intros ->. eexists. cbn [step]. rewrite last_task. split; [done|]. by rewrite take_last. Qed.

(** A call at the end of the tasks receives when its three actions run. *)
Lemma reception_runs i q now s :
  isRunning s = true → i = length (tasks s) →
  TReceiving q ∈ tasks (run [LReceive i now; LReceive i now; LReceive i now] (receiveMessageImmediately q s)).
Proof.
  intros Hr Hi. unfold run, receiveMessageImmediately. cbn [fold_left].
  destruct (receive_last i RCalled q now s Hi) as (s1&->&H1&H1r). cbn [receiveMessageImmediatelyWithAttemptId].
  rewrite H1r, Hr. cbn [negb].
  destruct (receive_last i RChecked q now s1) as (s2&->&H2&_); [by rewrite H1|]. cbn [receiveMessageImmediatelyWithAttemptId].
  destruct (receive_last i RStamped q now (on_queue q (set_activity now) s2)) as (s3&->&H3&_); [cbn; by rewrite H2, H1|].
  cbn. set_solver.
Qed.

(** A dropped queue whose receives fail keeps receiving while the consumer runs. *)
Theorem dropped_polls_on i q e rs now now' s :
  tasks s !! i = Some (TReceiving q) → isRunning s = true →
  ∃ j d, tasks (step (LReceived i (Err e) rs now) s) !! j = Some (TReceiveLater d q) ∧
         TReceiving q ∈ tasks (run [LFire j rs now'; LReceive j now'; LReceive j now'; LReceive j now']
                                 (step (LReceived i (Err e) rs now) s)).
Proof.
  intros Hi Hr. cbn [step]. rewrite Hi. unfold received, onReceiveMessageException, receiveMessageLater. cbv zeta.
  set (d := match e with ErrDriver _ => _ | _ => RECEIVING_FLOW_CONTROL_BACKOFF_DELAY end).
  set (s1 := if (match e with ErrDriver _ => _ | _ => false end) then _ else _).
  exists (length (tasks s1)), d. split; [apply last_task|].
  set (s2 := take_task (length (tasks s1)) (add_task (TReceiveLater d q) s1)).
  assert (H2 : tasks s2 = tasks s1) by apply take_last.
  assert (Hrun : isRunning s2 = true) by (subst s2 s1; by destruct (match e with ErrDriver _ => _ | _ => false end)).
  assert (E : step (LFire (length (tasks s1)) rs now') (add_task (TReceiveLater d q) s1) = receiveMessageImmediately q s2)
    by (cbn [step]; by rewrite last_task).
  unfold run. cbn [fold_left]. rewrite E. apply reception_runs; [done|by rewrite H2].
Qed.
End consumer.

(** ** A concrete consumer *)

Definition ex_cfg : Config := mkConfig Fifo false false 3 (λ a, 1000000000 * a) 32 30000000000 3000000000 1024 67108864.
Definition ex_empty (a : option (list string)) : bool := match a with None | Some [] => true | _ => false end.
Definition ex_same (a b : option (list string)) : bool := bool_decide (a = b).
Definition ex_ok : Answers := λ _ _, RStatus Code_OK [].
Definition ex_msg (body : string) : View := mkView 0 body 1 (Some "g"%string) "" true false.

(** Two messages received through the queue [q0] of the topic [orders], and the next scan. *)
Definition ex_labels : list Label :=
  [LScanBegin; LScan "orders" (Ok ["q0"%string]) 1000; LScanEnd; LReceive 0 1000; LReceive 0 1000; LReceive 0 1000;
   LReceived 0 (Ok [ex_msg "one"; ex_msg "three"]) ex_ok 2000; LReceive 1 2000; LReceive 1 2000; LReceive 1 2000; LScanBegin].
Definition ex_two : State := run ex_cfg ex_empty ex_same ex_labels started.

Example ex_two_tasks : tasks ex_two = [TRun 0 (KFifo [1%nat]); TReceiving 0; TScan].
Proof. vm_compute. reflexivity. Qed.

(** The second message is consumed between the two attempts of the first. *)
Example ex_overtaken :
  consumed (run ex_cfg ex_empty ex_same
    (ex_labels ++ [LRun 0 (Returned FAILURE) ex_ok; LRun 3 (Returned SUCCESS) ex_ok; LFire 2 ex_ok 0; LRun 2 (Returned SUCCESS) ex_ok]) started)
  = [(0%nat, 1); (1%nat, 1); (0%nat, 2)].
Proof. vm_compute. reflexivity. Qed.

Definition ex_pq : Queue := mkQueue "orders" false 2 8 2 2 2000 MinInt64.

Lemma cache_accounts_witness : cachedMessagesNums ex_pq = wrap32 2.
Proof. exact (proj1 (proj2 (cache_accounts ex_cfg ex_empty ex_same ex_labels 0 ex_pq ltac:(vm_compute; reflexivity)))). Defined.

Lemma never_expires_witness : expired ex_cfg (10 ^ 18) ex_pq = false.
Proof. apply (never_expires ex_cfg (10 ^ 18) ex_pq); [lia|reflexivity|cbn; lia]. Defined.

Lemma failed_query_drops_witness : table (step ex_cfg ex_empty ex_same (LScan "orders" (Err ErrContext) 3000) ex_two) !! "q0"%string = None.
Proof.
  exact (proj1 (failed_query_drops ex_cfg ex_empty ex_same "orders" ErrContext 3000 ex_two "q0" 0 ex_pq
    ltac:(vm_compute; reflexivity) ltac:(vm_compute; reflexivity) ltac:(vm_compute; reflexivity) ltac:(vm_compute; reflexivity) eq_refl)).
Defined.

Lemma fifo_overtaken_witness :
  tasks (step ex_cfg ex_empty ex_same (LRun 0 (Returned FAILURE) ex_ok) ex_two)
  = delete 0%nat (tasks ex_two) ++ [TDelayed 1000000000 0 KRetry; TRun 1 (KFifo [])].
Proof.
  exact (fifo_overtaken ex_cfg ex_empty ex_same 0 0 1 [] (ex_msg "one") (ex_msg "three") ex_ok ex_two
    ltac:(vm_compute; reflexivity) ltac:(discriminate) ltac:(vm_compute; reflexivity) ltac:(vm_compute; reflexivity)
    eq_refl ltac:(cbn; lia) ltac:(cbn; lia) ltac:(vm_compute; reflexivity)).
Defined.
End process.
