(* ===== verification/DriverAttempts.v ===== *)
(** * Delivery attempts of push consumers

    Over the transition system of [DriverProcess]: in every run no attempt of a
    message is consumed twice, and the only attempt above the maximum of the retry
    policy is the one a message was received with. *)

From S2P Require Import Prelude GoStd Driver DriverProducer DriverProcess.

Module attempts.
Import producer process.

Section attempts.
Context (cfg : Config) (IsAssignmentsEmpty : option (list string) → bool)
  (CompareAssignments : option (list string) → option (list string) → bool).
Context (Max_int32 : MaxAttempts cfg < 2 ^ 31).

(** The views the listener may still be given. *)
Definition task_runs (t : Task) : list nat :=
  match t with TRun p k | TDelayed _ p k => p :: rest_of k | _ => [] end.
Definition runnable (s : State) : list nat := concat (task_runs <$> tasks s).

(** Every attempt of [p] so far was an earlier one. *)
Definition fresh (s : State) (p : nat) : Prop := ∀ a v, (p, a) ∈ consumed s → views s !! p = Some v → a < v_attempt v.

Record ok (s : State) : Prop := mkOk {
  ok_fresh : Forall (fresh s) (runnable s);
  ok_le : ∀ p a v, (p, a) ∈ consumed s → views s !! p = Some v → a <= v_attempt v;
  ok_nodup : NoDup (consumed s);
  ok_first : ∀ p a, (p, a) ∈ consumed s → a <= MaxAttempts cfg ∨ ∀ b, (p, b) ∈ consumed s → a <= b;
  ok_view : ∀ p v, views s !! p = Some v → v_attempt v <= MaxAttempts cfg ∨ ∀ b, (p, b) ∈ consumed s → v_attempt v <= b;
  ok_range : ∀ p v, views s !! p = Some v → - 2 ^ 31 <= v_attempt v;
  ok_known : ∀ p a, (p, a) ∈ consumed s → (p < length (views s))%nat
}.

(** [s'] is [s] after an operation that was given the views [ps] to run. *)
Definition safe (ps : list nat) (s s' : State) : Prop :=
  ok s → Forall (fresh s) ps → ok s' ∧ (∀ p, fresh s p → fresh s' p).

Lemma safe_refl s : safe [] s s.
Proof. by intros Hs _. Qed.

Lemma safe_trans ps qs s s1 s2 : safe ps s s1 → safe qs s1 s2 → safe (ps ++ qs) s s2.
Proof.
  intros H1 H2 Hs [Hp Hq]%Forall_app. destruct (H1 Hs Hp) as [Hs1 Hf1].
  destruct (H2 Hs1) as [Hs2 Hf2]; [eapply Forall_impl; [exact Hq|exact Hf1]|]. eauto.
Qed.

Lemma safe_perm ps qs s s' : ps ≡ₚ qs → safe ps s s' → safe qs s s'.
Proof. intros Hp H Hs Hq. apply H; [done|]. by rewrite Hp. Qed.

Lemma safe_weaken ps s s' : safe [] s s' → safe ps s s'.
Proof. intros H Hs _. by apply H. Qed.

(** Operations that leave the views and what was consumed alone. *)
Lemma safe_same ps s s' :
  views s' = views s → consumed s' = consumed s → (∀ p, p ∈ runnable s' → p ∈ runnable s ∨ p ∈ ps) → safe ps s s'.
Proof.
  intros Hv Hc Hr [A1 A2 A3 A4 A5 A6 A7] Hp.
  assert (Hf : ∀ p, fresh s p → fresh s' p) by (intros p; unfold fresh; by rewrite Hv, Hc).
  split; [|done]. constructor; try (rewrite Hc; done); try (rewrite Hv; done); try (rewrite Hv, Hc; done).
  apply Forall_forall. intros p Hin. rewrite Forall_forall in A1, Hp. apply Hf. destruct (Hr p Hin); auto.
Qed.

Lemma runnable_add t s : runnable (add_task t s) = runnable s ++ task_runs t.
Proof. unfold runnable. cbn. rewrite fmap_app, concat_app. cbn. by rewrite app_nil_r. Qed.

Lemma safe_add t s : safe (task_runs t) s (add_task t s).
Proof. apply safe_same; [done..|]. intros p. rewrite runnable_add. set_solver. Qed.

Lemma safe_Submit p k s : safe (p :: rest_of k) s (Submit p k s).
Proof. unfold Submit. destruct (accepting s); [apply (safe_add (TRun p k))|]. apply safe_same; [done..|]. auto. Qed.

Lemma safe_evict p s : safe [] s (evictCacheMessage p s).
Proof. unfold evictCacheMessage. destruct (views s !! p); [|apply safe_refl]. apply safe_same; auto. Qed.

Lemma safe_settle k p a r s : safe [] s (settle k p a r s).
Proof.
  unfold settle. destruct (views s !! p); [|apply safe_refl]. case_match; [apply safe_evict|apply (safe_add (TSettle k p (1 + a)))].
Qed.

Lemma safe_eraseMessage p r rs s : safe [] s (eraseMessage cfg p r rs s).
Proof.
  unfold eraseMessage. destruct (views s !! p); [|apply safe_refl].
  assert (Hq : ∀ o e, safe [] s (with_quantity o e s)) by (intros; apply safe_same; auto).
  destruct (convertSuspendResultIfNeeded cfg r); (eapply (safe_trans [] []); [apply Hq|apply safe_settle]).
Qed.

(** The retry of a failed message is its next attempt. *)
Lemma safe_attempt p v s :
  views s !! p = Some v → v_attempt v < MaxAttempts cfg → 
  let s' := with_views (<[p := with_attempt (messageid.wrap32 (v_attempt v + 1)) v]> (views s)) s in
  ok s → ok s' ∧ (∀ x, fresh s x → fresh s' x) ∧ fresh s' p.
Proof.
  intros Hv Ha s' [A1 A2 A3 A4 A5 A6 A7]. pose proof (A6 p v Hv) as Hr.
  assert (Hw : messageid.wrap32 (v_attempt v + 1) = v_attempt v + 1) by (unfold messageid.wrap32; rewrite Z.mod_small; lia).
  assert (Hl : ∀ x u, views s' !! x = Some u →
    (x = p ∧ v_attempt u = v_attempt v + 1) ∨ (x ≠ p ∧ views s !! x = Some u)).
  { intros x u. subst s'. cbn. intros Hx. apply list_lookup_insert_Some in Hx as [(<-&<-&_)|[Hne Hx]]; [left; cbn; by rewrite Hw|by right]. }
  assert (Hf : ∀ x, fresh s x → fresh s' x).
  { intros x Hx a u Hin Hu. destruct (Hl x u Hu) as [[-> ->]|[_ Hu']]; [pose proof (A2 p a v Hin Hv); lia|by apply (Hx a u)]. }
  split_and!; [|done|].
  - constructor; try done.
    + change (runnable s') with (runnable s). eapply Forall_impl; [exact A1|exact Hf].
    + intros x a u Hin Hu. destruct (Hl x u Hu) as [[-> ->]|[_ Hu']]; [pose proof (A2 p a v Hin Hv); lia|by apply (A2 x)].
    + intros x u Hu. destruct (Hl x u Hu) as [[-> ->]|[_ Hu']]; [left; lia|by apply A5].
    + intros x u Hu. destruct (Hl x u Hu) as [[-> ->]|[_ Hu']]; [lia|by apply (A6 x)].
    + intros x a Hin. subst s'. cbn. rewrite length_insert. by apply (A7 x a).
  - intros a u Hin Hu. destruct (Hl p u Hu) as [[_ ->]|[? _]]; [|done]. pose proof (A2 p a v Hin Hv). lia.
Qed.

Lemma safe_eraseFifoMessage p r rs s : safe [] s (eraseFifoMessage cfg p r rs s).
Proof.
  unfold eraseFifoMessage. destruct (views s !! p) as [v|] eqn:E; [|apply safe_refl].
  destruct (convertSuspendResultIfNeeded cfg r); [apply safe_settle| |apply safe_settle].
  destruct (Z.ltb_spec (v_attempt v) (MaxAttempts cfg)) as [Ha|]; [|apply safe_settle].
  intros Hs _. destruct (safe_attempt p v s E Ha Hs) as (H1&H2&H3).
  assert (Hd : ∀ d s, safe [p] s (consumeWithDuration d p KRetry s)).
  { intros d s0. unfold consumeWithDuration. destruct (d <=? 0); [apply (safe_Submit p KRetry)|apply (safe_add (TDelayed d p KRetry))]. }
  destruct (Hd (GetNextAttemptDelay cfg (v_attempt v)) _ H1) as [H4 H5]; [by repeat constructor|]. eauto.
Qed.

Lemma safe_iteratively k ps rs s : (∀ l, rest_of (k l) = l) → safe ps s (consumeIteratively k ps rs s).
Proof.
  intros Hk. revert s. induction ps as [|p ps IH]; intros s; [apply safe_refl|]. cbn.
  destruct (views s !! p) as [v|]; [|apply safe_weaken, safe_refl]. destruct (isCorrupted v).
  - apply (safe_trans [p] ps _ (discardFifoMessage p rs s)); [apply safe_weaken, safe_settle|apply IH].
  - rewrite <- (Hk ps) at 1. apply safe_Submit.
Qed.

Lemma safe_fold {A} (f : State → A → State) (g : A → list nat) l s :
  (∀ s x, safe (g x) s (f s x)) → safe (concat (g <$> l)) s (fold_left f l s).
Proof.
  intros Hf. revert s. induction l as [|x l IH]; intros s; [apply safe_refl|]. cbn. eapply safe_trans; [apply Hf|apply IH].
Qed.

Lemma safe_fold_nil {A} (f : State → A → State) l s : (∀ s x, safe [] s (f s x)) → safe [] s (fold_left f l s).
Proof. intros Hf. revert s. induction l as [|x l IH]; intros s; [apply safe_refl|]. cbn. eapply (safe_trans [] []); [apply Hf|apply IH]. Qed.

Lemma safe_standard ps rs s : safe ps s (consume_standard cfg ps rs s).
Proof.
  revert s. induction ps as [|p ps IH]; intros s; [apply safe_refl|]. cbn.
  destruct (views s !! p) as [v|] eqn:E; [|apply safe_weaken, safe_refl].
  apply (safe_trans [p] ps _ (if isCorrupted v then discardMessage cfg p rs s else Submit p KStandard s)); [|apply IH].
  destruct (isCorrupted v); [|apply (safe_Submit p KStandard)].
  unfold discardMessage. rewrite E. apply safe_weaken, safe_settle.
Qed.

Lemma safe_consume ps rs s : safe ps s (consume cfg ps rs s).
Proof.
  assert (Hf : ∀ lite, safe ps s (consume_fifo cfg lite ps rs s)).
  { intros lite. unfold consume_fifo. set (k := if lite then KLite else KFifo).
    assert (Hk : ∀ l, rest_of (k l) = l) by (by destruct lite).
    destruct (_ || _); [by apply safe_iteratively|].
    pose proof (groupMessageBy_perm (views s) lite ps) as Hp. destruct (groupMessageBy _ _ _) as [gs rest].
    apply (safe_perm _ _ _ _ Hp). eapply safe_trans.
    - rewrite <- (list_fmap_id gs) at 1. apply (safe_fold (λ s g, consumeIteratively k g rs s) id). intros. by apply safe_iteratively.
    - destruct (0 <? llen rest); [by apply safe_iteratively|apply safe_weaken, safe_refl]. }
  unfold consume. destruct (service cfg); [apply safe_standard|apply Hf..].
Qed.

Lemma safe_callback p k o rs s : safe (rest_of k) s (callback cfg p k o rs s).
Proof.
  unfold callback. set (rf := match o with Returned r => _ | _ => _ end). destruct rf as [r f].
  assert (Hst : ∀ ps qs, safe qs s (strand ps s)) by (intros; apply safe_weaken, safe_same; auto).
  destruct k as [|rest|rest|]; cbn [rest_of].
  - destruct f; [apply Hst|apply safe_eraseMessage].
  - destruct f; [apply Hst|]. apply (safe_trans [] rest _ _ _ (safe_eraseFifoMessage p r rs s)). by apply safe_iteratively.
  - destruct f; [apply Hst|]. apply (safe_trans [] rest _ _ _ (safe_eraseFifoMessage p r rs s)).
    destruct r as [| |d]; [by apply safe_iteratively..|]. set (s1 := eraseFifoMessage cfg p (SUSPEND d) rs s).
    set (same := λ x, key_of (views s1) true x = key_of (views s1) true p).
    apply (safe_perm _ _ _ _ (filter_app_complement same rest)). eapply safe_trans; [|by apply safe_iteratively].
    apply safe_weaken, safe_fold_nil. intros. apply safe_eraseFifoMessage.
  - apply safe_eraseFifoMessage.
Qed.

Lemma safe_receiveImmediately q s : safe [] s (receiveMessageImmediately q s).
Proof. by apply (safe_add (TReceive RCalled q)). Qed.

Lemma safe_reception r q now s : safe [] s (receiveMessageImmediatelyWithAttemptId r q now s).
Proof.
  destruct r; unfold receiveMessageImmediatelyWithAttemptId; [destruct (negb _); [apply safe_refl|]|..];
    (apply safe_same; [done..|]; intros p; rewrite runnable_add; cbn; rewrite app_nil_r; auto).
Qed.

Lemma safe_scan_begin s : safe [] s (scan_begin s).
Proof. unfold scan_begin. destruct (_ || _); [apply safe_refl|]. by apply (safe_add TScan). Qed.

Lemma safe_scan_end s : safe [] s (scan_end s).
Proof.
  apply safe_same; [done..|]. intros p Hp. left. unfold runnable in *. cbn in Hp.
  apply list_elem_of_In, in_concat in Hp as (l&Hl&Hin). apply list_elem_of_In, in_concat. exists l. split; [|done].
  apply list_elem_of_In in Hl. apply list_elem_of_In. apply list_elem_of_fmap in Hl as (t&->&[_ Ht]%list_elem_of_filter).
  by apply list_elem_of_fmap_2.
Qed.

Lemma safe_receiveMessage q now s : safe [] s (receiveMessage cfg q now s).
Proof.
  unfold receiveMessage. destruct (queues s !! q) as [pq|]; [|apply safe_refl]. destruct (dropped pq); [apply safe_refl|].
  destruct (isCacheFull cfg pq s); [|apply safe_receiveImmediately]. apply safe_same; [done..|].
  intros p. unfold receiveMessageLater. rewrite runnable_add. cbn. rewrite app_nil_r. auto.
Qed.

Lemma safe_sync topic a now s : safe [] s (syncProcessQueue cfg topic a now s).
Proof.
  unfold syncProcessQueue. set (latest := remove_dups (default [] a)).
  apply (safe_trans [] [] _ (fold_left (λ s mq, dropProcessQueue mq s) (dropped_by_sync cfg topic latest now s) s)).
  - apply safe_fold_nil. intros s1 mq. unfold dropProcessQueue. destruct (table s1 !! mq); [|apply safe_refl]. apply safe_same; auto.
  - apply safe_fold_nil. intros s1 mq. unfold createProcessQueue. destruct (table s1 !! mq); [apply safe_refl|].
    eapply (safe_trans [] []); [|apply safe_receiveImmediately]. apply safe_same; auto.
Qed.

(** Attempts are int32 when they are received. *)
Definition int32_views (r : result (list View)) : Prop :=
  match r with Ok vs => Forall (λ v, - 2 ^ 31 <= v_attempt v < 2 ^ 31) vs | Err _ => True end.
Definition int32_label (l : Label) : Prop := match l with LReceived _ r _ _ => int32_views r | _ => True end.

Lemma ok_cached q vs s :
  ok s → int32_views (Ok vs) →
  ok (cached q (of_queue q <$> vs) s) ∧
  Forall (fresh (cached q (of_queue q <$> vs) s)) (seq (length (views s)) (length vs)).
Proof.
  intros [A1 A2 A3 A4 A5 A6 A7] Hvs. set (s' := cached _ _ s).
  assert (Hl : ∀ x u, views s' !! x = Some u →
    views s !! x = Some u ∨ ((length (views s) <= x)%nat ∧ - 2 ^ 31 <= v_attempt u)).
  { intros x u. subst s'. cbn. intros [Hx|[Hx Hu]]%lookup_app_Some; [by left|right; split; [done|]].
    apply list_lookup_fmap_Some in Hu as (w&->&Hw). cbn. apply (Forall_lookup_1 _ _ _ _ Hvs) in Hw. lia. }
  assert (Hold : ∀ x a u, (x, a) ∈ consumed s → views s' !! x = Some u → views s !! x = Some u).
  { intros x a u Hin Hu. apply A7 in Hin. destruct (Hl x u Hu) as [?|[? _]]; [done|lia]. }
  split; [constructor; try done|].
  - eapply Forall_impl; [exact A1|]. intros x Hx a u Hin Hu. eauto.
  - intros x a u Hin Hu. eauto.
  - intros x u Hu. destruct (Hl x u Hu) as [Hu'|[Hx _]]; [by apply A5|]. right. intros b Hin%A7. lia.
  - intros x u Hu. destruct (Hl x u Hu) as [Hu'|[_ Hx]]; eauto.
  - intros x a Hin%A7. subst s'. cbn. rewrite length_app. lia.
  - apply Forall_forall. intros x Hx%elem_of_seq a u Hin%A7. lia.
Qed.

Lemma ok_received q r rs now s : ok s → int32_views r → ok (received cfg q r rs now s).
Proof.
  intros Hs Hr. unfold received. assert (Hi : ∀ n, ok (with_inflight n s)) by (intros n; by destruct Hs).
  destruct r as [vs|e].
  - apply safe_receiveMessage; [|by apply Forall_nil]. destruct vs as [|v vs]; [apply Hi|]. cbv zeta. rewrite length_fmap.
    destruct (ok_cached q (v :: vs) _ (Hi (inflight s - 1)) Hr) as [H1 H2]. by apply (safe_consume _ rs _ H1).
  - cbv zeta. set (b := match e with ErrDriver _ => _ | _ => _ end). 
    apply (safe_add (TReceiveLater _ q)); [|by apply Forall_nil]. destruct b; [done|apply Hi].
Qed.

(** A consume task hands over an attempt its view was not given before. *)
Lemma ok_take i t s : tasks s !! i = Some t → ok s → ok (take_task i s) ∧ Forall (fresh s) (task_runs t).
Proof.
  intros Ht Hs. pose proof (ok_fresh s Hs) as Hf. unfold runnable in Hf. rewrite (concat_delete _ _ _ _ Ht) in Hf.
  apply Forall_app in Hf as [Hf _]. split; [|done].
  refine (proj1 (safe_same [] s (take_task i s) eq_refl eq_refl _ Hs (Forall_nil_2 _))).
  intros p Hp. left. unfold runnable in *. cbn in Hp. rewrite (concat_delete _ _ _ _ Ht). set_solver.
Qed.

Lemma ok_consumed p v s :
  views s !! p = Some v → ok s → fresh s p → p ∉ runnable s →
  let s' := with_consumed (consumed s ++ [(p, v_attempt v)]) s in ok s' ∧ ∀ x, x ≠ p → fresh s x → fresh s' x.
Proof.
  intros Hv [A1 A2 A3 A4 A5 A6 A7] Hp Hr s'.
  assert (Hin : ∀ x a, (x, a) ∈ consumed s' ↔ (x, a) ∈ consumed s ∨ x = p ∧ a = v_attempt v) by (intros; subst s'; cbn; set_solver).
  assert (Hf : ∀ x, x ≠ p → fresh s x → fresh s' x).
  { intros x Hne Hx a u [Ha|[? _]]%Hin Hu; [by apply (Hx a u)|done]. }
  split; [|done]. constructor; try done.
  - change (runnable s') with (runnable s). rewrite Forall_forall in A1 |- *. intros x Hx. apply Hf; [by intros ->|auto].
  - intros x a u [Ha|[-> ->]]%Hin Hu; [by apply (A2 x a u)|]. cbn in Hu. simplify_eq. lia.
  - subst s'. cbn. apply NoDup_app. split_and!; [done| |by apply NoDup_singleton]. intros [x a] Ha [= -> ->]%list_elem_of_singleton.
    pose proof (Hp _ v Ha Hv). lia.
  - intros x a [Ha|[-> ->]]%Hin.
    + destruct (A4 x a Ha) as [?|Hb]; [by left|right]. intros b [Hb'|[-> ->]]%Hin; [by apply Hb|]. pose proof (Hp a v Ha Hv). lia.
    + destruct (A5 p v Hv) as [?|Hb]; [by left|right]. intros b [Hb'|[_ ->]]%Hin; [by apply Hb|lia].
  - intros x u Hu. destruct (A5 x u Hu) as [?|Hb]; [by left|right]. intros b [Hb'|[-> ->]]%Hin; [by apply Hb|].
    cbn in Hu. rewrite Hv in Hu. injection Hu as ->. lia.
  - intros x a [Ha|[-> _]]%Hin; [by apply (A7 x a)|]. by eapply lookup_lt_Some.
Qed.

Lemma inv_unique i t s : tasks s !! i = Some t → inv s → NoDup (task_views t ++ concat (task_views <$> delete i (tasks s))).
Proof.
  intros Ht Hi. assert (Hnd : NoDup (held s)) by (rewrite (inv_held s Hi); apply NoDup_seq).
  unfold held, in_hand in Hnd. rewrite (concat_delete _ _ _ _ Ht) in Hnd. by apply NoDup_app in Hnd as [? _].
Qed.

Lemma not_runnable k i p s : p ∉ rest_of k ++ concat (task_views <$> delete i (tasks s)) → p ∉ runnable (take_task i s).
Proof.
  intros Hp Hr. apply Hp, elem_of_app. right. unfold runnable in Hr. cbn in Hr.
  apply list_elem_of_In, in_concat in Hr as (l&Hl&Hin). apply list_elem_of_In, in_concat. apply list_elem_of_In in Hl, Hin.
  apply list_elem_of_fmap in Hl as (t&->&Ht). exists (task_views t). rewrite <- !list_elem_of_In.
  split; [apply list_elem_of_fmap; eauto|]. by destruct t; try (by apply not_elem_of_nil in Hin).
Qed.

Lemma ok_run_task i p k o rs s :
  tasks s !! i = Some (TRun p k) → inv s → ok s → ok (run_task cfg p k o rs (take_task i s)).
Proof.
  intros Ht Hi Hs. destruct (ok_take i _ s Ht Hs) as [H1 [Hp Hr]%Forall_cons]. unfold run_task.
  assert (Hc : ok (callback cfg p k o rs (take_task i s))) by (by apply safe_callback).
  destruct o; try exact Hc; (destruct (views (take_task i s) !! p) as [v|] eqn:Ev; [|exact Hc]);
    (assert (Hnd : NoDup (p :: rest_of k ++ concat (task_views <$> delete i (tasks s))));
      [by apply (inv_unique i (TRun p k))|]; apply NoDup_cons in Hnd as [Hnp _];
     destruct (ok_consumed p v (take_task i s) Ev H1 Hp) as [H2 H3]; [by apply (not_runnable k)|];
     apply safe_callback; [exact H2|]; rewrite Forall_forall in Hr |- *; intros x Hx; apply H3; [set_solver|by apply Hr]).
Qed.

Lemma ok_with_table t a s : ok s → ok (with_table t a s).
Proof. by intros []. Qed.
Lemma ok_with_flags o st ac s : ok s → ok (with_flags o st ac s).
Proof. by intros []. Qed.

Lemma ok_step l s : int32_label l → inv s → ok s → ok (step cfg IsAssignmentsEmpty CompareAssignments l s).
Proof.
  intros Hl Hi Hs. destruct l as [|topic newest now| |i o rs|i rs now|i now|i r rs now| | |]; cbn [step]; try (by apply ok_with_flags).
  - by apply safe_scan_begin.
  - destruct (scanning s); [|done]. unfold scan_topic. destruct (_ && _); [done|].
    pose proof (λ a, proj1 (safe_sync topic a now s Hs (Forall_nil_2 _))) as Hy.
    destruct (CompareAssignments _ _); [apply Hy|apply ok_with_table, Hy].
  - by apply safe_scan_end.
  - destruct (tasks s !! i) as [[p k| | | | | |]|] eqn:E; try done. by apply ok_run_task.
  - destruct (tasks s !! i) as [[|d p k|sk p a| |d q| |]|] eqn:E; try done; destruct (ok_take i _ s E Hs) as [H1 H2].
    + by apply (safe_Submit p k _ H1).
    + by apply safe_settle.
    + by apply safe_receiveImmediately.
  - destruct (tasks s !! i) as [[| | | | |r q|]|] eqn:E; try done. destruct (ok_take i _ s E Hs) as [H1 _]. by apply safe_reception.
  - destruct (tasks s !! i) as [[| | |q| | |]|] eqn:E; try done. destruct (ok_take i _ s E Hs) as [H1 _]. by apply ok_received.
Qed.

Lemma ok_run ls s :
  Forall int32_label ls → inv s → ok s → ok (run cfg IsAssignmentsEmpty CompareAssignments ls s).
Proof.
  intros Hl. revert s. induction Hl as [|l ls Hl _ IH]; intros s Hi Hs; [done|]. apply IH; [by apply process_inv_step|by apply ok_step].
Qed.

Lemma ok_started : ok started.
Proof. constructor; cbn; try done; [apply NoDup_nil_2|set_solver..]. Qed.

(** C33: No attempt of a message is consumed twice, and retries respect the maximum.
    In every run of a push consumer, whatever fails and in whatever order tasks and
    timers run, the listener gets each attempt of a message at most once, and every
    attempt above the retry policy's maximum is the first one of its message. *)
Theorem attempts_once ls :
  Forall int32_label ls →
  let s := run cfg IsAssignmentsEmpty CompareAssignments ls started in
  NoDup (consumed s) ∧
  ∀ p a, (p, a) ∈ consumed s → a <= MaxAttempts cfg ∨ ∀ b, (p, b) ∈ consumed s → a <= b.
Proof.
  intros Hl s. destruct (ok_run ls started Hl inv_started ok_started) as [_ _ H3 H4 _ _ _]. by split.
Qed.
End attempts.

Lemma attempts_once_witness :
  NoDup (consumed (run ex_cfg ex_empty ex_same (ex_labels ++ [LRun 0 (Returned FAILURE) ex_ok; LFire 2 ex_ok 0; LRun 3 ListenerPanic ex_ok]) started)).
Proof.
  refine (proj1 (attempts_once ex_cfg ex_empty ex_same _ _ _)); [cbn; lia|].
  repeat constructor; cbn; lia.
Defined.
End attempts.
