(* ===== verification/DriverClient.v ===== *)
(** * transport/rocketmq/internal/driver: clients

    [client_manager.go] (module [manager]): the table of RPC connections shared by
    concurrent calls.  [client.go] (modules [session] and [client]): the telemetry
    session with its recovery, the route cache and its refresh, startup and stop.
    Dialling, RPC answers and streams are answers of the world; signatures, meters
    and logs are not modelled. *)

From S2P Require Import Prelude GoStd Driver DriverProducer.

(** ** The connection table *)

Module manager.

(** [clients] are the targets of all connections opened so far, by number; a call in
    flight holds the number of its connection. *)
Record Manager : Type := mkManager {
  table : gmap string nat; clients : list string; opened : gset nat; done : bool; calls : list nat
}.
Definition NewDefaultClientManager : Manager := mkManager ∅ [] ∅ false [].

(** [deleteRpcClient]: the entry of the connection's target, and the connection. *)
Definition deleteRpcClient (c : nat) (m : Manager) : Manager :=
  match clients m !! c with
  | None => m
  | Some t => mkManager (delete t (table m)) (clients m) (opened m ∖ {[c]}) (done m) (calls m)
  end.

Definition delete_all (cs : list nat) (m : Manager) : Manager := fold_left (λ m c, deleteRpcClient c m) cs m.

(** [idle c]: its idle duration is over the limit. *)
Definition clearIdleRpcClients (idle : nat → bool) (m : Manager) : Manager :=
  delete_all (filter (λ c, idle c = true) (snd <$> map_to_list (table m))) m.
Definition cleanRpcClient (m : Manager) : Manager := delete_all (snd <$> map_to_list (table m)) m.

(** [getRpcClient]: the locked part, whose checks repeat those before the lock. *)
Definition getRpcClient (target : string) (dial : option error) (m : Manager) : result nat * Manager :=
  if done m then (Err (ErrMsg "client manager closed"), m)
  else match table m !! target with
  | Some c => (Ok c, m)
  | None =>
    match dial with
    | Some e => (Err e, m)
    | None =>
      let c := length (clients m) in
      (Ok c, mkManager (<[target := c]> (table m)) (clients m ++ [target]) ({[c]} ∪ opened m) (done m) (calls m))
    end
  end.

(** An RPC error with code Unavailable closes the connection it came from. *)
Definition handleGrpcError (c : nat) (unavailable : bool) (m : Manager) : Manager :=
  if unavailable then deleteRpcClient c m else m.

Inductive Label : Type :=
| LCall (target : string) (dial : option error) | LReply (i : nat) (unavailable : bool) | LIdle (idle : nat → bool) | LDone | LClean.

(** The halves of a call, the idle check, and the stages of [shutdown]. *)
Definition step (l : Label) (m : Manager) : Manager :=
  match l with
  | LCall t dial =>
    match getRpcClient t dial m with
    | (Ok c, m) => mkManager (table m) (clients m) (opened m) (done m) (calls m ++ [c])
    | (Err _, m) => m
    end
  | LReply i u =>
    match calls m !! i with
    | None => m
    | Some c => handleGrpcError c u (mkManager (table m) (clients m) (opened m) (done m) (delete i (calls m)))
    end
  | LIdle idle => clearIdleRpcClients idle m
  | LDone => mkManager (table m) (clients m) (opened m) true (calls m)
  | LClean => cleanRpcClient m
  end.
Definition run (ls : list Label) (m : Manager) : Manager := fold_left (λ m l, step l m) ls m.

(** The table holds, for a target, an open connection to that target. *)
Record wf (m : Manager) : Prop := mkWf {
  wf_table : ∀ t c, table m !! t = Some c → clients m !! c = Some t ∧ c ∈ opened m;
  wf_opened : ∀ c, c ∈ opened m → (c < length (clients m))%nat
}.

Lemma wf_delete c m : wf m → wf (deleteRpcClient c m).
Proof.
  intros [A B]. unfold deleteRpcClient. destruct (clients m !! c) as [t|] eqn:E; [|done]. split; cbn; [|set_solver].
  intros t' c' [Hne Ht]%lookup_delete_Some. destruct (A t' c' Ht) as [H1 H2]. split; [done|]. set_solver.
Qed.

Lemma wf_delete_all cs m : wf m → wf (delete_all cs m).
Proof. unfold delete_all. revert m. induction cs as [|c cs IH]; intros m H; [done|]. apply IH. by apply wf_delete. Qed.

Lemma wf_step l m : wf m → wf (step l m).
Proof.
  intros Hw. pose proof Hw as [A B]. destruct l as [t dial|i u|idle| |]; cbn.
  - unfold getRpcClient. destruct (done m); [done|]. destruct (table m !! t) eqn:E; [done|]. destruct dial; [done|].
    split; cbn.
    + intros t' c' [[<- <-]|[Hne Ht]]%lookup_insert_Some; [by rewrite list_lookup_middle; [set_solver|]|].
      destruct (A t' c' Ht). rewrite lookup_app_l by (by eapply lookup_lt_Some). set_solver.
    + intros c Hc. rewrite length_app. cbn. apply elem_of_union in Hc as [->%elem_of_singleton|Hc%B]; lia.
  - destruct (calls m !! i) as [c|]; [|done]. unfold handleGrpcError. destruct u; [apply wf_delete|]; by split.
  - by apply wf_delete_all.
  - by split.
  - by apply wf_delete_all.
Qed.

Lemma wf_run ls m : wf m → wf (run ls m).
Proof. unfold run. revert m. induction ls as [|l ls IH]; intros m H; [done|]. apply IH. by apply wf_step. Qed.

Lemma wf_new : wf NewDefaultClientManager.
Proof. by split. Qed.

(** *** Shutdown *)

Lemma delete_all_fields cs m :
  clients (delete_all cs m) = clients m ∧ done (delete_all cs m) = done m ∧ table (delete_all cs m) ⊆ table m ∧
  (∀ t c, c ∈ cs → clients m !! c = Some t → table (delete_all cs m) !! t = None) ∧
  (∀ c, c ∈ opened m → c ∉ cs → c ∈ opened (delete_all cs m)).
Proof.
  unfold delete_all. revert m. induction cs as [|c cs IH]; intros m; cbn; [split_and!; try done; set_solver|].
  destruct (IH (deleteRpcClient c m)) as (H1&H2&H3&H4&H5).
  assert (Hd : clients (deleteRpcClient c m) = clients m ∧ done (deleteRpcClient c m) = done m ∧ table (deleteRpcClient c m) ⊆ table m).
  { unfold deleteRpcClient. destruct (clients m !! c); [|done]. cbn. split_and!; [done..|apply delete_subseteq]. }
  destruct Hd as (D1&D2&D3). split_and!; [congruence|congruence|by etransitivity| |].
  - intros t c' [->|Hin]%elem_of_cons Hc; [|apply (H4 t c' Hin); by rewrite D1].
    apply eq_None_not_Some. intros [x Hx]. apply (lookup_weaken _ _ _ _ Hx) in H3. unfold deleteRpcClient in H3.
    rewrite Hc in H3. cbn in H3. by rewrite lookup_delete_eq in H3.
  - intros c' Hc Hn. apply H5; [|set_solver]. unfold deleteRpcClient. destruct (clients m !! c); cbn; set_solver.
Qed.

Lemma clean_empty m : wf m → table (cleanRpcClient m) = ∅.
Proof.
  intros [A _]. unfold cleanRpcClient. set (cs := snd <$> map_to_list (table m)).
  destruct (delete_all_fields cs m) as (_&_&H3&H4&_).
  apply map_empty. intros t. apply eq_None_not_Some. intros [c Hc].
  pose proof (lookup_weaken _ _ _ _ Hc H3) as Ht. destruct (A t c Ht) as [Hcl _].
  rewrite (H4 t c) in Hc; [done| |done]. apply list_elem_of_fmap. exists (t, c). by rewrite elem_of_map_to_list.
Qed.

(** After the connections are cleaned behind a closed manager nothing reopens. *)
Definition shut (m : Manager) : Prop := done m = true ∧ table m = ∅.

Lemma shut_step l m : shut m → shut (step l m) ∧ clients (step l m) = clients m.
Proof.
  intros [Hd Ht]. destruct l as [t dial|i u|idle| |]; cbn.
  - unfold getRpcClient. by rewrite Hd.
  - destruct (calls m !! i) as [c|]; [|done]. unfold handleGrpcError, deleteRpcClient. destruct u; [|done]. cbn.
    destruct (clients m !! c); cbn; [|done]. by rewrite Ht, delete_empty.
  - unfold clearIdleRpcClients. by rewrite Ht.
  - done.
  - unfold cleanRpcClient. by rewrite Ht.
Qed.

(** A closed client manager stays closed.  Whatever calls ran before, once
    [shutdown] has closed the manager and cleaned its table, no target is in the
    table again and no further connection is opened; and in every run the table
    maps each target to one open connection to that target. *)
Theorem shutdown_final ls ks :
  let m := run (ls ++ [LDone; LClean]) NewDefaultClientManager in
  table (run ks m) = ∅ ∧ clients (run ks m) = clients m ∧
  ∀ t c, table (run ls NewDefaultClientManager) !! t = Some c →
    clients (run ls NewDefaultClientManager) !! c = Some t ∧ c ∈ opened (run ls NewDefaultClientManager).
Proof.
  intros m. pose proof (wf_run ls _ wf_new) as Hw.
  assert (Hm : shut m).
  { unfold m, run. rewrite fold_left_app. cbn. fold (run ls NewDefaultClientManager). split.
    - exact (proj1 (proj2 (delete_all_fields _ _))).
    - apply clean_empty. by apply (wf_step LDone). }
  assert (Hs : ∀ ks m, shut m → shut (run ks m) ∧ clients (run ks m) = clients m).
  { clear. induction ks as [|k ks IH]; intros m H; [done|]. destruct (shut_step k m H) as [H1 H2].
    destruct (IH _ H1) as [H3 H4]. split; [exact H3|]. rewrite <- H2. exact H4. }
  destruct (Hs ks m Hm) as [[_ H1] H2]. split_and!; [done..|apply Hw].
Qed.

(** A stale error orphans a connection.  When a call fails with Unavailable after
    another call already replaced its connection, the table loses the entry of the
    new connection, which stays open: not even the shutdown closes it. *)
Theorem stale_error_orphans i c1 c2 t m :
  wf m → calls m !! i = Some c1 → clients m !! c1 = Some t → table m !! t = Some c2 → c1 ≠ c2 →
  c2 ∈ opened (run [LReply i true; LDone; LClean] m).
Proof.
  intros [A B] Hi Hc1 Ht Hne. destruct (A t c2 Ht) as [Hc2 Ho]. cbn [run fold_left step]. rewrite Hi. unfold handleGrpcError, deleteRpcClient.
  cbn. rewrite Hc1. cbn. unfold cleanRpcClient. cbn. apply (proj2 (proj2 (proj2 (proj2 (delete_all_fields _ _))))); cbn; [set_solver|].
  intros ([t' c']&->&Hin)%list_elem_of_fmap. apply elem_of_map_to_list, lookup_delete_Some in Hin as [Hn Hin].
  destruct (A t' _ Hin) as [Hc' _]. cbn in *. congruence.
Qed.

(** Two calls on one connection, the first of which fails and is followed by another call. *)
Definition ex_calls : list Label := [LCall "a:8081" None; LCall "a:8081" None; LReply 0 true; LCall "a:8081" None].

Lemma stale_error_orphans_witness : 1%nat ∈ opened (run [LReply 0 true; LDone; LClean] (run ex_calls NewDefaultClientManager)).
Proof.
  refine (stale_error_orphans 0 0 1 "a:8081" (run ex_calls NewDefaultClientManager) _ _ _ _ _);
    [exact (wf_run ex_calls _ wf_new)|vm_compute; reflexivity..|discriminate].
Defined.
End manager.

(** ** The telemetry session *)

Module session.

(** The commands a broker sends. *)
Inductive Command : Type :=
| CSettings | CRecoverOrphaned | CVerify | CPrintStack | CReconnect | CUnsubscribeLite | CUnrecognized.

(** The session, with the flags of the client it sets.  Streams are numbered as they
    are opened; [closed] are the streams [CloseSend] was called on, [misused] those
    used after that. *)
Record Session : Type := mkSession {
  observer : option nat; streams : nat; closed : list nat; misused : list nat;
  recovering : bool; inited : bool; reconnect : bool; startUpError : option error; exited : bool; executed : list Command
}.
Definition NewDefaultClientSession (inited reconnect : bool) : Session :=
  mkSession None 0 [] [] false inited reconnect None false [].

Definition set_observer o s := mkSession o (streams s) (closed s) (misused s) (recovering s) (inited s) (reconnect s) (startUpError s) (exited s) (executed s).
Definition set_recovering r s := mkSession (observer s) (streams s) (closed s) (misused s) r (inited s) (reconnect s) (startUpError s) (exited s) (executed s).

(** A use of the stream [o]; using a closed stream is recorded. *)
Definition use (o : nat) (s : Session) : Session :=
  if bool_decide (o ∈ closed s)
  then mkSession (observer s) (streams s) (closed s) (misused s ++ [o]) (recovering s) (inited s) (reconnect s) (startUpError s) (exited s) (executed s)
  else s.

(** [release] *)
Definition release (o : nat) (s : Session) : Session :=
  mkSession None (streams s) (closed s ++ [o]) (misused s) (recovering s) (inited s) (reconnect s) (startUpError s) (exited s) (executed s).

(** [handleTelemetryCommand]: what it changes of the client. *)
Definition handleTelemetryCommand (c : Command) (s : Session) : Session :=
  mkSession (observer s) (streams s) (closed s) (misused s) (recovering s)
    (match c with CSettings => true | _ => inited s end) (match c with CReconnect => true | _ => reconnect s end)
    (startUpError s) (exited s) (match c with CUnrecognized => executed s | _ => executed s ++ [c] end).

(** One round of the loop of [startUp]: what Recv returned, and whether a heartbeat
    of the endpoints succeeded. *)
Definition receive (r : result Command) (healthy : bool) (s : Session) : Session :=
  if exited s then s
  else match observer s with
  | None => s
  | Some o =>
    let s := use o s in
    match r with
    | Err e =>
      if negb (inited s) then
        mkSession (observer s) (streams s) (closed s) (misused s) (recovering s) (inited s) (reconnect s)
          (Some (ErrWrap "failed to sync settings during startUp" e)) true (executed s)
      else if negb (recovering s) then set_recovering true s
      else set_recovering false (release o s)
    | Ok c =>
      let s := if recovering s then set_recovering false (if healthy then s else release o s) else s in
      handleTelemetryCommand c s
    end
  end.

(** [publish]: the answer of Telemetry when a stream has to be opened, and of Send. *)
Definition publish (telemetry send : option error) (s : Session) : option error * Session :=
  match observer s with
  | Some o => (send, use o s)
  | None =>
    match telemetry with
    | Some e => (Some e, s)
    | None =>
      let o := streams s in
      let s := mkSession (Some o) (Datatypes.S o) (closed s) (misused s) (recovering s) (inited s) (reconnect s) (startUpError s) (exited s) (executed s) in
      (send, use o s)
    end
  end.

Inductive Label : Type := LReceive (r : result Command) (healthy : bool) | LPublish (telemetry send : option error) | LStop.
Definition step (l : Label) (s : Session) : Session :=
  match l with
  | LReceive r h => receive r h s
  | LPublish t e => (publish t e s).2
  | LStop => mkSession (observer s) (streams s) (closed s) (misused s) (recovering s) (inited s) (reconnect s) (startUpError s) true (executed s)
  end.
Definition run (ls : list Label) (s : Session) : Session := fold_left (λ s l, step l s) ls s.

Record wf (s : Session) : Prop := mkWf {
  wf_observer : ∀ o, observer s = Some o → (o < streams s)%nat ∧ o ∉ closed s;
  wf_closed : ∀ o, o ∈ closed s → (o < streams s)%nat;
  wf_once : NoDup (closed s);
  wf_used : misused s = []
}.

Lemma use_open o s : o ∉ closed s → use o s = s.
Proof. intros H. unfold use. by rewrite bool_decide_eq_false_2. Qed.

Lemma wf_release o s : observer s = Some o → wf s → wf (release o s).
Proof.
  intros Ho [A B C D]. destruct (A o Ho) as [H1 H2]. split; cbn; [done| | |done].
  - intros x [Hx| ->%list_elem_of_singleton]%elem_of_app; auto.
  - apply NoDup_app. split_and!; [done|set_solver|apply NoDup_singleton].
Qed.

Lemma session_wf_step l s : wf s → wf (step l s).
Proof.
  intros Hw. pose proof Hw as [A B C D]. destruct l as [r h|t e|]; cbn; [| |by split].
  - unfold receive. destruct (exited s); [done|]. destruct (observer s) as [o|] eqn:E; [|done].
    rewrite use_open by (by apply A). pose proof (wf_release o s E Hw) as [A' B' C' D'].
    destruct r as [c|e]; [destruct (recovering s), h|destruct (inited s), (recovering s)]; cbn; try (by split); (split; cbn; [|done..]; by rewrite E).
  - unfold publish. destruct (observer s) as [o|] eqn:E; [cbn; by rewrite use_open by (by apply A)|].
    destruct t; [done|]. cbn. rewrite use_open by (cbn; intros H%B; lia).
    split; cbn; [|intros o Ho%B; lia|done|done]. intros o [= <-]. split; [lia|intros H%B; lia].
Qed.

Lemma receive_fails o e h s :
  exited s = false → inited s = true → observer s = Some o → o ∉ closed s →
  receive (Err e) h s = if recovering s then set_recovering false (release o s) else set_recovering true s.
Proof. intros He Hi Ho Hc. unfold receive. rewrite He, Ho, use_open, Hi by done. by destruct (recovering s). Qed.

(** A telemetry session uses its streams properly and recovers.  In every run each
    stream is closed at most once and never used after that; and when a session that
    is initialised fails to receive twice in a row, its stream is closed and the next
    command that is published opens a new one. *)
Theorem session_recovers ls init0 rec0 o e1 e2 h1 h2 :
  let s := run ls (NewDefaultClientSession init0 rec0) in
  NoDup (closed s) ∧ misused s = [] ∧
  (exited s = false → inited s = true → recovering s = false → observer s = Some o →
   let s2 := run [LReceive (Err e1) h1; LReceive (Err e2) h2] s in
   o ∈ closed s2 ∧ observer s2 = None ∧ recovering s2 = false ∧
   publish None None s2 = (None, step (LPublish None None) s2) ∧ observer (step (LPublish None None) s2) = Some (streams s)).
Proof.
  intros s. assert (Hw : wf s).
  { unfold s, run. assert (H0 : wf (NewDefaultClientSession init0 rec0)) by (split; cbn; [done|set_solver|apply NoDup_nil_2|done]).
    revert H0. generalize (NewDefaultClientSession init0 rec0). induction ls as [|l ls IH]; intros s0 H0; [done|]. apply IH. by apply session_wf_step. }
  destruct Hw as [A B C D]. split_and!; [done..|]. intros He Hi Hr Ho. pose proof (A o Ho) as [H1 H2].
  cbn [run fold_left step]. rewrite (receive_fails o e1 h1 s), Hr, (receive_fails o e2 h2 (set_recovering true s)) by done.
  cbn [set_recovering recovering]. assert (Hn : streams s ∉ closed s ++ [o]) by (intros [Hx%B|Hx%list_elem_of_singleton]%elem_of_app; lia).
  cbn. split_and!; [set_solver|done..|]. by rewrite use_open.
Qed.

Lemma session_recovers_witness :
  let s := run [LPublish None None; LReceive (Ok CSettings) true] (NewDefaultClientSession false false) in
  observer (run [LReceive (Err ErrContext) true; LReceive (Err ErrContext) true] s) = None.
Proof.
  exact (proj1 (proj2 (proj2 (proj2 (session_recovers [LPublish None None; LReceive (Ok CSettings) true] false false 0 ErrContext ErrContext true true))
    eq_refl eq_refl eq_refl eq_refl))).
Defined.
End session.

(** ** Routes, startup and stop *)

Module client.
Import balancer producer.

(** The answer to a route query: an error, or a status with the queues. *)
Definition Route : Type := result (Z * list MessageQueue).

Definition queryRoute (r : Route) : result (list MessageQueue) :=
  match r with
  | Err e => Err e
  | Ok (code, qs) =>
    if negb (code =? Code_OK) then Err (ErrDriver code)
    else match qs with [] => Err (ErrMsg "rocketmq: no available brokers") | _ => Ok qs end
  end.

(** What the two kinds of clients keep per topic, and the route cache. *)
Record Client : Type := mkClient {
  on : bool; closed : bool; router : gmap string (list MessageQueue); balancers : gmap string Balancer; synced : list (list string)
}.
Definition with_routes r b s c := mkClient (on c) (closed c) r b s.

(** The settings go to each distinct target of the route, until one fails. *)
Fixpoint sync_targets (telemeter : list string → option error) (qs : list MessageQueue) (seen : list (list string))
    : option error * list (list string) :=
  match qs with
  | [] => (None, seen)
  | q :: qs =>
    if bool_decide (q_addresses q ∈ seen) then sync_targets telemeter qs seen
    else match telemeter (q_addresses q) with
    | Some e => (Some e, seen ++ [q_addresses q])
    | None => sync_targets telemeter qs (seen ++ [q_addresses q])
    end
  end.

Definition getMessageQueues (topic : string) (r : Route) (telemeter : list string → option error) (c : Client)
    : result (list MessageQueue) * Client :=
  match router c !! topic with
  | Some qs => (Ok qs, c)
  | None =>
    match queryRoute r with
    | Err e => (Err e, c)
    | Ok qs =>
      let '(e, told) := sync_targets telemeter qs [] in
      match e with
      | Some e => (Err e, with_routes (router c) (balancers c) (synced c ++ told) c)
      | None => (Ok qs, with_routes (<[topic := qs]> (router c)) (balancers c) (synced c ++ told) c)
      end
    end
  end.

(** [getTotalTargets]: the distinct targets of all routes. *)
Definition getTotalTargets (c : Client) : gset (list string) :=
  list_to_set (q_addresses <$> concat (snd <$> map_to_list (router c))).

Section client.
(** [proto.Equal] *)
Context (Equal : MessageQueue → MessageQueue → bool).

Definition routeEqual (old new : list MessageQueue) : bool :=
  (length old == length new) && forallb (λ p, Equal p.1 p.2) (zip old new).

(** The scheduled refresh of one topic of a producer or simple consumer. *)
Definition refresh (topic : string) (r : Route) (c : Client) : Client :=
  match router c !! topic with
  | None => c
  | Some old =>
    match queryRoute r with
    | Err _ => c
    | Ok new =>
      if routeEqual old new then c
      else
        let b := match balancers c !! topic with None => mkBalancer new 0 | Some b => CopyAndUpdate new b end in
        with_routes (<[topic := new]> (router c)) (<[topic := b]> (balancers c)) (synced c) c
    end
  end.

(** [startUpContext] after its routes: each round of the wait sees a context, the
    closed client, the deadline or a tick, and then the state of the session. *)
Inductive Wake : Type := WContext (e : error) | WClosed | WDeadline | WTick.
Fixpoint wait_settings (inited : bool) (ws : list (Wake * option error * bool)) : option (option error) :=
  if inited then Some None
  else match ws with
  | [] => None
  | (WContext e, _, _) :: _ => Some (Some e)
  | (WClosed, _, _) :: _ => Some (Some (ErrMsg "client closed during startup"))
  | (WDeadline, _, _) :: _ => Some (Some (ErrMsg "initial settings deadline exceeded"))
  | (WTick, Some e, _) :: _ => Some (Some e)
  | (WTick, None, inited) :: ws => wait_settings inited ws
  end.

Fixpoint init_routes (topics : list (string * Route)) (telemeter : list string → option error) (c : Client) : option error * Client :=
  match topics with
  | [] => (None, c)
  | (t, r) :: topics =>
    match getMessageQueues t r telemeter c with
    | (Err e, c) => (Some (ErrWrap "failed to get topic route data result from remote during client startup" e), c)
    | (Ok _, c) => init_routes topics telemeter c
    end
  end.

(** [startUpContext]: the routes, then the wait; the loops it starts are the steps of
    [manager] and [refresh]. *)
Definition startUpContext (topics : list (string * Route)) (telemeter : list string → option error)
    (inited : bool) (ws : list (Wake * option error * bool)) (c : Client) : option (option error) * Client :=
  match init_routes topics telemeter c with
  | (Some e, c) => (Some (Some e), c)
  | (None, c) => (wait_settings inited ws, c)
  end.

(** [gracefulStopContext]: the targets told of the termination; closing [done] is
    [session.LStop], the shutdown of the manager [manager.LDone] and [manager.LClean]. *)
Definition gracefulStopContext (c : Client) : option error * list (list string) * Client :=
  if negb (on c) then (Some (ErrMsg "client has been closed"), [], c)
  else (None, elements (getTotalTargets c), mkClient false true (router c) (balancers c) (synced c)).

(** ** Correctness *)

(** Routes are not empty, their targets were told the settings when they were first
    cached, and balancers are over the cached route. *)
Record wf (c : Client) : Prop := mkWf {
  wf_routes : ∀ t qs, router c !! t = Some qs → qs ≠ [];
  wf_balancers : ∀ t b, balancers c !! t = Some b → queues b ≠ []
}.

Lemma queryRoute_some r qs : queryRoute r = Ok qs → qs ≠ [].
Proof. unfold queryRoute. destruct r as [[code l]|]; [|done]. destruct (negb _); [done|]. destruct l; [done|]. by intros [= <-]. Qed.

Lemma sync_targets_all telemeter qs seen told :
  sync_targets telemeter qs seen = (None, told) → seen ⊆ told ∧ (∀ q, q ∈ qs → q_addresses q ∈ told) ∧
  (NoDup seen → NoDup told) ∧ ∀ a, a ∈ told → a ∈ seen ∨ telemeter a = None.
Proof.
  revert seen. induction qs as [|q qs IH]; cbn; intros seen; [intros [= <-]; split_and!; set_solver|].
  destruct (bool_decide_reflect (q_addresses q ∈ seen)) as [Hin|Hn].
  - intros (H1&H2&H3&H4)%IH. split_and!; [done| |done|done]. intros x [->|Hx]%elem_of_cons; set_solver.
  - destruct (telemeter (q_addresses q)) eqn:E; [done|]. intros (H1&H2&H3&H4)%IH. split_and!.
    + set_solver.
    + intros x [->|Hx]%elem_of_cons; set_solver.
    + intros Hs. apply H3, NoDup_app. split_and!; [done|set_solver|apply NoDup_singleton].
    + intros a [[?| ->%list_elem_of_singleton]%elem_of_app|]%H4; auto.
Qed.

Lemma wf_get topic r tm c : wf c → wf (getMessageQueues topic r tm c).2.
Proof.
  intros [A B]. unfold getMessageQueues. destruct (router c !! topic); [done|]. destruct (queryRoute r) as [qs|] eqn:E; [|done].
  apply queryRoute_some in E. destruct (sync_targets tm qs []) as [[e|] told]; [by split|]. split; cbn; [|done].
  intros t l [[<- <-]|[_ H]]%lookup_insert_Some; eauto.
Qed.

(** A route is cached only when all its brokers have the settings.  Asking for a
    topic that is not cached either fails and leaves the cache unchanged, or caches
    the route, which is not empty, after the settings went to every broker of it,
    to each once; a topic that is cached is answered from the cache.  A refresh that
    fails keeps the route, and one that succeeds never leaves an empty one. *)
Theorem route_cached topic r r' tm c :
  wf c →
  let '(res, c') := getMessageQueues topic r tm c in
  wf c' ∧ wf (refresh topic r' c') ∧
  (∀ e, queryRoute r' = Err e → refresh topic r' c' = c') ∧
  match res with
  | Err _ => router c' = router c
  | Ok qs => router c' !! topic = Some qs ∧ qs ≠ [] ∧
    (router c !! topic = None → ∃ told, synced c' = synced c ++ told ∧ NoDup told ∧
       ∀ q, q ∈ qs → q_addresses q ∈ told ∧ tm (q_addresses q) = None)
  end.
Proof.
  intros Hw. pose proof (wf_get topic r tm c Hw) as Hw'. destruct (getMessageQueues topic r tm c) as [res c'] eqn:E. cbn in Hw'.
  split_and!; [done| | |].
  - unfold refresh. destruct (router c' !! topic); [|done]. destruct (queryRoute r') as [new|] eqn:Eq; [|done]. apply queryRoute_some in Eq.
    destruct (routeEqual _ _); [done|]. destruct Hw' as [A B]. split; cbn; intros t x [[<- <-]|[_ H]]%lookup_insert_Some; eauto.
    by destruct (balancers c' !! topic).
  - intros e He. unfold refresh. destruct (router c' !! topic); [|done]. by rewrite He.
  - revert E. unfold getMessageQueues. destruct (router c !! topic) as [qs|] eqn:Er.
    + intros [= <- <-]. split_and!; [done|by eapply wf_routes|done].
    + destruct (queryRoute r) as [qs|e] eqn:Eq; [|by intros [= <- <-]]. apply queryRoute_some in Eq.
      destruct (sync_targets tm qs []) as [[e|] told] eqn:Es; [by intros [= <- <-]|]. intros [= <- <-]. cbn.
      apply sync_targets_all in Es as (_&H2&H3&H4). split_and!; [by rewrite lookup_insert_eq|done|].
      intros _. exists told. split_and!; [done|apply H3, NoDup_nil_2|]. intros q Hq. split; [auto|].
      destruct (H4 _ (H2 q Hq)) as [Hn|]; [by apply not_elem_of_nil in Hn|done].
Qed.

(** A client stops once, and startup returns as soon as one of its signals arrives. *)
Lemma stop_once c : on c = true → (gracefulStopContext (gracefulStopContext c).2).1.1 = Some (ErrMsg "client has been closed").
Proof. intros H. unfold gracefulStopContext. by rewrite H. Qed.
End client.

Definition ex_route : Route := Ok (Code_OK, [ex_queue "a"; ex_queue "b"; ex_queue "a"]).
Definition ex_client : Client := mkClient true false ∅ ∅ [].

Lemma route_cached_witness : router (getMessageQueues "orders" ex_route (λ _, None) ex_client).2 !! "orders"%string = Some [ex_queue "a"; ex_queue "b"; ex_queue "a"].
Proof.
  exact (proj1 (proj2 (proj2 (proj2 (route_cached (λ _ _, true) "orders" ex_route (Err ErrContext) (λ _, None) ex_client
    ltac:(split; cbn; intros; discriminate)))))).
Defined.
End client.
