(* ===== verification/DriverPool.v ===== *)
(** * transport/rocketmq/internal/driver: the executor of consume tasks

    [simple_thread_pool.go] as a transition system: worker goroutines that receive
    from one bounded channel, callers of [Submit], and the stages of [Shutdown].
    The body of a task is work of the host that ends; what a task does to the pool
    is to submit further tasks.  Tasks are numbers. *)

From S2P Require Import Prelude.

Module pool.

(** A worker waits in its [select] or, once it saw [shutdown], in its [range]; it
    runs a task, or blocks in a [Submit] the task it runs has called. *)
Inductive Worker : Type :=
| Waiting (ranging : bool)
| Running (ranging : bool) (t : nat)
| Sending (ranging : bool) (t : nat) (next : nat)
| Exited.
#[global] Instance Worker_eq_dec : EqDecision Worker.
Proof. solve_decision. Defined.

(** [simpleThreadPool] with its goroutines.  [senders] are the callers of [Submit]
    from outside that passed the check of [running]; [accepted], [executed] and
    [refused] record what became of submitted tasks. *)
Record Pool : Type := mkPool {
  size : nat; tasks : list nat; closed : bool; shutdown : bool; running : bool;
  workers : list Worker; senders : list nat;
  accepted : list nat; executed : list nat; refused : list nat
}.

Definition NewSimpleThreadPool (taskSize threadNum : nat) : Pool :=
  mkPool taskSize [] false false true (repeat (Waiting false) threadNum) [] [] [] [].

Definition with_workers ws p := mkPool (size p) (tasks p) (closed p) (shutdown p) (running p) ws (senders p) (accepted p) (executed p) (refused p).
Definition with_tasks ts p := mkPool (size p) ts (closed p) (shutdown p) (running p) (workers p) (senders p) (accepted p) (executed p) (refused p).
Definition with_senders ss p := mkPool (size p) (tasks p) (closed p) (shutdown p) (running p) (workers p) ss (accepted p) (executed p) (refused p).
Definition with_executed es p := mkPool (size p) (tasks p) (closed p) (shutdown p) (running p) (workers p) (senders p) (accepted p) es (refused p).
Definition with_accepted xs p := mkPool (size p) (tasks p) (closed p) (shutdown p) (running p) (workers p) (senders p) xs (executed p) (refused p).
Definition refuse t p := mkPool (size p) (tasks p) (closed p) (shutdown p) (running p) (workers p) (senders p) (accepted p) (executed p) (refused p ++ [t]).
Definition set_worker (i : nat) (w : Worker) (p : Pool) : Pool := with_workers (<[i := w]> (workers p)) p.

(** [tp.tasks <- task]: [None] when it blocks.  A closed channel panics, which
    [Submit] recovers from. *)
Definition send (t : nat) (p : Pool) : option Pool :=
  if closed p then Some (refuse t p)
  else if bool_decide (length (tasks p) < size p)%nat then Some (with_accepted (accepted p ++ [t]) (with_tasks (tasks p ++ [t]) p))
  else None.

Inductive Label : Type :=
| LSubmit (t : nat)             (* a goroutine calls Submit *)
| LSend (j : nat)               (* the j-th blocked caller sends *)
| LHand (j i : nat)             (* it hands its task to a waiting worker *)
| LReceive (i : nat)            (* worker i receives from tasks *)
| LNotice (i : nat)             (* worker i takes the shutdown case *)
| LNested (i t : nat)           (* the task of worker i calls Submit *)
| LNestedSend (i : nat)         (* and sends *)
| LNestedHand (i k : nat)       (* or hands to the waiting worker k *)
| LFinish (i : nat)             (* the task of worker i ends *)
| LStop | LCloseShutdown | LCloseTasks.   (* the stages of Shutdown *)

(** A worker at the channel: the first task of the buffer, the end of the [range]
    over a closed channel, or the nil task of a closed channel in the [select]. *)
Definition receive (i : nat) (ranging : bool) (p : Pool) : option Pool :=
  match tasks p with
  | t :: ts => Some (set_worker i (Running ranging t) (with_tasks ts p))
  | [] => if closed p then Some (if ranging then set_worker i Exited p else p) else None
  end.

(** A send that meets a waiting receiver: the buffer is empty. *)
Definition hand (t k : nat) (p : Pool) : option Pool :=
  match workers p !! k with
  | Some (Waiting r) =>
    if negb (closed p) && bool_decide (tasks p = [])
    then Some (set_worker k (Running r t) (with_accepted (accepted p ++ [t]) p)) else None
  | _ => None
  end.

(** One step; [None] when it is not possible. *)
Definition step (l : Label) (p : Pool) : option Pool :=
  match l with
  | LSubmit t => Some (if running p then with_senders (senders p ++ [t]) p else refuse t p)
  | LSend j =>
    match senders p !! j with
    | Some t => send t (with_senders (delete j (senders p)) p)
    | None => None
    end
  | LHand j i =>
    match senders p !! j with
    | Some t => hand t i (with_senders (delete j (senders p)) p)
    | None => None
    end
  | LReceive i => match workers p !! i with Some (Waiting r) => receive i r p | _ => None end
  | LNotice i =>
    match workers p !! i with
    | Some (Waiting false) => if shutdown p then Some (set_worker i (Waiting true) p) else None
    | _ => None
    end
  | LNested i t =>
    match workers p !! i with
    | Some (Running r c) => Some (if running p then set_worker i (Sending r c t) p else refuse t p)
    | _ => None
    end
  | LNestedSend i =>
    match workers p !! i with
    | Some (Sending r c t) => send t (set_worker i (Running r c) p)
    | _ => None
    end
  | LNestedHand i k =>
    match workers p !! i with
    | Some (Sending r c t) => hand t k (set_worker i (Running r c) p)
    | _ => None
    end
  | LFinish i =>
    match workers p !! i with
    | Some (Running r c) => Some (set_worker i (Waiting r) (with_executed (executed p ++ [c]) p))
    | _ => None
    end
  | LStop => Some (mkPool (size p) (tasks p) (closed p) (shutdown p) false (workers p) (senders p) (accepted p) (executed p) (refused p))
  | LCloseShutdown =>
    if running p || shutdown p then None
    else Some (mkPool (size p) (tasks p) (closed p) true (running p) (workers p) (senders p) (accepted p) (executed p) (refused p))
  | LCloseTasks =>
    if negb (shutdown p) || closed p then None
    else Some (mkPool (size p) (tasks p) true (shutdown p) (running p) (workers p) (senders p) (accepted p) (executed p) (refused p))
  end.

(** A run; steps that are not possible do not occur. *)
Fixpoint run (ls : list Label) (p : Pool) : option Pool :=
  match ls with
  | [] => Some p
  | l :: ls => p ← step l p; run ls p
  end.

(** [Shutdown] returned: both channels are closed and [waitGroup] is at zero. *)
Definition Shutdown_returned (p : Pool) : bool := closed p && forallb (λ w, bool_decide (w = Exited)) (workers p).

(** The task a worker runs, and the one it is sending. *)
Definition holds (w : Worker) : list nat := match w with Running _ c | Sending _ c _ => [c] | _ => [] end.
Definition sends (w : Worker) : list nat := match w with Sending _ _ t => [t] | _ => [] end.

(** The tasks the labels of a run submitted. *)
Definition submits (l : Label) : list nat := match l with LSubmit t | LNested _ t => [t] | _ => [] end.

Definition in_hand (f : Worker → list nat) (ws : list Worker) : list nat := concat (f <$> ws).
Arguments in_hand : simpl never.

(** Every submitted task is with a caller, accepted or refused; every accepted one
    waits, runs or has run; a worker exits only from an empty closed channel. *)
Record inv (sub : list nat) (p : Pool) : Prop := mkInv {
  i_submitted : sub ≡ₚ senders p ++ in_hand sends (workers p) ++ accepted p ++ refused p;
  i_accepted : accepted p ≡ₚ tasks p ++ in_hand holds (workers p) ++ executed p;
  i_exited : Exited ∈ workers p → closed p = true ∧ tasks p = [];
  i_stages : (closed p = true → shutdown p = true) ∧ (shutdown p = true → running p = false)
}.

(** ** Accounting *)

(** Permutations by counting: both sides are sums of the counts of their parts. *)
Definition count (x : nat) (l : list nat) : nat := count_occ Nat.eq_dec l x.

Arguments count : simpl never.

Lemma count_perm (l k : list nat) : l ≡ₚ k ↔ ∀ x, count x l = count x k.
Proof. apply (Permutation_count_occ Nat.eq_dec). Qed.
Lemma count_app x l k : count x (l ++ k) = (count x l + count x k)%nat.
Proof. apply count_occ_app. Qed.
Lemma count_one x y l : count x (y :: l) = (count x [y] + count x l)%nat.
Proof. exact (count_app x [y] l). Qed.
Lemma count_nil x : count x [] = 0%nat.
Proof. done. Qed.
Lemma count_delete x j (l : list nat) t : l !! j = Some t → count x l = (count x [t] + count x (delete j l))%nat.
Proof. intros H. rewrite <- count_app. apply count_perm. rewrite (delete_Permutation l j t H) at 1. done. Qed.

Lemma count_set f i w w' ws x :
  ws !! i = Some w → (count x (f w) + count x (in_hand f (<[i := w']> ws)) = count x (f w') + count x (in_hand f ws))%nat.
Proof.
  unfold in_hand. revert i.
  induction ws as [|v l IH]; intros [|i]; [done..|intros [= ->]|intros H%IH];
    [change (<[0%nat:=w']> (w :: l)) with (w' :: l)|change (<[S i:=w']> (v :: l)) with (v :: <[i:=w']> l)];
    rewrite !fmap_cons; cbn [concat]; rewrite !count_app; lia.
Qed.

Lemma elem_set w w' i (l : list Worker) : w ∈ <[i := w']> l → w = w' ∨ w ∈ l.
Proof. intros [j Hj]%list_elem_of_lookup_1. apply list_lookup_insert_Some in Hj as [(_&->&_)|[_ Hj]]; [by left|right; by eapply list_elem_of_lookup_2]. Qed.

Lemma set_kept i w' (l : list Worker) (P : Prop) : w' ≠ Exited → (Exited ∈ l → P) → Exited ∈ <[i := w']> l → P.
Proof. intros He C [?|?]%elem_set; [congruence|auto]. Qed.

(** Solves the two accounts of an invariant from those of the state before. *)
Ltac account A B :=
  apply count_perm; let x := fresh "x" in intros x;
  rewrite count_perm in A, B; specialize (A x); specialize (B x);
  cbn in *;
  repeat match goal with
  | |- context [count x (?l ++ ?k)] => rewrite (count_app x l k)
  | H : context [count x (?l ++ ?k)] |- _ => rewrite (count_app x l k) in H
  | H : _ !! ?i = Some _ |- context [count x (in_hand ?f (<[?i := ?w]> ?q))] =>
    let E := fresh in pose proof (count_set f i _ w q x H) as E; cbn in E;
    revert E; generalize (count x (in_hand f (<[i := w]> q))); intros
  | |- context [count x (?y :: ?l)] => lazymatch l with [] => fail | _ => rewrite (count_one x y l) end
  | H : context [count x (?y :: ?l)] |- _ => lazymatch l with [] => fail | _ => rewrite (count_one x y l) in H end
  end; rewrite ?count_nil in *; try lia.

Lemma inv_perm sub sub' p : sub ≡ₚ sub' → inv sub p → inv sub' p.
Proof. intros Hp [A B C D]. split; try done. by rewrite <- Hp. Qed.

Lemma inv_sender j t sub p :
  senders p !! j = Some t → inv sub p → ∃ sub', sub ≡ₚ t :: sub' ∧ inv sub' (with_senders (delete j (senders p)) p).
Proof.
  intros Hj [A B C D]. exists (delete j (senders p) ++ in_hand sends (workers p) ++ accepted p ++ refused p). split; [|by split].
  by rewrite A, (delete_Permutation _ _ _ Hj) at 1.
Qed.

Lemma inv_nested i r c t sub p :
  workers p !! i = Some (Sending r c t) → inv sub p → ∃ sub', sub ≡ₚ t :: sub' ∧ inv sub' (set_worker i (Running r c) p).
Proof.
  intros Hi [A B C D].
  exists (senders p ++ in_hand sends (<[i := Running r c]> (workers p)) ++ accepted p ++ refused p).
  pose proof (set_kept i (Running r c) (workers p) _ ltac:(done) C) as C'.
  split; [account A B|split; try done; account A B].
Qed.

Lemma inv_pool_send t sub p p' : send t p = Some p' → inv sub p → inv (t :: sub) p'.
Proof.
  intros Hs [A B C D]. unfold send in Hs. destruct (closed p) eqn:Ec; [|destruct (bool_decide _); [|done]];
    injection Hs as <-; (split; cbn; try done; try account A B); rewrite ?Ec; try done; intros Hx%C; destruct Hx; done.
Qed.

Lemma inv_hand t k sub p p' : hand t k p = Some p' → inv sub p → inv (t :: sub) p'.
Proof.
  intros Hs [A B C D]. unfold hand in Hs. destruct (workers p !! k) as [[r| | |]|] eqn:Hk; try done.
  destruct (negb _ && _) eqn:Eb; [|done]. injection Hs as <-.
  pose proof (set_kept k (Running r t) (workers p) _ ltac:(done) C) as C'.
  split; cbn; try done; account A B.
Qed.

Lemma inv_receive i r sub p p' : workers p !! i = Some (Waiting r) → receive i r p = Some p' → inv sub p → inv sub p'.
Proof.
  intros Hw Hs Hi. pose proof Hi as [A B C D]. unfold receive in Hs.
  destruct (tasks p) as [|t ts] eqn:Et; [destruct (closed p) eqn:Ec; [|done]; destruct r|]; injection Hs as <-; [|done|].
  - split; cbn; rewrite ?Et, ?Ec; try done; account A B.
  - pose proof (set_kept i (Running r t) (workers p) _ ltac:(done) C) as C'.
    split; cbn; try done; [account A B..|]. intros Hx%C'. by destruct Hx.
Qed.

Lemma inv_pool_step l sub p p' : step l p = Some p' → inv sub p → inv (submits l ++ sub) p'.
Proof.
  intros Hs Hi. pose proof Hi as [A B C D]. destruct l as [t|j|j i|i|i|i t|i|i k|i| | |]; cbn in Hs |- *.
  - injection Hs as <-. destruct (running p) eqn:Er; split; cbn; try done; try account A B; by rewrite ?Er.
  - destruct (senders p !! j) as [t|] eqn:Hj; [|done]. destruct (inv_sender _ _ _ _ Hj Hi) as (sub'&Hp&Hi').
    eapply inv_perm; [by symmetry|]. by eapply inv_pool_send.
  - destruct (senders p !! j) as [t|] eqn:Hj; [|done]. destruct (inv_sender _ _ _ _ Hj Hi) as (sub'&Hp&Hi').
    eapply inv_perm; [by symmetry|]. by eapply inv_hand.
  - destruct (workers p !! i) as [[r| | |]|] eqn:Hw; try done. by eapply inv_receive.
  - destruct (workers p !! i) as [[[]| | |]|] eqn:Hw; try done. destruct (shutdown p) eqn:Es; [|done]. injection Hs as <-.
    pose proof (set_kept i (Waiting true) (workers p) _ ltac:(done) C) as C'.
    split; cbn; try done; try account A B; by rewrite Es.
  - destruct (workers p !! i) as [[|r c| |]|] eqn:Hw; try done. destruct (running p) eqn:Er; injection Hs as <-.
    + pose proof (set_kept i (Sending r c t) (workers p) _ ltac:(done) C) as C'.
      split; cbn; try done; try account A B; by rewrite ?Er.
    + split; cbn; try done; try account A B; by rewrite ?Er.
  - destruct (workers p !! i) as [[| |r c t|]|] eqn:Hw; try done. destruct (inv_nested _ _ _ _ _ _ Hw Hi) as (sub'&Hp&Hi').
    eapply inv_perm; [by symmetry|]. by eapply inv_pool_send.
  - destruct (workers p !! i) as [[| |r c t|]|] eqn:Hw; try done. destruct (inv_nested _ _ _ _ _ _ Hw Hi) as (sub'&Hp&Hi').
    eapply inv_perm; [by symmetry|]. by eapply inv_hand.
  - destruct (workers p !! i) as [[|r c| |]|] eqn:Hw; try done. injection Hs as <-.
    pose proof (set_kept i (Waiting r) (workers p) _ ltac:(done) C) as C'. split; cbn; try done; account A B.
  - injection Hs as <-. split; cbn; try done; naive_solver.
  - destruct (running p || shutdown p) eqn:Eb; [done|]. injection Hs as <-. boolp. split; cbn; try done; naive_solver.
  - destruct (negb (shutdown p) || closed p) eqn:Eb; [done|]. injection Hs as <-. boolp. split; cbn; try done; naive_solver.
Qed.

Definition submitted (ls : list Label) : list nat := concat (submits <$> ls).

Lemma inv_pool_run ls sub p p' : run ls p = Some p' → inv sub p → inv (submitted ls ++ sub) p'.
Proof.
  revert sub p. induction ls as [|l ls IH]; cbn; intros sub p; [by intros [= <-]|].
  intros (p1&Hs&Hr)%bind_Some Hi. apply (inv_pool_step _ _ _ _ Hs) in Hi. apply (IH _ _ Hr) in Hi.
  eapply inv_perm; [|exact Hi]. unfold submitted. cbn. by rewrite !app_assoc, (Permutation_app_comm (submits l)).
Qed.

Lemma in_hand_idle f n : f (Waiting false) = [] → in_hand f (repeat (Waiting false) n) = [].
Proof. intros Hf. unfold in_hand. induction n as [|n IH]; [done|]. cbn. by rewrite Hf, IH. Qed.

Lemma inv_new n m : inv [] (NewSimpleThreadPool n m).
Proof.
  split; cbn; rewrite ?in_hand_idle by done; try done. intros [j Hj]%list_elem_of_lookup_1.
  apply list_elem_of_lookup_2, list_elem_of_In, repeat_spec in Hj. done.
Qed.

Lemma in_hand_exited f ws : f Exited = [] → forallb (λ w, bool_decide (w = Exited)) ws = true → in_hand f ws = [].
Proof.
  intros Hf. unfold in_hand. induction ws as [|w ws IH]; [done|]. cbn. intros [Hw H]%andb_true_iff.
  apply bool_decide_eq_true in Hw as ->. by rewrite Hf, IH.
Qed.

(** The workers of a run are as many as were started. *)
Lemma workers_step l p p' : step l p = Some p' → length (workers p') = length (workers p).
Proof.
  assert (Hsend : ∀ t q q', send t q = Some q' → workers q' = workers q).
  { intros t q q'. unfold send. destruct (closed q); [by intros [= <-]|]. destruct (bool_decide _); [|done]. by intros [= <-]. }
  assert (Hhand : ∀ t k q q', hand t k q = Some q' → length (workers q') = length (workers q)).
  { intros t k q q'. unfold hand. destruct (workers q !! k) as [[]|]; try done. destruct (negb _ && _); [|done].
    intros [= <-]. cbn. by rewrite length_insert. }
  destruct l; cbn; unfold receive; intros H; repeat case_match; simplify_eq/=; rewrite ?length_insert; try done;
    match goal with
    | H : send _ _ = Some _ |- _ => apply Hsend in H as ->
    | H : hand _ _ _ = Some _ |- _ => apply Hhand in H as ->
    end; cbn; by rewrite ?length_insert.
Qed.

Lemma workers_run ls p p' : run ls p = Some p' → length (workers p') = length (workers p).
Proof.
  revert p. induction ls as [|l ls IH]; cbn; intros p; [by intros [= <-]|].
  intros (p1&Hs&Hr)%bind_Some. by rewrite (IH _ Hr), (workers_step _ _ _ Hs).
Qed.

(** C37: The executor of a push consumer runs each task it accepts once, also through a
    shutdown.  In every run of a pool with at least one worker, each submitted task
    is still with its caller, was refused, waits in the channel, runs or was
    executed; once [Shutdown] has returned the executed tasks are exactly the
    accepted ones, none twice and none left behind, and no worker still sends. *)
Theorem pool_drains n m ls p :
  (0 < m)%nat → run ls (NewSimpleThreadPool n m) = Some p →
  submitted ls ≡ₚ senders p ++ in_hand sends (workers p) ++ refused p ++ tasks p ++ in_hand holds (workers p) ++ executed p ∧
  (NoDup (submitted ls) → NoDup (executed p)) ∧
  (Shutdown_returned p = true → executed p ≡ₚ accepted p ∧ submitted ls ≡ₚ senders p ++ refused p ++ executed p).
Proof.
  intros Hm Hr. pose proof (workers_run _ _ _ Hr) as Hl. pose proof (inv_pool_run _ _ _ _ Hr (inv_new n m)) as [A B C D].
  rewrite app_nil_r in A. assert (Hall : submitted ls ≡ₚ senders p ++ in_hand sends (workers p) ++ refused p ++ tasks p ++ in_hand holds (workers p) ++ executed p) by account A B.
  split_and!; [done| |].
  - intros Hn. rewrite Hall in Hn. by apply NoDup_app in Hn as (_&_&(_&_&(_&_&(_&_&(_&_&?)%NoDup_app)%NoDup_app)%NoDup_app)%NoDup_app).
  - intros [Hc He]%andb_true_iff. rewrite (in_hand_exited sends _ eq_refl He) in Hall. rewrite (in_hand_exited holds _ eq_refl He) in Hall, B.
    assert (Ht : tasks p = []).
    { apply C. destruct (workers p) as [|w ws] eqn:E; cbn in Hl; rewrite ?repeat_length in Hl; [lia|].
      cbn in He. apply andb_true_iff in He as [Hw _]. apply bool_decide_eq_true in Hw as ->. apply elem_of_cons. by left. }
    rewrite Ht in Hall, B. cbn in *. done.
Qed.

(** ** Shutdown ends *)

(** The steps a worker still has to take behind closed channels. *)
Definition steps_of (w : Worker) : nat :=
  match w with Waiting r => if r then 1 else 2 | Running r _ => if r then 2 else 3 | Sending r _ _ => if r then 3 else 4 | Exited => 0 end.
Definition steps_left (p : Pool) : nat := (2 * length (tasks p) + sum_list_with steps_of (workers p))%nat.

Lemma sum_set i w w' ws : ws !! i = Some w →
  (steps_of w + sum_list_with steps_of (<[i := w']> ws) = steps_of w' + sum_list_with steps_of ws)%nat.
Proof.
  revert i. induction ws as [|v ws IH]; intros [|i]; [done..|intros [= ->]|intros H%IH];
    [change (<[0%nat:=w']> (w :: ws)) with (w' :: ws)|change (<[S i:=w']> (v :: ws)) with (v :: <[i:=w']> ws)]; cbn [sum_list_with]; lia.
Qed.

Ltac measure := unfold steps_left; cbn;
  match goal with H : _ !! ?i = Some ?w |- context [<[?i := ?w']> ?ws] => pose proof (sum_set i w w' ws H) as Hsum; cbn in Hsum; lia end.

(** [Shutdown] reached its wait. *)
Definition waits (p : Pool) : Prop := closed p = true ∧ shutdown p = true ∧ running p = false.

(** Behind closed channels no step makes the work longer. *)
Lemma steps_mono l p p' : waits p → step l p = Some p' → waits p' ∧ (steps_left p' <= steps_left p)%nat.
Proof.
  intros (Hc&Hs&Hr). destruct l; cbn; unfold send, hand, receive; cbn; rewrite ?Hc, ?Hs, ?Hr; cbn; intros H;
    repeat case_match; simplify_eq/=; (split; [by split|]); try done; try measure.
  all: unfold steps_left; cbn; try lia.
  all: repeat match goal with
  | H : tasks _ = _ |- _ => rewrite H; clear H
  | H : workers _ !! ?i = Some ?w |- context [<[?i := ?w']> ?ws] => pose proof (sum_set i w w' ws H); clear H
  end; cbn in *; repeat case_match; lia.
Qed.

(** A worker that has not exited can take a step, and its work gets shorter. *)
Lemma worker_moves p i w : waits p → workers p !! i = Some w → w ≠ Exited →
  ∃ l p', step l p = Some p' ∧ submits l = [] ∧ (steps_left p' < steps_left p)%nat.
Proof.
  intros (Hc&Hs&Hr) Hi Hw. destruct w as [[]|r c|r c t|]; [| | | |done].
  - exists (LReceive i). cbn [step]. rewrite Hi. unfold receive. destruct (tasks p) as [|t ts] eqn:Et; [rewrite Hc|].
    + exists (set_worker i Exited p). split_and!; [done..|]. measure.
    + exists (set_worker i (Running true t) (with_tasks ts p)). split_and!; [done..|]. unfold steps_left. rewrite Et.
      pose proof (sum_set i _ (Running true t) _ Hi). cbn in *. lia.
  - exists (LNotice i). cbn. rewrite Hi, Hs. eexists; split_and!; [done..|]. measure.
  - exists (LFinish i). cbn. rewrite Hi. eexists; split_and!; [done..|]. destruct r; measure.
  - exists (LNestedSend i). cbn. rewrite Hi. unfold send. cbn. rewrite Hc. eexists; split_and!; [done..|]. destruct r; measure.
Qed.

Lemma not_returned p : closed p = true → Shutdown_returned p = false → ∃ i w, workers p !! i = Some w ∧ w ≠ Exited.
Proof.
  unfold Shutdown_returned. intros ->. cbn. induction (workers p) as [|w ws IH]; [done|]. cbn. intros [H|H]%andb_false_iff.
  - exists 0%nat, w. split; [done|]. by apply bool_decide_eq_false in H.
  - destruct (IH H) as (i&x&Hx&Hn). by exists (S i), x.
Qed.

(** C38: [Shutdown] of the executor ends.  Whatever ran before, once it has closed its
    channels no step of any goroutine makes the remaining work longer, and there are
    at most twice as many steps left as tasks wait plus four for each worker: the
    workers reach the end of their loops without further submissions, and
    [Shutdown] returns. *)
Theorem pool_shutdown_ends n m ls p :
  run ls (NewSimpleThreadPool n m) = Some p → closed p = true →
  (∀ l p', step l p = Some p' → (steps_left p' <= steps_left p)%nat) ∧
  ∃ ks p', run ks p = Some p' ∧ submitted ks = [] ∧ Shutdown_returned p' = true ∧
    (length ks <= steps_left p)%nat ∧ (steps_left p <= 2 * length (tasks p) + 4 * length (workers p))%nat.
Proof.
  intros Hr Hc. pose proof (inv_pool_run _ _ _ _ Hr (inv_new n m)) as [_ _ _ [D1 D2]].
  assert (Hw : waits p) by (split_and!; auto). split; [intros l p' H; by apply (steps_mono _ _ _ Hw H)|].
  assert (Hb : (steps_left p <= 2 * length (tasks p) + 4 * length (workers p))%nat).
  { unfold steps_left. assert (sum_list_with steps_of (workers p) <= 4 * length (workers p))%nat; [|lia].
    induction (workers p) as [|w ws IH]; cbn; [lia|]. destruct w as [[]|[]|[]|]; cbn; lia. }
  clear Hr Hc D1 D2. remember (steps_left p) as k eqn:Ek. assert (Hk : (steps_left p <= k)%nat) by lia. clear Ek.
  cut (∃ ks p', run ks p = Some p' ∧ submitted ks = [] ∧ Shutdown_returned p' = true ∧ (length ks <= k)%nat); [naive_solver|].
  clear Hb. revert p Hw Hk. induction k as [k IH] using lt_wf_ind. intros p Hw Hk.
  destruct (Shutdown_returned p) eqn:Er; [exists [], p; split_and!; [done..|cbn; lia]|].
  destruct (not_returned p (proj1 Hw) Er) as (i&w&Hi&Hn). destruct (worker_moves p i w Hw Hi Hn) as (l&p1&Hs&Hl&Hlt).
  destruct (IH (steps_left p1) ltac:(lia) p1 (proj1 (steps_mono _ _ _ Hw Hs)) ltac:(lia)) as (ks&p2&H1&H2&H3&H4).
  exists (l :: ks), p2. cbn. rewrite Hs. unfold submitted in *. cbn. rewrite Hl, H2. split_and!; [done..|lia].
Qed.

(** ** Tasks that submit tasks *)

(** The channel is full and every worker is blocked in a [Submit] of its own task. *)
Definition jammed (p : Pool) : Prop :=
  closed p = false ∧ (size p <= length (tasks p))%nat ∧ Forall (λ w, ∃ r c t, w = Sending r c t) (workers p).

Lemma jammed_step l p p' : jammed p → l ≠ LCloseTasks → step l p = Some p' → jammed p' ∧ executed p' = executed p.
Proof.
  intros (Hc&Hf&Hw) Hn.
  assert (Hs : ∀ i w, workers p !! i = Some w → ∃ r c t, w = Sending r c t) by (intros i w Hi; by apply (Forall_lookup_1 _ _ _ _ Hw Hi)).
  assert (Hsend : ∀ t q, closed q = false → tasks q = tasks p → size q = size p → send t q = None).
  { intros t q Hq Ht Hz. unfold send. rewrite Hq, Ht, Hz, bool_decide_eq_false_2 by lia. done. }
  destruct l as [t|j|j i|i|i|i t|i|i k|i| | |]; cbn; try done;
    try (destruct (workers p !! i) as [w|] eqn:Hi; [|done]; destruct (Hs i w Hi) as (r&c&t'&->)); try done.
  - intros [= <-]. by destruct (running p).
  - destruct (senders p !! j); [|done]. by rewrite Hsend.
  - destruct (senders p !! j); [|done]. unfold hand. cbn. destruct (workers p !! i) as [w|] eqn:Hi; [|done]. by destruct (Hs i w Hi) as (?&?&?&->).
  - by rewrite Hsend.
  - unfold hand. cbn. destruct (<[i:=_]> (workers p) !! k) as [w|] eqn:Hk; [|done].
    apply list_lookup_insert_Some in Hk as [(_&<-&_)|[_ Hk]]; [done|]. by destruct (Hs k w Hk) as (?&?&?&->).
  - by intros [= <-].
  - destruct (running p || shutdown p); [done|]. by intros [= <-].
Qed.

(** Tasks that submit tasks can stop the executor for ever.  When the channel is full
    and each worker runs a task that is submitting another one, no task is executed
    any more, in no run in which [Shutdown] does not close the channel. *)
Theorem pool_jams ls p p' :
  jammed p → LCloseTasks ∉ ls → run ls p = Some p' → jammed p' ∧ executed p' = executed p.
Proof.
  revert p. induction ls as [|l ls IH]; intros p Hj Hn; cbn; [by intros [= <-]|]. intros (p1&Hs&Hr)%bind_Some.
  apply not_elem_of_cons in Hn as [Hl Hn]. destruct (jammed_step l p p1 Hj ltac:(congruence) Hs) as [Hj' He].
  destruct (IH p1 Hj' Hn Hr) as [H1 H2]. split; [done|congruence].
Qed.

(** One worker and room for one task: task 0 runs, task 1 waits, and task 0 submits task 2. *)
Definition ex_jam : list Label := [LSubmit 0; LSend 0; LReceive 0; LSubmit 1; LSend 0; LNested 0 2].
Definition ex_jammed : Pool := default (NewSimpleThreadPool 1 1) (run ex_jam (NewSimpleThreadPool 1 1)).

Lemma pool_jams_witness : executed (default ex_jammed (run [LSubmit 3; LStop; LCloseShutdown] ex_jammed)) = [].
Proof.
  refine (proj2 (pool_jams [LSubmit 3; LStop; LCloseShutdown] ex_jammed _ _ _ eq_refl)).
  - split_and!; [reflexivity|vm_compute; lia|]. vm_compute. repeat constructor. eauto.
  - intros H%list_elem_of_In. cbn in H. intuition discriminate.
Defined.

(** A run of two workers through a shutdown: task 2 is refused. *)
Definition ex_drain : list Label :=
  [LSubmit 0; LSend 0; LSubmit 1; LSend 0; LReceive 0; LStop; LSubmit 2; LCloseShutdown; LNotice 1; LCloseTasks;
   LReceive 1; LFinish 0; LNotice 0; LReceive 0; LFinish 1; LReceive 1].
Definition ex_drained : Pool := default (NewSimpleThreadPool 4 2) (run ex_drain (NewSimpleThreadPool 4 2)).

Lemma pool_drains_witness : executed ex_drained ≡ₚ accepted ex_drained ∧ executed ex_drained = [0; 1]%nat ∧ refused ex_drained = [2]%nat.
Proof.
  assert (Hr : run ex_drain (NewSimpleThreadPool 4 2) = Some ex_drained) by (vm_compute; reflexivity).
  assert (Hd : Shutdown_returned ex_drained = true) by (vm_compute; reflexivity).
  split; [|vm_compute; split; reflexivity].
  exact (proj1 (proj2 (proj2 (pool_drains 4 2 ex_drain ex_drained ltac:(lia) Hr)) Hd)).
Defined.

(** The same run up to the closed channels. *)
Definition ex_closed : Pool := default (NewSimpleThreadPool 4 2) (run (take 10 ex_drain) (NewSimpleThreadPool 4 2)).

Lemma pool_shutdown_ends_witness : ∃ ks p', run ks ex_closed = Some p' ∧ Shutdown_returned p' = true.
Proof.
  assert (Hr : run (take 10 ex_drain) (NewSimpleThreadPool 4 2) = Some ex_closed) by (vm_compute; reflexivity).
  destruct (proj2 (pool_shutdown_ends 4 2 (take 10 ex_drain) ex_closed Hr ltac:(vm_compute; reflexivity))) as (ks&p'&H1&_&H2&_).
  exists ks, p'. split; [exact H1|exact H2].
Defined.
End pool.
