(* ===== verification/DriverSettings.v ===== *)
(** * transport/rocketmq/internal/driver: settings of clients

    The settings a client tells the brokers and those it takes from them, for each
    kind of client: [push_consumer_options.go], [lite_push_consumer_options.go],
    [simple_consumer_options.go] and [producer_options.go], behind the interface
    [ClientSettings] of [client_options.go], with the part of [client.go] that calls
    it.  Protobuf messages are records, absent sub-messages [None]; the float of a
    backoff multiplier is its bits; the user agent and the client id are left out. *)

From S2P Require Import Prelude GoStd Driver DriverProducer.

Module settings.

(** ** Filters: consumer_options.go *)

(** [FilterExpressionType] is an int32; the constants are [iota]. *)
Definition SQL92 : Z := 0.
Definition TAG : Z := 1.
Definition UNSPECIFIED : Z := 2.
Record FilterExpression : Type := mkFilter { expression : string; expressionType : Z }.
Definition NewFilterExpression (e : string) : FilterExpression := mkFilter e TAG.
Definition NewFilterExpressionWithType (e : string) (t : Z) : FilterExpression := mkFilter e t.
Definition SUB_ALL : FilterExpression := NewFilterExpression "*".

(** ** Messages *)

Inductive FilterType : Type := FilterType_SQL | FilterType_TAG | FilterType_FILTER_TYPE_UNSPECIFIED.
Inductive ClientType : Type := PRODUCER | PUSH_CONSUMER | SIMPLE_CONSUMER | LITE_PUSH_CONSUMER.
#[global] Instance ClientType_eq_dec : EqDecision ClientType.
Proof. solve_decision. Defined.
Record Resource : Type := mkResource { r_namespace : string; r_name : string }.

Inductive Strategy : Type := ExponentialBackoff (max initial multiplier : Z) | CustomizedBackoff (next : list Z).
Record RetryPolicy : Type := mkRetryPolicy { MaxAttempts : Z; strategy : option Strategy }.
Record Metric : Type := mkMetric { m_on : bool; m_endpoints : list string }.

(** An entry of a subscription. *)
Record SubscriptionEntry : Type := mkEntry { e_topic : Resource; e_expression : string; e_type : FilterType }.

Record Subscription : Type := mkSubscription {
  s_group : option Resource; s_entries : list SubscriptionEntry; s_fifo : bool; s_receiveBatchSize : Z; s_longPollingTimeout : Z;
  s_liteSubscriptionQuota : option Z; s_maxLiteTopicSize : option Z
}.
Record Publishing : Type := mkPublishing { p_topics : list Resource; p_maxBodySize : Z; p_validateMessageType : bool }.

Inductive PubSub : Type := PubSub_Publishing (p : Publishing) | PubSub_Subscription (s : option Subscription).
Record Settings : Type := mkSettings {
  t_clientType : option ClientType; t_accessPoint : list string; t_requestTimeout : Z; t_pubSub : option PubSub;
  t_backoffPolicy : option RetryPolicy; t_metric : option Metric
}.

(** The getters of a subscription that may be absent. *)
Definition GetFifo (s : option Subscription) : bool := from_option s_fifo false s.
Definition GetReceiveBatchSize (s : option Subscription) : Z := from_option s_receiveBatchSize 0 s.
Definition GetLongPollingTimeout (s : option Subscription) : Z := from_option s_longPollingTimeout 0 s.

(** ** The interface *)

(** [ClientSettings]: what [client.go] needs of the settings of a client. *)
Class ClientSettings (S : Type) : Type := {
  applySettingsCommand : Settings → S → option error * S;
  toProtobuf : S → Settings;
  GetClientType : S → ClientType;
  GetRequestTimeout : S → Z
}.

(** The entries told to a broker, from the subscriptions in the order of a Range. *)
Definition filter_type (t : Z) : FilterType :=
  if t =? SQL92 then FilterType_SQL else if t =? TAG then FilterType_TAG else FilterType_FILTER_TYPE_UNSPECIFIED.
Definition entry_of (ns : string) (x : string * FilterExpression) : SubscriptionEntry :=
  mkEntry (mkResource ns x.1) (expression x.2) (filter_type (expressionType x.2)).
Definition entries (ns : string) (subs : gmap string FilterExpression) : list SubscriptionEntry := entry_of ns <$> map_to_list subs.

(** ** Push consumers *)

Record pushConsumerSettings : Type := mkPush {
  clientType : ClientType; endpoints : list string; retryPolicy : RetryPolicy; requestTimeout : Z;
  isFifo : bool; receiveBatchSize : Z; groupName : Resource; longPollingTimeout : Z;
  subscriptionExpressions : gmap string FilterExpression
}.
Definition set_delivery (fifo : bool) (batch poll : Z) (s : pushConsumerSettings) : pushConsumerSettings :=
  mkPush (clientType s) (endpoints s) (retryPolicy s) (requestTimeout s) fifo batch (groupName s) poll (subscriptionExpressions s).
Definition set_retry (r : RetryPolicy) (s : pushConsumerSettings) : pushConsumerSettings :=
  mkPush (clientType s) (endpoints s) r (requestTimeout s) (isFifo s) (receiveBatchSize s) (groupName s) (longPollingTimeout s) (subscriptionExpressions s).
Definition set_type (t : ClientType) (s : pushConsumerSettings) : pushConsumerSettings :=
  mkPush t (endpoints s) (retryPolicy s) (requestTimeout s) (isFifo s) (receiveBatchSize s) (groupName s) (longPollingTimeout s) (subscriptionExpressions s).
Definition force_fifo (s : pushConsumerSettings) : pushConsumerSettings := set_delivery true (receiveBatchSize s) (longPollingTimeout s) s.

(** The fields are written one after the other: an error keeps the earlier writes. *)
Definition push_applySettingsCommand (c : Settings) (s : pushConsumerSettings) : option error * pushConsumerSettings :=
  match t_pubSub c with
  | None => (Some (ErrMsg "onSettingsCommand err = pubSub is nil"), s)
  | Some (PubSub_Publishing _) => (Some (ErrMsg "[bug] Issued settings not match with the client type"), s)
  | Some (PubSub_Subscription v) =>
    let s := set_delivery (GetFifo v) (GetReceiveBatchSize v) (GetLongPollingTimeout v) s in
    match t_backoffPolicy c with
    | None => (Some (ErrMsg "onSettingsCommand err = backoffPolicy is nil"), s)
    | Some b =>
      let s := set_retry (mkRetryPolicy (MaxAttempts b) (strategy (retryPolicy s))) s in
      match strategy b with
      | Some st => (None, set_retry (mkRetryPolicy (MaxAttempts b) (Some st)) s)
      | None => (Some (ErrMsg "onSettingsCommand err = unrecognized backoff policy strategy"), s)
      end
    end
  end.

Definition push_toProtobuf (s : pushConsumerSettings) : Settings :=
  mkSettings (Some (clientType s)) (endpoints s) (requestTimeout s)
    (Some (PubSub_Subscription (Some (mkSubscription (Some (groupName s)) (entries (r_namespace (groupName s)) (subscriptionExpressions s))
      false 0 (longPollingTimeout s) None None)))) None None.

#[global] Instance push_settings : ClientSettings pushConsumerSettings :=
  {| applySettingsCommand := push_applySettingsCommand; toProtobuf := push_toProtobuf; GetClientType := clientType; GetRequestTimeout := requestTimeout |}.

(** ** Lite push consumers *)

Record litePushConsumerSettings : Type := mkLite {
  base : pushConsumerSettings; bindTopic : string; liteTopicSet : gset string; liteSubscriptionQuota : Z; maxLiteTopicSize : Z; invisibleDuration : Z
}.
Definition newLitePushConsumerSettings (s : pushConsumerSettings) (bindTopic : string) (invisibleDuration : Z) : litePushConsumerSettings :=
  mkLite s bindTopic ∅ 2000 64 invisibleDuration.
Definition with_base (s : pushConsumerSettings) (l : litePushConsumerSettings) : litePushConsumerSettings :=
  mkLite s (bindTopic l) (liteTopicSet l) (liteSubscriptionQuota l) (maxLiteTopicSize l) (invisibleDuration l).
Definition with_lite_topics (ts : gset string) (l : litePushConsumerSettings) : litePushConsumerSettings :=
  mkLite (base l) (bindTopic l) ts (liteSubscriptionQuota l) (maxLiteTopicSize l) (invisibleDuration l).

Definition lite_applySettingsCommand (c : Settings) (l : litePushConsumerSettings) : option error * litePushConsumerSettings :=
  let '(e, s) := push_applySettingsCommand c (base l) in
  match e with
  | Some _ => (Some (ErrMsg "litePushConsumerSettings applySettingsCommand failed"), with_base s l)
  | None =>
    let l := with_base (force_fifo s) l in
    match t_pubSub c with
    | Some (PubSub_Subscription (Some v)) =>
      (None, mkLite (base l) (bindTopic l) (liteTopicSet l) (default (liteSubscriptionQuota l) (s_liteSubscriptionQuota v))
               (default (maxLiteTopicSize l) (s_maxLiteTopicSize v)) (invisibleDuration l))
    | _ => (Some (ErrMsg "onSettingsCommand err = subscription is nil"), l)
    end
  end.

Definition lite_toProtobuf (l : litePushConsumerSettings) : Settings :=
  let s := base l in
  mkSettings (Some (clientType s)) (endpoints s) (requestTimeout s)
    (Some (PubSub_Subscription (Some (mkSubscription (Some (groupName s)) (entries (r_namespace (groupName s)) (subscriptionExpressions s))
      false 0 (longPollingTimeout s) (Some (liteSubscriptionQuota l)) (Some (maxLiteTopicSize l)))))) None None.

#[global] Instance lite_settings : ClientSettings litePushConsumerSettings :=
  {| applySettingsCommand := lite_applySettingsCommand; toProtobuf := lite_toProtobuf;
     GetClientType l := clientType (base l); GetRequestTimeout l := requestTimeout (base l) |}.

(** ** Simple consumers *)

Record simpleConsumerSettings : Type := mkSimple {
  sc_endpoints : list string; sc_requestTimeout : Z; sc_groupName : Resource; sc_longPollingTimeout : Z;
  sc_subscriptionExpressions : gmap string FilterExpression
}.
Definition simple_applySettingsCommand (c : Settings) (s : simpleConsumerSettings) : option error * simpleConsumerSettings :=
  match t_pubSub c with
  | None => (Some (ErrMsg "onSettingsCommand err = pubSub is nil"), s)
  | Some (PubSub_Publishing _) => (Some (ErrMsg "[bug] Issued settings not match with the client type"), s)
  | Some (PubSub_Subscription _) => (None, s)
  end.
Definition simple_toProtobuf (s : simpleConsumerSettings) : Settings :=
  mkSettings (Some SIMPLE_CONSUMER) (sc_endpoints s) (sc_requestTimeout s)
    (Some (PubSub_Subscription (Some (mkSubscription (Some (sc_groupName s)) (entries (r_namespace (sc_groupName s)) (sc_subscriptionExpressions s))
      false 0 (sc_longPollingTimeout s) None None)))) None None.

#[global] Instance simple_settings : ClientSettings simpleConsumerSettings :=
  {| applySettingsCommand := simple_applySettingsCommand; toProtobuf := simple_toProtobuf;
     GetClientType _ := SIMPLE_CONSUMER; GetRequestTimeout := sc_requestTimeout |}.

(** ** Producers *)

Record producerSettings : Type := mkProducerSettings {
  ps_topics : gmap string Resource; ps_endpoints : list string; ps_retryPolicy : RetryPolicy; ps_requestTimeout : Z;
  ps_validateMessageType : bool; ps_maxBodySizeBytes : Z
}.
Definition producer_applySettingsCommand (c : Settings) (s : producerSettings) : option error * producerSettings :=
  match t_pubSub c with
  | None => (Some (ErrMsg "onSettingsCommand err = pubSub is nil"), s)
  | Some (PubSub_Subscription _) => (Some (ErrMsg "[bug] Issued settings not match with the client type"), s)
  | Some (PubSub_Publishing v) =>
    let retry := match t_backoffPolicy c with
                 | None => ps_retryPolicy s
                 | Some r => mkRetryPolicy (MaxAttempts r)
                     (match strategy r with Some (ExponentialBackoff _ _ _) => strategy r | _ => strategy (ps_retryPolicy s) end)
                 end in
    (None, mkProducerSettings (ps_topics s) (ps_endpoints s) retry (ps_requestTimeout s) (p_validateMessageType v) (p_maxBodySize v))
  end.
Definition producer_toProtobuf (s : producerSettings) : Settings :=
  mkSettings (Some PRODUCER) (ps_endpoints s) (ps_requestTimeout s)
    (Some (PubSub_Publishing (mkPublishing (snd <$> map_to_list (ps_topics s)) 0 false))) (Some (ps_retryPolicy s)) None.

#[global] Instance producer_settings : ClientSettings producerSettings :=
  {| applySettingsCommand := producer_applySettingsCommand; toProtobuf := producer_toProtobuf;
     GetClientType _ := PRODUCER; GetRequestTimeout := ps_requestTimeout |}.

(** What [DriverProducer] keeps of them. *)
Definition producer_view (s : producerSettings) : producer.Settings :=
  producer.mkSettings (MaxAttempts (ps_retryPolicy s)) (ps_validateMessageType s) (ps_maxBodySizeBytes s).
Definition publishing_view (c : Settings) : option (option (bool * Z)) :=
  (λ p, match p with PubSub_Publishing v => Some (p_validateMessageType v, p_maxBodySize v) | PubSub_Subscription _ => None end) <$> t_pubSub c.

(** The settings of a producer refine those the sends are modelled with. *)
Lemma producer_settings_refine c s :
  producer.applySettingsCommand (publishing_view c) (MaxAttempts <$> t_backoffPolicy c) (producer_view s) =
  match applySettingsCommand c s with (None, s') => Ok (producer_view s') | (Some e, _) => Err e end.
Proof. cbn. unfold producer_applySettingsCommand, publishing_view. destruct (t_pubSub c) as [[v|v]|]; cbn; [|done..]. by destruct (t_backoffPolicy c). Qed.

(** ** Commands of the brokers: client.go *)

(** The part of [defaultClient] that settings commands change; the meter is a state
    [M] that [Reset] changes. *)
Record Cli (M S : Type) : Type := mkCli { c_settings : S; c_inited : bool; c_meter : M }.
#[global] Arguments mkCli {M S}. #[global] Arguments c_settings {M S}. #[global] Arguments c_inited {M S}. #[global] Arguments c_meter {M S}.

Section client.
Context {M S : Type} `{!ClientSettings S} (Reset : Metric → M → M).

Definition getSettingsCommand (c : Cli M S) : Settings := toProtobuf (c_settings c).

(** A command that is refused initialises the client too. *)
Definition onSettingsCommand (t : Settings) (c : Cli M S) : option error * Cli M S :=
  let meter := match t_metric t with Some m => Reset m (c_meter c) | None => c_meter c end in
  let '(e, s) := applySettingsCommand t (c_settings c) in (e, mkCli s true meter).
Definition on_commands (ts : list Settings) (c : Cli M S) : Cli M S := fold_left (λ c t, (onSettingsCommand t c).2) ts c.
End client.

(** What a client tells of itself. *)
Definition told_topics (t : Settings) : list (string * string * option FilterType) :=
  match t_pubSub t with
  | Some (PubSub_Publishing p) => (λ r, (r_name r, r_namespace r, None)) <$> p_topics p
  | Some (PubSub_Subscription (Some s)) => (λ e, (r_name (e_topic e), e_expression e, Some (e_type e))) <$> s_entries s
  | _ => []
  end.

(** The laws of the interface: a command of a broker changes neither the type of a
    client nor its timeout nor the topics it tells. *)
Class ClientSettingsLaws (S : Type) `{!ClientSettings S} : Prop := {
  apply_type : ∀ c s, GetClientType (applySettingsCommand c s).2 = GetClientType s;
  apply_timeout : ∀ c s, GetRequestTimeout (applySettingsCommand c s).2 = GetRequestTimeout s;
  apply_topics : ∀ c s, told_topics (toProtobuf (applySettingsCommand c s).2) = told_topics (toProtobuf s);
  told_type : ∀ s, t_clientType (toProtobuf s) = Some (GetClientType s);
  told_timeout : ∀ s, t_requestTimeout (toProtobuf s) = GetRequestTimeout s
}.

Lemma push_kept c s : let s' := (push_applySettingsCommand c s).2 in
  clientType s' = clientType s ∧ requestTimeout s' = requestTimeout s ∧ groupName s' = groupName s ∧
  subscriptionExpressions s' = subscriptionExpressions s ∧ endpoints s' = endpoints s.
Proof.
  unfold push_applySettingsCommand. destruct (t_pubSub c) as [[p|v]|]; [done| |done]. destruct (t_backoffPolicy c) as [b|]; [|done].
  by destruct (strategy b).
Qed.
Lemma lite_kept c l : let l' := (lite_applySettingsCommand c l).2 in
  clientType (base l') = clientType (base l) ∧ requestTimeout (base l') = requestTimeout (base l) ∧ groupName (base l') = groupName (base l) ∧
  subscriptionExpressions (base l') = subscriptionExpressions (base l) ∧ bindTopic l' = bindTopic l ∧ liteTopicSet l' = liteTopicSet l.
Proof.
  unfold lite_applySettingsCommand. pose proof (push_kept c (base l)) as Hk. destruct (push_applySettingsCommand c (base l)) as [[e|] s]; cbn in *; [naive_solver|].
  destruct (t_pubSub c) as [[p|[v|]]|]; cbn; naive_solver.
Qed.

#[global] Instance push_laws : ClientSettingsLaws pushConsumerSettings.
Proof.
  split; try done; intros c s; cbn; destruct (push_kept c s) as (H1&H2&H3&H4&H5); [done..|].
  unfold told_topics, push_toProtobuf. cbn. by rewrite H3, H4.
Qed.
#[global] Instance lite_laws : ClientSettingsLaws litePushConsumerSettings.
Proof.
  split; try done; intros c s; cbn; destruct (lite_kept c s) as (H1&H2&H3&H4&H5&H6); [done..|].
  unfold told_topics, lite_toProtobuf. cbn. by rewrite H3, H4.
Qed.
#[global] Instance simple_laws : ClientSettingsLaws simpleConsumerSettings.
Proof. split; try done; intros c s; cbn; unfold simple_applySettingsCommand; by destruct (t_pubSub c) as [[]|]. Qed.
#[global] Instance producer_laws : ClientSettingsLaws producerSettings.
Proof. split; try done; intros c s; cbn; unfold producer_applySettingsCommand; by destruct (t_pubSub c) as [[]|]. Qed.

(** What no command changes, no sequence of commands changes. *)
Lemma on_commands_keeps {M S A} `{!ClientSettings S} (Reset : Metric → M → M) (f : S → A) ts (c : Cli M S) :
  (∀ t s, f (applySettingsCommand t s).2 = f s) → f (c_settings (on_commands Reset ts c)) = f (c_settings c).
Proof.
  intros Hf. unfold on_commands. revert c. induction ts as [|t ts IH]; intros c; [done|]. cbn. rewrite IH. unfold onSettingsCommand.
  pose proof (Hf t (c_settings c)) as E. by destruct (applySettingsCommand t (c_settings c)).
Qed.

(** Whatever settings commands the brokers send, a client of any kind keeps telling
    them the same type, timeout and topics, and it is initialised after the first
    command, also one it refuses. *)
Lemma on_commands_stable {M S} `{ClientSettingsLaws S} (Reset : Metric → M → M) ts (c : Cli M S) :
  let c' := on_commands Reset ts c in
  t_clientType (getSettingsCommand c') = t_clientType (getSettingsCommand c) ∧
  t_requestTimeout (getSettingsCommand c') = t_requestTimeout (getSettingsCommand c) ∧
  told_topics (getSettingsCommand c') = told_topics (getSettingsCommand c) ∧
  c_inited c' = c_inited c || negb (bool_decide (ts = [])).
Proof.
  cbn. unfold getSettingsCommand. rewrite !told_type, !told_timeout. split_and!.
  - f_equal. apply on_commands_keeps, apply_type.
  - apply on_commands_keeps, apply_timeout.
  - apply (on_commands_keeps Reset (λ s, told_topics (toProtobuf s))), apply_topics.
  - unfold on_commands. destruct ts as [|t ts _] using rev_ind; [cbn; by rewrite orb_false_r|]. rewrite fold_left_app. cbn.
    unfold onSettingsCommand. rewrite (bool_decide_eq_false_2 (_ ++ _ = [])) by (by destruct ts).
    destruct (applySettingsCommand t _). cbn. by rewrite orb_true_r.
Qed.

(** A settings command a lite consumer refuses can take its FIFO delivery away.  A
    complete command leaves the lite consumer in FIFO mode whatever it says; but a
    subscription without a backoff policy is refused only after its FIFO flag was
    written, and the client counts as initialised. *)
Lemma lite_fifo_lost {M} (Reset : Metric → M → M) t v (c : Cli M litePushConsumerSettings) :
  t_pubSub t = Some (PubSub_Subscription (Some v)) →
  let '(e, c') := onSettingsCommand Reset t c in
  c_inited c' = true ∧
  match e with
  | None => isFifo (base (c_settings c')) = true
  | Some _ => isFifo (base (c_settings c')) = s_fifo v ∧ receiveBatchSize (base (c_settings c')) = s_receiveBatchSize v
  end.
Proof.
  intros Ht. unfold onSettingsCommand. cbn. unfold lite_applySettingsCommand, push_applySettingsCommand. rewrite Ht.
  destruct (t_backoffPolicy t) as [b|]; [|done]. by destruct (strategy b).
Qed.

(** A lite consumer of one topic, and the command that misses its backoff policy. *)
Definition ex_push : pushConsumerSettings :=
  mkPush LITE_PUSH_CONSUMER ["10.0.0.1:8081"%string] (mkRetryPolicy 16 None) 3000000000 true 32 (mkResource "" "workers") 30000000000 {["orders"%string := SUB_ALL]}.
Definition ex_subscription : Subscription := mkSubscription None [] false 16 20000000000 None None.
Definition ex_command : Settings := mkSettings None [] 0 (Some (PubSub_Subscription (Some ex_subscription))) None None.
Definition ex_reset (_ : Metric) (u : unit) : unit := u.

End settings.
