(* ===== verification/DriverPush.v ===== *)
(** * transport/rocketmq/internal/driver: life of a push consumer

    Construction, start and stop of push and lite push consumers
    ([push_consumer.go], [lite_push_consumer.go], [push_consumer_options.go]): the
    options, the choice of the consume service, the requests, the hook that counts
    receives, and the wait of [GracefulStop] over the transition system of
    [DriverProcess].  The client function, the parsing of targets and the count of a
    sync.Map are parameters; logs and meters are not modelled. *)

From S2P Require Import Prelude GoStd Driver DriverProducer DriverProcess DriverClient DriverSettings.

Module push.
Import settings.

(** ** Options *)

Record pushConsumerOptions : Type := mkOptions {
  o_subscriptions : option (gmap string FilterExpression); awaitDuration : Z; maxCacheMessageCount : Z; maxCacheMessageSizeInBytes : Z;
  consumptionThreadCount : Z; messageListener : bool; enableFifoConsumeAccelerator : bool
}.
Definition defaultPushConsumerOptions : pushConsumerOptions := mkOptions None 0 1024 (64 * 1024 * 1024) 20 false false.

(** An option changes the options it is applied to. *)
Definition PushConsumerOption : Type := pushConsumerOptions → pushConsumerOptions.
Definition WithPushSubscriptionExpressions (m : gmap string FilterExpression) : PushConsumerOption := λ o,
  mkOptions (Some (m ∪ default ∅ (o_subscriptions o))) (awaitDuration o) (maxCacheMessageCount o) (maxCacheMessageSizeInBytes o)
    (consumptionThreadCount o) (messageListener o) (enableFifoConsumeAccelerator o).
Definition WithPushAwaitDuration (d : Z) : PushConsumerOption := λ o,
  mkOptions (o_subscriptions o) d (maxCacheMessageCount o) (maxCacheMessageSizeInBytes o) (consumptionThreadCount o) (messageListener o) (enableFifoConsumeAccelerator o).
Definition WithPushMaxCacheMessageSizeInBytes (n : Z) : PushConsumerOption := λ o,
  mkOptions (o_subscriptions o) (awaitDuration o) (maxCacheMessageCount o) n (consumptionThreadCount o) (messageListener o) (enableFifoConsumeAccelerator o).
Definition WithPushMaxCacheMessageCount (n : Z) : PushConsumerOption := λ o,
  mkOptions (o_subscriptions o) (awaitDuration o) n (maxCacheMessageSizeInBytes o) (consumptionThreadCount o) (messageListener o) (enableFifoConsumeAccelerator o).
Definition WithPushConsumptionThreadCount (n : Z) : PushConsumerOption := λ o,
  mkOptions (o_subscriptions o) (awaitDuration o) (maxCacheMessageCount o) (maxCacheMessageSizeInBytes o) n (messageListener o) (enableFifoConsumeAccelerator o).
Definition WithPushMessageListener (some : bool) : PushConsumerOption := λ o,
  mkOptions (o_subscriptions o) (awaitDuration o) (maxCacheMessageCount o) (maxCacheMessageSizeInBytes o) (consumptionThreadCount o) some (enableFifoConsumeAccelerator o).
Definition WithPushEnableFifoConsumeAccelerator (b : bool) : PushConsumerOption := λ o,
  mkOptions (o_subscriptions o) (awaitDuration o) (maxCacheMessageCount o) (maxCacheMessageSizeInBytes o) (consumptionThreadCount o) (messageListener o) b.

(** ** Construction *)

Record Config : Type := mkConfig { Endpoint : string; NameSpace : string; ConsumerGroup : string }.

(** A constructed consumer before its client runs. *)
Record Consumer : Type := mkConsumer { pcOpts : pushConsumerOptions; pcSettings : pushConsumerSettings; initTopics : list string }.

Section construct.
Context (CountSyncMapSize : option (gmap string FilterExpression) → Z) (ParseTarget : string → result (list string))
  (clientFunc : Config → result Z).

Definition apply_options (opts : list PushConsumerOption) : pushConsumerOptions := fold_left (λ o f, f o) opts defaultPushConsumerOptions.

(** [newPushConsumer]; the client answers with its timeout. *)
Definition newPushConsumer (config : Config) (opts : list PushConsumerOption) : result Consumer :=
  let o := apply_options opts in
  if len (ConsumerGroup config) =? 0 then Err (ErrMsg "consumerGroup could not be nil")
  else if negb (messageListener o) then Err (ErrMsg "messageListener could not be nil")
  else if CountSyncMapSize (o_subscriptions o) =? 0 then Err (ErrMsg "subscriptionExpressions have not been set yet")
  else
    try timeout <- clientFunc config;
    let subs := default ∅ (o_subscriptions o) in
    try endpoints <- ParseTarget (Endpoint config);
    Ok (mkConsumer (mkOptions (Some subs) (awaitDuration o) (maxCacheMessageCount o) (maxCacheMessageSizeInBytes o)
                      (consumptionThreadCount o) (messageListener o) (enableFifoConsumeAccelerator o))
          (mkPush PUSH_CONSUMER endpoints (mkRetryPolicy 16 None) timeout false 32
             (mkResource (NameSpace config) (ConsumerGroup config)) (30 * 1000000000) subs)
          (map_to_list subs).*1).

(** [NewLitePushConsumer]: the settings of the push consumer become those of the
    lite one, which shares them. *)
Definition NewLitePushConsumer (config : Config) (lite : option (string * Z)) (opts : list PushConsumerOption)
    : result (Consumer * litePushConsumerSettings) :=
  match lite with
  | None => Err (ErrMsg "LitePushConsumerConfig is required")
  | Some (bindTopic, invisibleDuration) =>
    if bindTopic == ""%string then Err (ErrMsg "LitePushConsumerConfig.bindTopic is required")
    else
      try pc <- newPushConsumer config (opts ++ [WithPushSubscriptionExpressions {[bindTopic := SUB_ALL]}]);
      let s := set_type LITE_PUSH_CONSUMER (force_fifo (pcSettings pc)) in
      Ok (mkConsumer (pcOpts pc) s (initTopics pc), newLitePushConsumerSettings s bindTopic invisibleDuration)
  end.
End construct.

(** ** Start *)

(** The consume service [Start] makes, from the settings as they are after the
    startup of the client. *)
Definition service_of (s : pushConsumerSettings) : process.Service :=
  if isFifo s then (if clientType s == LITE_PUSH_CONSUMER then process.LiteFifo else process.Fifo) else process.Standard.

(** [Start]: the service, and the error after a failed startup, with that of the stop. *)
Definition Start (s : pushConsumerSettings) (startUp : option error) (GracefulStop : option error) : option error * process.Service :=
  (match startUp with
   | None => None
   | Some e => Some (match GracefulStop with Some _ => ErrWrap "startUp err, shutdown err" e | None => e end)
   end, service_of s).

(** What the transition system of [DriverProcess] runs with. *)
Definition config_of (GetNextAttemptDelay : RetryPolicy → Z → Z) (o : pushConsumerOptions) (s : pushConsumerSettings) (sv : process.Service) : process.Config :=
  process.mkConfig sv (clientType s == LITE_PUSH_CONSUMER) (enableFifoConsumeAccelerator o) (MaxAttempts (retryPolicy s))
    (GetNextAttemptDelay (retryPolicy s)) (receiveBatchSize s) (longPollingTimeout s) (requestTimeout s)
    (maxCacheMessageCount o) (maxCacheMessageSizeInBytes o).

(** ** Requests *)

Record MessageView : Type := mkMessageView { v_topic : string; v_id : string; v_handle : string; v_lite : string; v_attempt : Z }.

(** [LiteTopic] of a request, set only for lite consumers. *)
Definition lite_topic (s : pushConsumerSettings) (v : MessageView) : option string :=
  if negb (v_lite v == ""%string) && (clientType s == LITE_PUSH_CONSUMER) then Some (v_lite v) else None.

Record AckMessageRequest : Type := mkAck { a_group : Resource; a_topic : Resource; a_id : string; a_handle : string; a_lite : option string }.
Definition wrapAckMessageRequest (ns : string) (s : pushConsumerSettings) (v : MessageView) : AckMessageRequest :=
  mkAck (groupName s) (mkResource ns (v_topic v)) (v_id v) (v_handle v) (lite_topic s v).

Record ChangeInvisibleDurationRequest : Type := mkChange {
  i_group : Resource; i_topic : Resource; i_id : string; i_handle : string; i_duration : Z; i_lite : option string; i_suspend : option bool
}.
Definition changeRequest (ns group : string) (s : pushConsumerSettings) (v : MessageView) (d : Z) : ChangeInvisibleDurationRequest :=
  mkChange (mkResource ns group) (mkResource ns (v_topic v)) (v_id v) (v_handle v) d (lite_topic s v)
    (match lite_topic s v with Some _ => Some true | None => None end).

Record ForwardRequest : Type := mkForward {
  f_group : Resource; f_topic : Resource; f_id : string; f_handle : string; f_attempt : Z; f_maxAttempts : Z; f_lite : option string
}.
Definition wrapForwardMessageToDeadLetterQueueRequest (ns : string) (s : pushConsumerSettings) (v : MessageView) : ForwardRequest :=
  mkForward (groupName s) (mkResource ns (v_topic v)) (v_id v) (v_handle v) (v_attempt v) (MaxAttempts (retryPolicy s)) (lite_topic s v).

(** [WrapReceiveMessageRequest] of both kinds of consumers: the filter and renewal of
    a push consumer, the invisible duration of a lite one. *)
Record ReceiveMessageRequest : Type := mkReceive {
  rq_group : Resource; rq_queue : balancer.MessageQueue; rq_filter : option (string * FilterType); rq_longPolling : Z; rq_batch : Z;
  rq_autoRenew : bool; rq_attemptId : string; rq_invisible : option Z
}.
Definition WrapReceiveMessageRequest (ns group attemptId : string) (batch : Z) (q : balancer.MessageQueue) (f : FilterExpression) (poll : Z) : ReceiveMessageRequest :=
  mkReceive (mkResource ns group) q (Some (expression f, filter_type (expressionType f))) poll (messageid.wrap32 batch) true attemptId None.
Definition lite_WrapReceiveMessageRequest (ns group attemptId : string) (batch : Z) (q : balancer.MessageQueue) (poll : Z) (l : litePushConsumerSettings) : ReceiveMessageRequest :=
  mkReceive (mkResource ns group) q None poll (messageid.wrap32 batch) false attemptId (Some (invisibleDuration l)).
Definition WrapHeartbeatRequest (s : pushConsumerSettings) : Resource * ClientType := (groupName s, PUSH_CONSUMER).
Definition lite_WrapHeartbeatRequest (s : pushConsumerSettings) : Resource * ClientType := (groupName s, LITE_PUSH_CONSUMER).

(** ** Operations of a running consumer *)

(** [Ack]: a status other than OK reaches the hooks and not the caller. *)
Definition Ack (s : process.State) (r : producer.Reply) : option error :=
  match process.ack0 s r with Err e => Some e | Ok _ => None end.
Definition ForwardMessageToDeadLetterQueue (r : producer.Reply) : option error :=
  match process.forwardMessageToDeadLetterQueue0 r with Err e => Some e | Ok _ => None end.

(** [ChangeInvisibleDuration]: the handle of the view changes when it succeeded. *)
Definition ChangeInvisibleDuration (s : process.State) (v : option process.View) (handle : string) (r : producer.Reply) (newHandle : string) : option error * string :=
  if negb (process.on s) then (Some (ErrMsg "simple consumer is not running"), handle)
  else match v with
  | None => (Some (ErrMsg "changeInvisibleDuration failed, err = the message is nil"), handle)
  | Some v => match process.changeInvisibleDuration0 v r with Err e => (Some e, handle) | Ok _ => (None, newHandle) end
  end.

Definition Subscribe (topic : string) (f : FilterExpression) (route : option error) (subs : gmap string FilterExpression) : option error * gmap string FilterExpression :=
  match route with Some e => (Some e, subs) | None => (None, <[topic := f]> subs) end.
Definition Unsubscribe (topic : string) (subs : gmap string FilterExpression) : gmap string FilterExpression := delete topic subs.

(** ** Stop *)

(** [waitingReceiveRequestFinished]: each round sees the count of receives and then
    the clock.  [Some true] when the count reached zero, [Some false] when the time
    was over, [None] while it still waits. *)
Fixpoint waiting (endTime : Z) (polls : list (Z * Z)) : option bool :=
  match polls with
  | [] => None
  | (count, now) :: polls => if count <=? 0 then Some true else if now >? endTime then Some false else waiting endTime polls
  end.
Definition maxWaitingTime (s : pushConsumerSettings) : Z := requestTimeout s + longPollingTimeout s.

(** [GracefulStop] as steps of the consumer: what happens while it waits for the
    receives, and while the executor drains. *)
Definition GracefulStop (during draining : list process.Label) : list process.Label :=
  [process.LStopping] ++ during ++ [process.LShutdown] ++ draining ++ [process.LOff].

(** ** The service of a lite consumer *)

(** A settings command a lite consumer takes as a whole. *)
Definition complete (t : Settings) : bool :=
  match t_pubSub t, t_backoffPolicy t with
  | Some (PubSub_Subscription (Some _)), Some b => bool_decide (is_Some (strategy b))
  | _, _ => false
  end.

Lemma complete_fifo t l : complete t = true → isFifo (base (lite_applySettingsCommand t l).2) = true.
Proof.
  unfold complete, lite_applySettingsCommand, push_applySettingsCommand.
  destruct (t_pubSub t) as [[|[v|]]|]; try done. destruct (t_backoffPolicy t) as [b|]; [|done]. intros [st Hst]%bool_decide_eq_true. by rewrite Hst.
Qed.

Lemma lite_constructed cnt pt cf config lite opts pc l :
  NewLitePushConsumer cnt pt cf config lite opts = Ok (pc, l) →
  base l = pcSettings pc ∧ isFifo (base l) = true ∧ clientType (base l) = LITE_PUSH_CONSUMER ∧
  ∃ d, lite = Some (bindTopic l, d) ∧ bindTopic l ≠ ""%string ∧ subscriptionExpressions (base l) !! bindTopic l = Some SUB_ALL ∧ bindTopic l ∈ initTopics pc.
Proof.
  unfold NewLitePushConsumer, newPushConsumer. destruct lite as [[b d]|]; [|done]. destruct (b == ""%string) eqn:Eb; [done|].
  unfold apply_options. rewrite fold_left_app. cbn. set (o := fold_left _ opts _). unfold rbind.
  destruct (len _ =? 0); [done|]. destruct (negb _); [done|]. destruct (cnt _ =? 0); [done|].
  destruct (cf config) as [timeout|]; [|done]. destruct (pt _) as [eps|]; [|done]. cbn. intros [= <- <-]. cbn. split_and!; [done..|].
  exists d. split_and!; [done|by boolp| |].
  - apply lookup_union_Some_l, lookup_singleton_eq.
  - apply list_elem_of_fmap. exists (b, SUB_ALL). split; [done|]. apply elem_of_map_to_list, lookup_union_Some_l, lookup_singleton_eq.
Qed.

Lemma fifo_commands {M} (Reset : Metric → M → M) ts (c : Cli M litePushConsumerSettings) :
  isFifo (base (c_settings c)) = true → Forall (λ t, complete t = true) ts → isFifo (base (c_settings (on_commands Reset ts c))) = true.
Proof.
  unfold on_commands. revert c. induction ts as [|t ts IH]; intros c Hc Hts; [done|]. apply Forall_cons in Hts as [Ht Hts]. cbn.
  apply IH; [|done]. unfold onSettingsCommand. cbn. pose proof (complete_fifo t (c_settings c) Ht) as E. by destruct (lite_applySettingsCommand t (c_settings c)).
Qed.

(** The consume service of a lite consumer.  A lite consumer that was constructed
    subscribes its bind topic, and while the brokers send complete settings its
    [Start] makes the lite FIFO service.  One subscription without a backoff policy
    and without the FIFO flag is refused, but only after the flag was written and
    with the client marked initialised: [Start] then makes the standard service,
    which consumes the messages of a lite topic in no order. *)
Theorem lite_service {M} (Reset : Metric → M → M) cnt pt cf config lite opts pc l ts t v m :
  NewLitePushConsumer cnt pt cf config lite opts = Ok (pc, l) → Forall (λ t, complete t = true) ts →
  t_pubSub t = Some (PubSub_Subscription (Some v)) → t_backoffPolicy t = None → s_fifo v = false →
  let c := on_commands Reset ts (mkCli l false m) in
  let '(e, c') := onSettingsCommand Reset t c in
  service_of (base (c_settings c)) = process.LiteFifo ∧ subscriptionExpressions (base (c_settings c)) !! bindTopic l = Some SUB_ALL ∧
  is_Some e ∧ c_inited c' = true ∧ service_of (base (c_settings c')) = process.Standard.
Proof.
  intros Hn Hts Ht Hb Hv c. destruct (lite_constructed _ _ _ _ _ _ _ _ Hn) as (_&Hf&Hct&d&_&_&Hs&_).
  assert (Hc : isFifo (base (c_settings c)) = true) by (by apply fifo_commands).
  assert (Hk : clientType (base (c_settings c)) = LITE_PUSH_CONSUMER).
  { rewrite <- Hct. apply (on_commands_keeps Reset (λ l, clientType (base l))). intros x y. apply lite_kept. }
  assert (Hsub : subscriptionExpressions (base (c_settings c)) = subscriptionExpressions (base l)).
  { apply (on_commands_keeps Reset (λ l, subscriptionExpressions (base l)) ts (mkCli l false m)). intros x y. apply lite_kept. }
  unfold onSettingsCommand. cbn. unfold lite_applySettingsCommand, push_applySettingsCommand. rewrite Ht, Hb. cbn. rewrite Hsub.
  unfold service_of. cbn. rewrite Hc, Hk, Hv. split_and!; [done..|by eexists|done|done].
Qed.

(** A lite consumer as the tests of the repository make it. *)
Definition ex_config : Config := mkConfig "10.0.0.1:8081" "" "workers".
Definition ex_lite : result (Consumer * litePushConsumerSettings) :=
  NewLitePushConsumer (λ m, Z.of_nat (size (default ∅ m))) (λ s, Ok [s]) (λ _, Ok 3000000000) ex_config (Some ("orders"%string, 30000000000))
    [WithPushMessageListener true].
Definition ex_pc : Consumer := match ex_lite with Ok (pc, _) => pc | Err _ => mkConsumer defaultPushConsumerOptions ex_push [] end.
Definition ex_l : litePushConsumerSettings := match ex_lite with Ok (_, l) => l | Err _ => newLitePushConsumerSettings ex_push "" 0 end.

Lemma lite_service_witness :
  service_of (base ex_l) = process.LiteFifo ∧
  service_of (base (c_settings (onSettingsCommand ex_reset ex_command (mkCli ex_l false tt)).2)) = process.Standard.
Proof.
  assert (He : ex_lite = Ok (ex_pc, ex_l)).
  { unfold ex_pc, ex_l. destruct ex_lite as [[pc l]|e] eqn:E; [reflexivity|]. exfalso. revert E. vm_compute. discriminate. }
  pose proof (lite_service ex_reset _ _ _ _ _ _ _ _ [] ex_command ex_subscription tt He ltac:(constructor) eq_refl eq_refl eq_refl) as H.
  cbv zeta in H. destruct H as (H1&_&_&_&H2). split; [exact H1|exact H2].
Defined.
End push.

(** ** Receives in flight *)

Module receives.
Import process.

Section receives.
Context (cfg : Config) (IsAssignmentsEmpty : option (list string) → bool)
  (CompareAssignments : option (list string) → option (list string) → bool).
Notation run := (run cfg IsAssignmentsEmpty CompareAssignments).
Notation step := (step cfg IsAssignmentsEmpty CompareAssignments).

Definition is_receiving (t : Task) : bool := match t with TReceiving _ => true | _ => false end.
(** A call that saw the consumer run but is not counted yet. *)
Definition past_check (t : Task) : bool := match t with TReceive RChecked _ | TReceive RStamped _ => true | _ => false end.

Definition those (f : Task → bool) (s : State) : Z := llen (filter (λ t, f t = true) (tasks s)).
Definition receiving (s : State) : Z := those is_receiving s.
Definition checked (s : State) : Z := those past_check s.

(** What the count of the hook is ahead of the receives that are under way. *)
Definition excess (s : State) : Z := inflight s - receiving s.

(** A receive that ends without a message. *)
Definition no_new_message (r : result (list View)) : bool :=
  match r with Err (ErrDriver c) => c =? Code_MESSAGE_NOT_FOUND | _ => false end.

(** The receives of a run that ended without a message. *)
Definition emptied (l : Label) (s : State) : Z :=
  match l with
  | LReceived i r _ _ => match tasks s !! i with Some (TReceiving _) => if no_new_message r then 1 else 0 | _ => 0 end
  | _ => 0
  end.
Fixpoint empties (ls : list Label) (s : State) : Z :=
  match ls with [] => 0 | l :: ls => emptied l s + empties ls (step l s) end.

(** What a stop depends on: the count, the receives under way, the calls past their
    check, and whether more may pass it. *)
Definition seen (s : State) : Z * Z * Z * (bool * bool) := (inflight s, receiving s, checked s, (on s, stopping s)).
Lemma seen_excess s s' : seen s' = seen s → excess s' = excess s.
Proof. unfold seen, excess. by intros [= -> -> _ _ _]. Qed.

Lemma those_add f t s : those f (add_task t s) = those f s + (if f t then 1 else 0).
Proof.
  unfold those, add_task, llen. cbn. rewrite filter_app, length_app, filter_cons.
  destruct (f t); [rewrite decide_True by done|rewrite decide_False by done]; cbn; lia.
Qed.
Lemma those_take f i t s : tasks s !! i = Some t → those f s = those f (take_task i s) + (if f t then 1 else 0).
Proof.
  intros Ht. unfold those, take_task, llen. cbn. rewrite (delete_Permutation (tasks s) i t Ht) at 1. rewrite filter_cons.
  destruct (f t); cbn; [rewrite decide_True by done|rewrite decide_False by done]; cbn; lia.
Qed.

(** A task that is neither. *)
Definition quiet (t : Task) : bool := negb (is_receiving t) && negb (past_check t).
Lemma quiet_not t : quiet t = true → is_receiving t = false ∧ past_check t = false.
Proof. unfold quiet. destruct (is_receiving t), (past_check t); done. Qed.

Lemma seen_add t s : quiet t = true → seen (add_task t s) = seen s.
Proof. intros [H1 H2]%quiet_not. unfold seen, receiving, checked. rewrite !those_add, H1, H2, !Z.add_0_r. done. Qed.
Lemma seen_take i t s : tasks s !! i = Some t → quiet t = true → seen (take_task i s) = seen s.
Proof.
  intros Ht [H1 H2]%quiet_not. unfold seen, receiving, checked. rewrite (those_take is_receiving i t s Ht), (those_take past_check i t s Ht).
  by rewrite H1, H2, !Z.add_0_r.
Qed.

(** Operations that neither touch the count nor start a receive. *)
Lemma seen_evict p s : seen (evictCacheMessage p s) = seen s.
Proof. unfold evictCacheMessage. by destruct (views s !! p). Qed.
Lemma seen_settle k p a r s : seen (settle k p a r s) = seen s.
Proof. unfold settle. destruct (views s !! p) as [v|]; [|done]. destruct (match k with SAck => _ | _ => _ end); [apply seen_evict|by apply seen_add]. Qed.
Lemma seen_submit p k s : seen (Submit p k s) = seen s.
Proof. unfold Submit. destruct (accepting s); [by apply seen_add|done]. Qed.
Lemma seen_delayed d p k s : seen (consumeWithDuration d p k s) = seen s.
Proof. unfold consumeWithDuration. destruct (d <=? 0); [apply seen_submit|by apply seen_add]. Qed.
Lemma seen_erase p r rs s : seen (eraseMessage cfg p r rs s) = seen s.
Proof. unfold eraseMessage. destruct (views s !! p); [|done]. destruct (convertSuspendResultIfNeeded cfg r); by rewrite seen_settle. Qed.
Lemma seen_discard p rs s : seen (discardMessage cfg p rs s) = seen s.
Proof. unfold discardMessage. destruct (views s !! p); [apply seen_settle|done]. Qed.
Lemma seen_fifo_erase p r rs s : seen (eraseFifoMessage cfg p r rs s) = seen s.
Proof.
  unfold eraseFifoMessage. destruct (views s !! p) as [v|]; [|done]. destruct (convertSuspendResultIfNeeded cfg r); [apply seen_settle| |apply seen_settle].
  destruct (v_attempt v <? MaxAttempts cfg); [by rewrite seen_delayed|apply seen_settle].
Qed.
Lemma seen_iterate k ps rs s : seen (consumeIteratively k ps rs s) = seen s.
Proof.
  revert s. induction ps as [|p ps IH]; intros s; cbn; [done|]. destruct (views s !! p) as [v|]; [|done].
  destruct (isCorrupted v); [rewrite IH; apply seen_settle|apply seen_submit].
Qed.
Lemma seen_standard ps rs s : seen (consume_standard cfg ps rs s) = seen s.
Proof.
  revert s. induction ps as [|p ps IH]; intros s; cbn; [done|]. destruct (views s !! p) as [v|]; [|done].
  rewrite IH. destruct (isCorrupted v); [apply seen_discard|apply seen_submit].
Qed.
Lemma seen_fold {A} (f : State → A → State) l s : (∀ s x, seen (f s x) = seen s) → seen (fold_left f l s) = seen s.
Proof. intros Hf. revert s. induction l as [|x l IH]; intros s; cbn; [done|]. by rewrite IH. Qed.
Lemma seen_fifo lite ps rs s : seen (consume_fifo cfg lite ps rs s) = seen s.
Proof.
  unfold consume_fifo. destruct (negb _ || _); [apply seen_iterate|]. destruct (groupMessageBy (views s) lite ps) as [gs rest].
  destruct (0 <? llen rest); rewrite ?seen_iterate; apply seen_fold; intros; apply seen_iterate.
Qed.
Lemma seen_consume ps rs s : seen (consume cfg ps rs s) = seen s.
Proof. unfold consume. destruct (service cfg); [apply seen_standard|apply seen_fifo..]. Qed.
Lemma seen_callback p k o rs s : seen (callback cfg p k o rs s) = seen s.
Proof.
  unfold callback. destruct (match o with Returned r => (r, false) | _ => _ end) as [res failed].
  destruct k as [|rest|rest|]; [destruct failed; [done|apply seen_erase]| | |apply seen_fifo_erase].
  - destruct failed; [done|]. by rewrite seen_iterate, seen_fifo_erase.
  - destruct failed; [done|]. destruct res; rewrite seen_iterate; [apply seen_fifo_erase..|].
    rewrite seen_fold; [apply seen_fifo_erase|]. intros. apply seen_fifo_erase.
Qed.
Lemma seen_run_task p k o rs s : seen (run_task cfg p k o rs s) = seen s.
Proof. unfold run_task. rewrite seen_callback. by destruct o, (views s !! p). Qed.
Lemma seen_immediately q s : seen (receiveMessageImmediately q s) = seen s.
Proof. by apply seen_add. Qed.
Lemma seen_receive q now s : seen (receiveMessage cfg q now s) = seen s.
Proof.
  unfold receiveMessage. destruct (queues s !! q) as [pq|]; [|done]. destruct (dropped pq); [done|].
  destruct (isCacheFull cfg pq s); [unfold receiveMessageLater; by rewrite seen_add|apply seen_immediately].
Qed.
Lemma seen_sync topic a now s : seen (syncProcessQueue cfg topic a now s) = seen s.
Proof.
  unfold syncProcessQueue. rewrite seen_fold.
  - apply seen_fold. intros s' mq. unfold dropProcessQueue. by destruct (table s' !! mq).
  - intros s' mq. unfold createProcessQueue. destruct (table s' !! mq); [done|]. by rewrite seen_immediately.
Qed.
Lemma seen_scan topic newest now s : seen (scan_topic cfg IsAssignmentsEmpty CompareAssignments topic newest now s) = seen s.
Proof.
  unfold scan_topic. destruct (IsAssignmentsEmpty _ && _); [done|]. set (newest' := match newest with Ok a => Some a | Err _ => None end).
  destruct (CompareAssignments _ _); [apply seen_sync|]. exact (seen_sync topic newest' now s).
Qed.
Lemma seen_scan_begin s : seen (scan_begin s) = seen s.
Proof. unfold scan_begin. destruct (_ || _); [done|by apply seen_add]. Qed.
Lemma those_scan_end f s : f TScan = false → those f (scan_end s) = those f s.
Proof.
  intros Hf. unfold those, scan_end. cbn. rewrite list_filter_filter. f_equal. apply list_filter_iff. intros t.
  split; [by intros []|]. intros Ht. split; [done|]. destruct t; try done. congruence.
Qed.
Lemma seen_scan_end s : seen (scan_end s) = seen s.
Proof. unfold seen, receiving, checked. by rewrite !those_scan_end. Qed.

(** The end of a receive: all but one without a message are counted down. *)
Lemma seen_received q r rs now s :
  seen (received cfg q r rs now s) = seen (with_inflight (inflight s - (if no_new_message r then 0 else 1)) s).
Proof.
  unfold received. destruct r as [vs|e].
  - unfold onReceiveMessageResult. rewrite seen_receive. cbn. destruct vs as [|v vs]; [done|]. by rewrite seen_consume.
  - unfold onReceiveMessageException, receiveMessageLater. rewrite seen_add by done. unfold no_new_message.
    destruct e; try done. destruct (code =? Code_MESSAGE_NOT_FOUND); [|done]. unfold seen. cbn. by rewrite Z.sub_0_r.
Qed.

Lemma excess_received i q r rs now s :
  tasks s !! i = Some (TReceiving q) →
  excess (received cfg q r rs now (take_task i s)) = excess s + (if no_new_message r then 1 else 0).
Proof.
  intros Ht. rewrite (seen_excess _ _ (seen_received q r rs now (take_task i s))). unfold excess, receiving.
  rewrite (those_take is_receiving i _ s Ht). cbn. destruct (no_new_message r); unfold those; cbn; lia.
Qed.

(** The actions of a call keep what the count is ahead, and trade a call past its check
    for a receive; when the consumer stops no call passes the check. *)
Lemma reception_excess i r q now s :
  tasks s !! i = Some (TReceive r q) → excess (receiveMessageImmediatelyWithAttemptId r q now (take_task i s)) = excess s.
Proof.
  intros Ht. assert (Hx : excess (take_task i s) = excess s).
  { unfold excess, receiving. rewrite (those_take is_receiving i _ s Ht). cbn. lia. }
  rewrite <- Hx. unfold receiveMessageImmediatelyWithAttemptId. destruct r; [destruct (negb _); [done|]|..];
    unfold excess, receiving; rewrite those_add; unfold those; cbn; lia.
Qed.
Lemma reception_stopping i r q now s :
  tasks s !! i = Some (TReceive r q) → stopping s = true →
  let s' := receiveMessageImmediatelyWithAttemptId r q now (take_task i s) in
  stopping s' = true ∧ receiving s' + checked s' <= receiving s + checked s.
Proof.
  intros Ht Hs. unfold receiving, checked. rewrite (those_take is_receiving i _ s Ht), (those_take past_check i _ s Ht).
  destruct r; cbn [receiveMessageImmediatelyWithAttemptId is_receiving past_check].
  - replace (isRunning (take_task i s)) with false by (unfold isRunning; cbn; by rewrite Hs). cbn [negb]. split; [done|lia].
  - split; [done|]. rewrite !those_add. unfold those. cbn. lia.
  - split; [done|]. rewrite !those_add. unfold those. cbn. lia.
Qed.

Lemma excess_step l s : excess (step l s) = excess s + emptied l s.
Proof.
  destruct l as [|t n now| |i o rs|i rs now|i now|i r rs now| | |]; cbn [process.step emptied]; rewrite ?Z.add_0_r; try done.
  - apply seen_excess, seen_scan_begin.
  - destruct (scanning s); [|done]. apply seen_excess, seen_scan.
  - apply seen_excess, seen_scan_end.
  - destruct (tasks s !! i) as [[p k| | | | | |]|] eqn:Ht; try done. apply seen_excess. by rewrite seen_run_task, (seen_take i _ s Ht).
  - destruct (tasks s !! i) as [[| d p k|k p a| |d q| |]|] eqn:Ht; try done;
      apply seen_excess; by rewrite ?seen_submit, ?seen_settle, ?seen_immediately, (seen_take i _ s Ht).
  - destruct (tasks s !! i) as [[| | | | |r q|]|] eqn:Ht; try done. by apply reception_excess.
  - destruct (tasks s !! i) as [[| | |q| | |]|] eqn:Ht; try lia. by rewrite (excess_received i q).
Qed.

Lemma excess_run ls s : excess (run ls s) = excess s + empties ls s.
Proof.
  revert s. induction ls as [|l ls IH]; intros s; cbn [empties]; [unfold process.run; cbn; lia|].
  change (run (l :: ls) s) with (run ls (step l s)). rewrite IH, excess_step. lia.
Qed.

Lemma empties_nonneg ls s : 0 <= empties ls s.
Proof.
  revert s. induction ls as [|l ls IH]; intros s; cbn [empties]; [lia|]. specialize (IH (step l s)).
  assert (0 <= emptied l s); [|lia]. unfold emptied. repeat case_match; lia.
Qed.

Lemma receiving_nonneg s : 0 <= receiving s.
Proof. unfold receiving, those, llen. lia. Qed.
Lemma checked_nonneg s : 0 <= checked s.
Proof. unfold checked, those, llen. lia. Qed.

Lemma inflight_run ls : inflight (run ls started) = receiving (run ls started) + empties ls started.
Proof. pose proof (excess_run ls started) as H. assert (E : excess started = 0) by done. rewrite E in H. unfold excess in H. lia. Qed.

Lemma empties_app ls ks s : empties (ls ++ ks) s = empties ls s + empties ks (run ls s).
Proof. revert s. induction ls as [|l ls IH]; intros s; cbn [empties app]; [done|]. rewrite IH. change (run (l :: ls) s) with (run ls (step l s)). lia. Qed.

(** *** Stopping *)

(** Once [stopping] is set no call passes the check: only those past it may still
    start a receive. *)
Lemma stopping_step l s : stopping s = true →
  stopping (step l s) = true ∧ receiving (step l s) + checked (step l s) <= receiving s + checked s.
Proof.
  intros Hs. assert (Hseen : ∀ s', seen s' = seen s → stopping s' = true ∧ receiving s' + checked s' <= receiving s + checked s).
  { unfold seen. intros s' [= _ -> -> _ ->]. split; [done|lia]. }
  destruct l as [|t n now| |i o rs|i rs now|i now|i r rs now| | |]; cbn [process.step]; try (apply Hseen; unfold seen; cbn; by rewrite ?Hs).
  - apply Hseen, seen_scan_begin.
  - apply Hseen. destruct (scanning s); [|done]. apply seen_scan.
  - apply Hseen, seen_scan_end.
  - apply Hseen. destruct (tasks s !! i) as [[p k| | | | | |]|] eqn:Ht; try done. by rewrite seen_run_task, (seen_take i _ s Ht).
  - apply Hseen. destruct (tasks s !! i) as [[| d p k|k p a| |d q| |]|] eqn:Ht; try done;
      by rewrite ?seen_submit, ?seen_settle, ?seen_immediately, (seen_take i _ s Ht).
  - destruct (tasks s !! i) as [[| | | | |r q|]|] eqn:Ht; try (by apply Hseen). by apply reception_stopping.
  - destruct (tasks s !! i) as [[| | |q| | |]|] eqn:Ht; try (by apply Hseen).
    pose proof (seen_received q r rs now (take_task i s)) as E. unfold seen in E. injection E as _ -> -> _ ->. split; [done|].
    unfold receiving, checked. rewrite (those_take is_receiving i _ s Ht), (those_take past_check i _ s Ht). unfold those. cbn. lia.
  - split; [done|]. unfold receiving, checked, those. cbn. lia.
Qed.

Lemma waiting_counts endTime polls : Forall (λ p, 0 < p.1) polls → push.waiting endTime polls ≠ Some true.
Proof.
  induction 1 as [|[c now] polls Hc _ IH]; cbn; [done|]. cbn in Hc. destruct (Z.leb_spec c 0); [lia|]. by destruct (now >? endTime).
Qed.

Lemma stopping_run ks s : stopping s = true → receiving (run ks s) + checked (run ks s) <= receiving s + checked s.
Proof.
  revert s. induction ks as [|l ks IH]; intros s Hs; [done|]. change (run (l :: ks) s) with (run ks (step l s)).
  destruct (stopping_step l s Hs) as (H1&H2). specialize (IH _ H1). lia.
Qed.

(** The wait of a stop polls every 100 milliseconds, so that it ends within its time
    and one more poll. *)
Lemma waiting_ends endTime start polls :
  start <= endTime + 100000000 →
  (∀ i c now, polls !! i = Some (c, now) → start + 100000000 * Z.of_nat i <= now) →
  endTime - start < 100000000 * (llen polls - 1) → is_Some (push.waiting endTime polls).
Proof.
  revert start. induction polls as [|[c now] polls IH]; intros start H0 Hc Hl; unfold llen in *; cbn [push.waiting length] in *.
  - lia.
  - destruct (c <=? 0); [by eexists|]. destruct (Z.gtb_spec now endTime) as [|Hle]; [by eexists|].
    pose proof (Hc 0%nat c now eq_refl). apply (IH (start + 100000000)); [lia| |lia]. intros i c' now' Hi. specialize (Hc (S i) c' now' Hi). lia.
Qed.

(** C40: The receives a stop waits for.  In every run of a push consumer the count of the
    hook is the number of receives under way and one more for every receive that
    ended without a message.  When [GracefulStop], which has set [stopping], sees the
    count at zero no receive is under way, and in every continuation, through the
    shutdown and after it, no more receives can be under way than there were calls
    that had passed the check of [isRunning] before and were not counted yet: none
    if there was no such call.  And after one receive without a message the wait
    never ends before its time is over. *)
Theorem stop_counts_receives ls ks kss endTime clock :
  let s := run ls started in
  inflight s = receiving s + empties ls started ∧
  (stopping s = true → inflight s <= 0 → receiving s = 0 ∧ receiving (run ks s) <= checked s) ∧
  (0 < empties ls started → push.waiting endTime (zip ((λ ks, inflight (run (ls ++ ks) started)) <$> kss) clock) ≠ Some true).
Proof.
  intros s. pose proof (inflight_run ls) as Hf. pose proof (empties_nonneg ls started). pose proof (receiving_nonneg s).
  split_and!; [done| |].
  - intros Hs Hz. pose proof (stopping_run ks s Hs). pose proof (checked_nonneg (run ks s)). unfold s in *. lia.
  - intros He. apply waiting_counts, Forall_forall. intros [c now] Hin. cbn.
    apply elem_of_zip_l, list_elem_of_fmap in Hin as (k&->&_). rewrite inflight_run, empties_app.
    pose proof (receiving_nonneg (run (ls ++ k) started)). pose proof (empties_nonneg k (run ls started)). lia.
Qed.
End receives.

(** A consumer whose one queue receives nothing, and which then stops. *)
Definition ex_empty_run : list Label :=
  [LScanBegin; LScan "orders" (Ok ["q0"%string]) 1000; LScanEnd; LReceive 0 1000; LReceive 0 1000; LReceive 0 1000;
   LReceived 0 (Err (ErrDriver Code_MESSAGE_NOT_FOUND)) (λ _ _, producer.RErr ErrContext) 2000; LStopping].

Lemma stop_counts_receives_witness :
  push.waiting 100 (zip ((λ ks, inflight (process.run ex_cfg ex_empty ex_same (ex_empty_run ++ ks) started)) <$> [[]; [LShutdown]]) [0; 50]) ≠ Some true.
Proof.
  refine (proj2 (proj2 (stop_counts_receives ex_cfg ex_empty ex_same ex_empty_run [] [[]; [LShutdown]] 100 [0; 50])) _).
  vm_compute. reflexivity.
Defined.

(** A call passed the check, then the consumer stops. *)
Definition ex_raced : list Label :=
  [LScanBegin; LScan "orders" (Ok ["q0"%string]) 1000; LScanEnd; LReceive 0 1000; LStopping].

(** A stop can miss a receive.  The check of [isRunning] and the count of the hook are
    separate actions: a stop that comes between them sees the count at zero and does
    not wait, and the receive starts after the executor was shut down. *)
Theorem stop_misses_receive :
  let s := process.run ex_cfg ex_empty ex_same ex_raced started in
  stopping s = true ∧ push.waiting 100 [(inflight s, 0)] = Some true ∧
  let s' := process.run ex_cfg ex_empty ex_same [LShutdown; LReceive 0 2000; LReceive 0 2000] s in
  accepting s' = false ∧ tasks s' = [TReceiving 0].
Proof. vm_compute. done. Qed.
End receives.
