(* ===== verification/DriverLite.v ===== *)
(** * transport/rocketmq/internal/driver: subscriptions of lite consumers

    [lite_push_consumer.go]: a lite push consumer keeps the set of lite topics it
    subscribed, tells the broker every change and, every 30 seconds, the whole set.
    Calls of the application, the ticker and commands of the broker interleave, so
    that one call is three steps: the request is made, the broker serves it, and the
    call ends.  What a broker does with a request is the interface [LiteBroker]. *)

From S2P Require Import Prelude GoStd Driver DriverProducer DriverSettings.

Module lite.
Import settings producer.

Inductive Action : Type := PARTIAL_ADD | PARTIAL_REMOVE | COMPLETE_ADD.
Record SyncLiteSubscriptionRequest : Type := mkRequest { rq_action : Action; rq_topic : Resource; rq_group : Resource; rq_lite : list string }.

(** The request of [syncLiteSubscription]. *)
Definition syncLiteSubscription (ns : string) (l : litePushConsumerSettings) (a : Action) (diff : list string) : SyncLiteSubscriptionRequest :=
  mkRequest a (mkResource ns (bindTopic l)) (groupName (base l)) diff.

(** What the broker keeps for a client after a request it accepted. *)
Class LiteBroker : Type := {
  accept : SyncLiteSubscriptionRequest → gset string → gset string;
  accept_add : ∀ r h, rq_action r = PARTIAL_ADD → accept r h = h ∪ list_to_set (rq_lite r);
  accept_remove : ∀ r h, rq_action r = PARTIAL_REMOVE → accept r h = h ∖ list_to_set (rq_lite r);
  accept_complete : ∀ r h, rq_action r = COMPLETE_ADD → accept r h = list_to_set (rq_lite r)
}.

(** A call under way: who made it, its request, and the broker's answer. *)
Inductive Kind : Type := KSubscribe (t : string) | KUnsubscribe (t : string) | KSync.
Record Call : Type := mkCall { kind : Kind; request : SyncLiteSubscriptionRequest; answer : option Reply }.

(** The consumer and the broker: [registered] is whether [notifyUnsubscribeLiteFunc]
    is set, [held] what the broker keeps, [results] the calls that ended. *)
Record State : Type := mkState {
  lpc : litePushConsumerSettings; running : bool; registered : bool; panicked : bool; held : gset string; calls : list Call; results : list (Kind * option error)
}.
Definition topics (s : State) : gset string := liteTopicSet (lpc s).
Definition with_topics (ts : gset string) (s : State) : State :=
  mkState (with_lite_topics ts (lpc s)) (running s) (registered s) (panicked s) (held s) (calls s) (results s).
Definition with_calls (cs : list Call) (s : State) : State := mkState (lpc s) (running s) (registered s) (panicked s) (held s) cs (results s).
Definition with_held (h : gset string) (s : State) : State := mkState (lpc s) (running s) (registered s) (panicked s) h (calls s) (results s).
Definition add_result (k : Kind) (e : option error) (s : State) : State :=
  mkState (lpc s) (running s) (registered s) (panicked s) (held s) (calls s) (results s ++ [(k, e)]).

Section lite.
Context `{!LiteBroker} (NameSpace : string).

Definition make (k : Kind) (a : Action) (diff : list string) (s : State) : State :=
  with_calls (calls s ++ [mkCall k (syncLiteSubscription NameSpace (lpc s) a diff) None]) s.

Definition checkRunning (s : State) : option error := if running s then None else Some (ErrMsg "consumer is not running").

(** The first halves of the calls. *)
Definition SubscribeLite (t : string) (s : State) : State :=
  match checkRunning s with Some e => add_result (KSubscribe t) (Some e) s | None => make (KSubscribe t) PARTIAL_ADD [t] s end.
Definition UnSubscribeLite (t : string) (s : State) : State :=
  match checkRunning s with Some e => add_result (KUnsubscribe t) (Some e) s | None => make (KUnsubscribe t) PARTIAL_REMOVE [t] s end.
Definition syncAllLiteSubscription (s : State) : State := make KSync COMPLETE_ADD (elements (topics s)) s.

(** The broker serves a request: one it answers with OK it accepted; one whose answer
    is an error it may have accepted, as the answer can be lost. *)
Definition serve (i : nat) (r : Reply) (accepted : bool) (s : State) : State :=
  match calls s !! i with
  | Some (mkCall k rq None) =>
    let s := with_calls (<[i := mkCall k rq (Some r)]> (calls s)) s in
    if accepted || bool_decide (reply_error r = None) then with_held (accept rq (held s)) s else s
  | _ => s
  end.

(** The second halves: the set changes when the answer was OK. *)
Definition finish (i : nat) (s : State) : State :=
  match calls s !! i with
  | Some (mkCall k rq (Some r)) =>
    let s := with_calls (delete i (calls s)) s in
    let e := reply_error r in
    let s := match k, e with
             | KSubscribe t, None => with_topics ({[t]} ∪ topics s) s
             | KUnsubscribe t, None => with_topics (topics s ∖ {[t]}) s
             | _, _ => s
             end in
    add_result k e s
  | _ => s
  end.

(** A command of the broker: [onNotifyUnsubscribeLiteCommand] calls a function that is
    nil until [Start] has set it. *)
Definition notifyUnsubscribeLite (t : string) (s : State) : State :=
  if negb (registered s) then mkState (lpc s) (running s) (registered s) true (held s) (calls s) (results s)
  else if t == ""%string then s else with_topics (topics s ∖ {[t]}) s.

(** [Start] after the push consumer started: the function, and a first sync. *)
Definition Start (startPushConsumer : option error) (s : State) : option error * State :=
  match startPushConsumer with
  | Some e => (Some e, s)
  | None => (None, syncAllLiteSubscription (mkState (lpc s) true true (panicked s) (held s) (calls s) (results s)))
  end.

Inductive Label : Type :=
| LStart (e : option error) | LSubscribe (t : string) | LUnsubscribe (t : string) | LTick
| LServe (i : nat) (r : Reply) (accepted : bool) | LFinish (i : nat)
| LNotify (t : string) | LDrop (t : string) | LStop.

(** One step; [LDrop] is the broker giving up a subscription by itself. *)
Definition step (l : Label) (s : State) : State :=
  match l with
  | LStart e => (Start e s).2
  | LSubscribe t => SubscribeLite t s
  | LUnsubscribe t => UnSubscribeLite t s
  | LTick => syncAllLiteSubscription s
  | LServe i r a => serve i r a s
  | LFinish i => finish i s
  | LNotify t => notifyUnsubscribeLite t s
  | LDrop t => with_held (held s ∖ {[t]}) s
  | LStop => mkState (lpc s) false (registered s) (panicked s) (held s) (calls s) (results s)
  end.
Definition run (ls : list Label) (s : State) : State := fold_left (λ s l, step l s) ls s.

(** ** Calls one after the other *)

(** A call of the application or the ticker, with the broker's answer and whether the
    broker accepted a request it answered with an error. *)
Record Round : Type := mkRound { op : Kind; reply : Reply; accepted : bool }.
Definition start_of (k : Kind) : Label := match k with KSubscribe t => LSubscribe t | KUnsubscribe t => LUnsubscribe t | KSync => LTick end.
Definition labels (r : Round) : list Label := [start_of (op r); LServe 0 (reply r) (accepted r); LFinish 0].

(** The abstract consumer: a set of topics that changes with the calls that succeed. *)
Definition spec_step (ts : gset string) (r : Round) : gset string :=
  match reply_error (reply r), op r with
  | None, KSubscribe t => {[t]} ∪ ts
  | None, KUnsubscribe t => ts ∖ {[t]}
  | _, _ => ts
  end.
Definition spec (rs : list Round) (ts : gset string) : gset string := fold_left spec_step rs ts.

(** No answer is lost: the broker did not accept what it answered with an error. *)
Definition truthful (r : Round) : Prop := reply_error (reply r) ≠ None → accepted r = false.

Lemma round_step r s : running s = true → calls s = [] →
  let s' := run (labels r) s in
  running s' = true ∧ calls s' = [] ∧ results s' = results s ++ [(op r, reply_error (reply r))] ∧
  topics s' = spec_step (topics s) r ∧
  held s' = if accepted r || bool_decide (reply_error (reply r) = None)
            then match op r with KSubscribe t => held s ∪ {[t]} | KUnsubscribe t => held s ∖ {[t]} | KSync => topics s end else held s.
Proof.
  intros Hr Hc. unfold labels, run. destruct r as [k rp ac]. cbn [op reply accepted fold_left start_of].
  destruct k as [t|t|]; cbn [step start_of]; unfold SubscribeLite, UnSubscribeLite, syncAllLiteSubscription, checkRunning; rewrite ?Hr;
    unfold make; rewrite Hc; unfold serve; cbn; unfold spec_step; cbn;
    destruct (ac || bool_decide (reply_error rp = None)) eqn:E; cbn; destruct (reply_error rp); cbn; split_and!; try done;
    rewrite ?accept_add, ?accept_remove, ?accept_complete by done; cbn; rewrite ?list_to_set_elements_L; set_solver.
Qed.

Lemma rounds_synced rs s : running s = true → calls s = [] → topics s = held s → Forall truthful rs →
  let s' := run (concat (labels <$> rs)) s in
  running s' = true ∧ calls s' = [] ∧ topics s' = held s' ∧ topics s' = spec rs (topics s).
Proof.
  revert s. induction rs as [|r rs IH]; intros s Hr Hc Hs Hall; [done|]. apply Forall_cons in Hall as [Hr1 Hall].
  rewrite fmap_cons. cbn [concat]. unfold run. rewrite fold_left_app. fold (run (labels r) s).
  destruct (round_step r s Hr Hc) as (H1&H2&_&H4&H5). cbv zeta. unfold spec. cbn [fold_left]. rewrite <- H4. apply IH; try done.
  rewrite H4, H5. unfold spec_step. destruct (reply_error (reply r)) as [e|] eqn:E.
  - rewrite (Hr1 ltac:(congruence)), bool_decide_eq_false_2 by done. done.
  - rewrite bool_decide_eq_true_2, orb_true_r by done. destruct (op r); rewrite <- ?Hs; set_solver.
Qed.

(** C36: The broker and a lite consumer agree again after one sync.  Whatever calls,
    lost answers and commands came before, when no call is under way and a sync is
    answered with OK, the broker keeps exactly the consumer's topics; and as long as
    calls follow one another and no answer is lost, both stay equal to the set of an
    abstract consumer that changes only with the calls that succeeded. *)
Theorem lite_converges ls ok rs s0 :
  let s := run ls s0 in
  running s = true → calls s = [] → reply_error ok = None → Forall truthful rs →
  let s' := run (concat (labels <$> (mkRound KSync ok true :: rs))) s in
  topics s' = spec rs (topics s) ∧ held s' = spec rs (topics s) ∧ calls s' = [].
Proof.
  intros s Hr Hc Hok Hall. rewrite fmap_cons. cbn [concat]. unfold run. rewrite fold_left_app.
  change (fold_left (λ s l, step l s) (labels (mkRound KSync ok true)) s) with (run (labels (mkRound KSync ok true)) s).
  destruct (round_step (mkRound KSync ok true) s Hr Hc) as (H1&H2&_&H4&H5).
  assert (E : spec_step (topics s) (mkRound KSync ok true) = topics s) by (unfold spec_step; cbn; by rewrite Hok). rewrite E in H4.
  assert (Hs : topics (run (labels (mkRound KSync ok true)) s) = held (run (labels (mkRound KSync ok true)) s)) by (rewrite H4, H5; done).
  destruct (rounds_synced rs _ H1 H2 Hs Hall) as (_&K2&K3&K4). cbv zeta. unfold run in *. rewrite <- K3, K4, H4. done.
Qed.

(** A sync can take away a subscription that was just confirmed.  When the ticker
    has read the set before a new topic is subscribed and the broker serves its
    request after that of the subscription, [SubscribeLite] has returned nil and the
    consumer holds the topic, but the broker does not: no message of it arrives until
    the next sync. *)
Theorem lite_sync_undoes t ok s :
  running s = true → calls s = [] → t ∉ topics s → reply_error ok = None →
  let s' := run [LTick; LSubscribe t; LServe 1 ok true; LFinish 1; LServe 0 ok true; LFinish 0] s in
  results s' = results s ++ [(KSubscribe t, None); (KSync, None)] ∧ t ∈ topics s' ∧ t ∉ held s' ∧ calls s' = [].
Proof.
  intros Hr Hc Ht Hok. unfold run. cbn [fold_left step]. unfold syncAllLiteSubscription, SubscribeLite, checkRunning, make. cbn. rewrite Hr, Hc.
  unfold serve, finish. cbn. rewrite Hok. cbn. rewrite Hok, (accept_complete (syncLiteSubscription _ _ COMPLETE_ADD _)) by done. cbn. rewrite list_to_set_elements_L, <- app_assoc.
  split_and!; [done|set_solver|done|done].
Qed.
End lite.

(** A broker as the protocol describes it. *)
Definition ex_accept (r : SyncLiteSubscriptionRequest) (h : gset string) : gset string :=
  match rq_action r with
  | PARTIAL_ADD => h ∪ list_to_set (rq_lite r) | PARTIAL_REMOVE => h ∖ list_to_set (rq_lite r) | COMPLETE_ADD => list_to_set (rq_lite r)
  end.
#[global] Instance ex_broker : LiteBroker.
Proof. refine {| accept := ex_accept |}; unfold ex_accept; by intros r h ->. Defined.

Definition ex_start : State := mkState (newLitePushConsumerSettings ex_push "orders" 0) false false false ∅ [] [].
Definition ex_ok : Reply := RStatus Code_OK [].

(** A subscription whose answer was lost, and a sync after it. *)
Definition ex_lost : list Label :=
  [LStart None; LServe 0 ex_ok true; LFinish 0; LSubscribe "eu"; LServe 0 (RErr ErrContext) true; LFinish 0].

Lemma lite_converges_witness :
  held (run "" (concat (labels <$> [mkRound KSync ex_ok true; mkRound (KSubscribe "us") ex_ok true])) (run "" ex_lost ex_start)) = {["us"%string]} ∪ ∅.
Proof.
  refine (proj1 (proj2 (lite_converges "" ex_lost ex_ok [mkRound (KSubscribe "us") ex_ok true] ex_start _ _ _ _))); try (vm_compute; reflexivity).
  apply Forall_singleton. intros H. exfalso. by apply H.
Defined.

Lemma lite_sync_undoes_witness :
  let s := run "" [LStart None; LServe 0 ex_ok true; LFinish 0] ex_start in
  "eu"%string ∉ held (run "" [LTick; LSubscribe "eu"; LServe 1 ex_ok true; LFinish 1; LServe 0 ex_ok true; LFinish 0] s).
Proof.
  exact (proj1 (proj2 (proj2 (lite_sync_undoes "" "eu" ex_ok (run "" [LStart None; LServe 0 ex_ok true; LFinish 0] ex_start)
    eq_refl eq_refl ltac:(apply not_elem_of_empty) eq_refl)))).
Defined.
End lite.
