(* ===== verification/DriverRpc.v ===== *)
(** * transport/rocketmq/internal/driver: calls, heartbeats and addresses

    [client_manager.go] and [rpc_client.go] (module [rpc]): every call of the manager
    over the connection table of [DriverClient], with the activity of connections and
    their idle check.  [client.go] (module [beats]): heartbeats and isolated brokers,
    the table of telemetry sessions, syncing of settings, answers to commands and
    notices of termination.  [name_resolver.go] (module [resolver]).  Dialling and
    answers come with each call; the text of endpoints and its parser are parameters. *)

From Stdlib Require Import Ascii.
From S2P Require Import Prelude GoStd NsqSubscriber Driver DriverProducer DriverClient.

(** ** Calls *)

Module rpc.
Import manager.

Inductive Method : Type :=
| MQueryRoute | MQueryAssignments | MSendMessage | MTelemetry | MEndTransaction | MHeartBeat | MNotifyClientTermination
| MReceiveMessage | MAckMessage | MChangeInvisibleDuration | MForwardMessageToDeadLetterQueue | MSyncLiteSubscription | MRecallMessage.

(** A call of [rpcClient] marks the connection active; opening a telemetry stream does not. *)
Definition touches (m : Method) : bool := match m with MTelemetry => false | _ => true end.

(** The manager with the [activityNanoTime] of its connections. *)
Record Rpcs : Type := mkRpcs { mgr : Manager; activity : gmap nat Z }.
Definition RPC_CLIENT_MAX_IDLE_DURATION : Z := 30 * 60 * 1000000000.

Section rpc.
(** [status.FromError] with code Unavailable. *)
Context (Unavailable : error → bool).

(** The first half of a call: the connection, which is active from its creation. *)
Definition begin (m : Method) (target : string) (dial : option error) (now : Z) (s : Rpcs) : result nat * Rpcs :=
  match getRpcClient target dial (mgr s) with
  | (Err e, g) => (Err e, mkRpcs g (activity s))
  | (Ok c, g) =>
    let a := match activity s !! c with Some _ => activity s | None => <[c := now]> (activity s) end in
    (Ok c, mkRpcs g (if touches m then <[c := now]> a else a))
  end.

(** A whole call: the answer, after which an unavailable connection is closed. *)
Definition call (m : Method) (target : string) (dial : option error) (now : Z) (answer : result Z) (s : Rpcs) : result Z * Rpcs :=
  match begin m target dial now s with
  | (Err e, s) => (Err e, s)
  | (Ok c, s) => (answer, mkRpcs (handleGrpcError c (match answer with Err e => Unavailable e | Ok _ => false end) (mgr s)) (activity s))
  end.
Definition QueryRoute := call MQueryRoute.
Definition QueryAssignments := call MQueryAssignments.
Definition SendMessage := call MSendMessage.
Definition EndTransaction := call MEndTransaction.
Definition HeartBeat := call MHeartBeat.
Definition NotifyClientTermination := call MNotifyClientTermination.
Definition ReceiveMessage := call MReceiveMessage.
Definition AckMessage := call MAckMessage.
Definition ChangeInvisibleDuration := call MChangeInvisibleDuration.
Definition ForwardMessageToDeadLetterQueue := call MForwardMessageToDeadLetterQueue.
Definition SyncLiteSubscription := call MSyncLiteSubscription.
Definition RecallMessage := call MRecallMessage.

(** [Telemetry]: the stream owns the cancellation of its context, which a failed
    opening runs at once. *)
Record telemetryStream : Type := mkStream { st_cancelled : bool; st_closed : bool }.
Definition Telemetry (target : string) (dial : option error) (now : Z) (answer : result Z) (s : Rpcs) : result telemetryStream * bool * Rpcs :=
  match call MTelemetry target dial now answer s with
  | (Err e, s) => (Err e, true, s)
  | (Ok _, s) => (Ok (mkStream false false), false, s)
  end.
Definition stream_Recv (r : option error) (s : telemetryStream) : telemetryStream :=
  match r with Some _ => mkStream true (st_closed s) | None => s end.
Definition stream_CloseSend (s : telemetryStream) : telemetryStream := mkStream true true.

(** [clearIdleRpcClients] at a time. *)
Definition idle_at (now : Z) (s : Rpcs) (c : nat) : bool := now - default now (activity s !! c) >? RPC_CLIENT_MAX_IDLE_DURATION.
Definition check_idle (now : Z) (s : Rpcs) : Rpcs := mkRpcs (clearIdleRpcClients (idle_at now s) (mgr s)) (activity s).

Inductive RLabel : Type :=
| RCall (m : Method) (target : string) (dial : option error) (now : Z) (answer : result Z) | RIdle (now : Z) | RShutdown.
Definition rstep (l : RLabel) (s : Rpcs) : Rpcs :=
  match l with
  | RCall m t d now a => (call m t d now a s).2
  | RIdle now => check_idle now s
  | RShutdown => mkRpcs (step LClean (step LDone (mgr s))) (activity s)
  end.
Definition rrun (ls : list RLabel) (s : Rpcs) : Rpcs := fold_left (λ s l, rstep l s) ls s.
Definition new_rpcs : Rpcs := mkRpcs NewDefaultClientManager ∅.

(** *** The idle check *)

Definition rwf (s : Rpcs) : Prop := wf (mgr s) ∧ ∀ t c, table (mgr s) !! t = Some c → is_Some (activity s !! c).

Lemma delete_all_kept t cs m : (∀ c, c ∈ cs → clients m !! c ≠ Some t) → table (delete_all cs m) !! t = table m !! t.
Proof.
  unfold delete_all. revert m. induction cs as [|c cs IH]; intros m Hc; cbn; [done|].
  assert (Hcl : clients (deleteRpcClient c m) = clients m) by (unfold deleteRpcClient; by destruct (clients m !! c)).
  rewrite IH by (intros c' Hin; rewrite Hcl; apply Hc; set_solver). unfold deleteRpcClient.
  destruct (clients m !! c) as [t'|] eqn:E; [|done]. cbn. apply lookup_delete_ne. intros ->. apply (Hc c); [set_solver|done].
Qed.

Lemma delete_all_closed c cs m : c ∈ cs → is_Some (clients m !! c) → c ∉ opened (delete_all cs m).
Proof.
  assert (Hno : ∀ cs m, c ∉ opened m → c ∉ opened (delete_all cs m)).
  { clear. induction cs as [|x cs IH]; intros m Hc; cbn; [done|]. apply IH. unfold deleteRpcClient. destruct (clients m !! x); cbn; set_solver. }
  revert m. induction cs as [|x cs IH]; intros m Hin [t Ht]; [by apply not_elem_of_nil in Hin|]. apply elem_of_cons in Hin as [->|Hin]; cbn.
  - apply Hno. unfold deleteRpcClient. rewrite Ht. cbn. set_solver.
  - apply IH; [done|]. unfold deleteRpcClient. by destruct (clients m !! x); exists t.
Qed.

Lemma getRpcClient_table t dial m r g t' c' :
  getRpcClient t dial m = (r, g) → table g !! t' = Some c' → table m !! t' = Some c' ∨ (r = Ok c' ∧ t' = t).
Proof.
  unfold getRpcClient. destruct (done m); [intros [= <- <-]; by left|]. destruct (table m !! t) as [x|] eqn:Et; [intros [= <- <-]; by left|].
  destruct dial; [intros [= <- <-]; by left|]. intros [= <- <-]. cbn. intros [[<- <-]|[_ H]]%lookup_insert_Some; [by right|by left].
Qed.

Lemma rwf_begin m t dial now s : rwf s → rwf (begin m t dial now s).2.
Proof.
  intros [Hw Ha]. unfold begin. pose proof (wf_step (LCall t dial) (mgr s) Hw) as Hc. cbn in Hc.
  pose proof (getRpcClient_table t dial (mgr s)) as Ht. destruct (getRpcClient t dial (mgr s)) as [[c|e] g]; cbn.
  - split; [destruct Hc; by split|]. cbn. intros t' c' [Hold|[[= ->] ->]]%(Ht _ _ _ _ eq_refl).
    + apply Ha in Hold. destruct (decide (c' = c)) as [->|Hne]; [by destruct (touches m), (activity s !! c) eqn:E; rewrite ?lookup_insert_eq, ?E|].
      destruct (touches m), (activity s !! c); rewrite ?lookup_insert_ne by done; done.
    + destruct (touches m); [by rewrite lookup_insert_eq|]. destruct (activity s !! c') eqn:E; [by rewrite E|by rewrite lookup_insert_eq].
  - split; [done|]. intros t' c' [Hold|[? _]]%(Ht _ _ _ _ eq_refl); [by eapply Ha|done].
Qed.

Lemma rwf_sub g s : wf g → table g ⊆ table (mgr s) → rwf s → rwf (mkRpcs g (activity s)).
Proof. intros Hg Hs [_ Ha]. split; [done|]. intros t c Ht. apply (Ha t). by eapply lookup_weaken. Qed.

Lemma delete_sub c m : table (deleteRpcClient c m) ⊆ table m.
Proof. unfold deleteRpcClient. destruct (clients m !! c); [apply delete_subseteq|done]. Qed.

Lemma rwf_step l s : rwf s → rwf (rstep l s).
Proof.
  intros Hs. destruct l as [m t dial now ans|now|]; cbn.
  - unfold call. pose proof (rwf_begin m t dial now s Hs) as Hb. destruct (begin m t dial now s) as [[c|e] s']; cbn in *; [|done].
    unfold handleGrpcError. destruct (match ans with Ok _ => false | Err e => Unavailable e end); [|by destruct s'].
    apply rwf_sub; [by apply wf_delete, Hb|apply delete_sub|done].
  - apply rwf_sub; [by apply wf_delete_all, Hs|apply delete_all_fields|done].
  - apply rwf_sub; [by apply (wf_step LClean), (wf_step LDone), Hs|exact (proj1 (proj2 (proj2 (delete_all_fields _ (step LDone (mgr s))))))|done].
Qed.

Lemma rwf_run ls s : rwf s → rwf (rrun ls s).
Proof. unfold rrun. revert s. induction ls as [|l ls IH]; intros s H; [done|]. apply IH. by apply rwf_step. Qed.

Lemma rwf_new : rwf new_rpcs.
Proof. split; [apply wf_new|]. cbn. intros t c H. by rewrite lookup_empty in H. Qed.

(** The idle check closes the connections that are idle and no other.  In every run
    of calls, checks and shutdowns, a check keeps the connection of a target open and
    in the table when its last call began at most 30 minutes ago, and otherwise
    removes it from the table and closes it. *)
Theorem idle_exact ls now t c a :
  let s := rrun ls new_rpcs in let s' := rrun (ls ++ [RIdle now]) new_rpcs in
  table (mgr s) !! t = Some c → activity s !! c = Some a →
  if now - a >? RPC_CLIENT_MAX_IDLE_DURATION
  then table (mgr s') !! t = None ∧ c ∉ opened (mgr s')
  else table (mgr s') !! t = Some c ∧ c ∈ opened (mgr s').
Proof.
  intros s s' Ht Ha. pose proof (rwf_run ls _ rwf_new) as [[A B] _]. fold s in A, B.
  assert (Es : s' = check_idle now s) by (unfold s', s, rrun; by rewrite fold_left_app). rewrite Es. cbn. unfold clearIdleRpcClients.
  set (cs := filter _ _). destruct (A t c Ht) as [Hcl Hop].
  assert (Hcs : ∀ x, x ∈ cs → idle_at now s x = true ∧ ∃ t', table (mgr s) !! t' = Some x).
  { intros x [Hi ([t' y]&->&Hy)%list_elem_of_fmap]%list_elem_of_filter. split; [done|]. exists t'. by apply elem_of_map_to_list in Hy. }
  assert (Hi : idle_at now s c = (now - a >? RPC_CLIENT_MAX_IDLE_DURATION)) by (unfold idle_at; by rewrite Ha).
  destruct (now - a >? RPC_CLIENT_MAX_IDLE_DURATION).
  - assert (Hin : c ∈ cs).
    { apply list_elem_of_filter. split; [done|]. apply list_elem_of_fmap. exists (t, c). by rewrite elem_of_map_to_list. }
    split; [by apply (proj1 (proj2 (proj2 (proj2 (delete_all_fields cs (mgr s)))))) with c|by apply delete_all_closed; [|exists t]].
  - assert (Hn : ∀ x, x ∈ cs → clients (mgr s) !! x ≠ Some t).
    { intros x Hx Hc. destruct (Hcs x Hx) as [Hix [t' Ht']]. destruct (A t' x Ht') as [Hc' _]. assert (t' = t) as -> by congruence.
      rewrite Ht in Ht'. injection Ht' as ->. congruence. }
    split; [by rewrite delete_all_kept|]. apply (proj2 (proj2 (proj2 (proj2 (delete_all_fields cs (mgr s)))))); [done|].
    intros [Hx _]%Hcs. congruence.
Qed.
End rpc.

(** A connection used at second 1 and checked 30 minutes later, and one second after that. *)
Definition ex_calls : list RLabel := [RCall MSendMessage "a:8081" None 1000000000 (Ok 20000)].

Lemma idle_exact_witness :
  table (mgr (rrun (λ _, false) (ex_calls ++ [RIdle 1801000000000]) new_rpcs)) !! "a:8081"%string = Some 0%nat ∧
  table (mgr (rrun (λ _, false) (ex_calls ++ [RIdle 1802000000000]) new_rpcs)) !! "a:8081"%string = None.
Proof.
  split.
  - exact (proj1 (idle_exact (λ _, false) ex_calls 1801000000000 "a:8081" 0 1000000000 eq_refl eq_refl)).
  - exact (proj1 (idle_exact (λ _, false) ex_calls 1802000000000 "a:8081" 0 1000000000 eq_refl eq_refl)).
Defined.
End rpc.

(** ** Heartbeats and telemetry *)

Module beats.
Import balancer producer client.

(** The implementation behind a client: only producers keep isolated brokers. *)
Inductive Impl : Type := IProducer (isolated : gset string) | IOther.

Section beats.
Context (EndpointsToString : list string → string) (ParseTarget : string → result (list string)).

(** [getTotalTargets] as texts: each distinct target of all routes once. *)
Definition targets (routes : list (list MessageQueue)) : list string :=
  remove_dups ((λ q, EndpointsToString (q_addresses q)) <$> concat routes).

(** [doHeartbeat] *)
Definition doHeartbeat (target : string) (r : Reply) (i : Impl) : option error * Impl :=
  match ParseTarget target with
  | Err e => (Some (ErrWrap "failed to send heartbeat" e), i)
  | Ok _ =>
    match r with
    | RErr e => (Some (ErrWrap "failed to send heartbeat" e), i)
    | RStatus code _ =>
      if negb (code =? Code_OK) then (Some (ErrDriver code), i)
      else (None, match i with IProducer iso => IProducer (iso ∖ {[target]}) | IOther => IOther end)
    end
  end.

(** [Heartbeat]: errors are logged. *)
Definition Heartbeat (ts : list string) (answer : string → Reply) (i : Impl) : Impl :=
  fold_left (λ i t, (doHeartbeat t (answer t) i).2) ts i.

(** The clients of a manager: [RegisterClient], [UnRegisterClient], and the loop over them. *)
Definition RegisterClient (id : string) (cs : gmap string Impl) (i : Impl) : gmap string Impl := <[id := i]> cs.
Definition UnRegisterClient (id : string) (cs : gmap string Impl) : gmap string Impl := delete id cs.
Definition manager_doHeartbeat (ts : string → list string) (answer : string → string → Reply) (cs : gmap string Impl) : gmap string Impl :=
  map_imap (λ id i, Some (Heartbeat (ts id) (answer id) i)) cs.

(** [getDefaultClientSession]: the session of a target, made once. *)
Definition getDefaultClientSession (target : string) (inited reconnect : bool) (ss : gmap string session.Session) : result session.Session * gmap string session.Session :=
  match ss !! target with
  | Some s => (Ok s, ss)
  | None =>
    match ParseTarget target with
    | Err e => (Err e, ss)
    | Ok _ => let s := session.NewDefaultClientSession inited reconnect in (Ok s, <[target := s]> ss)
    end
  end.

(** [telemeter]: the answers of Telemetry and Send. *)
Definition telemeter (target : string) (inited reconnect : bool) (answers : option error * option error) (ss : gmap string session.Session)
    : option error * gmap string session.Session :=
  match getDefaultClientSession target inited reconnect ss with
  | (Err e, ss) => (Some e, ss)
  | (Ok s, ss) => let '(e, s) := session.publish answers.1 answers.2 s in (e, <[target := s]> ss)
  end.

(** [trySyncSettings]; also the answers to the broker's commands, which go to the
    address of each endpoint. *)
Definition trySyncSettings (ts : list string) (inited reconnect : bool) (answers : string → option error * option error) (ss : gmap string session.Session)
    : gmap string session.Session :=
  fold_left (λ ss t, (telemeter t inited reconnect (answers t) ss).2) ts ss.
Definition onVerifyMessageCommand (addresses : list string) := trySyncSettings addresses.
Definition onPrintThreadStackTraceCommand (addresses : list string) := trySyncSettings addresses.

(** [notifyClientTermination]: the endpoints that are told. *)
Definition notifyClientTermination (ts : list string) : list (list string) :=
  omap (λ t, match ParseTarget t with Ok e => Some e | Err _ => None end) ts.

(** *** Correctness *)

(** Heartbeats that reached a target. *)
Definition reached (answer : string → Reply) (t : string) : bool :=
  match ParseTarget t with Ok _ => bool_decide (reply_error (answer t) = None) | Err _ => false end.

Lemma doHeartbeat_isolated t answer iso :
  (doHeartbeat t (answer t) (IProducer iso)).2 = IProducer (if reached answer t then iso ∖ {[t]} else iso).
Proof.
  unfold doHeartbeat, reached, reply_error. destruct (ParseTarget t); [|done]. destruct (answer t) as [e|code es]; [done|].
  destruct (code =? Code_OK); [by rewrite bool_decide_eq_true_2|by rewrite bool_decide_eq_false_2].
Qed.

Lemma Heartbeat_isolated ts answer iso :
  ∃ iso', Heartbeat ts answer (IProducer iso) = IProducer iso' ∧ ∀ a, a ∈ iso' ↔ a ∈ iso ∧ ¬ (a ∈ ts ∧ reached answer a = true).
Proof.
  unfold Heartbeat. revert iso. induction ts as [|t ts IH]; intros iso; [exists iso; split; [done|]; set_solver|].
  cbn [fold_left]. rewrite doHeartbeat_isolated. destruct (IH (if reached answer t then iso ∖ {[t]} else iso)) as (iso'&->&H).
  exists iso'. split; [done|]. intros a. rewrite H, elem_of_cons.
  destruct (reached answer t) eqn:E; rewrite ?elem_of_difference, ?elem_of_singleton; destruct (decide (a = t)) as [->|]; rewrite ?E; naive_solver.
Qed.

(** A producer's isolated brokers come back by their heartbeat, and only by it.  After
    a round of heartbeats to all routes, an address is still isolated exactly when it
    was before and is not the text of a target whose heartbeat was answered with OK.
    A broker that a send isolated under one address comes back; but the addresses of
    a broker that has several, none of which is the text of a target, stay isolated
    through any number of rounds. *)
Theorem heartbeats_rejoin routes (answers : list (string → Reply)) iso q a :
  (∀ x answer, ∃ iso', Heartbeat (targets routes) answer (IProducer x) = IProducer iso' ∧
     ∀ b, b ∈ iso' ↔ b ∈ x ∧ ¬ (b ∈ targets routes ∧ reached answer b = true)) ∧
  (a ∈ q_addresses q → a ∉ targets routes →
   ∃ iso', fold_left (λ i answer, Heartbeat (targets routes) answer i) answers (IProducer (list_to_set (q_addresses q) ∪ iso)) = IProducer iso' ∧ a ∈ iso').
Proof.
  split; [intros x answer; apply Heartbeat_isolated|]. intros Ha Hn.
  assert (Hin : a ∈ (list_to_set (q_addresses q) ∪ iso : gset string)) by set_solver. revert Hin. generalize (list_to_set (q_addresses q) ∪ iso).
  induction answers as [|answer answers IH]; intros x Hin; [by exists x|]. cbn [fold_left].
  destruct (Heartbeat_isolated (targets routes) answer x) as (x'&->&H). apply IH. apply H. set_solver.
Qed.

(** The settings reach every target whose session takes them, through one session
    per target; the sessions of other targets are not touched. *)
Lemma telemeter_session t inited reconnect answers ss :
  let '(e, ss') := telemeter t inited reconnect answers ss in
  (∀ t', t' ≠ t → ss' !! t' = ss !! t') ∧ (e = None → ∃ s o, ss' !! t = Some s ∧ session.observer s = Some o).
Proof.
  assert (Hp : ∀ a b s, match session.publish a b s with (e, s') => e = None → ∃ o, session.observer s' = Some o end).
  { intros a b s. unfold session.publish. destruct (session.observer s) as [o|] eqn:E.
    - intros _. unfold session.use. case_bool_decide; cbn; eauto.
    - destruct a; [done|]. intros _. unfold session.use. case_bool_decide; cbn; eauto. }
  unfold telemeter, getDefaultClientSession. destruct (ss !! t) as [s|] eqn:E; [|destruct (ParseTarget t)]; [| |done].
  - specialize (Hp answers.1 answers.2 s). destruct (session.publish _ _ s) as [e s']. split; [intros t' Hn; by rewrite lookup_insert_ne|].
    intros [o Ho]%Hp. exists s', o. by rewrite lookup_insert_eq.
  - specialize (Hp answers.1 answers.2 (session.NewDefaultClientSession inited reconnect)). destruct (session.publish _ _ _) as [e s'].
    split; [intros t' Hn; by rewrite !lookup_insert_ne|]. intros [o Ho]%Hp. exists s', o. by rewrite lookup_insert_eq.
Qed.
End beats.

(** A broker of two addresses, written with a semicolon between them. *)
Definition ex_text (l : list string) : string := foldr (λ a t, if t == ""%string then a else a +:+ ";" +:+ t) ""%string l.
Definition ex_pair : MessageQueue := mkQueue "orders" 0 "a" ["a:8081"%string; "b:8081"%string] [].

Lemma heartbeats_rejoin_witness :
  ∃ iso', fold_left (λ i answer, Heartbeat (λ s, Ok [s]) (targets ex_text [[ex_pair]]) answer i) [λ _, RStatus Code_OK []] (IProducer (list_to_set ["a:8081"%string; "b:8081"%string] ∪ ∅)) = IProducer iso' ∧ "a:8081"%string ∈ iso'.
Proof.
  refine (proj2 (heartbeats_rejoin ex_text (λ s, Ok [s]) [[ex_pair]] [λ _, RStatus Code_OK []] ∅ ex_pair "a:8081") _ _).
  - apply elem_of_cons. by left.
  - intros H%list_elem_of_In. vm_compute in H. intuition discriminate.
Defined.
End beats.

(** ** Name resolution *)

Module resolver.
Import gotext.

(** [strings.Split] with a separator of one octet, and its inverse [strings.Join]. *)
Fixpoint Split (c : ascii) (s : string) : list string :=
  match s with
  | EmptyString => [""%string]
  | String a s =>
    if a == c then ""%string :: Split c s
    else match Split c s with [] => [String a ""%string] | x :: l => String a x :: l end
  end.
Fixpoint Join (c : ascii) (l : list string) : string :=
  match l with
  | [] => ""%string
  | x :: l => match l with [] => x | _ => x +:+ String c (Join c l) end
  end.

Section resolver.
(** [rand.Shuffle] *)
Context (Shuffle : list string → list string).

Definition splitEndpoints (endpoints : string) : list string :=
  Shuffle (filter (λ e, e ≠ ""%string) (TrimSpace <$> Split ";" endpoints)).

(** [Build] with [start]: the addresses the connection is told. *)
Definition Build (endpoint : string) : list string := splitEndpoints endpoint.

Lemma Split_ne c s : Split c s ≠ [].
Proof. destruct s as [|a s]; cbn; [done|]. destruct (a == c); [done|]. by destruct (Split c s). Qed.

Lemma Split_one c x : contains_char c x = false → Split c x = [x].
Proof. induction x as [|a x IH]; cbn; [done|]. intros [Ha Hx]%orb_false_iff. by rewrite Ha, IH. Qed.

Lemma Split_app c x s : contains_char c x = false → Split c (x +:+ String c s) = x :: Split c s.
Proof.
  induction x as [|a x IH]; intros Hx; [rewrite string_nil_app; cbn; by rewrite bool_decide_eq_true_2|].
  cbn in Hx. apply orb_false_iff in Hx as [Ha Hx]. rewrite string_cons_app. cbn. by rewrite Ha, IH.
Qed.

Lemma Split_Join c l : l ≠ [] → Forall (λ x, contains_char c x = false) l → Split c (Join c l) = l.
Proof.
  intros Hne Hl. induction Hl as [|x l Hx Hl IH]; [done|]. cbn [Join]. destruct l as [|y l]; [by apply Split_one|].
  rewrite Split_app by done. by rewrite IH.
Qed.

(** The resolver finds the addresses a target was made of.  A list of addresses
    without semicolons, spaces at the ends or empty texts, joined with semicolons as
    the driver names a broker, is resolved to the same addresses, each as often, in
    some order. *)
Theorem resolver_roundtrip l :
  (∀ l, Shuffle l ≡ₚ l) → l ≠ [] → Forall (λ x, contains_char ";" x = false ∧ x ≠ ""%string ∧ TrimSpace x = x) l → Build (Join ";" l) ≡ₚ l.
Proof.
  intros Hs Hne Hl. unfold Build, splitEndpoints. rewrite Hs, Split_Join; [|done|eapply Forall_impl; [exact Hl|naive_solver]].
  clear Hne. induction Hl as [|x l (_&Hx&Ht) Hl IH]; [done|]. rewrite fmap_cons, Ht, filter_cons_True by done. by rewrite IH.
Qed.
End resolver.

Lemma resolver_roundtrip_witness : Build (@rev string) (Join ";" ["10.0.0.1:8081"%string; "10.0.0.2:8081"%string]) ≡ₚ ["10.0.0.1:8081"%string; "10.0.0.2:8081"%string].
Proof.
  apply resolver_roundtrip; [intros l; symmetry; apply Permutation_rev|done|].
  repeat constructor; try discriminate; vm_compute; reflexivity.
Defined.
End resolver.
