(* ===== verification/DriverMeter.v ===== *)
(** * transport/rocketmq/internal/driver: meters and hooks

    [metric.go] and the hooks of [client.go] and [message.go]: the meter a client
    switches as the brokers' settings say, its exporters, the measurements a hook
    records, and the order in which interceptors run.  The exporter library and the
    comparison of endpoints are parameters; the definitions of the views are data of
    the library. *)

From S2P Require Import Prelude GoStd Driver DriverProducer DriverSettings.

Module meter.
Import settings.

(** ** The meter of a client *)

(** [defaultClientMeter]; exporters are numbered as they are made. *)
Record Meter : Type := mkMeter { enabled : bool; endpoints : option (list string); exporter : option nat }.
Definition NewDefaultClientMeter (e : option nat) (on : bool) (eps : option (list string)) : Meter := mkMeter on eps e.

(** The provider with the library's registry: [made] exporters, those registered and
    those stopped, in order. *)
Record Provider : Type := mkProvider { clientMeter : Meter; made : nat; registered : gset nat; stopped : list nat }.
Definition NewDefaultClientMeterProvider : Provider := mkProvider (NewDefaultClientMeter None false None) 0 ∅ [].

Definition shutdown (m : Meter) (p : Provider) : Provider :=
  if negb (enabled m) then p
  else match exporter m with
  | None => p
  | Some e => mkProvider (clientMeter p) (made p) (registered p ∖ {[e]}) (stopped p ++ [e])
  end.
Definition start (m : Meter) (p : Provider) : Provider :=
  if negb (enabled m) then p
  else match exporter m with
  | None => p
  | Some e => mkProvider (clientMeter p) (made p) ({[e]} ∪ registered p) (stopped p)
  end.
Definition store (m : Meter) (p : Provider) : Provider := mkProvider m (made p) (registered p) (stopped p).

Section meter.
Context (CompareEndpoints : option (list string) → list string → bool).

(** [Reset], with the answer of the exporter library. *)
Definition Reset (metric : Metric) (newExporter : option error) (p : Provider) : Provider :=
  let current := clientMeter p in
  if enabled current && m_on metric && CompareEndpoints (endpoints current) (m_endpoints metric) then p
  else if negb (m_on metric) then store (NewDefaultClientMeter None false None) (shutdown current p)
  else match newExporter with
  | Some _ => p
  | None =>
    let e := made p in
    let p := mkProvider (clientMeter p) (S e) (registered p) (stopped p) in
    let next := NewDefaultClientMeter (Some e) true (Some (m_endpoints metric)) in
    start next (store next (shutdown current p))
  end.
Definition isEnabled (p : Provider) : bool := enabled (clientMeter p).
Definition resets (ms : list (Metric * option error)) (p : Provider) : Provider := fold_left (λ p m, Reset m.1 m.2 p) ms p.

(** The registry holds the exporter of the current meter if it is on, and every other
    exporter was stopped once. *)
Record wf (p : Provider) : Prop := mkWf {
  w_current : enabled (clientMeter p) = bool_decide (is_Some (exporter (clientMeter p)));
  w_registered : registered p = match exporter (clientMeter p) with Some e => {[e]} | None => ∅ end;
  w_all : stopped p ++ option_list (exporter (clientMeter p)) = seq 0 (made p)
}.

Lemma wf_reset m n p : wf p → wf (Reset m n p).
Proof.
  intros [A B C]. unfold Reset. destruct (_ && _ && _); [by split|]. destruct p as [[en eps ex] k reg st]. cbn in *.
  destruct (m_on m); cbn; [destruct n; [by split|]|]; destruct ex as [e|]; cbn in A; subst en; unfold shutdown, start; cbn; subst reg;
    (split; cbn; [done|set_solver|]); rewrite ?app_nil_r in *; try done;
    change (0%nat :: seq 1 k) with (seq 0 (S k)); rewrite seq_S, <- C; cbn; by rewrite ?app_nil_r, ?app_assoc.
Qed.

Lemma wf_resets ms p : wf p → wf (resets ms p).
Proof. unfold resets. revert p. induction ms as [|m ms IH]; intros p H; [done|]. apply IH. by apply wf_reset. Qed.

Lemma wf_meter_new : wf NewDefaultClientMeterProvider.
Proof. by split. Qed.

(** A client has one exporter of measurements at a time.  After any commands of the
    brokers, also those whose exporter cannot be made, the registry holds exactly the
    exporter of the current meter, or none when metrics are off; every other exporter
    was stopped exactly once, in the order they were made; and switching metrics off,
    as the stop of a client does, leaves no exporter registered or running. *)
Theorem one_exporter ms eps err :
  let p := resets ms NewDefaultClientMeterProvider in
  registered p = list_to_set (option_list (exporter (clientMeter p))) ∧
  stopped p ++ option_list (exporter (clientMeter p)) = seq 0 (made p) ∧
  (let q := Reset (mkMetric false eps) err p in registered q = ∅ ∧ stopped q = seq 0 (made q) ∧ isEnabled q = false).
Proof.
  intros p. pose proof (wf_resets ms _ wf_meter_new) as Hw. fold p in Hw. pose proof (wf_reset (mkMetric false eps) err p Hw) as [_ B' C'].
  destruct Hw as [A B C]. split_and!; [rewrite B; destruct (exporter (clientMeter p)); cbn; set_solver|done|].
  assert (Hq : clientMeter (Reset (mkMetric false eps) err p) = NewDefaultClientMeter None false None).
  { unfold Reset. cbn. by rewrite andb_false_r. }
  rewrite Hq in B', C'. cbn in *. rewrite app_nil_r in C'. unfold isEnabled. by rewrite Hq.
Qed.
End meter.

(** ** Measurements *)

Inductive HookPoint : Type :=
| SEND | RECEIVE | CONSUME | ACK | CHANGE_INVISIBLE_DURATION | COMMIT_TRANSACTION | ROLLBACK_TRANSACTION | FORWARD_TO_DLQ.
Inductive Status : Type := UNSET | OK | ERROR.
Inductive View : Type := PublishLatency | DeliveryLatency | AwaitTime | ProcessTime.

(** The fields of [MessageCommon] the hooks read; instants are nanoseconds. *)
Record Common : Type := mkCommon { c_topic : string; decodeStopwatch : option Z; deliveryTimestamp : option Z }.
Record Measurement : Type := mkMeasurement { v_view : View; v_topic : string; v_group : option string; v_success : option bool; v_ms : Z }.

(** Record a measurement for each message that has one, until the library refuses. *)
Fixpoint record_all (f : Common → option Measurement) (refuse : Measurement → option error) (cs : list Common) : list Measurement * option error :=
  match cs with
  | [] => ([], None)
  | c :: cs =>
    match f c with
    | None => record_all f refuse cs
    | Some m =>
      match refuse m with
      | Some e => ([], Some e)
      | None => let '(ms, e) := record_all f refuse cs in (m :: ms, e)
      end
    end
  end.

Section hooks.
Context (refuse : Measurement → option error).

(** [Milliseconds] truncates. *)
Definition millis (ns : Z) : Z := Z.quot ns 1000000.
Definition success_of (s : Status) : bool := match s with OK => true | _ => false end.

(** The group of the client behind a meter: [None] when it is not a push consumer. *)
Definition for_group (group : option string) (cs : list Common) (f : string → list Measurement * option error) : list Measurement * option error :=
  match cs, group with
  | [], _ | _, None => ([], None)
  | _, Some g => if len g =? 0 then ([], None) else f g
  end.

Definition doBeforeConsumeMessage (group : option string) (now : Z) (cs : list Common) :=
  for_group group cs (λ g, record_all (λ c, (λ t, mkMeasurement AwaitTime (c_topic c) (Some g) None (millis (now - t))) <$> decodeStopwatch c) refuse cs).
Definition doAfterConsumeMessage (group : option string) (duration : Z) (s : Status) (cs : list Common) :=
  for_group group cs (λ g, record_all (λ c, Some (mkMeasurement ProcessTime (c_topic c) (Some g) (Some (success_of s)) (millis duration))) refuse cs).
Definition doAfterReceiveMessage (group : option string) (now : Z) (cs : list Common) :=
  for_group group cs (λ g, record_all (λ c, (λ t, mkMeasurement DeliveryLatency (c_topic c) (Some g) None (millis (now - t))) <$> deliveryTimestamp c) refuse cs).
Definition doAfterSendMessage (duration : Z) (s : Status) (cs : list Common) :=
  record_all (λ c, Some (mkMeasurement PublishLatency (c_topic c) None (Some (success_of s)) (millis duration))) refuse cs.

(** [doBefore] and [doAfter] of the meter's interceptor. *)
Definition meter_doBefore (p : Provider) (group : option string) (now : Z) (h : HookPoint) (cs : list Common) : list Measurement * option error :=
  if negb (isEnabled p) then ([], None) else match h with CONSUME => doBeforeConsumeMessage group now cs | _ => ([], None) end.
Definition meter_doAfter (p : Provider) (group : option string) (now duration : Z) (s : Status) (h : HookPoint) (cs : list Common) : list Measurement * option error :=
  if negb (isEnabled p) then ([], None)
  else match h with
  | SEND => doAfterSendMessage duration s cs
  | CONSUME => doAfterConsumeMessage group duration s cs
  | RECEIVE => doAfterReceiveMessage group now cs
  | _ => ([], None)
  end.
End hooks.

(** [doBefore] and [doAfter] of a client: every interceptor in the order of its
    registration, whatever the others return. *)
Definition registerMessageInterceptor {I} (i : I) (l : list I) : list I := l ++ [i].
Definition run_hooks {S} (l : list (S → option error * S)) (s : S) : list error * S :=
  fold_left (λ '(es, s) i, let '(e, s) := i s in (es ++ option_list e, s)) l ([], s).

Lemma record_all_length f refuse cs : (length (record_all f refuse cs).1 <= length cs)%nat.
Proof.
  induction cs as [|c cs IH]; cbn; [done|]. destruct (f c) as [m|]; [|lia]. destruct (refuse m); [cbn; lia|].
  destruct (record_all f refuse cs). cbn in *. lia.
Qed.

(** A hook of a meter that is off records nothing; one that is on records at most one
    measurement for each message, and exactly one for each sent message when the
    library takes all of them. *)
Lemma sends_recorded p group now d s cs :
  isEnabled p = true → meter_doAfter (λ _, None) p group now d s SEND cs =
  ((λ c, mkMeasurement PublishLatency (c_topic c) None (Some (success_of s)) (millis d)) <$> cs, None).
Proof.
  intros He. unfold meter_doAfter, doAfterSendMessage. rewrite He. cbn [negb]. induction cs as [|c cs IH]; [done|]. cbn. by rewrite IH.
Qed.
End meter.
