(* ===== verification/Bridges.v ===== *)
(** * wire/domain and the GORM bridges

    [wire/domain/envelope.go] (module [domain]): the metadata a host event is sent
    with, chiefly the text of its time, and the wrappers around encoding/json.
    [storage/mysql/gorm.go] and [BindGORM] of [storage/transaction/mysql/guard.go]
    (module [gorm]): taking the SQL transaction out of an ORM handle.  The JSON of
    host types is a parameter. *)

From Stdlib Require Import Ascii.
From S2P Require Import Prelude GoStd.

Module domain.

(** The fields of a time in its location; the offset is in seconds east of UTC. *)
Record Time : Type := mkTime { year : Z; month : Z; day : Z; hour : Z; minute : Z; second : Z; nanosecond : Z; offset : Z }.

Definition valid (t : Time) : Prop :=
  0 <= year t <= 9999 ∧ 1 <= month t <= 12 ∧ 1 <= day t <= RFC3339.days_in (month t) (year t) ∧ 0 <= hour t <= 23 ∧
  0 <= minute t <= 59 ∧ 0 <= second t <= 59 ∧ 0 <= nanosecond t <= 999999999 ∧ -86399 <= offset t <= 86399.

(** [appendInt]: the last [n] decimal digits of a number, with leading zeros. *)
Fixpoint pad (n : nat) (z : Z) (acc : string) : string :=
  match n with O => acc | S n => pad n (z / 10) (String (byte_of (48 + z mod 10)) acc) end.

(** [Format(OccurredAtLayout)], the layout 2006-01-02T15:04:05.000Z07:00. *)
Definition zone_text (off : Z) : string :=
  if off =? 0 then "Z"%string
  else let m := Z.quot off 60 in
       (if m <? 0 then "-"%string else "+"%string) +:+ pad 2 (Z.abs m / 60) (":" +:+ pad 2 (Z.abs m mod 60) "").
Definition FormatOccurredAt (t : Time) : string :=
  pad 4 (year t) ("-" +:+ pad 2 (month t) ("-" +:+ pad 2 (day t) ("T" +:+ pad 2 (hour t) (":" +:+ pad 2 (minute t) (":" +:+
    pad 2 (second t) ("." +:+ pad 3 (nanosecond t / 1000000) (zone_text (offset t)))))))).

(** [Event]: what the host's events answer. *)
Record Event : Type := mkEvent { EventID : string; EventType : string; OccurredAt : Time; AggregateType : string; AggregateID : string }.

(** [MetadataFromEvent]; [None] is a nil event. *)
Definition MetadataFromEvent (e : option Event) (source : string) : gmap string string :=
  match e with
  | None => ∅
  | Some e => list_to_map [("event_type", EventType e); ("aggregate_type", AggregateType e); ("aggregate_id", AggregateID e);
                           ("occurred_at", FormatOccurredAt (OccurredAt e)); ("source", source)]%string
  end.

Section codec.
Context {Envelope : Type} (Marshal : Event → result bytes) (Unmarshal : bytes → result Envelope).
Definition EncodeEvent (e : option Event) : result bytes :=
  match e with
  | None => Err (ErrMsg "domain event is nil")
  | Some e => match Marshal e with Err x => Err (ErrWrap "failed to marshal event" x) | Ok b => Ok b end
  end.
Definition DecodeEnvelope (payload : bytes) : result Envelope :=
  match Unmarshal payload with Err x => Err (ErrWrap "failed to parse event envelope" x) | Ok e => Ok e end.
End codec.

(** ** Reading the text back *)

(** [n] digits at the head of a text. *)
Fixpoint digits (n : nat) (acc : Z) (s : string) : option (Z * string) :=
  match n with
  | O => Some (acc, s)
  | S n => match s with String a s => d ← RFC3339.digit a; digits n (10 * acc + d) s | EmptyString => None end
  end.
Definition read_zone (s : string) : option Z :=
  match s with
  | String "Z" EmptyString => Some 0
  | String sign s =>
    h ← digits 2 0 s; s ← RFC3339.skip ":" h.2; m ← digits 2 0 s;
    if m.2 == ""%string then Some (if sign == "-"%char then - (60 * h.1 + m.1) else 60 * h.1 + m.1) else None
  | EmptyString => None
  end.

(** The fields of the text, with milliseconds and the offset in minutes. *)
Definition ReadOccurredAt (s : string) : option (list Z) :=
  y ← digits 4 0 s; s ← RFC3339.skip "-" y.2; mo ← digits 2 0 s; s ← RFC3339.skip "-" mo.2; d ← digits 2 0 s; s ← RFC3339.skip "T" d.2;
  h ← digits 2 0 s; s ← RFC3339.skip ":" h.2; mi ← digits 2 0 s; s ← RFC3339.skip ":" mi.2; se ← digits 2 0 s; s ← RFC3339.skip "." se.2;
  ms ← digits 3 0 s; z ← read_zone ms.2; Some [y.1; mo.1; d.1; h.1; mi.1; se.1; ms.1; z].

Lemma digits_pad n z acc k s : 0 <= z < 10 ^ Z.of_nat n → 0 <= acc → digits (n + k) acc (pad n z s) = digits k (acc * 10 ^ Z.of_nat n + z) s.
Proof.
  revert z acc k s. induction n as [|n IH]; intros z acc k s Hz Ha; [cbn in *; f_equal; lia|].
  rewrite Nat2Z.inj_succ, Z.pow_succ_r in * by lia. cbn [pad]. replace (S n + k)%nat with (n + S k)%nat by lia.
  assert (Hd : 0 <= z / 10 < 10 ^ Z.of_nat n) by (split; [apply Z.div_pos; lia|apply Z.div_lt_upper_bound; lia]).
  rewrite IH by done. cbn [digits]. rewrite digit_byte by (apply Z.mod_pos_bound; lia). cbn. f_equal.
  pose proof (Z.div_mod z 10 ltac:(lia)). lia.
Qed.

Lemma digits_pad_all n z s : 0 <= z < 10 ^ Z.of_nat n → digits n 0 (pad n z s) = Some (z, s).
Proof. intros Hz. pose proof (digits_pad n z 0 0 s Hz ltac:(lia)) as H. rewrite Nat.add_0_r in H. by rewrite H. Qed.

Lemma skip_app a s : RFC3339.skip a (String a "" +:+ s) = Some s.
Proof. rewrite string_cons_app, string_nil_app. cbn. by rewrite bool_decide_eq_true_2. Qed.

Lemma read_zone_text off : -86399 <= off <= 86399 → read_zone (zone_text off) = Some (Z.quot off 60).
Proof.
  intros Ho. unfold zone_text. destruct (Z.eqb_spec off 0) as [->|Hn]; [done|]. set (m := Z.quot off 60).
  assert (Hm : -1439 <= m <= 1439) by (unfold m; Z.to_euclidean_division_equations; lia).
  assert (H1 : 0 <= Z.abs m / 60 < 10 ^ Z.of_nat 2) by (split; [apply Z.div_pos; lia|apply Z.div_lt_upper_bound; cbn; lia]).
  assert (H2 : 0 <= Z.abs m mod 60 < 10 ^ Z.of_nat 2) by (pose proof (Z.mod_pos_bound (Z.abs m) 60 ltac:(lia)); cbn; lia).
  pose proof (Z.div_mod (Z.abs m) 60 ltac:(lia)) as Hdm.
  destruct (Z.ltb_spec m 0) as [Hneg|Hpos]; rewrite string_cons_app, string_nil_app; cbn [read_zone]; rewrite digits_pad_all by done; cbn [mbind option_bind fst snd];
    rewrite skip_app; cbn [mbind option_bind]; rewrite digits_pad_all by done; cbn [mbind option_bind fst snd]; rewrite bool_decide_eq_true_2 by done;
    f_equal; [rewrite bool_decide_eq_true_2 by done|rewrite bool_decide_eq_false_2 by done]; lia.
Qed.

Lemma days_bound m y : RFC3339.days_in m y <= 31.
Proof. unfold RFC3339.days_in. repeat case_match; lia. Qed.

(** The time of an event can be read back from its metadata.  For every time Go can
    write with four digits of the year, the text of occurred_at gives back its date,
    its time to the millisecond, rounded down, and its offset in minutes; a nil event
    has no metadata, any other exactly the five historical keys. *)
Theorem occurred_at_roundtrip e source :
  valid (OccurredAt e) →
  let t := OccurredAt e in let md := MetadataFromEvent (Some e) source in
  (md !! "occurred_at"%string ≫= ReadOccurredAt) =
    Some [year t; month t; day t; hour t; minute t; second t; nanosecond t / 1000000; Z.quot (offset t) 60] ∧
  dom md = {["event_type"; "aggregate_type"; "aggregate_id"; "occurred_at"; "source"]}%string ∧ MetadataFromEvent None source = ∅.
Proof.
  intros (H1&H2&H3&H4&H5&H6&H7&H8) t md. unfold md, MetadataFromEvent. split_and!; [|cbn; rewrite !dom_insert_L; set_solver|done].
  rewrite (elem_of_list_to_map_1 _ "occurred_at"%string (FormatOccurredAt t));
    [|cbn; repeat constructor; set_solver|do 3 (apply elem_of_cons; right); apply elem_of_cons; by left].
  cbn [mbind option_bind]. pose proof (days_bound (month t) (year t)). fold t in H1, H2, H3, H4, H5, H6, H7, H8.
  unfold ReadOccurredAt, FormatOccurredAt.
  assert (Hn : 0 <= nanosecond t / 1000000 < 10 ^ Z.of_nat 3) by (split; [apply Z.div_pos; lia|apply Z.div_lt_upper_bound; cbn; lia]).
  rewrite digits_pad_all by (cbn; lia). cbn [mbind option_bind fst snd]. 
  do 5 (rewrite skip_app; cbn [mbind option_bind]; rewrite digits_pad_all by (cbn; lia); cbn [mbind option_bind fst snd]).
  rewrite skip_app. cbn [mbind option_bind]. rewrite digits_pad_all by done. cbn [mbind option_bind fst snd]. by rewrite read_zone_text.
Qed.

Definition ex_event : Event := mkEvent "e-1" "order.paid" (mkTime 2026 9 22 23 5 7 987654321 28800) "order" "42".
Lemma occurred_at_roundtrip_witness : MetadataFromEvent (Some ex_event) "shop" !! "occurred_at"%string ≫= ReadOccurredAt = Some [2026; 9; 22; 23; 5; 7; 987; 480].
Proof. refine (proj1 (occurred_at_roundtrip ex_event "shop" _)). unfold valid. cbn. lia. Defined.

Example occurred_at_examples :
  map FormatOccurredAt [OccurredAt ex_event; mkTime 5 1 2 3 4 5 6 0; mkTime 2026 1 2 3 4 5 1000000 (-12600)]
  = ["2026-09-22T23:05:07.987+08:00"; "0005-01-02T03:04:05.000Z"; "2026-01-02T03:04:05.001-03:30"]%string.
Proof. vm_compute. reflexivity. Qed.
End domain.

(** ** GORM *)

Module gorm.

(** What a statement's connection pool can be: gorm's prepared wrapper, a SQL
    transaction (a typed nil is [None]), or anything else. *)
Inductive ConnPool : Type := PreparedStmtTX (inner : ConnPool) | SqlTx (tx : option nat) | OtherPool.
Record DB : Type := mkDB { Error : bool; Statement : option ConnPool }.

(** The transaction behind a handle, common to both bridges. *)
Definition raw_tx (tx : option DB) : option nat :=
  db ← tx;
  if Error db then None
  else pool ← Statement db;
    match (match pool with PreparedStmtTX inner => inner | p => p end) with SqlTx (Some t) => Some t | _ => None end.

(** [BindGORM] of the outbox store: the appender's transaction. *)
Definition BindGORM (tx : option DB) : result nat :=
  match tx with
  | None => Err (ErrMsg "active GORM transaction required")
  | Some db =>
    if Error db then Err (ErrMsg "active GORM transaction required")
    else match Statement db with
    | None => Err (ErrMsg "active GORM transaction required")
    | Some _ => match raw_tx tx with Some t => Ok t | None => Err (ErrMsg "GORM connection is not a supported original SQL transaction") end
    end
  end.

(** [BindGORM] of the transaction store, up to its call of [Bind]. *)
Definition Store_BindGORM (tx : option DB) : result nat :=
  match raw_tx tx with Some t => Ok t | None => Err ErrTransactionRequired end.

(** The bridges fail closed: they bind only the SQL transaction the handle runs on,
    under at most one prepared wrapper, and never a handle with an error. *)
Lemma bind_closed tx t :
  (BindGORM tx = Ok t ↔ Store_BindGORM tx = Ok t) ∧
  (BindGORM tx = Ok t ↔ ∃ p, tx = Some (mkDB false (Some p)) ∧ (p = SqlTx (Some t) ∨ p = PreparedStmtTX (SqlTx (Some t)))).
Proof.
  unfold BindGORM, Store_BindGORM, raw_tx. destruct tx as [[[] [p|]]|]; cbn; [naive_solver..| | |naive_solver]; [|naive_solver].
  destruct p as [[]|[]|]; cbn; repeat case_match; naive_solver.
Qed.
End gorm.
