(* ===== verification/NsqManaged.v ===== *)
(** * transport/nsq: the publisher that owns its producer

    [managed_publisher.go]: construction with the ping of the new producer, and the
    shutdown over the transition system [Nsq.nsqpublisher] of admission and driver
    calls, with the goroutine that stops the producer.  The driver's constructor,
    default settings, ping and name check are parameters; the host is free to call
    [Close] and [Interrupt] in any order and as often as it likes. *)

From S2P Require Import Prelude GoStd Nsq NsqHandoff NsqSubscriber.

Module managed.
Import subscriber.

(** ** Construction *)

Record ManagedPublisherConfig : Type := mkConfig {
  Address : string; m_Driver : option Driver; Routes : list (string * string); m_MaxInFlight : Z
}.

(** Calls of the driver. *)
Inductive Event : Type := ECreate (address : string) | EPing (err : option error) | EStop.

Section construct.
Context (IsValidTopicName : string → bool) (NewConfig : Driver).
Context (NewProducer : string → Driver → option error) (Ping : option error).

Definition NewManagedPublisher (config : ManagedPublisherConfig) : result (gmap string string) * list Event :=
  match gotext.SplitHostPort (Address config) with
  | None => (Err (ErrMsg "invalid NSQD address"), [])
  | Some _ =>
    let d := default NewConfig (m_Driver config) in
    if (DialTimeout d <=? 0) || (ReadTimeout d <=? 0) || (WriteTimeout d <=? 0)
    then (Err (ErrMsg "bounded NSQ dial/read/write timeouts required"), [])
    else match NewProducer (Address config) d with
    | Some e => (Err (ErrWrap "create NSQ producer" e), [])
    | None =>
      match nsqpublisher.newPublisher IsValidTopicName (Routes config) (m_MaxInFlight config) with
      | Err e => (Err e, [ECreate (Address config); EStop])
      | Ok routes =>
        match Ping with
        | Some e => (Err (ErrWrap "ping NSQ producer" e), [ECreate (Address config); EPing (Some e); EStop])
        | None => (Ok routes, [ECreate (Address config); EPing None])
        end
      end
    end
  end.
End construct.

(** ** Shutdown *)

(** [stopped] is closed by the goroutine of [stopProducer] after the producer
    stopped; [closing] counts the calls of [Close] that wait, [closed] those that
    returned nil. *)
Record Managed : Type := mkManaged { core : nsqpublisher.State; stopped : bool; closing : nat; closed : nat }.
Definition fresh : Managed := mkManaged nsqpublisher.initial false 0 0.

Section shutdown.
Context (maxInFlight : Z).

(** [LCall] are the steps of publishes and their driver calls.  [LClose] begins the
    drain; [LCloseReturns] is the next action of a [Close] whose drain is over: it
    stops the producer, and returns nil once the producer stopped; [LCloseExpires] is
    the end of its context, anywhere in between. *)
Inductive Label : Type :=
| LCall (l : nsqpublisher.Label) | LClose | LInterrupt | LStopped | LCloseReturns | LCloseExpires.
Definition is_call (l : nsqpublisher.Label) : bool :=
  match l with nsqpublisher.LDrain | nsqpublisher.LClose | nsqpublisher.LInterrupt => false | _ => true end.

Definition run (l : Label) (m : Managed) : option Managed :=
  match l with
  | LCall k => if is_call k then (λ c, mkManaged c (stopped m) (closing m) (closed m)) <$> nsqpublisher.run maxInFlight k (core m) else None
  | LClose => Some (mkManaged (nsqpublisher.beginDrain (core m)) (stopped m) (S (closing m)) (closed m))
  | LInterrupt => Some (mkManaged (nsqpublisher.Interrupt (core m)) (stopped m) (closing m) (closed m))
  | LStopped => if (nsqpublisher.stops (core m) =? 1) && negb (stopped m) then Some (mkManaged (core m) true (closing m) (closed m)) else None
  | LCloseReturns =>
    match closing m, nsqpublisher.Close_stop (core m) with
    | S n, Some c => Some (if stopped m then mkManaged c true n (S (closed m)) else mkManaged c (stopped m) (S n) (closed m))
    | _, _ => None
    end
  | LCloseExpires => match closing m with S n => Some (mkManaged (core m) (stopped m) n (closed m)) | O => None end
  end.
Definition step (m m' : Managed) : Prop := ∃ l, run l m = Some m'.
Fixpoint run_all (ls : list Label) (m : Managed) : option Managed :=
  match ls with [] => Some m | l :: ls => match run l m with Some m => run_all ls m | None => None end end.

(** ** Correctness *)

Record inv (m : Managed) : Prop := mkInv {
  inv_core : rtc (nsqpublisher.step maxInFlight) nsqpublisher.initial (core m);
  inv_stopped : stopped m = true → nsqpublisher.stops (core m) = 1;
  inv_closing : (0 < closing m)%nat ∨ 0 < nsqpublisher.stops (core m) → nsqpublisher.stopping (core m) = true;
  inv_closed : (0 < closed m)%nat → stopped m = true ∧ nsqpublisher.closes (core m) = 1
}.

Lemma call_frame k c c' :
  is_call k = true → nsqpublisher.run maxInFlight k c = Some c' →
  nsqpublisher.stops c' = nsqpublisher.stops c ∧ (nsqpublisher.stopping c = true → nsqpublisher.stopping c' = true).
Proof.
  destruct k; cbn; try done; intros _ H;
    unfold nsqpublisher.take_slot, nsqpublisher.admission, nsqpublisher.give_back, nsqpublisher.call_returns, nsqpublisher.call_release, nsqpublisher.call_done in H;
    cases H; simplify_eq/=; repeat case_goal; done.
Qed.
Lemma drain_stopping c : nsqpublisher.stopping (nsqpublisher.beginDrain c) = true ∧ nsqpublisher.stops (nsqpublisher.beginDrain c) = nsqpublisher.stops c.
Proof. unfold nsqpublisher.beginDrain. destruct (nsqpublisher.stopping c) eqn:E; [done|]. by case_goal. Qed.
Lemma stop_frame c :
  nsqpublisher.stopping (nsqpublisher.stopProducer c) = nsqpublisher.stopping c ∧
  nsqpublisher.closes (nsqpublisher.stopProducer c) = nsqpublisher.closes c ∧
  (0 <= nsqpublisher.stops c <= 1 → nsqpublisher.stops (nsqpublisher.stopProducer c) = 1).
Proof. unfold nsqpublisher.stopProducer. destruct (Z.eqb_spec (nsqpublisher.stops c) 0); cbn; split_and!; try done; lia. Qed.

Context (limit_ok : 1 <= maxInFlight <= 1000).

(** Once drained, steps of the core stay drained. *)
Lemma closes_kept k c c' :
  rtc (nsqpublisher.step maxInFlight) nsqpublisher.initial c → nsqpublisher.run maxInFlight k c = Some c' →
  nsqpublisher.closes c = 1 → nsqpublisher.closes c' = 1.
Proof.
  intros Hr Hk H1. destruct (nsqpublisher.publisher_drains maxInFlight limit_ok c Hr) as (_&_&_&H).
  apply H; [done|]. apply rtc_once. by exists k.
Qed.

Lemma stops_bound c : rtc (nsqpublisher.step maxInFlight) nsqpublisher.initial c → 0 <= nsqpublisher.stops c <= 1.
Proof. intros (_&_&_&_&_&_&?&_)%(nsqpublisher.inv_reach maxInFlight limit_ok). done. Qed.

Lemma reach_snoc k c c' :
  rtc (nsqpublisher.step maxInFlight) nsqpublisher.initial c → nsqpublisher.run maxInFlight k c = Some c' →
  rtc (nsqpublisher.step maxInFlight) nsqpublisher.initial c'.
Proof. intros H Hk. eapply rtc_r; [exact H|by exists k]. Qed.

Lemma inv_managed_run l m m' : inv m → run l m = Some m' → inv m'.
Proof.
  intros [A B C D] H. pose proof (stops_bound _ A) as Hb. destruct l as [k| | | | |]; cbn in H.
  - destruct (is_call k) eqn:Ek; [|done]. destruct (nsqpublisher.run maxInFlight k (core m)) as [c|] eqn:E; simplify_eq/=.
    destruct (call_frame _ _ _ Ek E) as [Hs Ht]. split; cbn; rewrite ?Hs; [by eapply reach_snoc|done|by auto|].
    intros Hc. destruct (D Hc) as [? ?]. split; [done|by eapply closes_kept].
  - simplify_eq/=. destruct (drain_stopping (core m)) as [Hs Ht]. split; cbn; rewrite ?Ht; [by apply (reach_snoc nsqpublisher.LDrain (core m))|done|done|].
    intros Hc. destruct (D Hc). split; [done|]. by apply (closes_kept nsqpublisher.LDrain (core m)).
  - simplify_eq/=. destruct (drain_stopping (core m)) as [Hs Ht]. destruct (stop_frame (nsqpublisher.beginDrain (core m))) as (Hs'&_&H1).
    rewrite Ht in H1. unfold nsqpublisher.Interrupt in *. split; cbn; [by apply (reach_snoc nsqpublisher.LInterrupt (core m))|by auto|by rewrite Hs'|].
    intros Hc. destruct (D Hc). split; [done|]. by apply (closes_kept nsqpublisher.LInterrupt (core m)).
  - destruct (_ && _) eqn:E; simplify_eq/=. boolp. split; cbn; auto. intros Hc. destruct (D Hc). done.
  - destruct (closing m) as [|n] eqn:En; [done|]. destruct (nsqpublisher.Close_stop (core m)) as [c|] eqn:E; [|done].
    pose proof (reach_snoc nsqpublisher.LClose _ _ A E) as Hr. unfold nsqpublisher.Close_stop in E. case_hyp E. boolp.
    destruct (stop_frame (core m)) as (Hs&Hc&H1). assert (Hone : nsqpublisher.closes (core m) = 1).
    { destruct (nsqpublisher.publisher_drains maxInFlight limit_ok _ A) as (_&?&_). lia. }
    destruct (stopped m) eqn:Eb; simplify_eq/=; split; cbn; rewrite ?Hs, ?Hc; auto with lia; try (intros; apply C; left; lia).
  - destruct (closing m) as [|n] eqn:En; simplify_eq/=. split; cbn; auto. intros [|]; apply C; [left; lia|by right].
Qed.

Lemma managed_reach m : rtc step fresh m → inv m.
Proof.
  intros H. refine (rtc_invariant step inv _ _ _ H _); [intros a b Ha [l Hl]; by eapply inv_managed_run|].
  split; cbn; [apply rtc_refl|done|lia|lia].
Qed.

(** ** A Close can finish *)

(** Admitted calls end, and the last one closes the drained channel. *)
Lemma managed_drains m :
  inv m → nsqpublisher.stopping (core m) = true →
  ∃ m', rtc step m m' ∧ nsqpublisher.closes (core m') = 1 ∧ closing m' = closing m ∧ closed m' = closed m.
Proof.
  remember (Z.to_nat (nsqpublisher.work (core m))) as n eqn:Hn. revert m Hn.
  induction n as [n IH] using lt_wf_ind. intros m Hn Hi Hs.
  pose proof (nsqpublisher.inv_reach maxInFlight limit_ok _ (inv_core m Hi)) as Hc.
  destruct (nsqpublisher.core_progress maxInFlight (core m) Hc Hs) as [Ha|(k&c&Hk&Hr&Hsc&Hw)].
  - exists m. split; [apply rtc_refl|]. destruct Hc as (?&?&?&?&?&?&?&Hc1&_). split; [by apply Hc1|done].
  - set (m1 := mkManaged c (stopped m) (closing m) (closed m)).
    assert (H1 : run (LCall k) m = Some m1).
    { cbn. rewrite Hr. repeat (apply elem_of_cons in Hk as [->|Hk]); try done. by apply not_elem_of_nil in Hk. }
    destruct (IH (Z.to_nat (nsqpublisher.work c)) ltac:(lia) m1 eq_refl) as (m'&Hrun&?); [by eapply inv_managed_run|done|].
    exists m'. split; [|done]. eapply rtc_l; [by exists (LCall k)|done].
Qed.

(** A [Close] begun now returns nil when the calls end and the producer stops. *)
Lemma managed_can_close m : inv m → ∃ m', rtc step m m' ∧ closed m' = S (closed m).
Proof.
  intros Hi. set (m1 := mkManaged (nsqpublisher.beginDrain (core m)) (stopped m) (S (closing m)) (closed m)).
  assert (H1 : run LClose m = Some m1) by done. assert (Hi1 : inv m1) by (by eapply inv_managed_run).
  destruct (managed_drains m1 Hi1) as (m2&Hr2&Hc2&Hk2&Hd2); [apply drain_stopping|].
  assert (Hi2 : inv m2) by (refine (rtc_invariant step inv _ _ _ Hr2 Hi1); intros a b Ha [l Hl]; by eapply inv_managed_run).
  assert (Hm : rtc step m m2) by (eapply rtc_l; [by exists LClose|exact Hr2]).
  assert (Hret : ∀ x, nsqpublisher.closes (core x) = 1 → closing x = S (closing m) → stopped x = true → closed x = closed m →
    rtc step m x → ∃ m', rtc step m m' ∧ closed m' = S (closed m)).
  { intros x Hx Hk Hst Hd Hr. exists (mkManaged (nsqpublisher.stopProducer (core x)) true (closing m) (S (closed x))).
    split; [|by cbn; rewrite Hd]. eapply rtc_r; [exact Hr|]. exists LCloseReturns. cbn. unfold nsqpublisher.Close_stop.
    by rewrite Hk, Hx, Hst. }
  destruct (stopped m2) eqn:Est; [by apply (Hret m2)|].
  set (c := nsqpublisher.stopProducer (core m2)). destruct (stop_frame (core m2)) as (_&Hc&Hone).
  specialize (Hone (stops_bound _ (inv_core m2 Hi2))).
  apply (Hret (mkManaged c true (closing m2) (closed m2))); [cbn; unfold c; congruence|done..|].
  eapply rtc_r; [eapply rtc_r; [exact Hm|]|].
  - exists LCloseReturns. cbn. unfold nsqpublisher.Close_stop. rewrite Hk2, Hc2, Est. reflexivity.
  - exists LStopped. cbn. rewrite Hone. cbn. by rewrite Hk2.
Qed.

(** C39: A managed publisher gives its producer back.  However publishes, [Close] and
    [Interrupt] interleave, the producer is stopped at most once; when a [Close] has
    returned nil, every admitted publish has ended, the producer was stopped, and
    from then on no driver call is ever made; and from every state, also after a
    [Close] ran out of time, a further [Close] can return nil. *)
Theorem managed_closes m :
  rtc step fresh m →
  0 <= nsqpublisher.stops (core m) <= 1 ∧
  (∀ m', (0 < closed m)%nat → rtc step m m' →
     nsqpublisher.stops (core m') = 1 ∧ stopped m' = true ∧ nsqpublisher.active (core m') = 0 ∧ nsqpublisher.calling (core m') = 0) ∧
  ∃ m', rtc step m m' ∧ closed m' = S (closed m).
Proof.
  intros Hm. split; [apply stops_bound, managed_reach, Hm|]. split; [|by apply managed_can_close, managed_reach].
  intros m' Hc Hs. assert (Hc' : (0 < closed m')%nat).
  { revert Hc. clear Hm. induction Hs as [|x y z [l Hl] _ IH]; [done|]. intros Hc. apply IH. destruct l; cbn in Hl; cases Hl; simplify_eq/=; try lia.
    destruct (nsqpublisher.run _ _ _); simplify_eq/=; lia. }
  destruct (managed_reach m' ltac:(by etransitivity)) as [A B C D]. destruct (D Hc') as [Hst Hone].
  destruct (nsqpublisher.publisher_drains maxInFlight limit_ok _ A) as (_&_&_&H). destruct (H _ Hone (rtc_refl _ _)) as (?&?&_). by rewrite B.
Qed.
End shutdown.

Lemma managed_run_reach n ls m m' : run_all n ls m = Some m' → rtc (step n) m m'.
Proof.
  revert m. induction ls as [|l ls IH]; cbn; intros m; [by intros [= ->]|]. destruct (run n l m) as [m1|] eqn:E; [|done].
  intros H. eapply rtc_l; [by exists l|auto].
Qed.

(** A construction that fails after the producer was created stops it, as the last
    thing it does; one that succeeds has pinged it, and it is not stopped. *)
Theorem managed_construction valid dflt np ping config :
  let '(r, evs) := NewManagedPublisher valid dflt np ping config in
  match r with
  | Ok _ => evs = [ECreate (Address config); EPing None]
  | Err _ => evs = [] ∨ ∃ k, evs = ECreate (Address config) :: k ++ [EStop] ∧ EPing None ∉ k
  end.
Proof.
  unfold NewManagedPublisher. destruct (gotext.SplitHostPort _); [|by left]. destruct (_ || _); [by left|].
  destruct (np _ _); [by left|]. destruct (nsqpublisher.newPublisher _ _ _) as [routes|e]; [destruct ping as [e|]; [|done]|]; right.
  - exists [EPing (Some e)]. split; [done|]. by intros ?%list_elem_of_singleton.
  - exists []. split; [done|]. by intros ?%not_elem_of_nil.
Qed.

(** The first [Close] expires while a publish is on its way; after an [Interrupt]
    and the return of the call, a second one succeeds. *)
Definition ex_labels : list Label :=
  [ LCall nsqpublisher.LSlot; LCall (nsqpublisher.LAdmit false); LClose; LCloseExpires; LInterrupt; LCall nsqpublisher.LReturn;
    LCall nsqpublisher.LRelease; LCall nsqpublisher.LDone; LClose; LStopped; LCloseReturns ].
Definition ex_managed : Managed := Eval vm_compute in default fresh (run_all 2 ex_labels fresh).
Lemma managed_closes_witness : closed ex_managed = 1%nat ∧ nsqpublisher.stops (core ex_managed) = 1.
Proof.
  split; [reflexivity|].
  assert (Hr : rtc (step 2) fresh ex_managed) by (apply (managed_run_reach 2 ex_labels); vm_compute; reflexivity).
  refine (proj1 (proj1 (proj2 (managed_closes 2 ltac:(lia) ex_managed Hr)) ex_managed _ (rtc_refl _ _))).
  vm_compute. lia.
Defined.
End managed.
