(* ===== verification/RocketHost.v ===== *)
(** * transport/rocketmq: what a host sees of the subscriber and the backend

    [subscriber.go]: registration of subscriptions with the consumers it creates,
    the health of the receive loops, the bounded channel of errors and [Ready]
    ([subscribes]).  [transaction_backend.go] with [StartContext] of the driver's
    producer and [Start] of its simple consumer: who stops a client whose start
    failed ([backendlife]).  The counts of slots, loops and handlers are in
    [RocketMQ.rocketsubscriber]. *)

From S2P Require Import Prelude GoStd Routing Wire Backend RocketMQ DriverClient.

(** ** Subscriptions and their health *)

Module subscribes.
Import rocketdelivery.

(** [Subscriber]: consumers are numbered as they are created; [health] is the time
    of [health.Store], zero for a new group.  [received] and [stopped] record the
    successful receives, latest first, and the consumers [GracefulStop] was called
    on. *)
Record State : Type := mkState {
  stopping : bool; running : gmap string nat; health : gmap string Z; errs : list error;
  created : nat; stopped : list nat; shut : bool; received : list (string * Z)
}.
Definition initial : State := mkState false ∅ ∅ [] 0 [] false [].

Definition with_errs (l : list error) (s : State) : State :=
  mkState (stopping s) (running s) (health s) l (created s) (stopped s) (shut s) (received s).
Definition stop_new (s : State) : State :=
  mkState (stopping s) (running s) (health s) (errs s) (S (created s)) (stopped s ++ [created s]) (shut s) (received s).

Section subscriber.
Context (MaxInFlight : Z) (rows : list routing.RouteBinding).

(** [report]: the error is dropped when the channel is full. *)
Definition report (err : option error) (s : State) : State :=
  match err with
  | None => s
  | Some e => if llen (errs s) <? MaxInFlight then with_errs (errs s ++ [e]) s else s
  end.

(** What the driver and the contexts answer during one [Subscribe]. *)
Record Answers : Type := mkAnswers {
  a_ctx : option error; a_new : option error; a_start : option error; a_ctx' : option error; a_stop : option error
}.

(** [Subscribe], which holds the lock throughout. *)
Definition Subscribe (topic subscription : string) (handler failed : bool) (a : Answers) (s : State) : option error * State :=
  if stopping s || bool_decide (is_Some (a_ctx a)) then (Some (ErrMsg "subscriber stopping or context ended"), s)
  else if negb handler || negb failed then (Some (ErrMsg "handler and durable failure callback required"), s)
  else match subscriptionRoutes rows topic subscription with
  | Err e => (Some e, s)
  | Ok (_, route) =>
    if bool_decide (is_Some (running s !! routing.Group route)) then (Some (ErrMsg "duplicate consumer group"), s)
    else match a_new a with
    | Some e => (Some e, s)
    | None =>
      match a_start a with
      | Some e => (errors_join (Some e) (a_stop a), stop_new s)
      | None =>
        match a_ctx' a with
        | Some e => (errors_join (Some e) (a_stop a), stop_new s)
        | None =>
          (None, mkState (stopping s) (<[routing.Group route := created s]> (running s)) (<[routing.Group route := 0]> (health s))
                   (errs s) (S (created s)) (stopped s) (shut s) (received s))
        end
      end
    end
  end.

(** The answer of one [Receive] of [poll]; a status is that of [driver.ErrRpcStatus]. *)
Inductive Receive : Type := Messages (n : Z) | Failed (status : option Z) (e : error).
Definition receive_err (r : Receive) : option error :=
  match r with
  | Messages _ => None
  | Failed (Some c) e => if c =? 40401 then None else Some e
  | Failed None e => Some e
  end.
Definition receive_count (r : Receive) : Z := match r with Messages n => n | Failed _ _ => 0 end.

(** One round of [poll] after its [Receive], at the time [now]. *)
Definition poll (group : string) (batch now : Z) (r : Receive) (ctxDone : bool) (s : State) : State :=
  let err := receive_err r in
  let s := match err with
           | None => mkState (stopping s) (running s) (<[group := now]> (health s)) (errs s) (created s) (stopped s) (shut s)
                       ((group, now) :: received s)
           | Some _ => s
           end in
  if bool_decide (is_Some err) || (receive_count r =? 0) then (if ctxDone then s else report err s)
  else if receive_count r >? batch then report (Some (ErrMsg "driver returned more messages than requested")) s
  else s.

(** [Close]: admission ends; its goroutine stops the consumers once. *)
Definition Close_begin (s : State) : State :=
  mkState true (running s) (health s) (errs s) (created s) (stopped s) (shut s) (received s).
Definition shutdown (s : State) : State :=
  if shut s then s
  else mkState (stopping s) (running s) (health s) (errs s) (created s) (stopped s ++ (snd <$> map_to_list (running s))) true (received s).

(** [time.Since(time.Unix(0, last))], a saturating 64-bit duration. *)
Definition Since (now last : Z) : Z := Z.max (- 2 ^ 63) (Z.min (2 ^ 63 - 1) (now - last)).

Definition Ready (maxAge now : Z) (s : State) : bool :=
  if stopping s || bool_decide (running s = ∅) || (maxAge <=? 0) then false
  else forallb (λ p, negb (Since now p.2 >? maxAge)) (map_to_list (health s)).

Inductive Label : Type :=
| LSubscribe (topic subscription : string) (handler failed : bool) (a : Answers)
| LPoll (group : string) (batch now : Z) (r : Receive) (ctxDone : bool)
| LReport (e : error)            (* a delivery reports an error *)
| LTake                          (* the host reads the channel of errors *)
| LClose | LShutdown.
Definition run (l : Label) (s : State) : option State :=
  match l with
  | LSubscribe t u h f a => Some (Subscribe t u h f a s).2
  | LPoll g b now r c => if bool_decide (is_Some (running s !! g)) && negb (shut s) then Some (poll g b now r c s) else None
  | LReport e => Some (report (Some e) s)
  | LTake => match errs s with [] => None | _ :: l => Some (with_errs l s) end
  | LClose => Some (Close_begin s)
  | LShutdown => if stopping s then Some (shutdown s) else None
  end.
Definition step (s s' : State) : Prop := ∃ l, run l s = Some s'.
Fixpoint run_all (ls : list Label) (s : State) : option State :=
  match ls with [] => Some s | l :: ls => match run l s with Some s => run_all ls s | None => None end end.

(** ** Correctness *)

(** The latest successful receive of a group. *)
Fixpoint last_receive (g : string) (l : list (string * Z)) : option Z :=
  match l with [] => None | (g', t) :: l => if g == g' then Some t else last_receive g l end.

Definition ids (s : State) : list nat := snd <$> map_to_list (running s).

Record inv (s : State) : Prop := mkInv {
  inv_health : ∀ g, health s !! g = if bool_decide (is_Some (running s !! g)) then Some (default 0 (last_receive g (received s))) else None;
  inv_fresh : ∀ g, running s !! g = None → last_receive g (received s) = None;
  inv_errs : llen (errs s) <= Z.max 0 MaxInFlight;
  inv_owned : stopped s ++ (if shut s then [] else ids s) ≡ₚ seq 0 (created s);
  inv_shut : shut s = true → stopping s = true
}.

Lemma inv_fresh_subscriber : inv initial.
Proof. split; cbn; [intros g; by rewrite !lookup_empty|done|unfold llen; cbn; lia|done|done]. Qed.

Lemma inv_report e s : inv s → inv (report e s).
Proof.
  intros [A B C D E]. unfold report. destruct e as [e|]; [|by split]. destruct (_ <? _) eqn:H; [|by split]. boolp.
  split; cbn; [done|done| |done|done]. unfold llen in *. rewrite length_app. cbn. lia.
Qed.

Lemma owned_snoc n l : l ≡ₚ seq 0 n → n :: l ≡ₚ seq 0 (S n).
Proof. intros ->. rewrite seq_S. apply Permutation_cons_append. Qed.

Lemma inv_stop_new s : inv s → inv (stop_new s).
Proof.
  intros [A B C D E]. split; [done|done|done| |done]. apply owned_snoc in D. rewrite <- D. unfold ids.
  cbn [stop_new stopped shut running created]. rewrite <- app_assoc. symmetry. apply Permutation_middle.
Qed.

Lemma inv_register g s :
  inv s → stopping s = false → running s !! g = None →
  inv (mkState (stopping s) (<[g := created s]> (running s)) (<[g := 0]> (health s)) (errs s) (S (created s)) (stopped s) (shut s) (received s)).
Proof.
  intros [A B C D E] Hs Hg. assert (Hu : shut s = false) by (destruct (shut s); [specialize (E eq_refl); congruence|done]).
  split; cbn [stopping running health errs created stopped shut received]; [| |done| |by rewrite Hu].
  - intros h. destruct (decide (g = h)) as [<-|Hn]; [by rewrite !lookup_insert_eq, (B g Hg)|by rewrite !lookup_insert_ne].
  - intros h Hh. apply B. by apply lookup_insert_None in Hh as [? _].
  - rewrite Hu in *. apply owned_snoc in D. rewrite <- D. unfold ids. cbn [running]. rewrite map_to_list_insert by done. symmetry. apply Permutation_middle.
Qed.

Lemma inv_subscribe t u h f a s : inv s → inv (Subscribe t u h f a s).2.
Proof.
  intros Hi. unfold Subscribe. destruct (stopping s || _) eqn:E1; [done|]. boolp. destruct (_ || _); [done|].
  destruct (subscriptionRoutes rows t u) as [[rs r]|e]; [|done]. destruct (bool_decide _) eqn:E; [done|]. boolp.
  destruct (a_new a); [done|]. destruct (a_start a); [by apply inv_stop_new|]. destruct (a_ctx' a); [by apply inv_stop_new|].
  apply inv_register; [done..|]. by apply eq_None_not_Some.
Qed.

Lemma inv_stored g now s :
  inv s → is_Some (running s !! g) →
  inv (mkState (stopping s) (running s) (<[g := now]> (health s)) (errs s) (created s) (stopped s) (shut s) ((g, now) :: received s)).
Proof.
  intros [A B C D E] Hg. split; cbn; [| |done|done|done].
  - intros h. destruct (decide (g = h)) as [<-|Hn].
    + rewrite lookup_insert_eq, bool_decide_eq_true_2 by done. by rewrite bool_decide_eq_true_2.
    + rewrite lookup_insert_ne by done. by rewrite A, (bool_decide_eq_false_2 (h = g)).
  - intros h Hh. rewrite bool_decide_eq_false_2; [auto|]. intros ->. rewrite Hh in Hg. by destruct Hg.
Qed.

Lemma inv_poll g b now r c s : inv s → is_Some (running s !! g) → inv (poll g b now r c s).
Proof.
  intros Hi Hg. unfold poll. assert (Hj : ∀ e : option error, inv (match e with None => mkState (stopping s) (running s) (<[g := now]> (health s)) (errs s) (created s) (stopped s) (shut s) ((g, now) :: received s) | Some _ => s end)).
  { intros [|]; [done|by apply inv_stored]. }
  specialize (Hj (receive_err r)). repeat case_goal; auto using inv_report.
Qed.

Lemma inv_subscribes_run l s s' : inv s → run l s = Some s' → inv s'.
Proof.
  intros Hi. destruct l as [t u h f a|g b now r c|e| | |]; cbn; intros H.
  - simplify_eq. by apply inv_subscribe.
  - destruct (_ && _) eqn:E; simplify_eq. boolp. by apply inv_poll.
  - simplify_eq. by apply (inv_report (Some e)).
  - destruct (errs s) as [|e l] eqn:E; simplify_eq. destruct Hi as [A B C D F]. split; cbn; [done|done| |done|done]. rewrite E in C. unfold llen in *. cbn in C. lia.
  - simplify_eq. by destruct Hi; split.
  - destruct (stopping s) eqn:E; simplify_eq. unfold shutdown. destruct (shut s) eqn:Eu; [done|]. destruct Hi as [A B C D F].
    split; cbn; [done|done|done| |done]. rewrite app_nil_r. by rewrite Eu in D.
Qed.

Lemma inv_subscribes_reach s : rtc step initial s → inv s.
Proof. intros H. refine (rtc_invariant step inv _ _ _ H inv_fresh_subscriber). intros a b Ha [l Hl]. by eapply inv_subscribes_run. Qed.

Lemma subscribes_run_reach ls s s' : run_all ls s = Some s' → rtc step s s'.
Proof.
  revert s. induction ls as [|l ls IH]; cbn; intros s; [by intros [= ->]|]. destruct (run l s) as [s1|] eqn:E; [|done].
  intros H. eapply rtc_l; [by exists l|auto].
Qed.


(** The subscriber owns the consumers it creates: each one is running or has been
    stopped, none twice; a subscription that failed stopped its own; after the
    shutdown every consumer ever created was stopped exactly once.  The channel of
    errors never holds more than [MaxInFlight] of them. *)
Theorem consumers_released s :
  rtc step initial s →
  NoDup (stopped s) ∧ (∀ c, c ∈ stopped s → (c < created s)%nat) ∧ llen (errs s) <= Z.max 0 MaxInFlight ∧
  (shut s = false → ∀ c, (c < created s)%nat → c ∈ stopped s ∨ c ∈ ids s) ∧
  (shut s = true → stopped s ≡ₚ seq 0 (created s)).
Proof.
  intros [_ _ C D _]%inv_subscribes_reach. pose proof (NoDup_seq 0 (created s)) as Hn. rewrite <- D in Hn. apply NoDup_app in Hn as (Hn&_&_).
  split_and!; [done| |done| |].
  - intros c Hc. assert (c ∈ seq 0 (created s)) as Hs by (rewrite <- D; set_solver). apply elem_of_seq in Hs. lia.
  - intros Hu c Hc. rewrite Hu in D. apply elem_of_app. rewrite D. apply elem_of_seq. lia.
  - intros Hu. by rewrite Hu, app_nil_r in D.
Qed.
End subscriber.

(** Two groups; the second one fails its first receive and then polls nothing. *)
Definition ex_rows : list routing.RouteBinding := [routing.ex_active; routing.ex_historical].
Definition ex_ok : Answers := mkAnswers None None None None None.
Definition ex_labels : list Label :=
  [ LSubscribe "qs.plan.task" "qs-worker" true true (mkAnswers None None (Some (ErrDriver 14)) None None);
    LSubscribe "qs.plan.task" "qs-worker" true true ex_ok; LSubscribe "qs.events" "worker" true true ex_ok;
    LPoll "qs-plan-task--qs-worker" 4 1000 (Messages 2) false;
    LPoll "rmq2_g_714a15af0d2e5e4dc1529f85393f4669" 4 1010 (Failed None (ErrDriver 14)) false;
    LPoll "rmq2_g_714a15af0d2e5e4dc1529f85393f4669" 4 1020 (Failed (Some 40401) (ErrDriver 40401)) false ].
Definition ex_state : State := Eval vm_compute in default initial (run_all 2 ex_rows ex_labels initial).
Lemma ex_ready_reached : rtc (step 2 ex_rows) initial ex_state.
Proof. apply (subscribes_run_reach 2 ex_rows ex_labels). vm_compute. reflexivity. Qed.


Definition ex_closed : State := Eval vm_compute in default initial (run_all 2 ex_rows (ex_labels ++ [LClose; LShutdown]) initial).
Lemma ex_shut_reached : rtc (step 2 ex_rows) initial ex_closed.
Proof. apply (subscribes_run_reach 2 ex_rows (ex_labels ++ [LClose; LShutdown])). vm_compute. reflexivity. Qed.
Lemma consumers_released_witness : stopped ex_closed ≡ₚ [0; 1; 2]%nat ∧ llen (errs ex_closed) = 1.
Proof. split; [apply (consumers_released 2 ex_rows ex_closed ex_shut_reached); reflexivity|reflexivity]. Defined.
End subscribes.

(** ** Starting and stopping clients of the driver *)

Module backendlife.
Import client.

(** What a start sees: the routes of the topics, the telemetry of each target, the
    settings and the signals of the wait. *)
Record Startup : Type := mkStartup {
  u_topics : list (string * Route); u_telemeter : list string → option error; u_inited : bool;
  u_wakes : list (Wake * option error * bool)
}.
Definition startUp (u : Startup) (c : Client) : option (option error) * Client :=
  startUpContext (u_topics u) (u_telemeter u) (u_inited u) (u_wakes u) c.

(** [StartContext] of a producer; [None] while the start is still waiting. *)
Definition StartContext (u : Startup) (c : Client) : option (option error) * Client :=
  let '(r, c) := startUp u c in
  match r with
  | Some (Some e) =>
    let '(e2, _, c) := gracefulStopContext c in
    (Some (Some (ErrWrap (if bool_decide (is_Some e2) then "startUp err, shutdown err" else "startUp err") e)), c)
  | _ => (r, c)
  end.

(** [Start] of a simple consumer. *)
Definition simple_Start (u : Startup) (c : Client) : option (option error) * Client :=
  let '(r, c) := startUp u c in
  match r with
  | Some (Some e) =>
    let '(e2, _, c) := gracefulStopContext c in
    (Some (Some (if bool_decide (is_Some e2) then ErrWrap "startUp err, shutdown err" e else e)), c)
  | _ => (r, c)
  end.

(** [driverTransactionBackend]. *)
Record Backend : Type := mkBackend { inner : Client; started : bool }.
Definition Start (u : Startup) (b : Backend) : option (option error) * Backend :=
  let '(r, c) := StartContext u (inner b) in
  match r with
  | Some err => (r, mkBackend c (bool_decide (err = None)))
  | None => (None, mkBackend c (started b))
  end.
Definition Close (b : Backend) : option error * Backend :=
  if negb (started b) then (None, b)
  else let '(e, _, c) := gracefulStopContext (inner b) in (e, mkBackend c false).

Fixpoint closes (n : nat) (b : Backend) : list (option error) * Backend :=
  match n with
  | O => ([], b)
  | S n => let '(e, b) := Close b in let '(es, b) := closes n b in (e :: es, b)
  end.

(** The part of [Subscribe] that starts its consumer, and stops it
    again when the start failed. *)
Definition subscribe_start (u : Startup) (c : Client) : option (option error) * Client :=
  let '(r, c) := simple_Start u c in
  match r with
  | Some (Some e) => let '(e2, _, c) := gracefulStopContext c in (Some (errors_join (Some e) e2), c)
  | _ => (r, c)
  end.

Lemma getMessageQueues_on t r tm c : on (getMessageQueues t r tm c).2 = on c.
Proof. unfold getMessageQueues. repeat case_goal; done. Qed.
Lemma init_routes_on topics tm c : on (init_routes topics tm c).2 = on c.
Proof.
  revert c. induction topics as [|[t r] topics IH]; cbn; intros c; [done|]. pose proof (getMessageQueues_on t r tm c) as Hg.
  destruct (getMessageQueues t r tm c) as [[qs|e] c']; cbn in *; [by rewrite IH|done].
Qed.
Lemma startUp_on u c : on (startUp u c).2 = on c.
Proof.
  unfold startUp, startUpContext. pose proof (init_routes_on (u_topics u) (u_telemeter u) c) as Hi.
  destruct (init_routes _ _ _) as [[e|] c']; done.
Qed.
Lemma stop_off c : on (gracefulStopContext c).2 = false.
Proof. unfold gracefulStopContext. by destruct (on c) eqn:E. Qed.

Lemma StartContext_on u c r c' : on c = true → StartContext u c = (r, c') → on c' = match r with Some (Some _) => false | _ => true end.
Proof.
  intros Hc. unfold StartContext. pose proof (startUp_on u c) as Hu. destruct (startUp u c) as [[[e|]|] d]; cbn in Hu.
  - pose proof (stop_off d) as Hs. destruct (gracefulStopContext d) as [[e2 ts] d']. cbn in Hs. by intros [= <- <-].
  - intros [= <- <-]. congruence.
  - intros [= <- <-]. congruence.
Qed.

(** The backend stops its client exactly once.  A start that fails has stopped the
    client itself, and closing the backend then does nothing; one that succeeded
    leaves the client on until the first [Close].  No [Close] reports an error, and
    after the first one the client is closed. *)
Theorem backend_stops_once u c err b n :
  on c = true → Start u (mkBackend c false) = (Some err, b) →
  on (inner b) = bool_decide (err = None) ∧
  (closes (S n) b).1 = replicate (S n) None ∧ on (inner (closes (S n) b).2) = false.
Proof.
  intros Hc. unfold Start. cbn [inner started]. destruct (StartContext u c) as [[err'|] c'] eqn:E; [|done].
  apply StartContext_on in E; [|done]. intros [= <- <-].
  assert (Hidle : ∀ k d, closes k (mkBackend d false) = (replicate k None, mkBackend d false)).
  { intros k d. induction k as [|k IH]; cbn; [done|]. by rewrite IH. }
  destruct err' as [e|]; cbn [inner].
  { rewrite (bool_decide_eq_false_2 (Some e = None)) by done. by rewrite Hidle. }
  rewrite (bool_decide_eq_true_2 (None = None)) by done. split; [done|]. cbn [closes]. unfold Close. cbn [started negb].
  unfold gracefulStopContext. cbn [inner]. rewrite E. cbn [negb]. by rewrite Hidle.
Qed.

(** A subscription whose start failed stops its consumer twice: the error it
    returns always carries the refusal of the second stop. *)
Lemma subscribe_stops_twice u c e c' :
  on c = true → subscribe_start u c = (Some (Some e), c') →
  on c' = false ∧ ∃ e', e = ErrJoin e' (ErrMsg "client has been closed").
Proof.
  intros Hc. unfold subscribe_start, simple_Start. pose proof (startUp_on u c) as Hu. destruct (startUp u c) as [[[e1|]|] d]; cbn in Hu; [|done..].
  unfold gracefulStopContext. rewrite Hu, Hc. cbn. intros [= <- <-]. split; [done|]. by eexists.
Qed.

Definition ex_startup : Startup := mkStartup [("orders"%string, ex_route)] (λ _, None) false [(WTick, None, false); (WDeadline, None, false)].
Lemma backend_stops_once_witness : (closes 2 (Start ex_startup (mkBackend ex_client false)).2).1 = [None; None].
Proof.
  destruct (Start ex_startup (mkBackend ex_client false)) as [r b] eqn:E.
  assert (H : r = Some (Some (ErrWrap "startUp err" (ErrMsg "initial settings deadline exceeded")))) by (by injection E as <- <-).
  subst r. apply (backend_stops_once ex_startup ex_client _ b 1 eq_refl E).
Defined.
Lemma subscribe_stops_twice_example : (subscribe_start ex_startup ex_client).1 =
  Some (Some (ErrJoin (ErrMsg "initial settings deadline exceeded") (ErrMsg "client has been closed"))).
Proof. reflexivity. Qed.
End backendlife.
