(* ===== verification/DriverDial.v ===== *)
(** * transport/rocketmq/internal/driver: from a configuration to a connection

    How the settings of a host reach the connections of the driver: the options of
    connections, connections to one target, clients, producers and simple consumers
    ([conn.go], [conn_options.go], [rpc_client.go], [rpc_client_options.go],
    [client.go], [client_options.go], [producer_options.go],
    [simple_consumer_options.go]), and what the SDK passes
    ([transaction_backend.go], [publisher.go], [subscriber.go]).  Also the metadata
    that signs a call.  [grpc.DialContext], the parser of targets, the generated
    client id and HMAC are parameters; loggers are left out. *)

From S2P Require Import Prelude GoStd Transaction Routing Sender Backend RocketMQ DriverSettings DriverConsumer.

Module dial.

(** ** Options of a connection *)

(** A [tls.Config] by its [InsecureSkipVerify]. *)
Definition TLSConfig : Type := bool.
Record connOptions : Type := mkConn {
  MaxCallSendMsgSize : Z; MaxCallRecvMsgSize : Z; TLS : option TLSConfig; DialOptions : list nat; Context_ : option nat; DialTimeout : Z
}.
Definition second : Z := 1000000000.
Definition MaxInt32 : Z := 2147483647.
Definition defaultConnOptions : connOptions := mkConn (2 * 1024 * 1024) MaxInt32 (Some true) [] None (second * 5).

Definition ConnOption : Type := connOptions → connOptions.
Definition WithTLSConfig (t : option TLSConfig) : ConnOption := λ o,
  mkConn (MaxCallSendMsgSize o) (MaxCallRecvMsgSize o) t (DialOptions o) (Context_ o) (DialTimeout o).
Definition WithDialTimeout (d : Z) : ConnOption := λ o,
  mkConn (MaxCallSendMsgSize o) (MaxCallRecvMsgSize o) (TLS o) (DialOptions o) (Context_ o) d.
Definition WithMaxCallSendMsgSize (n : Z) : ConnOption := λ o,
  if n >? 0 then mkConn n (MaxCallRecvMsgSize o) (TLS o) (DialOptions o) (Context_ o) (DialTimeout o) else o.
Definition WithMaxCallRecvMsgSize (n : Z) : ConnOption := λ o,
  if n >? 0 then mkConn (MaxCallSendMsgSize o) n (TLS o) (DialOptions o) (Context_ o) (DialTimeout o) else o.
Definition WithDialOptions (l : list nat) : ConnOption := λ o,
  mkConn (MaxCallSendMsgSize o) (MaxCallRecvMsgSize o) (TLS o) (DialOptions o ++ l) (Context_ o) (DialTimeout o).
Definition WithContext (c : nat) : ConnOption := λ o,
  mkConn (MaxCallSendMsgSize o) (MaxCallRecvMsgSize o) (TLS o) (DialOptions o) (Some c) (DialTimeout o).

Definition apply_all {O} (opts : list (O → O)) (o : O) : O := fold_left (λ o f, f o) opts o.

(** ** Dialling *)

Inductive DialOption : Type :=
| TransportCredentials (tls : option TLSConfig) | Insecure | Block | UnaryInterceptor | Custom (n : nat) | DefaultRecvLimit (n : Z).
#[global] Instance DialOption_eq_dec : EqDecision DialOption.
Proof. solve_decision. Defined.
Inductive CallOption : Type := CallSendLimit (n : Z) | CallRecvLimit (n : Z).

(** An open connection: what was dialled, with which timeout, and the call options
    it keeps. *)
Record clientConn : Type := mkClientConn { target : string; dialled : list DialOption; timeout : option Z; callOpts : list CallOption }.

Definition ErrNoAvailableEndpoints : error := ErrMsg "rocketmq: no available endpoints".

Section dial.
(** The environment variable at [init], and [grpc.DialContext]. *)
Context (EnableSsl : bool) (DialContext : string → list DialOption → option Z → option error).

(** [credentials.NewTLS] never answers nil. *)
Definition dialSetupOpts (o : connOptions) : list DialOption :=
  (if EnableSsl then [TransportCredentials (TLS o)] else [Insecure]) ++ [Block; UnaryInterceptor].
Definition dial_opts (o : connOptions) : list DialOption :=
  dialSetupOpts o ++ (Custom <$> DialOptions o) ++ (if MaxCallRecvMsgSize o >? 0 then [DefaultRecvLimit (MaxCallRecvMsgSize o)] else []).
Definition dial_timeout (o : connOptions) : option Z := if DialTimeout o >? 0 then Some (DialTimeout o) else None.
Definition call_opts (o : connOptions) : list CallOption :=
  (if MaxCallSendMsgSize o >? 0 then [CallSendLimit (MaxCallSendMsgSize o)] else []) ++
  (if MaxCallRecvMsgSize o >? 0 then [CallRecvLimit (MaxCallRecvMsgSize o)] else []).

Definition NewClientConn (endpoint : string) (opts : list ConnOption) : result clientConn :=
  if len endpoint =? 0 then Err ErrNoAvailableEndpoints
  else
    let o := apply_all opts defaultConnOptions in
    if ((MaxCallSendMsgSize o >? 0) || (MaxCallRecvMsgSize o >? 0)) &&
       ((MaxCallRecvMsgSize o >? 0) && (MaxCallSendMsgSize o >? MaxCallRecvMsgSize o))
    then Err (ErrMsg "gRPC message recv limit must be greater than send limit")
    else match DialContext endpoint (dial_opts o) (dial_timeout o) with
    | Some e => Err e
    | None => Ok (mkClientConn endpoint (dial_opts o) (dial_timeout o) (call_opts o))
    end.

(** ** Connections to one target *)

Definition ClientConnFunc : Type := string → list ConnOption → result clientConn.
Record rpcClientOptions : Type := mkRpcOptions {
  heartbeatDuration : Z; healthCheckDuration : Z; r_timeout : Z; r_clientConnFunc : ClientConnFunc; r_connOptions : list ConnOption
}.
Definition defaultRpcClientOptions : rpcClientOptions := mkRpcOptions (second * 10) (second * 15) (second * 5) NewClientConn [].
Definition RpcClientOption : Type := rpcClientOptions → rpcClientOptions.
Definition WithRpcClientClientConnFunc (f : ClientConnFunc) : RpcClientOption := λ o,
  mkRpcOptions (heartbeatDuration o) (healthCheckDuration o) (r_timeout o) f (r_connOptions o).
Definition WithRpcClientConnOption (l : list ConnOption) : RpcClientOption := λ o,
  mkRpcOptions (heartbeatDuration o) (healthCheckDuration o) (r_timeout o) (r_clientConnFunc o) (r_connOptions o ++ l).
Definition WithHeartbeatDuration (d : Z) : RpcClientOption := λ o,
  mkRpcOptions d (healthCheckDuration o) (r_timeout o) (r_clientConnFunc o) (r_connOptions o).
Definition WithHealthCheckDuration (d : Z) : RpcClientOption := λ o,
  mkRpcOptions (heartbeatDuration o) d (r_timeout o) (r_clientConnFunc o) (r_connOptions o).
Definition WithRpcClientTimeout (d : Z) : RpcClientOption := λ o,
  mkRpcOptions (heartbeatDuration o) (healthCheckDuration o) d (r_clientConnFunc o) (r_connOptions o).

Definition NewRpcClient (t : string) (opts : list RpcClientOption) : result clientConn :=
  let o := apply_all opts defaultRpcClientOptions in
  match r_clientConnFunc o t (r_connOptions o) with
  | Err e => Err (ErrWrap "create grpc conn failed" e)
  | Ok c => Ok c
  end.

(** ** Clients *)

Record clientOptions : Type := mkClientOptions {
  c_timeout : Z; clientConnFunc : ClientConnFunc; c_connOptions : list ConnOption; rpcClientOptions_ : list RpcClientOption
}.
Definition defaultNSOptions : clientOptions := mkClientOptions (1000000 * 3000) NewClientConn [] [].
Definition ClientOption : Type := clientOptions → clientOptions.
Definition WithQueryRouteTimeout (d : Z) : ClientOption := λ o, mkClientOptions d (clientConnFunc o) (c_connOptions o) (rpcClientOptions_ o).
Definition WithClientConnFunc (f : ClientConnFunc) : ClientOption := λ o, mkClientOptions (c_timeout o) f (c_connOptions o) (rpcClientOptions_ o).
Definition WithConnOptions (l : list ConnOption) : ClientOption := λ o, mkClientOptions (c_timeout o) (clientConnFunc o) (c_connOptions o ++ l) (rpcClientOptions_ o).
Definition WithRpcClientOptions (l : list RpcClientOption) : ClientOption := λ o, mkClientOptions (c_timeout o) (clientConnFunc o) (c_connOptions o) (rpcClientOptions_ o ++ l).

(** [Config] with its credentials: key and secret. *)
Record Config : Type := mkConfig { Endpoint : string; NameSpace : string; ConsumerGroup : string; Credentials : option (string * string) }.

(** A new [defaultClient], on and not yet initialised. *)
Record Client : Type := mkClient { config : Config; opts : clientOptions; accessPoint : list string; initTopics : list string }.
Context (ParseTarget : string → result (list string)).
Definition NewClient (c : Config) (os : list ClientOption) : result Client :=
  try endpoints <- ParseTarget (Endpoint c);
  Ok (mkClient c (apply_all os defaultNSOptions) endpoints []).

(** The options of every connection the manager of a client opens. *)
Definition newClientManager (c : Client) : list RpcClientOption :=
  rpcClientOptions_ (opts c) ++ [WithRpcClientConnOption (c_connOptions (opts c)); WithRpcClientClientConnFunc (clientConnFunc (opts c))].
(** [getRpcClient] of the manager dials in the context [ctx] of the call. *)
Definition connect (c : Client) (ctx : nat) (t : string) : result clientConn :=
  NewRpcClient t (newClientManager c ++ [WithRpcClientConnOption [WithContext ctx]]).

Definition SetRequestTimeout (d : Z) (c : Client) : Client :=
  mkClient (config c) (mkClientOptions d (clientConnFunc (opts c)) (c_connOptions (opts c)) (rpcClientOptions_ (opts c))) (accessPoint c) (initTopics c).
Definition with_topics (l : list string) (c : Client) : Client := mkClient (config c) (opts c) (accessPoint c) l.

(** ** Producers and simple consumers *)

Definition NewClientFunc : Type := Config → result Client.
Record producerOptions : Type := mkProducerOptions { p_clientFunc : NewClientFunc; maxAttempts : Z; topics : list string; checker : bool }.
Definition defaultProducerOptions : producerOptions := mkProducerOptions (λ c, NewClient c []) 3 [] false.
Definition ProducerOption : Type := producerOptions → producerOptions.
Definition WithClientFunc (f : NewClientFunc) : ProducerOption := λ o, mkProducerOptions f (maxAttempts o) (topics o) (checker o).
Definition WithMaxAttempts (n : Z) : ProducerOption := λ o, mkProducerOptions (p_clientFunc o) n (topics o) (checker o).
Definition WithTopics (l : list string) : ProducerOption := λ o, mkProducerOptions (p_clientFunc o) (maxAttempts o) l (checker o).
Definition WithTransactionChecker (some : bool) : ProducerOption := λ o, mkProducerOptions (p_clientFunc o) (maxAttempts o) (topics o) some.

(** [NewProducer]: its client and the settings it starts with. *)
Record Producer : Type := mkProducer { p_cli : Client; p_attempts : Z; p_topics : gset string; p_requestTimeout : Z; p_checker : bool }.
Definition NewProducer (c : Config) (os : list ProducerOption) : result Producer :=
  let o := apply_all os defaultProducerOptions in
  try cli <- p_clientFunc o c;
  try _ <- ParseTarget (Endpoint c);
  Ok (mkProducer (with_topics (topics o) cli) (maxAttempts o) (list_to_set (topics o)) (c_timeout (opts cli)) (checker o)).
Definition producer_SetRequestTimeout (d : Z) (p : Producer) : Producer :=
  mkProducer (SetRequestTimeout d (p_cli p)) (p_attempts p) (p_topics p) d (p_checker p).

Record simpleConsumerOptions : Type := mkSimpleOptions {
  s_clientFunc : NewClientFunc; subscriptionExpressions : option (gmap string settings.FilterExpression); awaitDuration : Z; maxReceiveConcurrency : Z
}.
Definition defaultSimpleConsumerOptions : simpleConsumerOptions := mkSimpleOptions (λ c, NewClient c []) None 0 20.
Definition SimpleConsumerOption : Type := simpleConsumerOptions → simpleConsumerOptions.
Definition WithClientFuncForSimpleConsumer (f : NewClientFunc) : SimpleConsumerOption := λ o,
  mkSimpleOptions f (subscriptionExpressions o) (awaitDuration o) (maxReceiveConcurrency o).
Definition WithSimpleSubscriptionExpressions (m : gmap string settings.FilterExpression) : SimpleConsumerOption := λ o,
  mkSimpleOptions (s_clientFunc o) (Some m) (awaitDuration o) (maxReceiveConcurrency o).
Definition WithSimpleAwaitDuration (d : Z) : SimpleConsumerOption := λ o,
  mkSimpleOptions (s_clientFunc o) (subscriptionExpressions o) d (maxReceiveConcurrency o).
Definition WithSimpleReceiveRateLimit (n : Z) : SimpleConsumerOption := λ o,
  mkSimpleOptions (s_clientFunc o) (subscriptionExpressions o) (awaitDuration o) n.

Record SimpleConsumer : Type := mkSimple {
  s_cli : Client; s_group : settings.Resource; s_requestTimeout : Z; longPollingTimeout : Z;
  s_subscriptions : gmap string settings.FilterExpression; s_permits : Z
}.
Definition NewSimpleConsumer (c : Config) (os : list SimpleConsumerOption) : result SimpleConsumer :=
  let o := apply_all os defaultSimpleConsumerOptions in
  if len (ConsumerGroup c) =? 0 then Err (ErrMsg "consumerGroup could not be nil")
  else
    try cli <- s_clientFunc o c;
    let subs := default ∅ (subscriptionExpressions o) in
    try _ <- ParseTarget (Endpoint c);
    Ok (mkSimple (with_topics (map_to_list subs).*1 cli) (settings.mkResource (NameSpace c) (ConsumerGroup c))
          (c_timeout (opts cli)) (awaitDuration o) subs (simpleconsumer.limiter_limit (maxReceiveConcurrency o))).
Definition simple_SetRequestTimeout (d : Z) (s : SimpleConsumer) : SimpleConsumer :=
  mkSimple (SetRequestTimeout d (s_cli s)) (s_group s) d (longPollingTimeout s) (s_subscriptions s) (s_permits s).
End dial.
End dial.

(** ** What the SDK asks of the driver *)

Module sdk.
Import sender backend transaction dial.

Section sdk.
Context (EnableSsl : bool) (DialContext : string → list DialOption → option Z → option error) (ParseTarget : string → result (list string)).
Notation NewClient := (NewClient EnableSsl DialContext ParseTarget).
Notation NewProducer := (NewProducer EnableSsl DialContext ParseTarget).
Notation NewSimpleConsumer := (NewSimpleConsumer EnableSsl DialContext ParseTarget).
Notation connect := (connect EnableSsl DialContext).

(** [driverFactory] of the transactional sender. *)
Definition driverFactory (c : TransactionConfig) : result Producer :=
  let d := RPCTimeout (tc_Limits c) in
  try p <- NewProducer (mkConfig (tc_Endpoint c) "" "" (Some (tc_AccessKey c, tc_SecretKey c)))
    [ WithTopics (PhysicalTopic_ <$> tc_Routes c); WithMaxAttempts 1; WithTransactionChecker true;
      WithClientFunc (λ cfg, NewClient cfg [WithQueryRouteTimeout d; WithConnOptions [WithTLSConfig (tc_TLS c); WithDialTimeout d]]) ];
  Ok (producer_SetRequestTimeout d p).

(** The producer of [Publisher.Start]. *)
Definition publisher_producer (c : backend.Config) (topics : list string) : result Producer :=
  try p <- NewProducer (mkConfig (cf_Endpoint c) "" "" (Some (cf_AccessKey c, cf_SecretKey c)))
    [ WithClientFunc (λ cfg, NewClient cfg [WithQueryRouteTimeout (cf_RequestTimeout c); WithConnOptions [WithTLSConfig (cf_TLS c)]]);
      WithTopics topics; WithMaxAttempts 1 ];
  Ok (producer_SetRequestTimeout (cf_RequestTimeout c) p).

(** The consumer of [Subscriber.Subscribe]: every physical topic of the subscription. *)
Definition subscriber_consumer (c : backend.Config) (group : string) (physical : gset string) : result SimpleConsumer :=
  try s <- NewSimpleConsumer (mkConfig (cf_Endpoint c) "" group (Some (cf_AccessKey c, cf_SecretKey c)))
    [ WithClientFuncForSimpleConsumer (λ cfg, NewClient cfg [WithQueryRouteTimeout (cf_RequestTimeout c); WithConnOptions [WithTLSConfig (cf_TLS c)]]);
      WithSimpleAwaitDuration (5 * second); WithSimpleSubscriptionExpressions (gset_to_gmap settings.SUB_ALL physical) ];
  Ok (simple_SetRequestTimeout (cf_RequestTimeout c) s).

(** ** Correctness *)

(** How a connection protects what it carries: the credentials it dials with. *)
Definition protects (c : clientConn) (tls : option TLSConfig) : Prop :=
  ∃ l, dialled c = TransportCredentials tls :: l ∧ Insecure ∉ l ∧ ∀ t, TransportCredentials t ∉ l.

(** A connection in clear text: no credentials at all. *)
Definition in_clear (c : clientConn) : Prop :=
  ∃ l, dialled c = Insecure :: l ∧ ∀ t, TransportCredentials t ∉ l.

(** What the environment variable leaves of a TLS configuration. *)
Definition carried (c : clientConn) (tls : option TLSConfig) : Prop :=
  if EnableSsl then protects c tls else in_clear c.

Lemma connect_options cli ctx t c :
  clientConnFunc (opts cli) = NewClientConn EnableSsl DialContext → rpcClientOptions_ (opts cli) = [] → connect cli ctx t = Ok c →
  let o := WithContext ctx (apply_all (c_connOptions (opts cli)) defaultConnOptions) in
  dialled c = dial_opts EnableSsl o ∧ timeout c = dial_timeout o ∧ target c = t ∧ t ≠ ""%string.
Proof.
  intros Hf Hr. unfold dial.connect, NewRpcClient, newClientManager. rewrite Hr, Hf. cbn [app apply_all fold_left].
  unfold apply_all at 1. cbn [fold_left WithRpcClientConnOption WithRpcClientClientConnFunc r_clientConnFunc r_connOptions defaultRpcClientOptions app].
  unfold NewClientConn, apply_all. rewrite fold_left_app. cbn [fold_left]. destruct (Z.eqb_spec (len t) 0) as [|Hl]; [done|]. destruct (_ && _); [done|]. destruct (DialContext _ _ _); [done|].
  intros [= <-]. split_and!; try done. by intros ->.
Qed.

Lemma dial_carried o c : dialled c = dial_opts EnableSsl o → carried c (TLS o).
Proof.
  intros Hd. unfold carried, protects, in_clear. rewrite Hd. unfold dial_opts, dialSetupOpts.
  destruct EnableSsl; cbn; eexists; (split; [done|]); [split; [|intros t]|intros t];
    rewrite !elem_of_cons, elem_of_app, list_elem_of_fmap; destruct (_ >? 0); set_solver.
Qed.

Lemma validate_limits c store c' : validateTransactionConfig c store = Ok c' → tc_TLS c' = Some false ∧ RPCTimeout (tc_Limits c') > 0.
Proof.
  unfold validateTransactionConfig. destruct (negb (endpoint_ok _)); [done|]. cbn zeta. destruct (_ || (llen (tc_Routes c) >? 256)) eqn:E; [done|].
  destruct (match tc_TLS c with Some _ => _ | None => _ end); [done|]. intros (?&_&H)%rbind_Ok. destruct (llen (tc_HistoricalRoutes c) >? 256); [done|].
  destruct (routing.NewRouteResolver _ _); [|done]. injection H as <-. split; [done|]. cbn [tc_Limits].
  repeat (apply orb_false_iff in E as [E _]). apply negb_false_iff in E. unfold limits_Valid in E. boolp. lia.
Qed.

(** The client of the SDK with a request timeout and options of connections. *)
Definition sdk_client (d : Z) (l : list ConnOption) (cli : Client) : Prop :=
  opts cli = mkClientOptions d (NewClientConn EnableSsl DialContext) l [].

Lemma sdk_client_made cfg d l cli : NewClient cfg [WithQueryRouteTimeout d; WithConnOptions l] = Ok cli → sdk_client d l cli.
Proof. by intros (?&_&[= <-])%rbind_Ok. Qed.

Lemma producer_made cfg os p :
  NewProducer cfg os = Ok p → let o := apply_all os (defaultProducerOptions EnableSsl DialContext ParseTarget) in
  ∃ cli, p_clientFunc o cfg = Ok cli ∧ p = mkProducer (with_topics (dial.topics o) cli) (maxAttempts o) (list_to_set (dial.topics o)) (c_timeout (opts cli)) (checker o).
Proof. intros (cli&Hc&(?&_&[= <-])%rbind_Ok)%rbind_Ok. eauto. Qed.

Lemma sdk_client_carried d l cli ctx t c :
  sdk_client d l cli → connect cli ctx t = Ok c →
  target c = t ∧ carried c (TLS (apply_all l defaultConnOptions)) ∧ timeout c = dial_timeout (apply_all l defaultConnOptions).
Proof.
  intros Hs Hc. apply connect_options in Hc as (H1&H2&H3&_); [|by rewrite Hs..]. rewrite Hs in H1, H2. cbn in H1, H2.
  split_and!; [done|by eapply (dial_carried (WithContext ctx _))|done].
Qed.

Lemma factory_made c p :
  driverFactory c = Ok p → let d := RPCTimeout (tc_Limits c) in
  sdk_client d [WithTLSConfig (tc_TLS c); WithDialTimeout d] (p_cli p) ∧
  p_attempts p = 1 ∧ p_checker p = true ∧ p_requestTimeout p = d ∧ p_topics p = list_to_set (PhysicalTopic_ <$> tc_Routes c).
Proof.
  intros (q&(cli&Hm&->)%producer_made&[= <-])%rbind_Ok. apply sdk_client_made in Hm. split_and!; try done.
  unfold sdk_client in *. cbn. by rewrite Hm.
Qed.

Lemma publisher_made c topics p :
  publisher_producer c topics = Ok p →
  sdk_client (cf_RequestTimeout c) [WithTLSConfig (cf_TLS c)] (p_cli p) ∧ p_attempts p = 1.
Proof.
  intros (q&(cli&Hm&->)%producer_made&[= <-])%rbind_Ok. apply sdk_client_made in Hm. split; [|done]. unfold sdk_client in *. cbn. by rewrite Hm.
Qed.

Lemma subscriber_made c group physical s :
  subscriber_consumer c group physical = Ok s →
  sdk_client (cf_RequestTimeout c) [WithTLSConfig (cf_TLS c)] (s_cli s) ∧ dom (s_subscriptions s) = physical ∧ group ≠ ""%string.
Proof.
  intros (q&Hq&[= <-])%rbind_Ok. unfold dial.NewSimpleConsumer in Hq. cbn [ConsumerGroup] in Hq. destruct (Z.eqb_spec (len group) 0) as [|Hg]; [done|].
  apply rbind_Ok in Hq as (cli&Hm%sdk_client_made&(?&_&[= <-])%rbind_Ok). unfold sdk_client in *. cbn. rewrite Hm. split_and!; [done|apply dom_gset_to_gmap|by intros ->].
Qed.

(** C34: What a host configures reaches the wire, as far as the environment lets it.
    For an accepted configuration, while the environment variable
    rocketmq.client.enableSsl is true (its default), every connection the
    transactional sender opens, to whatever target a route names, verifies the
    peer's certificate, and publishers and subscribers dial with the TLS
    configuration they validated, never with the driver's insecure default; when
    the variable is anything else, every one of these connections is dialled in
    clear text, without credentials, whatever TLS was validated.  Either way the
    sender dials within [RPCTimeout], which is also the timeout of its requests; a
    half message is attempted once; check-backs are registered; a subscriber
    subscribes to exactly its physical topics. *)
Theorem configuration_reaches_wire tc store c cfg cfg' topics group physical :
  validateTransactionConfig tc store = Ok c → validate cfg = Ok cfg' →
  (∀ p, driverFactory c = Ok p →
     p_attempts p = 1 ∧ p_checker p = true ∧ p_requestTimeout p = RPCTimeout (tc_Limits c) ∧
     p_topics p = list_to_set (PhysicalTopic_ <$> tc_Routes c) ∧
     ∀ ctx t conn, connect (p_cli p) ctx t = Ok conn →
       target conn = t ∧ timeout conn = Some (RPCTimeout (tc_Limits c)) ∧
       if EnableSsl then protects conn (Some false) else in_clear conn) ∧
  (∀ p, publisher_producer cfg' topics = Ok p →
     p_attempts p = 1 ∧ ∀ ctx t conn, connect (p_cli p) ctx t = Ok conn →
       if EnableSsl then protects conn (Some (default false (cf_TLS cfg))) else in_clear conn) ∧
  (∀ s, subscriber_consumer cfg' group physical = Ok s →
     dom (s_subscriptions s) = physical ∧ group ≠ ""%string ∧
     ∀ ctx t conn, connect (s_cli s) ctx t = Ok conn →
       if EnableSsl then protects conn (Some (default false (cf_TLS cfg))) else in_clear conn).
Proof.
  intros (Ht&Hd)%validate_limits Hv. assert (Hc : cf_TLS cfg' = Some (default false (cf_TLS cfg))).
  { unfold validate in Hv. destruct (SplitHostPort _) as [[??]|]; [|done]. destruct (_ || _); [done|]. apply rbind_Ok in Hv as (?&_&[= <-]). done. }
  split_and!.
  - intros p (Hs&?&?&?&?)%factory_made. split_and!; try done. intros ctx t conn Hn.
    destruct (sdk_client_carried _ _ _ _ _ _ Hs Hn) as (?&Hp&Hl). cbn in Hp, Hl. rewrite Ht in Hp. split_and!; [done| |exact Hp].
    rewrite Hl. unfold dial_timeout. cbn. by replace (_ >? 0) with true by lia.
  - intros p (Hs&?)%publisher_made. split; [done|]. intros ctx t conn Hn. destruct (sdk_client_carried _ _ _ _ _ _ Hs Hn) as (_&Hp&_). cbn in Hp. by rewrite Hc in Hp.
  - intros s (Hs&?&?)%subscriber_made. split_and!; [done..|]. intros ctx t conn Hn. destruct (sdk_client_carried _ _ _ _ _ _ Hs Hn) as (_&Hp&_). cbn in Hp. by rewrite Hc in Hp.
Qed.

(** The limit of what may be sent is checked against the limit of what may be
    received and kept, but no connection is dialled with it. *)
Lemma send_limit_unused n o : n > 0 → dial_opts EnableSsl (WithMaxCallSendMsgSize n o) = dial_opts EnableSsl o.
Proof. intros Hn. unfold WithMaxCallSendMsgSize. by replace (n >? 0) with true by lia. Qed.
End sdk.

Definition ex_accepted : TransactionConfig := Eval vm_compute in match validateTransactionConfig ex_config "qs.mysql" with Ok c => c | Err _ => ex_config end.
Definition ex_cfg : backend.Config := mkCfg None "broker:8081" "key" "secret" [routing.ex_active] [] 3000000000 8.
Definition ex_cfg' : backend.Config := Eval vm_compute in match validate ex_cfg with Ok c => c | Err _ => ex_cfg end.
Definition ex_dial (t : string) (l : list DialOption) (d : option Z) : option error := None.
Definition ex_parse (t : string) : result (list string) := Ok [t].
Definition ex_sender : Producer := Eval vm_compute in
  match driverFactory true ex_dial ex_parse ex_accepted with Ok p => p | Err _ => mkProducer (mkClient (mkConfig "" "" "" None) (defaultNSOptions true ex_dial) [] []) 0 ∅ 0 false end.

Definition ex_sender_clear : Producer := Eval vm_compute in
  match driverFactory false ex_dial ex_parse ex_accepted with Ok p => p | Err _ => ex_sender end.

Lemma configuration_reaches_wire_witness :
  (∃ conn, connect true ex_dial (p_cli ex_sender) 0 "broker-a:8081" = Ok conn ∧ protects conn (Some false) ∧ timeout conn = Some 5000000000) ∧
  ∃ conn, connect false ex_dial (p_cli ex_sender_clear) 0 "broker-a:8081" = Ok conn ∧ in_clear conn.
Proof.
  split.
  - destruct (connect true ex_dial (p_cli ex_sender) 0 "broker-a:8081") as [conn|e] eqn:E; [|vm_compute in E; discriminate E].
    exists conn. split; [reflexivity|].
    destruct (configuration_reaches_wire true ex_dial ex_parse ex_config "qs.mysql" ex_accepted ex_cfg ex_cfg' [] "g" ∅
      ltac:(vm_compute; reflexivity) ltac:(vm_compute; reflexivity)) as (H&_&_).
    destruct (H ex_sender ltac:(vm_compute; reflexivity)) as (_&_&_&_&Hc). destruct (Hc _ _ _ E) as (_&Ht&Hp). split; [exact Hp|exact Ht].
  - destruct (connect false ex_dial (p_cli ex_sender_clear) 0 "broker-a:8081") as [conn|e] eqn:E; [|vm_compute in E; discriminate E].
    exists conn. split; [reflexivity|].
    destruct (configuration_reaches_wire false ex_dial ex_parse ex_config "qs.mysql" ex_accepted ex_cfg ex_cfg' [] "g" ∅
      ltac:(vm_compute; reflexivity) ltac:(vm_compute; reflexivity)) as (H&_&_).
    destruct (H ex_sender_clear ltac:(vm_compute; reflexivity)) as (_&_&_&_&Hc). exact (proj2 (proj2 (Hc _ _ _ E))).
Defined.
End sdk.
