(* ===== verification/DriverCalls.v ===== *)
(** * transport/rocketmq/internal/driver: building messages, recalling, signing

    [message.go]: how a host builds a message ([builder]).  [producer.go]: recalling
    a message, sending in a goroutine and the delay of a throttled retry;
    [client.go]: the metadata that signs a call; [simple_consumer.go]: the requests
    of a simple consumer ([calls]).  The clock's text, the random id of a request,
    HMAC, the conversion of a float to uint32 and the answers of brokers are
    parameters. *)

From S2P Require Import Prelude GoStd Driver DriverProducer DriverConsumer DriverSettings DriverPush.

Module builder.
Import publishing.

(** ** Setters *)

Definition SetTag (t : string) (m : Message) : Message :=
  mkMessage (Topic m) (Body m) (Some t) (messageGroup m) (keys m) (properties m) (LiteTopic m) (deliveryTimestamp m) (priority m).
Definition SetKeys (l : list string) (m : Message) : Message :=
  mkMessage (Topic m) (Body m) (Tag m) (messageGroup m) l (properties m) (LiteTopic m) (deliveryTimestamp m) (priority m).
Definition SetLiteTopic (t : string) (m : Message) : Message :=
  mkMessage (Topic m) (Body m) (Tag m) (messageGroup m) (keys m) (properties m) (Some t) (deliveryTimestamp m) (priority m).
Definition AddProperty (k v : string) (m : Message) : Message :=
  mkMessage (Topic m) (Body m) (Tag m) (messageGroup m) (keys m) (<[k := v]> (properties m)) (LiteTopic m) (deliveryTimestamp m) (priority m).
Definition SetDelayTimestamp (t : Z) (m : Message) : Message :=
  mkMessage (Topic m) (Body m) (Tag m) (messageGroup m) (keys m) (properties m) (LiteTopic m) (Some t) (priority m).
Definition SetMessageGroup (g : string) (m : Message) : Message :=
  mkMessage (Topic m) (Body m) (Tag m) (Some g) (keys m) (properties m) (LiteTopic m) (deliveryTimestamp m) (priority m).

(** What a host does to a new message; a refused [SetPriority] changes nothing. *)
Inductive Setter : Type :=
| STag (t : string) | SKeys (l : list string) | SLite (t : string) | SProperty (k v : string) | SDelay (t : Z) | SGroup (g : string) | SPriority (p : Z).
Definition apply (s : Setter) (m : Message) : Message :=
  match s with
  | STag t => SetTag t m | SKeys l => SetKeys l m | SLite t => SetLiteTopic t m | SProperty k v => AddProperty k v m
  | SDelay t => SetDelayTimestamp t m | SGroup g => SetMessageGroup g m
  | SPriority p => match SetPriority p m with Ok m => m | Err _ => m end
  end.
Definition build (topic : string) (body : bytes) (l : list Setter) : Message :=
  fold_left (λ m s, apply s m) l (mkMessage topic body None None [] ∅ None None None).

(** [GetMessageCommon] and [GetMessage], without what tracing adds. *)
Definition GetMessageCommon (m : Message) : string * bytes * option string * option string * option Z * option Z * list string * gmap string string :=
  (Topic m, Body m, Tag m, messageGroup m, deliveryTimestamp m, priority m, keys m, properties m).
Record UnifiedMessage : Type := mkUnified { u_msg : option Message; pubMsg : option PublishingMessage }.
Definition GetMessage (u : UnifiedMessage) : option Message := match pubMsg u with Some p => Some (msg p) | None => u_msg u end.

(** The priority a message ends with is not negative; a message whose priority was
    set last carries no group, delivery time or lite topic. *)
Lemma build_priority topic body l p : priority (build topic body l) = Some p → 0 <= p.
Proof.
  unfold build. set (m0 := mkMessage _ _ _ _ _ _ _ _ _). assert (H0 : ∀ q, priority m0 = Some q → 0 <= q) by done.
  revert H0. generalize m0. clear m0. induction l as [|s l IH]; cbn; intros m Hm; [apply Hm|]. apply IH. destruct s; cbn; try exact Hm.
  unfold SetPriority. repeat case_goal; boolp; cbn; try exact Hm. by intros q [= <-].
Qed.
Lemma priority_alone topic body l p m :
  SetPriority p (build topic body l) = Ok m → messageGroup m = None ∧ deliveryTimestamp m = None ∧ LiteTopic m = None ∧ priority m = Some p.
Proof.
  unfold SetPriority, is_nil. generalize (build topic body l). intros n H. destruct (p <? 0); [done|].
  destruct (messageGroup n) eqn:?; [done|]. destruct (deliveryTimestamp n) eqn:?; [done|]. destruct (LiteTopic n) eqn:?; [done|]. cbn in H. by simplify_eq/=.
Qed.

(** The exclusion of priority and group, time and lite topic depends on the order of
    the calls: in the other order both are set, and the message is sent with both,
    as a FIFO message. *)
Theorem priority_then_group topic body p g ns limit now c :
  0 <= p → len body <= limit →
  SetPriority p (build topic body [SGroup g]) = Err (ErrMsg "priority and messageGroup should not be set at same time") ∧
  ∃ pm, (NewPublishingMessage (build topic body [SPriority p; SGroup g]) ns limit now false c).1 = Ok pm ∧
    messageType pm = FIFO ∧ w_group (toProtobuf pm) = Some g ∧ w_priority (toProtobuf pm) = Some p.
Proof.
  intros Hp Hl. assert (Hb : build topic body [SPriority p; SGroup g] = mkMessage topic body None (Some g) [] ∅ None None (Some p)).
  { unfold build. cbn. unfold SetPriority. cbn. by replace (p <? 0) with false by lia. }
  split; [unfold SetPriority; by replace (p <? 0) with false by lia|]. rewrite Hb. unfold NewPublishingMessage. cbn [Body].
  replace (len body >? limit) with false by lia. destruct (messageid.NextMessageId now c). cbn. by eexists.
Qed.
Lemma priority_then_group_witness :
  ∃ pm, (NewPublishingMessage (build "orders" "body" [SPriority 1; SGroup "g"]) "" 100 0 false (messageid.init "macadd" "" 4711 1700000000)).1 = Ok pm ∧
    w_group (toProtobuf pm) = Some "g"%string ∧ w_priority (toProtobuf pm) = Some 1.
Proof.
  destruct (priority_then_group "orders" "body" 1 "g" "" 100 0 (messageid.init "macadd" "" 4711 1700000000) ltac:(lia) ltac:(vm_compute; discriminate)) as (_&pm&H&_&Hg&Hp).
  exists pm. split; [exact H|]. split; [exact Hg|exact Hp].
Defined.
End builder.

Module calls.
Import balancer producer settings.

(** ** Recalling *)

Record RecallMessageRequest : Type := mkRecall { r_topic : Resource; recallHandle : string }.

(** [Recall]: the endpoints it asks with the request, and the answer; [route] is what
    [getMessageQueues] answers for the topic. *)
Definition recall_endpoints (topic : string) (topics : gset string) (route : result (list MessageQueue)) : list string :=
  if bool_decide (topic ∈ topics) then match route with Ok (q :: _) => q_addresses q | _ => [] end else [].
Definition Recall (p : Producer) (route : string → result (list MessageQueue)) (rpc : list string → RecallMessageRequest → result (Z * string))
    (topic handle : string) : result string * list (list string * RecallMessageRequest) :=
  if negb (on p) then (Err (ErrMsg "producer is not running"), [])
  else if handle == ""%string then (Err (ErrMsg "recall handle is invalid"), [])
  else
    let endpoints := recall_endpoints topic (topics p) (route topic) in
    let request := mkRecall (mkResource (namespace p) topic) handle in
    (match rpc endpoints request with
     | Err e => Err e
     | Ok (code, id) => if code =? Code_OK then Ok id else Err (ErrDriver code)
     end, [(endpoints, request)]).

(** A recall that succeeds made one call, which answered OK: to the broker of the
    first queue of a topic the producer knows, and to no address at all for any
    other topic. *)
Lemma recall_calls p route rpc topic handle id evs :
  Recall p route rpc topic handle = (Ok id, evs) →
  on p = true ∧ handle ≠ ""%string ∧ ∃ eps, evs = [(eps, mkRecall (mkResource (namespace p) topic) handle)] ∧
    rpc eps (mkRecall (mkResource (namespace p) topic) handle) = Ok (Code_OK, id) ∧
    (topic ∉ topics p → eps = []) ∧ ∀ q qs, topic ∈ topics p → route topic = Ok (q :: qs) → eps = q_addresses q.
Proof.
  unfold Recall. destruct (on p); [|done]. cbn. case_bool_decide as Hh; [done|]. destruct (rpc _ _) as [[code i]|] eqn:E; [|done].
  destruct (Z.eqb_spec code Code_OK) as [->|]; [|done]. intros [= -> <-]. split_and!; [done..|]. eexists. split_and!; [done|exact E| |]; unfold recall_endpoints.
  - intros Ht. by rewrite bool_decide_eq_false_2.
  - intros q qs Ht Hr. by rewrite bool_decide_eq_true_2, Hr.
Qed.

(** ** Sending in a goroutine *)

Section async.
Context (Mod : Z → nat → nat) (Mod64 : Z → nat → nat) (siphash : string → Z).
Context (world : nat → Rpc → Reply) (clock : nat → Z) (getMessageQueues : nat → string → result (list MessageQueue)).

(** [SendAsync]: what its callback is given. *)
Definition SendAsync (m : publishing.Message) (l : log) (p : Producer) : result (list Receipt) * Producer * log :=
  if negb (on p) then (Err (ErrMsg "producer is not running"), p, l)
  else match new_message clock m false l p with
       | (Err e, p) => (Err e, p, l)
       | (Ok pm, p) => send0 Mod Mod64 siphash world getMessageQueues pm l p
       end.

(** The callback is given what [Send] would have returned. *)
Lemma SendAsync_Send m l p : SendAsync m l p = Send Mod Mod64 siphash world clock getMessageQueues m l p.
Proof. reflexivity. Qed.
End async.

(** ** The delay of a throttled retry *)

Section delay.
(** The backoff in nanoseconds as a float64, cut to an integer, and its conversion to
    uint32, which Go defines only for values that fit. *)
Context (backoff : Z → Z) (to_uint32 : Z → Z).
Context (to_uint32_range : ∀ x, 0 <= to_uint32 x < 2 ^ 32) (to_uint32_fits : ∀ x, 0 <= x < 2 ^ 32 → to_uint32 x = x).

Definition getNextAttemptDelay (attempt : Z) : Z :=
  if attempt <=? 0 then 0
  else let delayNanos := to_uint32 (backoff attempt) in if delayNanos <=? 0 then 0 else delayNanos.

(** Whatever backoff the broker sets, a throttled producer waits less than 4.3
    seconds; only a backoff below that is waited as it is. *)
Lemma delay_bounded attempt :
  0 <= getNextAttemptDelay attempt < 2 ^ 32 ∧
  (0 < attempt → 0 <= backoff attempt < 2 ^ 32 → getNextAttemptDelay attempt = backoff attempt).
Proof using to_uint32_range to_uint32_fits.
  unfold getNextAttemptDelay. pose proof (to_uint32_range (backoff attempt)). split; [repeat case_goal; boolp; lia|].
  intros Ha Hb. replace (attempt <=? 0) with false by lia. rewrite to_uint32_fits by done. case_goal; boolp; lia.
Qed.
End delay.

(** ** Signing *)

Section sign.
(** Texts of the metadata package of the client, and HMAC-SHA1 in hexadecimal. *)
Context (Language Protocol RequestID Version ClientIDKey NameSpaceKey DateTime Authorization : string)
  (LanguageValue ProtocolValue VersionValue : string) (EncryptHeader Credential Rocketmq SignedHeaders Signature : string)
  (hmac_hex : string → string → string).

Definition authorization (accessKey accessSecret now : string) : string :=
  EncryptHeader +:+ " " +:+ Credential +:+ "=" +:+ accessKey +:+ "/" +:+ "" +:+ "/" +:+ Rocketmq +:+ ", " +:+ SignedHeaders +:+ "=" +:+ DateTime +:+
  ", " +:+ Signature +:+ "=" +:+ hmac_hex accessSecret now.

(** [Sign]: what is appended to the metadata of a call. *)
Definition Sign (clientID ns : string) (credentials : option (string * string)) (uuid now : string) (md : list (string * string)) : list (string * string) :=
  md ++ [(Language, LanguageValue); (Protocol, ProtocolValue); (RequestID, uuid); (Version, VersionValue); (ClientIDKey, clientID);
         (NameSpaceKey, ns); (DateTime, now)] ++
  match credentials with None => [] | Some (key, secret) => [(Authorization, authorization key secret now)] end.
End sign.

(** ** Requests of a simple consumer *)

Record ReceiveMessageRequest : Type := mkReceive {
  q_group : Resource; q_queue : MessageQueue; q_expression : string; q_type : FilterType; q_batch : Z; q_invisible : Z; q_autoRenew : bool
}.
Definition wrapReceiveMessageRequest (group ns : string) (batchSize : Z) (q : MessageQueue) (fe : FilterExpression) (invisible : Z) : ReceiveMessageRequest :=
  mkReceive (mkResource ns group) q (expression fe) (filter_type (expressionType fe)) (messageid.wrap32 batchSize) invisible false.
Definition wrapAckMessageRequest (group : Resource) (ns : string) (v : simpleconsumer.MessageView) : push.AckMessageRequest :=
  push.mkAck group (mkResource ns (simpleconsumer.v_topic v)) (simpleconsumer.v_id v) (simpleconsumer.ReceiptHandle v) None.
End calls.
