(* ===== verification/FaultProxy.v ===== *)
(** * transport/rocketmq/internal/faultproxy: a relay that loses commits on purpose

    The loopback relay of the acceptance runs: frames of the MySQL and MongoDB
    protocols ([packets.go]), the counters that choose the call to disturb
    ([main.go]) and the relayed calls of RocketMQ ([rpc.go]).  An octet is a number
    below 256.  Parameters: the BSON library (validation and lookup), the session
    key, the normal form of a command's text and the answers of the other side.
    Sockets, flags and the output of events are not modelled. *)

From Stdlib Require Import ZifyBool.
From S2P Require Import Prelude.

Module faultproxy.

Definition octets : Type := list Z.

(** ** Numbers on the wire *)

(** [binary.LittleEndian.Uint32] at the start of a slice, and [int32] of it. *)
Definition le32 (b : octets) : Z :=
  match b with b0 :: b1 :: b2 :: b3 :: _ => b0 + 2 ^ 8 * b1 + 2 ^ 16 * b2 + 2 ^ 24 * b3 | _ => 0 end.
Definition int32 (z : Z) : Z := (z + 2 ^ 31) mod 2 ^ 32 - 2 ^ 31.
Definition put32 (z : Z) : octets := [z mod 2 ^ 8; z / 2 ^ 8 mod 2 ^ 8; z / 2 ^ 16 mod 2 ^ 8; z / 2 ^ 24 mod 2 ^ 8].

(** ** Frames *)

Inductive Kind : Type := MySQL | Mongo | RocketMQ.
#[global] Instance Kind_eq_dec : EqDecision Kind.
Proof. solve_decision. Defined.

Definition maxFrame : Z := 2 ^ 24.

(** The length that follows a header, of which MySQL gives three octets. *)
Definition body_length (kind : Kind) (head : octets) : Z :=
  match kind with
  | MySQL => match head with h0 :: h1 :: h2 :: _ => Z.lor (Z.lor h0 (Z.shiftl h1 8)) (Z.shiftl h2 16) | _ => 0 end
  | _ => int32 (le32 head) - 4
  end.

(** [readFrame] on what the connection still delivers. *)
Definition readFrame (kind : Kind) (input : octets) : result (octets * octets) :=
  if (length input <? 4)%nat then Err (ErrMsg "unexpected EOF")
  else
    let head := take 4 input in
    let n := body_length kind head in
    if (n <? 0) || (n >? maxFrame) then Err (ErrMsg "invalid bounded frame")
    else if llen (drop 4 input) <? n then Err (ErrMsg "unexpected EOF")
    else Ok (head ++ take (Z.to_nat n) (drop 4 input), drop (4 + Z.to_nat n) input).

(** [writeFrame]: [accept] says how many of the octets left the writer takes. *)
Fixpoint writeFrame (fuel : nat) (accept : octets → result nat) (raw : octets) : option error * octets :=
  match raw, fuel with
  | [], _ => (None, [])
  | _, O => (Some (ErrMsg "fuel"), [])
  | _, S fuel =>
    match accept raw with
    | Err e => (Some e, [])
    | Ok O => (Some (ErrMsg "short write"), [])
    | Ok n => let '(e, written) := writeFrame fuel accept (drop n raw) in (e, take n raw ++ written)
    end
  end.

(** ** The injector *)

Inductive Boundary : Type := Unarmed | Before | After | Hold.
#[global] Instance Boundary_eq_dec : EqDecision Boundary.
Proof. solve_decision. Defined.
Record injector : Type := mkInjector {
  kind : Kind; boundary : Boundary; method : string; nth : Z; seen : Z; dropped : Z; acks : Z; sessions : gset string
}.
Definition with_counts (s d a : Z) (f : injector) : injector := mkInjector (kind f) (boundary f) (method f) (nth f) s d a (sessions f).
Definition with_session (k : string) (f : injector) : injector :=
  mkInjector (kind f) (boundary f) (method f) (nth f) (seen f) (dropped f) (acks f) ({[k]} ∪ sessions f).

(** The control line that arms the relay. *)
Definition arm (b : Boundary) (m : string) (n : Z) (f : injector) : result injector :=
  if negb (bool_decide (b = Before)) && negb (bool_decide (b = After)) &&
     (negb (bool_decide (b = Hold)) || negb (bool_decide (kind f = RocketMQ)) || (m != "SendMessage"%string))
  then Err (ErrMsg "invalid boundary")
  else if (n <? 1) || (n >? 16) then Err (ErrMsg "invalid bounded ordinal")
  else Ok (mkInjector (kind f) b m n 0 0 0 ∅).

(** [target]: whether this call is the one to disturb. *)
Definition target (m : string) (f : injector) : Boundary * injector :=
  if bool_decide (boundary f = Unarmed) || ((method f != ""%string) && (method f != m)) then (Unarmed, f)
  else
    let f := with_counts (seen f + 1) (dropped f) (acks f) f in
    (if seen f =? nth f then boundary f else Unarmed, f).
Definition injected (ack : bool) (f : injector) : injector :=
  with_counts (seen f) (dropped f + 1) (if ack then acks f + 1 else acks f) f.

(** ** One connection *)

Record packetPeer : Type := mkPeer { business : bool; pending : option string }.

Section relay.
(** [strings.ToLower] of the words of a command joined by one space. *)
Context (command_text : octets → string).

Definition commits_execution (command : string) : bool := String.prefix "update rm_tx_execution set state='committed'" command.
(** [strings.TrimSuffix] with a semicolon, compared with a word. *)
Definition is_word (w command : string) : bool := (command == w) || (command == (w +:+ ";")).

(** [mysqlClient]: the error drops the connection. *)
Definition mysqlClient (frame : octets) (p : packetPeer) (f : injector) : option error * packetPeer * injector :=
  match drop 4 frame with
  | c :: text =>
    if negb (c =? 3) && negb (c =? 22) then (None, p, f)
    else
      let command := command_text text in
      let b := if commits_execution command then true else business p in
      let b := if is_word "rollback" command then false else b in
      if negb (is_word "commit" command) || negb b then (None, mkPeer b (pending p), f)
      else
        let '(at_, f) := target "commit" f in
        match at_ with
        | Before => (Some (ErrMsg "owned fixture connection dropped"), mkPeer false (pending p), injected false f)
        | After => (None, mkPeer false (Some "commit"%string), f)
        | _ => (None, mkPeer false (pending p), f)
        end
  | [] => (None, p, f)
  end.

(** *** OP_MSG *)

(** The BSON library: validation, and the fields the relay looks up. *)
Context (Validate : octets → bool).

(** The documents of a section. *)
Fixpoint documents (fuel : nat) (wanted : bool) (d : octets) : option (list octets) :=
  match fuel with
  | O => None
  | S fuel =>
    if (length d <? 5)%nat then Some []
    else
      let size := int32 (le32 d) in
      if (size <? 5) || (size >? llen d) then None
      else
        let doc := take (Z.to_nat size) d in
        if negb (Validate doc) then None
        else (λ l, if wanted then doc :: l else l) <$> documents fuel wanted (drop (Z.to_nat size) d)
  end.

(** [bytes.IndexByte] of zero splits a section into its name and its documents. *)
Fixpoint cut_zero (b : octets) : option (octets * octets) :=
  match b with
  | [] => None
  | x :: b => if x =? 0 then Some ([], b) else (λ p, (x :: p.1, p.2)) <$> cut_zero b
  end.

(** "updates" *)
Definition updates_name : octets := [117; 112; 100; 97; 116; 101; 115].

Fixpoint parse_sections (fuel : nat) (rest : octets) (main : option octets) (updates : list octets) : option (option octets * list octets) :=
  match rest, fuel with
  | [], _ => Some (main, updates)
  | _, O => None
  | k :: rest, S fuel =>
    if (length rest <? 4)%nat then None
    else
      let n := int32 (le32 rest) in
      if (n <? 5) || (n >? llen rest) then None
      else
        let here := take (Z.to_nat n) rest in
        let next := drop (Z.to_nat n) rest in
        if k =? 0 then (if Validate here then parse_sections fuel next (Some here) updates else None)
        else if negb (k =? 1) then None
        else match cut_zero (drop 4 here) with
        | None => None
        | Some (name, docs) =>
          match documents (S (length docs)) (bool_decide (name = updates_name)) docs with
          | None => None
          | Some l => parse_sections fuel next main (updates ++ l)
          end
        end
  end.

(** [mongoMessage]: the main document and the updates; a frame that is no bounded
    OP_MSG has neither. *)
Definition mongoMessage (frame : octets) : option octets * list octets :=
  if (length frame <? 21)%nat || negb (le32 (drop 12 frame) =? 2013) then (None, [])
  else
    let sum := negb (Z.land (le32 (drop 16 frame)) 1 =? 0) in
    if sum && (length frame <? 25)%nat then (None, [])
    else
      let frame := if sum then take (length frame - 4) frame else frame in
      default (None, []) (parse_sections (length frame) (drop 20 frame) None []).

(** The fields of a document that [mongoClient] and [mongoOK] look at. *)
Context (session : octets → option string) (collection : octets → string) (array_updates : octets → result (list octets))
  (sets_committed : octets → bool) (commits : octets → bool) (mongoOK : octets → bool).

Definition note_updates (key : string) (us : list octets) (f : injector) : injector :=
  fold_left (λ f u, if sets_committed u && negb (bool_decide (boundary f = Unarmed)) && (Z.of_nat (size (sessions f)) <? 64)
                    then with_session key f else f) us f.

Definition mongoClient (frame : octets) (p : packetPeer) (f : injector) : option error * packetPeer * injector :=
  let '(main, updates) := mongoMessage frame in
  match main with
  | None => (None, p, f)
  | Some doc =>
    match session doc with
    | None => (None, p, f)
    | Some key =>
      match (if collection doc == "rm_tx_execution"%string then array_updates doc else Ok []) with
      | Err e => (Some e, p, f)
      | Ok more =>
        let f := if collection doc == "rm_tx_execution"%string then note_updates key (updates ++ more) f else f in
        if negb (commits doc) then (None, p, f)
        else if negb (bool_decide (key ∈ sessions f)) then (None, p, f)
        else
          let f := with_counts (seen f + 1) (dropped f) (acks f) f in
          match boundary f with
          | Before => (Some (ErrMsg "owned fixture connection dropped"), p, injected false f)
          | After => (None, mkPeer (business p) (Some key), f)
          | _ => (None, p, f)
          end
      end
    end
  end.

(** *** The two directions *)

(** One round of [pipeClient]: what is forwarded, or the error that ends it. *)
Definition pipeClient (frame : octets) (p : packetPeer) (f : injector) : option octets * packetPeer * injector :=
  let '(e, p, f) := if kind f == MySQL then mysqlClient frame p f else mongoClient frame p f in
  (match e with Some _ => None | None => Some frame end, p, f).

Definition success (kind : Kind) (frame : octets) : bool :=
  match kind with
  | MySQL => match drop 4 frame with 0 :: _ => true | _ => false end
  | Mongo => match (mongoMessage frame).1 with Some doc => mongoOK doc | None => false end
  | RocketMQ => false
  end.
(** One round of [pipeServer]. *)
Definition pipeServer (frame : octets) (p : packetPeer) (f : injector) : option octets * packetPeer * injector :=
  match pending p with
  | Some _ => if success (kind f) frame then (None, mkPeer (business p) None, injected true f) else (Some frame, mkPeer (business p) None, f)
  | None => (Some frame, p, f)
  end.
End relay.

(** ** Relayed calls *)

(** [SendMessage] and [EndTransaction]: whether the call reached the broker, whether
    the caller sees its answer, and the counters; the broker's answer is OK or not. *)
Definition relay_call (m : string) (hold : bool) (connected ok : bool) (f : injector) : bool * bool * injector :=
  let '(at_, f) := target m f in
  match at_ with
  | Before => (false, false, if connected then injected false f else f)
  | Hold => if hold && ok then (true, false, injected true f) else (true, true, f)
  | After => if ok then (true, negb connected, if connected then injected true f else f) else (true, true, f)
  | Unarmed => (true, true, f)
  end.
Definition SendMessage := relay_call "SendMessage" true.
Definition EndTransaction := relay_call "EndTransaction" false.

(** ** Correctness of frames *)

Lemma le32_put32 z rest : 0 <= z < 2 ^ 32 → le32 (put32 z ++ rest) = z.
Proof. intros Hz. unfold put32. cbn [app le32]. pose proof (Z.div_mod z (2 ^ 8)). pose proof (Z.div_mod (z / 2 ^ 8) (2 ^ 8)). pose proof (Z.div_mod (z / 2 ^ 16) (2 ^ 8)).
  rewrite !Z.div_div in * by lia. change (2 ^ 8 * 2 ^ 8) with (2 ^ 16) in *. change (2 ^ 16 * 2 ^ 8) with (2 ^ 24) in *.
  rewrite (Z.mod_small (z / 2 ^ 24) (2 ^ 8)); [lia|]. split; [apply Z.div_pos; lia|]. apply Z.div_lt_upper_bound; lia.
Qed.
Lemma int32_small z : 0 <= z < 2 ^ 31 → int32 z = z.
Proof. intros Hz. unfold int32. rewrite Z.mod_small; lia. Qed.

(** A frame says its own length. *)
Definition wf_frame (k : Kind) (frame : octets) : Prop :=
  (4 <= length frame)%nat ∧ body_length k (take 4 frame) = llen frame - 4 ∧ llen frame - 4 <= maxFrame.

(** A writer that takes at least one octet each time. *)
Definition progresses (accept : octets → result nat) : Prop := ∀ raw, raw ≠ [] → ∃ n, accept raw = Ok (S n).

Lemma writeFrame_all accept fuel raw : progresses accept → (length raw <= fuel)%nat → writeFrame fuel accept raw = (None, raw).
Proof.
  intros Ha. revert raw. induction fuel as [|fuel IH]; intros [|x raw] Hl; cbn in Hl; [done|lia|done|].
  destruct (Ha (x :: raw) ltac:(done)) as (n&En). cbn [writeFrame]. rewrite En. rewrite IH by (cbn; rewrite length_drop; lia). by rewrite take_drop.
Qed.

Lemma readFrame_ok k input frame rest :
  readFrame k input = Ok (frame, rest) ↔ input = frame ++ rest ∧ wf_frame k frame.
Proof.
  unfold readFrame, wf_frame, llen. split.
  - destruct (Nat.ltb_spec (length input) 4); [done|]. destruct (_ || _) eqn:E; [done|]. boolp. destruct (_ <? _) eqn:E2; [done|]. boolp.
    intros [= <- <-]. rewrite length_drop in E2. split.
    + rewrite <- app_assoc. etransitivity; [symmetry; apply (take_drop 4)|]. f_equal. etransitivity; [symmetry; apply (take_drop (Z.to_nat (body_length k (take 4 input))))|]. f_equal. apply drop_drop.
    + rewrite take_app_le by (rewrite length_take; lia). rewrite take_take, Nat.min_id, length_app, !length_take, length_drop. lia.
  - intros (->&Hl&Hb&Hm). rewrite length_app. destruct (Nat.ltb_spec (length frame + length rest) 4); [lia|].
    rewrite take_app_le by done. rewrite Hb, length_drop, length_app.
    destruct (Z.ltb_spec (Z.of_nat (length frame) - 4) 0); [lia|]. rewrite Z.gtb_ltb. destruct (Z.ltb_spec maxFrame (Z.of_nat (length frame) - 4)); [lia|]. cbn [orb].
    destruct (Z.ltb_spec (Z.of_nat (length frame + length rest - 4)) (Z.of_nat (length frame) - 4)); [lia|]. f_equal. f_equal.
    + rewrite drop_app_le by done. rewrite take_app_le by (rewrite length_drop; lia). rewrite (take_ge (drop 4 frame)) by (rewrite length_drop; lia). apply take_drop.
    + change (drop (4 + Z.to_nat (Z.of_nat (length frame) - 4)) (frame ++ rest) = rest). apply drop_app_length'. lia.
Qed.

(** The relay hands frames on octet by octet.  A frame is read from a connection
    exactly when the octets begin with a frame that states its own length, within
    the bound; what is read, together with what is left, is what was received; and
    a writer that takes octets in portions of any size is given exactly the frame. *)
Theorem frames_relayed k input frame rest accept :
  (readFrame k input = Ok (frame, rest) ↔ input = frame ++ rest ∧ wf_frame k frame) ∧
  (progresses accept → (writeFrame (length frame) accept frame) = (None, frame)) ∧
  (readFrame k input = Ok (frame, rest) → llen frame <= maxFrame + 4).
Proof.
  split_and!; [apply readFrame_ok|intros Ha; by apply writeFrame_all|]. intros (_&_&_&H)%readFrame_ok. lia.
Qed.
Lemma frames_relayed_witness : readFrame MySQL ([2; 0; 0; 1] ++ [3; 65] ++ [9]) = Ok ([2; 0; 0; 1; 3; 65], [9]).
Proof.
  apply (frames_relayed MySQL _ _ _ (λ _, Ok 1%nat)). split; [reflexivity|]. unfold wf_frame. vm_compute. intuition discriminate || lia.
Defined.

(** ** Correctness of OP_MSG *)

Section opmsg.
Context (Validate : octets → bool).

Definition wf_doc (d : octets) : Prop := 5 <= llen d < 2 ^ 31 ∧ le32 d = llen d ∧ Validate d = true.

(** A message as a driver writes it: twelve octets of header, the operation, flags,
    the main document, a sequence of updates, and a checksum when bit 0 says so. *)
Definition update_section (docs : list octets) : octets :=
  match docs with
  | [] => []
  | _ => 1 :: put32 (12 + llen (concat docs)) ++ updates_name ++ [0] ++ concat docs
  end.
Definition op_msg (header : octets) (flags : Z) (main : octets) (docs : list octets) (sum : octets) : octets :=
  header ++ put32 2013 ++ put32 flags ++ (0 :: main) ++ update_section docs ++ sum.

Lemma le32_app d rest : (4 <= length d)%nat → le32 (d ++ rest) = le32 d.
Proof. destruct d as [|? [|? [|? [|]]]]; cbn; by try lia. Qed.

Lemma documents_all docs fuel :
  Forall wf_doc docs → (length (concat docs) < fuel)%nat → documents Validate fuel true (concat docs) = Some docs.
Proof.
  intros Hd. revert fuel. induction Hd as [|d docs (Hl&Hn&Hv) _ IH]; intros [|fuel] Hf; cbn in Hf; [lia|done|lia|]. unfold llen in *.
  cbn [concat documents]. rewrite length_app in *. destruct (Nat.ltb_spec (length d + length (concat docs)) 5); [lia|].
  rewrite le32_app, Hn, int32_small by lia. unfold llen. rewrite length_app.
  replace ((Z.of_nat (length d) <? 5) || (Z.of_nat (length d) >? Z.of_nat (length d + length (concat docs)))) with false by lia.
  rewrite Nat2Z.id, take_app_length, drop_app_length, Hv. cbn. rewrite IH by lia. done.
Qed.

Lemma cut_zero_name docs : cut_zero (updates_name ++ [0] ++ docs) = Some (updates_name, docs).
Proof. reflexivity. Qed.

Lemma parse_main fuel main rest :
  wf_doc main → parse_sections Validate (S fuel) ((0 :: main) ++ rest) None [] = parse_sections Validate fuel rest (Some main) [].
Proof.
  intros (Hl&Hn&Hv). unfold llen in *. cbn [app parse_sections]. rewrite length_app. destruct (Nat.ltb_spec (length main + length rest) 4); [lia|].
  rewrite le32_app, Hn, int32_small by lia. unfold llen. rewrite length_app.
  replace ((Z.of_nat (length main) <? 5) || (Z.of_nat (length main) >? Z.of_nat (length main + length rest))) with false by lia.
  rewrite Nat2Z.id, take_app_length, drop_app_length, Hv. done.
Qed.

Lemma parse_sequence fuel b main us ds l :
  int32 (le32 b) = llen b → 5 <= llen b → cut_zero (drop 4 b) = Some (updates_name, ds) →
  documents Validate (S (length ds)) true ds = Some l → parse_sections Validate (S fuel) (1 :: b) main us = Some (main, us ++ l).
Proof.
  intros Hn Hl Hc Hd. cbn [parse_sections]. unfold llen in *. destruct (Nat.ltb_spec (length b) 4); [lia|]. rewrite Hn.
  replace ((Z.of_nat (length b) <? 5) || (Z.of_nat (length b) >? Z.of_nat (length b))) with false by lia.
  rewrite Nat2Z.id, firstn_all, drop_all. cbn [Z.eqb negb]. rewrite Hc, bool_decide_eq_true_2, Hd by done. by destruct fuel.
Qed.

Lemma parse_updates fuel main docs :
  Forall wf_doc docs → 12 + llen (concat docs) < 2 ^ 31 → (0 < fuel)%nat →
  parse_sections Validate fuel (update_section docs) (Some main) [] = Some (Some main, docs).
Proof.
  intros Hd Hl Hf. destruct docs as [|d docs]; [by destruct fuel|]. destruct fuel as [|fuel]; [lia|].
  apply (parse_sequence _ _ _ [] (concat (d :: docs))); [|rewrite !length_app || unfold llen; cbn; lia|reflexivity|by apply documents_all; [|lia]].
  unfold llen in *. rewrite le32_put32, int32_small by lia. rewrite !length_app. cbn. lia.
Qed.

(** Reading what a driver writes.  For every OP_MSG message of valid documents, with
    a sequence of updates or without and with or without a checksum, the relay
    recovers the main document and all updates in their order. *)
Theorem mongo_roundtrip header flags main docs sum :
  length header = 12%nat → 0 <= flags < 2 ^ 32 → wf_doc main → Forall wf_doc docs → 12 + llen (concat docs) < 2 ^ 31 →
  (if Z.odd flags then length sum = 4%nat else sum = []) →
  mongoMessage Validate (op_msg header flags main docs sum) = (Some main, docs).
Proof.
  intros Hh Hf Hm Hd Hl Hs. unfold mongoMessage. set (frame := op_msg header flags main docs sum).
  assert (Hlen : (26 <= length frame)%nat ∧ (Z.odd flags = true → 30 <= length frame)%nat).
  { unfold frame, op_msg. destruct Hm as ((?&?)&_). unfold llen in *. rewrite !length_app. cbn [length put32]. destruct (Z.odd flags); lia. }
  assert (H12 : drop 12 frame = put32 2013 ++ put32 flags ++ (0 :: main) ++ update_section docs ++ sum) by (unfold frame, op_msg; apply drop_app_length'; lia).
  assert (H16 : drop 16 frame = put32 flags ++ (0 :: main) ++ update_section docs ++ sum).
  { change 16%nat with (12 + 4)%nat. rewrite <- drop_drop, H12. done. }
  rewrite H12, H16, !le32_put32 by lia. destruct (Nat.ltb_spec (length frame) 21); [lia|]. cbn [orb negb Z.eqb].
  change (Z.land flags 1) with (Z.land flags (Z.ones 1)). rewrite Z.land_ones by lia. change (2 ^ 1) with 2. rewrite <- Z.bit0_mod, Z.bit0_odd.
  assert (H20 : ∀ l, drop 20 (header ++ put32 2013 ++ put32 flags ++ l) = l).
  { intros l. change 20%nat with (12 + 8)%nat. rewrite <- drop_drop, drop_app_length' by lia. done. }
  set (body := header ++ put32 2013 ++ put32 flags ++ (0 :: main) ++ update_section docs).
  assert (Hb : frame = body ++ sum) by (unfold frame, op_msg, body; by rewrite <- !app_assoc).
  assert (Hp : default (None, []) (parse_sections Validate (length body) (drop 20 body) None []) = (Some main, docs)).
  { unfold body at 2. rewrite H20. assert (25 <= length body)%nat by (rewrite Hb, length_app in Hlen; destruct (Z.odd flags); subst; cbn in *; lia).
    destruct (length body) as [|n]; [lia|]. rewrite parse_main by done. by rewrite parse_updates by (done || lia). }
  destruct (Z.odd flags); cbn [Z.b2z Z.eqb negb andb].
  - destruct (Nat.ltb_spec (length frame) 25); [lia|]. rewrite Hb, length_app, Hs. replace (length body + 4 - 4)%nat with (length body) by lia.
    by rewrite take_app_length.
  - subst sum. by rewrite Hb, app_nil_r.
Qed.
End opmsg.

Definition ex_doc (x : Z) : octets := [6; 0; 0; 0; x; 0].
Lemma mongo_roundtrip_witness :
  mongoMessage (λ _, true) (op_msg (replicate 12 7) 1 (ex_doc 1) [ex_doc 2; ex_doc 3] [1; 2; 3; 4]) = (Some (ex_doc 1), [ex_doc 2; ex_doc 3]).
Proof.
  apply (mongo_roundtrip (λ _, true)); try reflexivity; [lia| |].
  - unfold wf_doc, llen. cbn. lia.
  - repeat constructor; unfold llen; cbn; lia.
Defined.

(** ** One fault *)

(** The connections of a MySQL relay, [None] once dropped, with what each side was
    handed. *)
Record Relay : Type := mkRelay { inj : injector; peers : list (option packetPeer); to_server : list octets; to_client : list octets }.

Section once.
Context (command_text : octets → string) (mongoOK : octets → bool) (Validate : octets → bool).
Context (session : octets → option string) (collection : octets → string) (array_updates : octets → result (list octets))
  (sets_committed commits : octets → bool).

Inductive Label : Type := LClient (i : nat) (frame : octets) | LServer (i : nat) (frame : octets).
Definition run (l : Label) (r : Relay) : option Relay :=
  match l with
  | LClient i frame =>
    match peers r !! i with
    | Some (Some p) =>
      let '(out, p, f) := pipeClient command_text Validate session collection array_updates sets_committed commits frame p (inj r) in
      Some (match out with
            | Some x => mkRelay f (<[i := Some p]> (peers r)) (to_server r ++ [x]) (to_client r)
            | None => mkRelay f (<[i := None]> (peers r)) (to_server r) (to_client r)
            end)
    | _ => None
    end
  | LServer i frame =>
    match peers r !! i with
    | Some (Some p) =>
      let '(out, p, f) := pipeServer Validate mongoOK frame p (inj r) in
      Some (match out with
            | Some x => mkRelay f (<[i := Some p]> (peers r)) (to_server r) (to_client r ++ [x])
            | None => mkRelay f (<[i := None]> (peers r)) (to_server r) (to_client r)
            end)
    | _ => None
    end
  end.
Definition step (r r' : Relay) : Prop := ∃ l, run l r = Some r'.

(** Connections whose next answer is to be lost, and those that are gone. *)
Fixpoint sum (g : option packetPeer → Z) (l : list (option packetPeer)) : Z := match l with [] => 0 | x :: l => g x + sum g l end.
Definition waits (o : option packetPeer) : Z := match o with Some (mkPeer _ (Some _)) => 1 | _ => 0 end.
Definition gone (o : option packetPeer) : Z := match o with None => 1 | _ => 0 end.

Lemma sum_insert g l i x y : l !! i = Some x → sum g (<[i := y]> l) = sum g l - g x + g y.
Proof. revert i. induction l as [|z l IH]; intros [|i] H; simplify_eq/=; [lia|]. rewrite (IH i H). lia. Qed.
Lemma sum_nonneg g l : (∀ o, 0 <= g o) → 0 <= sum g l.
Proof. intros Hg. induction l as [|x l IH]; cbn; [lia|]. pose proof (Hg x). lia. Qed.

Record inv (r : Relay) : Prop := mkInv {
  i_kind : kind (inj r) = MySQL;
  i_one : dropped (inj r) + sum waits (peers r) <= if seen (inj r) <? nth (inj r) then 0 else 1;
  i_dropped : 0 <= dropped (inj r);
  i_acks : 0 <= acks (inj r) <= dropped (inj r);
  i_before : boundary (inj r) ≠ After → sum waits (peers r) = 0 ∧ acks (inj r) = 0;
  i_after : boundary (inj r) = After → acks (inj r) = dropped (inj r);
  i_gone : sum gone (peers r) = dropped (inj r)
}.

(** What [mysqlClient] does to the counters. *)
Lemma mysqlClient_cases frame p f e p' f' :
  mysqlClient command_text frame p f = (e, p', f') →
  kind f' = kind f ∧ boundary f' = boundary f ∧ nth f' = nth f ∧ acks f' = acks f ∧
  ((e = None ∧ dropped f' = dropped f ∧ pending p' = pending p ∧ (seen f' = seen f ∨ seen f' = seen f + 1)) ∨
   (seen f' = seen f + 1 ∧ seen f' = nth f ∧
    ((boundary f = Before ∧ is_Some e ∧ dropped f' = dropped f + 1 ∧ pending p' = pending p) ∨
     (boundary f = After ∧ e = None ∧ dropped f' = dropped f ∧ is_Some (pending p'))))).
Proof.
  unfold mysqlClient. destruct (drop 4 frame) as [|c text]; [intros [= <- <- <-]; naive_solver|].
  destruct (_ && _); [intros [= <- <- <-]; naive_solver|]. destruct (_ || _); [intros [= <- <- <-]; naive_solver|].
  unfold target. destruct (_ || _) eqn:E; [intros [= <- <- <-]; naive_solver|]. cbn [seen with_counts nth boundary].
  destruct (Z.eqb_spec (seen f + 1) (nth f)); [|intros [= <- <- <-]; cbn; naive_solver].
  destruct (boundary f) eqn:Eb; intros [= <- <- <-]; cbn; rewrite ?Eb; naive_solver.
Qed.

Lemma waits_peer p : waits (Some p) = match pending p with Some _ => 1 | None => 0 end.
Proof. by destruct p as [b [k|]]. Qed.

Lemma waits_within i p l : l !! i = Some (Some p) → 0 <= waits (Some p) <= sum waits l.
Proof.
  intros Hp. assert (Hw : ∀ o, 0 <= waits o) by (by intros [[? []]|]). split; [apply Hw|].
  pose proof (sum_insert waits _ _ _ None Hp) as Hi. pose proof (sum_nonneg waits (<[i:=None]> l) Hw). change (waits None) with 0 in Hi. lia.
Qed.

Ltac counters Hp := split; cbn [inj peers to_server to_client]; rewrite ?(sum_insert _ _ _ _ _ Hp), ?waits_peer; cbn [gone waits injected with_counts kind boundary nth seen dropped acks].

Lemma inv_client i frame p r r' :
  inv r → peers r !! i = Some (Some p) → run (LClient i frame) r = Some r' → inv r'.
Proof.
  intros [K O D A B F G] Hp. cbn [run]. rewrite Hp. unfold pipeClient. rewrite (bool_decide_eq_true_2 (kind (inj r) = MySQL)) by done.
  destruct (mysqlClient command_text frame p (inj r)) as [[e p'] f'] eqn:E. pose proof (waits_within _ _ _ Hp) as Hw. rewrite waits_peer in Hw.
  apply mysqlClient_cases in E as (E1&E2&E3&E4&Hc).
  destruct Hc as [(->&Ed&Ep&Es)|(Es&En&[(Eb&[e' ->]&Ed&Ep)|(Eb&->&Ed&[k Ek])])]; intros [= <-]; counters Hp;
    rewrite ?Ep, ?Ek, ?E1, ?E2, ?E3, ?E4, ?Ed; try done; try lia.
  all: try (intros Hb; try congruence; destruct (B Hb)).
  all: destruct (Z.ltb_spec (seen (inj r)) (nth (inj r))), (pending p); try destruct (Z.ltb_spec (seen f') (nth (inj r))); lia.
Qed.

Lemma inv_server i frame p r r' :
  inv r → peers r !! i = Some (Some p) → run (LServer i frame) r = Some r' → inv r'.
Proof.
  intros [K O D A B F G] Hp. cbn [run]. rewrite Hp. unfold pipeServer. pose proof (waits_within _ _ _ Hp) as Hw. rewrite waits_peer in Hw.
  destruct (pending p) as [k|] eqn:Ek.
  - assert (Hb : boundary (inj r) = After) by (destruct (decide (boundary (inj r) = After)) as [|Hb]; [done|destruct (B Hb); lia]).
    destruct (success Validate mongoOK _ frame); intros [= <-]; counters Hp; rewrite ?Ek; cbn [pending]; try done; try lia; try (by rewrite Hb); specialize (F Hb); lia.
  - intros [= <-]. counters Hp; rewrite ?Ek; try done; try lia. intros Hb. destruct (B Hb). lia.
Qed.

(** One arming, one fault.  From an armed MySQL relay with fresh connections, however
    the frames of all connections interleave, at most one connection is ever dropped.
    Armed before the commit, the server never sees that commit and acknowledges
    nothing that is lost; armed after it, the connection is dropped exactly on the
    server's success, which the client does not see. *)
Theorem fault_once f0 b m n f ps r :
  kind f0 = MySQL → arm b m n f0 = Ok f → Forall (λ o, o = Some (mkPeer false None)) ps →
  rtc step (mkRelay f ps [] []) r →
  0 <= dropped (inj r) <= 1 ∧ sum gone (peers r) = dropped (inj r) ∧
  (boundary (inj r) ≠ After → acks (inj r) = 0) ∧ (boundary (inj r) = After → acks (inj r) = dropped (inj r)) ∧
  (dropped (inj r) = 1 → nth (inj r) <= seen (inj r)).
Proof.
  intros Hk Ha Hps Hr. assert (Hi : inv r).
  { refine (rtc_invariant step inv _ _ _ Hr _).
    - intros x y Hx [l Hl]. destruct l as [i frame|i frame]; cbn [run] in Hl; destruct (peers x !! i) as [[p|]|] eqn:E; try done.
      + eapply (inv_client i frame); [done|exact E|]. cbn [run]. by rewrite E.
      + eapply (inv_server i frame); [done|exact E|]. cbn [run]. by rewrite E.
    - unfold arm in Ha. destruct (_ && _); [done|]. destruct (_ || _) eqn:E; [done|]. injection Ha as <-.
      assert (Hz : sum waits ps = 0 ∧ sum gone ps = 0) by (clear Hr; induction Hps as [|o ps -> _ [IH1 IH2]]; cbn; lia).
      destruct Hz as [Hw Hg]. split; cbn [inj peers kind dropped acks boundary seen nth]; rewrite ?Hw, ?Hg; try done; try lia. destruct (0 <? n); lia. }
  destruct Hi as [K O D A B F G]. pose proof (sum_nonneg waits (peers r) ltac:(by intros [[? []]|])).
  destruct (Z.ltb_spec (seen (inj r)) (nth (inj r))); split_and!; try done; try lia; intros Hb; by destruct (B Hb).
Qed.
End once.

(** Two connections commit; the first one's answer is lost. *)
Definition ex_text (t : octets) : string :=
  match t with [1] => "update rm_tx_execution set state='committed' where id=1" | [2] => "commit;" | _ => "select 1" end.
Definition ex_run := run ex_text (λ _, true) (λ _, true) (λ _, None) (λ _, ""%string) (λ _, Ok []) (λ _, false) (λ _, false).
Fixpoint ex_steps (ls : list Label) (r : Relay) : option Relay :=
  match ls with [] => Some r | l :: ls => match ex_run l r with Some r => ex_steps ls r | None => None end end.
Definition ex_armed : injector := mkInjector MySQL After "" 1 0 0 0 ∅.
Definition ex_start : Relay := mkRelay ex_armed [Some (mkPeer false None); Some (mkPeer false None)] [] [].
Definition ex_frame (x : Z) : octets := [2; 0; 0; 0; 3; x].
Definition ex_ok : octets := [1; 0; 0; 1; 0].
Definition ex_labels : list Label :=
  [ LClient 0 (ex_frame 1); LServer 0 ex_ok; LClient 1 (ex_frame 1); LClient 0 (ex_frame 2); LClient 1 (ex_frame 2); LServer 1 ex_ok; LServer 0 ex_ok ].
Definition ex_end : Relay := Eval vm_compute in default ex_start (ex_steps ex_labels ex_start).
Lemma ex_steps_reach ls r r' :
  ex_steps ls r = Some r' → rtc (step ex_text (λ _, true) (λ _, true) (λ _, None) (λ _, ""%string) (λ _, Ok []) (λ _, false) (λ _, false)) r r'.
Proof.
  revert r. induction ls as [|l ls IH]; cbn; intros r; [by intros [= ->]|]. destruct (ex_run l r) as [r1|] eqn:E; [|done].
  intros H. eapply rtc_l; [by exists l|auto].
Qed.
Lemma fault_once_witness : dropped (inj ex_end) = 1 ∧ acks (inj ex_end) = dropped (inj ex_end) ∧ length (to_client ex_end) = 2%nat.
Proof.
  split; [reflexivity|]. split; [|reflexivity].
  apply (fault_once ex_text (λ _, true) (λ _, true) (λ _, None) (λ _, ""%string) (λ _, Ok []) (λ _, false) (λ _, false)
    (mkInjector MySQL Unarmed "" 0 0 0 0 ∅) After "" 1 ex_armed [Some (mkPeer false None); Some (mkPeer false None)] ex_end); try reflexivity.
  - repeat constructor.
  - apply (ex_steps_reach ex_labels). vm_compute. reflexivity.
Defined.
End faultproxy.
